(* ===== verification/_CoqProject ===== *)
-Q . S2P
Prelude.v
JsString.v
JsNumber.v
JsNumText.v
JsValue.v
JsJson.v
JsRegex.v
JsJsonRound.v
JsObject.v
RequestRule.v
RequestRuleThms.v
RequestRuleRound.v
TieredPricing.v
TieredPricingThms.v
TieredPricingEdits.v
StatusCodes.v
Sidebar.v
PricingModel.v
PricingEditor.v
PricingThms.v
Colors.v
DashboardFlow.v
DashboardFlowThms.v
Notifications.v
NotificationsThms.v
Payments.v
PaymentsThms.v
ParamOverride.v
ParamOverrideRound.v
ParamOverrideDrafts.v
ParamOverrideEditor.v
ParamOverrideThms.v
ParamOverrideForms.v
ParamOverrideCards.v
AccessPolicy.v
AccessPolicyThms.v
AccessMatrix.v
AccessMatrixThms.v
SystemSetting.v
AccessMigration.v
SystemSettingThms.v
Think.v
ThinkThms.v
Playground.v
PlaygroundPage.v
PlaygroundThms.v
PlaygroundStore.v
PlaygroundSync.v
PlaygroundPanel.v
PlaygroundRuns.v
Channels.v
ChannelTests.v
ChannelsThms.v
ChannelTestsThms.v
ChannelTags.v
ChannelActions.v
ChannelRuns.v
Marketplace.v
MarketplaceThms.v
