(* ===== verification/Prelude.v ===== *)
(** * StuHelper AI, classic web client: a verification development

    StuHelper AI is a gateway to language models with billing.  This library
    models the decision logic of its web client, under web/classic/src/: the
    parts that compute what is charged, what is saved, who sees what and what is
    shown, as opposed to the parts that fetch and render.

    ** The program's parts

    - Billing rules.  A billing expression multiplies a base price by the factors
      of request rules.  requestRuleExpr.js prints and parses the rules, and
      splits a stored expression into base and rules; TieredPricingEditor.jsx
      edits the base as a list of tiers and switches between a visual and a raw
      editor; useModelPricingEditorState.js edits the ratios and prices of all
      models and saves them.
    - Payments.  The helpers of components/topup decide what an order allows,
      what a recharge or a plan costs, and how a plan can be paid.
    - Parameter overrides.  ParamOverrideEditorModal.jsx edits the operations that
      a channel applies to a request, as cards with conditions and forms or as
      JSON text, validates them and saves them as JSON.
    - Status codes.  statusCodeRules.js parses sets of status codes, and
      statusCodeRiskGuard.js finds the risky redirects of a channel.
    - Visibility.  useSidebar.js combines the administrator's and the user's
      settings into the menu; useUserPermissions.js answers queries about it.
    - Access.  utils.jsx decides from the server's status whether a page is shown
      to a viewer, and why not; SystemSetting.jsx loads the access rules in all
      their formats into one matrix of sources, resources and roles, edits it and
      saves it, next to the other options of the system; the server turns what
      was saved into the next status.
    - Dashboard.  dashboardFlow.js turns usage rows into the nodes and links of a
      flow diagram, with the colours of render.jsx.
    - Notices.  useNotifications.js keeps the read marks of notices and
      announcements in local storage and queues what is unread.
    - Playground.  The hooks of hooks/playground keep a conversation with a model:
      replies arrive as events of a stream or as one response, thoughts are cut
      out of the text, messages are edited, repeated and deleted, and the
      conversation is stored, exported, and kept in step with a request body the
      user writes.
    - Channels.  useChannelsData.jsx loads, searches and groups the channels of
      the gateway while requests overlap, changes them, and tests their models one
      by one or in batches.
    - Marketplace.  useModelPricingData.jsx lists the models with their prices,
      which utils.jsx computes, and usePricingFilterCounts.js with the filter
      components counts what each value of a filter would list (beside a group its
      ratio is shown).

    ** The files

    The language, used by every component:
    - Prelude: notations, automation, lists, ordered maps, stable sorting;
    - JsString: strings as lists of UTF-16 code units, with the methods of
      [String.prototype] in use;
    - JsNumber: doubles as exact rationals with round-to-nearest-even, proved
      monotone, exact on doubles and within half a unit in the last place;
    - JsNumText: numbers to and from text; JsValue: dynamic values, coercions,
      property access, exceptions; JsJson: printing and parsing JSON;
    - JsRegex: backtracking matching, and the combinators ([eats], [refuses])
      with which the round trips reason about a pattern piece by piece;
    - JsJsonRound: a value that JSON can hold is read back from its text, printed
      compactly or indented;
    - JsObject: the order of an object's properties, and what [JSON.parse] builds.

    The components, each as a model and its theorems:
    - RequestRule, RequestRuleThms, RequestRuleRound:
      pages/Setting/Ratio/components/requestRuleExpr.js;
    - TieredPricing, TieredPricingThms, TieredPricingEdits:
      pages/Setting/Ratio/components/TieredPricingEditor.jsx and
      constants/billing.constants.js;
    - PricingModel, PricingEditor, PricingThms:
      pages/Setting/Ratio/hooks/useModelPricingEditorState.js;
    - Payments, PaymentsThms: components/topup (topupHistoryUtils.mjs,
      rechargeAmountDisplay.js, subscriptionPaymentDisplay.js,
      subscriptionPaymentMethods.js);
    - ParamOverride, ParamOverrideDrafts, ParamOverrideEditor:
      components/table/channels/modals/ParamOverrideEditorModal.jsx (the
      operations and their JSON; the forms for a value; the actions of a user),
      with ParamOverrideRound (saving and opening), ParamOverrideThms (the
      invariant, validation, templates), ParamOverrideForms (the forms) and
      ParamOverrideCards (the refinement of a list of cards by position);
    - StatusCodes: helpers/statusCodeRules.js and
      components/table/channels/modals/statusCodeRiskGuard.js;
    - Sidebar (with Module Permissions): hooks/common/useSidebar.js and
      hooks/common/useUserPermissions.js;
    - AccessPolicy, AccessPolicyThms: the access checks of helpers/utils.jsx;
    - AccessMatrix, AccessMatrixThms: the rule tables of
      components/settings/SystemSetting.jsx and helpers/boolean.js;
    - SystemSetting, SystemSettingThms: the state and handlers of
      components/settings/SystemSetting.jsx, with the loaded values and the inputs
      as references into a store, because loading makes them one object;
    - AccessMigration: the server's access settings (setting/access_setting,
      middleware/access_control.go, controller/misc.go, setting/config) and the
      composition page, server, policy;
    - Colors: [modelToColor] of helpers/render.jsx;
    - DashboardFlow, DashboardFlowThms: helpers/dashboardFlow.js;
    - Notifications, NotificationsThms: hooks/common/useNotifications.js;
    - Think, ThinkThms: the thoughts in a reply, helpers/utils.jsx and
      components/playground/MessageContent.jsx;
    - Playground, PlaygroundPage: messages with identity, the listeners of
      hooks/playground/useApiRequest.jsx, the actions of useMessageActions.jsx and
      useMessageEdit.jsx, usePlaygroundState.js and configStorage.js, with
      PlaygroundThms (replies), PlaygroundStore (storage and actions),
      PlaygroundSync (useSyncMessageAndCustomBody.js), PlaygroundPanel (preview,
      body editor, models and groups, export and import) and PlaygroundRuns
      (concrete runs);
    - Channels, ChannelTests, ChannelActions: hooks/channels/useChannelsData.jsx
      (the list and its requests; tests of models; other operations and columns)
      and upstreamUpdateUtils.js, with ChannelsThms (requests), ChannelTags (rows
      of tags), ChannelTestsThms (batches) and ChannelRuns (concrete runs);
    - Marketplace, MarketplaceThms: hooks/model-pricing, the filters of
      components/table/model-pricing, the prices of helpers/utils.jsx and
      helpers/performanceMetrics.js.

    Functions of the source keep their names.  The state of a hook is a record,
    a handler is a function from state to state (or to an exception, [exc], when
    a call in it can throw), an effect of React is a function applied where React
    applies it, and what the browser or another package does is an argument.  A
    function that awaits is split there: what it remembers is a value of the
    state, and its response is an event that may come in any order.  Where handlers
    write into objects they share, the objects are in a store and the state holds
    references.

    ** What the theorems show

    The conditions of each theorem are in the comment before it.  The predicates that state
    what a text or a server can carry ([group_ok], [config_ok], [in_range], [op_ok],
    [taggable], [documented], [listed]) say which inputs are left out and point to the theorem
    that shows what happens to those.

    - Round trips: rule groups through their expression, base and rules through
      their combination, tiers through theirs, the switch of editors, integer
      ratios through load and save, sets of status codes through their text,
      operations through their JSON, the forms of a value through its text, the
      list of e-mail domains through its option, a conversation through storage and
      through export and import, the columns of a table through storage.
    - Invariants by induction on what a user can do: the pricing editor keeps its
      model names distinct and its selection and checks on existing models; the
      visual tier editor keeps an unconditional fallback and at most two
      conditions per tier; the override editor keeps its identifiers distinct and
      its selection on a card.  By induction on events: a reply changes the last
      message only, and no message once it is settled; a batch of tests asks for each
      model once and in order, five at a time, with counts that add up.
    - Order of responses: the rows of the channel table are those of the latest
      request, however the responses arrive.
    - Money: saving sends nothing or the tables of all models; serialization fails
      exactly for a dependent price without a base; two pages charge the same amount,
      rounding in doubles included; within bounds a discount never raises a price and a
      fee never lowers it; the price of a model is that of its cheapest group.
    - Refinement: the handlers of the override cards, which go by identifiers,
      implement a list that is changed by position; the edits of the access matrix
      implement a set of blocked cells, which is what the server then holds.
    - Migration: the matrix built from the older rule formats blocks exactly what
      they block, and with the web policy on saving it keeps the restrictions of every
      page that belongs to a resource.
    - Agreement of two views: users and administrators see the same refunds of money,
      menus agree with module queries, a filter of rows with a filter of nodes, the
      count beside a vendor, a kind of billing, a tag or an endpoint with the models
      listed when it is chosen.
    - Safety: a module is visible exactly when every layer allows it, masked
      labels never leave the diagram, risky redirects are all reported, the reason
      a page is withheld for is a rule of docs/access-control.md, of the first layer
      that has one, secrets are not blanked by the cards that guard them.
    - Text: the thoughts cut out of a reply are those of one pass over its tags, on
      every text when it ends, and on texts where each [<] starts a tag while it
      streams and when it is stopped.
    - Grouping: in tag mode every channel is in the row of its tag, and in no other.
    - Termination and liveness: closing prompts drains the queue of unread notices;
      a message that is sent ends in a complete reply; the two effects between
      conversation and body come to rest; a batch of tests always waits for an
      event, and each one it waits for brings it nearer its end.
    - Faults: where the code loses information the theorem says which inputs lose
      it (guarded rules, rules with a disjunction sign in a text, ratios of expression-billed models, dependent prices of a
      zero base, single tiers with malformed numbers, tiers without conditions,
      override values that look like JSON, the rules of the pruning form, options
      changed back after saving, endpoints read before an edit, secrets that are
      saved without a value, identifiers that repeat after a reload, replies that
      are not stored, a conversation cleared while it streams, a table that loads
      forever after a search, rows that come back from another page, tags with the
      name of an inherited property, groups lost in another's name, a page left
      empty by a deletion, a refresh that asks for an event, prices of a group that
      was reset, prices read back from text that a symbol or rounding has changed) or
      departs from the document (rules applied with the web policy off, and rules that
      start to apply when the settings are saved).

    ** Fuel and bounds

    Recursion that is not structural takes fuel that its callers compute from the
    length of the text ([re_find_all], [re_split], [unwrap_loop], the JSON parser,
    digits of a number); each has a lemma that this fuel is enough or a round trip
    that would fail otherwise.  Price theorems are stated up to 41943 (four million
    cents): beyond 262144 rounding twice differs from rounding once, which
    [large_price_drift] shows.  Batches and streams are sequences of events of any
    length; [work] is the measure of a batch.

    ** Not modelled

    React rendering and scheduling, HTTP and browser storage failures, dates and
    locale formatting (arguments of the models that use them), translations, the
    cost estimator that compiles an expression with [new Function], and the Go
    server but for its access settings.  The forms of
    channels, users and tokens, the top-up page and the tables besides that of the
    channels are requests and rendering around helpers that are modelled here.
    JavaScript objects have no prototype chain in the model, but for the table of
    tags in Channels, where inherited names matter: elsewhere no key is a name of
    [Object.prototype].

    ** Plan

    What could follow: the remaining pure helpers (quota, log details), the usage
    logs and the form of a channel. *)

From stdpp Require Export base list gmap strings.
From Stdlib Require Export ZArith Lia Sorted.

#[global] Open Scope Z_scope.

(** ** Automation *)

Create HintDb js.
Create HintDb jsrw.

(** Split conjunctions and boolean conjunctions in the context. *)
Ltac bool_simp :=
  repeat match goal with
  | H : _ && _ = true |- _ => apply andb_true_iff in H; destruct H
  | H : _ || _ = false |- _ => apply orb_false_iff in H; destruct H
  | H : negb _ = true |- _ => apply negb_true_iff in H
  | H : negb _ = false |- _ => apply negb_false_iff in H
  | H : bool_decide _ = true |- _ => apply bool_decide_eq_true in H
  | H : bool_decide _ = false |- _ => apply bool_decide_eq_false in H
  | H : Z.eqb _ _ = true |- _ => apply Z.eqb_eq in H
  | H : Z.eqb _ _ = false |- _ => apply Z.eqb_neq in H
  | H : Z.leb _ _ = true |- _ => apply Z.leb_le in H
  | H : Z.leb _ _ = false |- _ => apply Z.leb_gt in H
  | H : Z.ltb _ _ = true |- _ => apply Z.ltb_lt in H
  | H : Z.ltb _ _ = false |- _ => apply Z.ltb_ge in H
  end.

(** Case analysis on the scrutinee of a [match] or an [if] of the goal. *)
Ltac case_goal :=
  match goal with
  | |- context [match ?x with _ => _ end] =>
      lazymatch x with context [match _ with _ => _ end] => fail | _ => destruct x eqn:? end
  end.

(** ** Lists: membership *)

Lemma elem_of_concat_fmap {A B} (f : A -> list B) (x : B) (l : list A) :
  x ∈ concat (f <$> l) <-> exists y, y ∈ l /\ x ∈ f y.
Proof.
  induction l as [|a l IH]; csimpl; [set_solver|]. rewrite elem_of_app, IH. set_solver.
Qed.

Lemma elem_of_lfilter {A} (p : A -> bool) (x : A) (l : list A) :
  x ∈ List.filter p l <-> x ∈ l /\ p x = true.
Proof. by rewrite !list_elem_of_In, filter_In. Qed.

Lemma lfilter_id {A} (p : A -> bool) l : Forall (fun x => p x = true) l -> List.filter p l = l.
Proof. induction 1 as [|x l Hx _ IH]; [done|]. cbn [List.filter]. by rewrite Hx, IH. Qed.

(** ** Lists: the longest prefix that satisfies a test *)

Section Span.
Context {A : Type} (p : A -> bool).

Fixpoint span (l : list A) : list A * list A :=
  match l with
  | [] => ([], [])
  | x :: l' => if p x then (x :: (span l').1, (span l').2) else ([], l)
  end.

Definition takeWhile (l : list A) : list A := (span l).1.
Definition dropWhile (l : list A) : list A := (span l).2.

Lemma span_app l : takeWhile l ++ dropWhile l = l.
Proof.
  unfold takeWhile, dropWhile.
  induction l as [|x l IH]; simpl; [done|]. destruct (p x); simpl; congruence.
Qed.

Lemma takeWhile_all l : forallb p (takeWhile l) = true.
Proof.
  unfold takeWhile. induction l as [|x l IH]; simpl; [done|].
  destruct (p x) eqn:E; simpl; [by rewrite E, IH | done].
Qed.

Lemma dropWhile_head x l l' : dropWhile l = x :: l' -> p x = false.
Proof.
  unfold dropWhile. revert l'.
  induction l as [|y l IH]; simpl; intros l' H; [done|].
  destruct (p y) eqn:E; simpl in H; [by eapply IH | by simplify_eq].
Qed.

Lemma span_prefix w l :
  forallb p w = true ->
  match l with [] => True | x :: _ => p x = false end ->
  span (w ++ l) = (w, l).
Proof.
  induction w as [|x w IH]; simpl; intros Hw Hl.
  - destruct l as [|y l]; simpl; [done | by rewrite Hl].
  - bool_simp. by rewrite H, IH.
Qed.

Lemma dropWhile_none l :
  match l with [] => True | x :: _ => p x = false end -> dropWhile l = l.
Proof.
  intros H. unfold dropWhile. change l with ([] ++ l) at 1.
  by rewrite span_prefix.
Qed.
End Span.

(** ** Removal of duplicates, keeping the first occurrence
    ([Array.from(new Set(xs))]). *)

Section Uniq.
Context {A : Type} `{EqDecision A}.

Fixpoint uniq_from (seen l : list A) : list A :=
  match l with
  | [] => []
  | x :: l' =>
      if bool_decide (x ∈ seen) then uniq_from seen l'
      else x :: uniq_from (x :: seen) l'
  end.

Definition uniq (l : list A) : list A := uniq_from [] l.

Lemma elem_of_uniq_from x seen l :
  x ∈ uniq_from seen l <-> x ∈ l /\ x ∉ seen.
Proof.
  revert seen. induction l as [|y l IH]; intros seen; simpl; [set_solver|].
  case_bool_decide as Hy.
  - rewrite IH. set_solver.
  - rewrite elem_of_cons, IH. destruct (decide (x = y)); set_solver.
Qed.

Lemma elem_of_uniq x l : x ∈ uniq l <-> x ∈ l.
Proof. unfold uniq. rewrite elem_of_uniq_from. set_solver. Qed.

Lemma NoDup_uniq_from seen l : NoDup (uniq_from seen l).
Proof.
  revert seen. induction l as [|y l IH]; intros seen; simpl; [constructor|].
  case_bool_decide; [done|]. constructor; [|done].
  rewrite elem_of_uniq_from. set_solver.
Qed.

Lemma NoDup_uniq l : NoDup (uniq l).
Proof. apply NoDup_uniq_from. Qed.

Lemma uniq_from_id seen l :
  NoDup l -> (forall x, x ∈ l -> x ∉ seen) -> uniq_from seen l = l.
Proof.
  revert seen. induction l as [|y l IH]; intros seen Hnd Hs; simpl; [done|].
  inversion Hnd; subst. case_bool_decide as Hy; [set_solver|].
  f_equal. apply IH; [done|]. set_solver.
Qed.

Lemma uniq_id l : NoDup l -> uniq l = l.
Proof. intros. apply uniq_from_id; set_solver. Qed.

Lemma length_uniq_from_le seen l : (length (uniq_from seen l) <= length l)%nat.
Proof.
  revert seen. induction l as [|x l IH]; intros seen; simpl; [done|].
  case_bool_decide; simpl; [specialize (IH seen) | specialize (IH (x :: seen))]; lia.
Qed.

Lemma length_uniq_le l : (length (uniq l) <= length l)%nat.
Proof. apply length_uniq_from_le. Qed.

Lemma uniq_idemp l : uniq (uniq l) = uniq l.
Proof. apply uniq_id, NoDup_uniq. Qed.
End Uniq.

#[export] Hint Resolve NoDup_uniq : js.

(** ** Insertion-ordered maps (JavaScript [Map]) *)

Section OMap.
Context {K V : Type} `{EqDecision K}.
Implicit Types (m : list (K * V)) (k : K) (v : V).

Fixpoint om_get k m : option V :=
  match m with
  | [] => None
  | (k', v) :: m' => if decide (k = k') then Some v else om_get k m'
  end.

(** [map.set(k, v)]: an existing key keeps its position. *)
Fixpoint om_set k v m : list (K * V) :=
  match m with
  | [] => [(k, v)]
  | (k', v') :: m' =>
      if decide (k = k') then (k', v) :: m' else (k', v') :: om_set k v m'
  end.

Fixpoint om_del k m : list (K * V) :=
  match m with
  | [] => []
  | (k', v') :: m' => if decide (k = k') then om_del k m' else (k', v') :: om_del k m'
  end.

Lemma om_get_set_eq k v m : om_get k (om_set k v m) = Some v.
Proof.
  induction m as [|[k' v'] m IH]; simpl; [by rewrite decide_True|].
  destruct (decide (k = k')); simpl; [by rewrite decide_True | by rewrite decide_False].
Qed.

Lemma om_get_set_ne k k' v m : k <> k' -> om_get k' (om_set k v m) = om_get k' m.
Proof.
  intros Hne. induction m as [|[k1 v1] m IH]; simpl.
  - by rewrite decide_False.
  - destruct (decide (k = k1)); simpl; destruct (decide (k' = k1)); congruence.
Qed.

Lemma om_get_del_eq k m : om_get k (om_del k m) = None.
Proof.
  induction m as [|[k1 v1] m IH]; simpl; [done|].
  destruct (decide (k = k1)); [done|]. simpl. by rewrite decide_False.
Qed.

Lemma om_get_del_ne k k' m : k <> k' -> om_get k' (om_del k m) = om_get k' m.
Proof.
  intros Hne. induction m as [|[k1 v1] m IH]; simpl; [done|].
  destruct (decide (k = k1)); simpl; destruct (decide (k' = k1)); congruence.
Qed.

Lemma om_get_Some_in k v m : om_get k m = Some v -> (k, v) ∈ m.
Proof.
  induction m as [|[k1 v1] m IH]; simpl; [done|].
  destruct (decide (k = k1)); intros; simplify_eq; set_solver.
Qed.

Lemma om_get_None k m : om_get k m = None <-> k ∉ m.*1.
Proof.
  induction m as [|[k1 v1] m IH]; simpl; [set_solver|].
  destruct (decide (k = k1)); subst; [set_solver|]. rewrite IH. set_solver.
Qed.

Lemma om_in_get k v m : NoDup (m.*1) -> (k, v) ∈ m -> om_get k m = Some v.
Proof.
  induction m as [|[k1 v1] m IH]; simpl; intros Hnd Hin; [set_solver|].
  inversion Hnd; subst. apply elem_of_cons in Hin as [[= -> ->]|Hin].
  - by rewrite decide_True.
  - rewrite decide_False; [by apply IH|].
    intros ->. apply H1. apply list_elem_of_fmap. by exists (k1, v).
Qed.

Lemma om_keys_set k v m :
  (om_set k v m).*1 = if decide (k ∈ m.*1) then m.*1 else m.*1 ++ [k].
Proof.
  induction m as [|[k1 v1] m IH]; csimpl; [done|].
  destruct (decide (k = k1)) as [->|Hne]; csimpl.
  - rewrite decide_True; [done | set_solver].
  - rewrite IH. destruct (decide (k ∈ m.*1)).
    + rewrite decide_True; [done | set_solver].
    + rewrite decide_False; [done | set_solver].
Qed.

Lemma om_set_NoDup k v m : NoDup (m.*1) -> NoDup ((om_set k v m).*1).
Proof.
  intros H. rewrite om_keys_set. destruct (decide _); [done|].
  apply NoDup_app. split_and!; [done | set_solver | apply NoDup_singleton].
Qed.

Lemma elem_of_om_keys_set k k' v m :
  k' ∈ (om_set k v m).*1 <-> k' = k \/ k' ∈ m.*1.
Proof. rewrite om_keys_set. destruct (decide _); set_solver. Qed.
End OMap.

#[export] Hint Resolve om_set_NoDup : js.
#[export] Hint Rewrite @om_get_set_eq @om_get_del_eq : jsrw.

(** ** Stable sorting ([Array.prototype.sort]) *)

Lemma StronglySorted_weaken {A} (R S : A -> A -> Prop) l :
  (forall x y, R x y -> S x y) -> StronglySorted R l -> StronglySorted S l.
Proof.
  intros H. induction 1 as [|x l Hs IH Hf]; constructor; [done|].
  eapply Forall_impl; [exact Hf|]. intros y. apply H.
Qed.

(** The comparator of a sort: a negative result puts the first argument
    first.  ECMAScript fixes the result of a sort only for a consistent
    comparator, which is what this class states. *)
Class Comparator {A : Type} (cmp : A -> A -> Z) : Prop := {
  cmp_total x y : cmp x y <= 0 \/ cmp y x <= 0;
  cmp_trans x y z : cmp x y <= 0 -> cmp y z <= 0 -> cmp x z <= 0
}.

Section Sorting.
Context {A : Type} (cmp : A -> A -> Z).

(** Insert after the elements that compare as less or equal. *)
Fixpoint insert_stable (x : A) (l : list A) : list A :=
  match l with
  | [] => [x]
  | y :: l' => if cmp y x <=? 0 then y :: insert_stable x l' else x :: l
  end.

Definition sort_by (l : list A) : list A :=
  fold_left (fun acc x => insert_stable x acc) l [].

Definition le_by (x y : A) : Prop := cmp x y <= 0.

Lemma insert_stable_perm x l : insert_stable x l ≡ₚ x :: l.
Proof.
  induction l as [|y l IH]; simpl; [done|].
  destruct (_ <=? _); [rewrite IH; constructor | done].
Qed.

Lemma sort_by_acc_perm l acc :
  fold_left (fun acc x => insert_stable x acc) l acc ≡ₚ acc ++ l.
Proof.
  revert acc. induction l as [|x l IH]; intros acc; simpl; [by rewrite app_nil_r|].
  rewrite IH, insert_stable_perm. apply Permutation_middle.
Qed.

Lemma sort_by_perm l : sort_by l ≡ₚ l.
Proof. unfold sort_by. by rewrite sort_by_acc_perm. Qed.

Lemma elem_of_sort_by x l : x ∈ sort_by l <-> x ∈ l.
Proof. by rewrite sort_by_perm. Qed.

Lemma length_sort_by l : length (sort_by l) = length l.
Proof. by rewrite sort_by_perm. Qed.

Lemma insert_stable_last x l :
  Forall (fun y => le_by y x) l -> insert_stable x l = l ++ [x].
Proof.
  induction 1 as [|y l Hy _ IH]; simpl; [done|]. unfold le_by in Hy. apply Z.leb_le in Hy.
  by rewrite Hy, IH.
Qed.

(** Sorting a sorted list changes nothing. *)
Lemma sort_by_id l : StronglySorted le_by l -> sort_by l = l.
Proof.
  intros Hs. unfold sort_by.
  assert (forall acc, (forall x y, x ∈ acc -> y ∈ l -> le_by x y) ->
    fold_left (fun acc x => insert_stable x acc) l acc = acc ++ l) as H.
  { induction Hs as [|x l Hs IH Hf]; intros acc Hacc; simpl; [by rewrite app_nil_r|].
    rewrite insert_stable_last by (apply Forall_forall; set_solver).
    rewrite IH; [by rewrite <- app_assoc|]. intros a b Ha Hb.
    apply elem_of_app in Ha as [Ha|Ha%list_elem_of_singleton]; [set_solver|].
    subst. rewrite Forall_forall in Hf. auto. }
  rewrite H; [done | set_solver].
Qed.

Context `{!Comparator cmp}.

Lemma insert_stable_sorted x l :
  StronglySorted le_by l -> StronglySorted le_by (insert_stable x l).
Proof.
  induction 1 as [|y l Hs IH Hf]; simpl; [repeat constructor|].
  destruct (cmp y x <=? 0) eqn:E; bool_simp; constructor; [done| |by constructor|].
  - rewrite insert_stable_perm. by constructor.
  - assert (le_by x y) as Hxy by (destruct (cmp_total x y); unfold le_by in *; lia).
    constructor; [done|]. eapply Forall_impl; [exact Hf|].
    intros z Hz. by eapply cmp_trans.
Qed.

Lemma sort_by_sorted l : StronglySorted le_by (sort_by l).
Proof.
  unfold sort_by.
  assert (forall acc, StronglySorted le_by acc ->
    StronglySorted le_by (fold_left (fun acc x => insert_stable x acc) l acc)) as H.
  { induction l as [|x l IH]; intros acc Hacc; simpl; [done|].
    apply IH. by apply insert_stable_sorted. }
  apply H. constructor.
Qed.
End Sorting.

#[export] Hint Resolve sort_by_perm sort_by_sorted : js.

(** Lexicographic comparators: [a - b || c] of the source. *)
Definition cmp_or (a b : Z) : Z := if a =? 0 then b else a.

Lemma cmp_or_le a b : cmp_or a b <= 0 <-> a < 0 \/ (a = 0 /\ b <= 0).
Proof. unfold cmp_or. destruct (Z.eqb_spec a 0); lia. Qed.

(** ** Pairwise mapping with indices ([xs.map((x, i) => ...)]) *)

Fixpoint mapi_from {A B : Type} (i : Z) (f : Z -> A -> B) (l : list A) : list B :=
  match l with
  | [] => []
  | x :: l' => f i x :: mapi_from (i + 1) f l'
  end.

Definition mapi {A B : Type} (f : Z -> A -> B) (l : list A) : list B := mapi_from 0 f l.

Lemma length_mapi_from {A B} (f : Z -> A -> B) i l : length (mapi_from i f l) = length l.
Proof. revert i. induction l; intros; simpl; auto. Qed.

Lemma elem_of_mapi_from {A B} (f : Z -> A -> B) y l i :
  y ∈ mapi_from i f l -> exists j x, x ∈ l /\ y = f j x /\ i <= j < i + Z.of_nat (length l).
Proof.
  revert i. induction l as [|x l IH]; intros i; simpl; [set_solver|].
  rewrite elem_of_cons. intros [->|(j & z & ? & -> & ?)%IH].
  - exists i, x. split_and!; [set_solver | done | lia..].
  - exists j, z. split_and!; [set_solver | done | lia..].
Qed.

(** ** 32-bit integers *)

(** [ToInt32] and [ToUint32]: what the bitwise operators do to their operands. *)
Definition to_int32 (z : Z) : Z := (z + 2147483648) mod 4294967296 - 2147483648.
Definition to_uint32 (z : Z) : Z := z mod 4294967296.

Lemma to_int32_range z : -2147483648 <= to_int32 z < 2147483648.
Proof. unfold to_int32. pose proof (Z.mod_pos_bound (z + 2147483648) 4294967296). lia. Qed.

Lemma to_uint32_range z : 0 <= to_uint32 z < 4294967296.
Proof. unfold to_uint32. pose proof (Z.mod_pos_bound z 4294967296). lia. Qed.

Lemma lookup_mapi_from {A B} (f : Z -> A -> B) i l k :
  mapi_from i f l !! k = f (i + Z.of_nat k)%Z <$> l !! k.
Proof.
  revert i k. induction l as [|x l IH]; intros i [|k]; try done; simpl; [by rewrite Z.add_0_r|].
  rewrite IH. do 2 f_equal. lia.
Qed.

Lemma last_mapi {A B} (f : Z -> A -> B) l : last (mapi f l) = f (Z.of_nat (length l) - 1)%Z <$> last l.
Proof.
  unfold mapi. rewrite !last_lookup, lookup_mapi_from, length_mapi_from.
  destruct l as [|x l]; [done|]. do 2 f_equal. simpl. lia.
Qed.
