(* ===== verification/JsString.v ===== *)
(** * JavaScript strings

    A JavaScript string is its list of UTF-16 code units, each a [Z] in
    [0, 65535].  This file has the members of [String.prototype] the client
    uses ([trim], [startsWith], [endsWith], [includes], [slice], [split],
    [join], [replaceAll], [toUpperCase], ...), decimal printing and reading of
    integers, and the lemmas the components share. *)

From S2P Require Import Prelude.

Notation jsstr := (list Z) (only parsing).

(** ** Literals

    [u "..."] is the string a source literal denotes: the bytes of the Rocq
    literal are decoded from UTF-8 and encoded as UTF-16. *)

Definition cp_units (cp : Z) : jsstr :=
  if cp <? 65536 then [cp]
  else [55296 + (cp - 65536) / 1024; 56320 + (cp - 65536) mod 1024].

Fixpoint utf8_units (l : list Z) : jsstr :=
  match l with
  | [] => []
  | b0 :: l0 =>
      if b0 <? 128 then b0 :: utf8_units l0
      else match l0 with
      | [] => []
      | b1 :: l1 =>
          if b0 <? 224 then cp_units ((b0 - 192) * 64 + (b1 - 128)) ++ utf8_units l1
          else match l1 with
          | [] => []
          | b2 :: l2 =>
              if b0 <? 240 then
                cp_units ((b0 - 224) * 4096 + (b1 - 128) * 64 + (b2 - 128)) ++ utf8_units l2
              else match l2 with
              | [] => []
              | b3 :: l3 =>
                  cp_units ((b0 - 240) * 262144 + (b1 - 128) * 4096
                            + (b2 - 128) * 64 + (b3 - 128)) ++ utf8_units l3
              end
          end
      end
  end.

Definition u (s : string) : jsstr :=
  utf8_units ((fun a => Z.of_N (Ascii.N_of_ascii a)) <$> String.list_ascii_of_string s).
Arguments u : simpl never.

(** Replace every literal of the goal by its code units. *)
Ltac lits :=
  repeat match goal with
  | |- context [u ?s] => let v := eval vm_compute in (u s) in change (u s) with v
  end.
Ltac lits_in H :=
  repeat match type of H with
  | context [u ?s] => let v := eval vm_compute in (u s) in change (u s) with v in H
  end.

(** ** White space and [trim] *)

(** WhiteSpace and LineTerminator of ECMAScript. *)
Definition is_space (c : Z) : bool :=
  ((9 <=? c) && (c <=? 13)) || (c =? 32) || (c =? 160) || (c =? 5760)
  || ((8192 <=? c) && (c <=? 8202)) || (c =? 8232) || (c =? 8233)
  || (c =? 8239) || (c =? 8287) || (c =? 12288) || (c =? 65279).

Definition trimStart (s : jsstr) : jsstr := dropWhile is_space s.
Definition trimEnd (s : jsstr) : jsstr := reverse (trimStart (reverse s)).
Definition trim (s : jsstr) : jsstr := trimEnd (trimStart s).

(** A string with no white space at either end. *)
Definition trimmed (s : jsstr) : bool :=
  match s with [] => true | x :: _ => negb (is_space x) end
  && match reverse s with [] => true | x :: _ => negb (is_space x) end.

Lemma trim_trimmed_id s : trimmed s = true -> trim s = s.
Proof.
  unfold trimmed, trim, trimEnd, trimStart. intros H. bool_simp.
  rewrite (dropWhile_none _ s), dropWhile_none.
  - apply reverse_involutive.
  - destruct (reverse s); [done | by apply negb_true_iff].
  - destruct s; [done | by apply negb_true_iff].
Qed.

Lemma dropWhile_suffix {A} (p : A -> bool) l : exists w, l = w ++ dropWhile p l.
Proof. exists (takeWhile p l). symmetry. apply span_app. Qed.

Lemma trim_trimmed s : trimmed (trim s) = true.
Proof.
  unfold trimmed, trim, trimEnd, trimStart. rewrite reverse_involutive.
  set (a := dropWhile is_space s). set (b := dropWhile is_space (reverse a)).
  assert (match b with [] => true | x :: _ => negb (is_space x) end = true) as Hb.
  { destruct b as [|x b'] eqn:E; [done|]. apply negb_true_iff.
    by eapply dropWhile_head. }
  rewrite Hb, andb_true_r.
  destruct (reverse b) as [|x r] eqn:E; [done|].
  destruct (dropWhile_suffix is_space (reverse a)) as [w Hw]. fold b in Hw.
  apply (f_equal reverse) in Hw.
  rewrite reverse_involutive, reverse_app, E in Hw. simpl in Hw.
  apply negb_true_iff. by eapply dropWhile_head.
Qed.

Lemma trim_idemp s : trim (trim s) = trim s.
Proof. apply trim_trimmed_id, trim_trimmed. Qed.

Lemma length_trim_le s : (length (trim s) <= length s)%nat.
Proof.
  unfold trim, trimEnd, trimStart. rewrite length_reverse.
  destruct (dropWhile_suffix is_space s) as [w Hw].
  destruct (dropWhile_suffix is_space (reverse (dropWhile is_space s))) as [w' Hw'].
  apply (f_equal length) in Hw, Hw'. rewrite length_app in Hw, Hw'.
  rewrite length_reverse in Hw'. lia.
Qed.

Lemma forallb_trimmed (p : Z -> bool) s :
  (forall c, p c = true -> is_space c = false) -> forallb p s = true -> trimmed s = true.
Proof.
  intros Hp Hs. unfold trimmed.
  assert (forallb p (reverse s) = true) as Hr.
  { rewrite forallb_forall in *. intros x Hx. apply Hs.
    by apply list_elem_of_In, elem_of_reverse, list_elem_of_In. }
  destruct s as [|x s]; [done|]. simpl in Hs. bool_simp. rewrite (Hp x) by done. simpl.
  destruct (reverse (x :: s)) as [|y r]; [done|]. simpl in Hr. bool_simp.
  by rewrite (Hp y).
Qed.

Lemma forallb_elem (P : Z -> bool) s c : forallb P s = true -> c ∈ s -> P c = true.
Proof. rewrite forallb_forall. intros H Hc. apply H. by apply list_elem_of_In. Qed.

Lemma forallb_imp (P Q : Z -> bool) s :
  (forall c, P c = true -> Q c = true) -> forallb P s = true -> forallb Q s = true.
Proof. rewrite !forallb_forall. auto. Qed.

(** ** Searching *)

Fixpoint startsWith (p s : jsstr) : bool :=
  match p, s with
  | [], _ => true
  | x :: p', y :: s' => (x =? y) && startsWith p' s'
  | _ :: _, [] => false
  end.

Definition endsWith (p s : jsstr) : bool := startsWith (reverse p) (reverse s).

Fixpoint includes (p s : jsstr) : bool :=
  startsWith p s || match s with [] => false | _ :: s' => includes p s' end.

Lemma startsWith_iff p s : startsWith p s = true <-> exists r, s = p ++ r.
Proof.
  revert s. induction p as [|x p IH]; intros [|y s]; simpl.
  - split; [by exists [] | done].
  - split; [by exists (y :: s) | done].
  - split; [done | by intros [? ?]].
  - rewrite andb_true_iff, IH, Z.eqb_eq. split.
    + intros [-> [r ->]]. by exists r.
    + intros [r [= -> ->]]. split; [done | by exists r].
Qed.

Lemma startsWith_app p r : startsWith p (p ++ r) = true.
Proof. apply startsWith_iff. by exists r. Qed.

Lemma includes_iff p s : includes p s = true <-> exists a b, s = a ++ p ++ b.
Proof.
  induction s as [|x s IH]; simpl; rewrite orb_true_iff, startsWith_iff.
  - split.
    + intros [[r H]|H]; [|done]. by exists [], r.
    + intros (a & b & H). destruct a; [|done]. left. by exists b.
  - rewrite IH. split.
    + intros [[r ->]|(a & b & ->)]; [by exists [], r | by exists (x :: a), b].
    + intros ([|y a] & b & H); simplify_eq/=; [left; by exists b | right; by exists a, b].
Qed.

Lemma endsWith_iff p s : endsWith p s = true <-> exists r, s = r ++ p.
Proof.
  unfold endsWith. rewrite startsWith_iff. split; intros [r E]; exists (reverse r).
  - rewrite <- (reverse_involutive s), E, reverse_app, reverse_involutive. done.
  - by rewrite E, reverse_app.
Qed.

(** [s.slice(i, j)] for indices that are not negative. *)
Definition slice (i j : nat) (s : jsstr) : jsstr := take (j - i) (drop i s).

(** ** Splitting and joining *)

(** [s.split(c)] for a separator of one code unit. *)
Fixpoint split_char (c : Z) (s : jsstr) : list jsstr :=
  match s with
  | [] => [[]]
  | x :: s' =>
      if x =? c then [] :: split_char c s'
      else match split_char c s' with
           | [] => [[x]]
           | w :: ws => (x :: w) :: ws
           end
  end.

(** [parts.join(sep)] *)
Fixpoint join (sep : jsstr) (l : list jsstr) : jsstr :=
  match l with
  | [] => []
  | [w] => w
  | w :: l' => w ++ sep ++ join sep l'
  end.

Lemma split_char_none c s : c ∉ s -> split_char c s = [s].
Proof.
  induction s as [|x s IH]; simpl; intros H; [done|].
  destruct (Z.eqb_spec x c); [set_solver|]. rewrite IH; [done | set_solver].
Qed.

Lemma split_char_app c w s : c ∉ w -> split_char c (w ++ c :: s) = w :: split_char c s.
Proof.
  induction w as [|x w IH]; simpl; intros H.
  - by rewrite Z.eqb_refl.
  - destruct (Z.eqb_spec x c); [set_solver|]. rewrite IH; [done | set_solver].
Qed.

Lemma split_join c l :
  l <> [] -> Forall (fun w => c ∉ w) l -> split_char c (join [c] l) = l.
Proof.
  intros Hne Hall. induction Hall as [|w l Hw Hall IH]; [done|].
  destruct l as [|w' l]; simpl.
  - by apply split_char_none.
  - rewrite split_char_app by done. f_equal. by apply IH.
Qed.

Lemma split_char_not_in c s : Forall (fun w => c ∉ w) (split_char c s).
Proof.
  induction s as [|x s IH]; simpl; [constructor; [set_solver | constructor]|].
  destruct (Z.eqb_spec x c); [constructor; [set_solver | done]|].
  destruct (split_char c s) as [|w ws]; [repeat constructor; set_solver|].
  inversion IH; subst. constructor; [set_solver | done].
Qed.

(** ** Decimal integers *)

Definition is_digit (c : Z) : bool := (48 <=? c) && (c <=? 57).

(** The value of a string of decimal digits. *)
Definition digits_value (s : jsstr) : Z :=
  fold_left (fun acc c => acc * 10 + (c - 48)) s 0.

Fixpoint digits_fuel (fuel : nat) (n : Z) (acc : jsstr) : jsstr :=
  match fuel with
  | O => acc
  | S fuel' =>
      let acc' := (48 + n mod 10) :: acc in
      if n <? 10 then acc' else digits_fuel fuel' (n / 10) acc'
  end.

(** The decimal digits of [n], for [n >= 0]; the number of binary digits bounds
    the number of decimal digits. *)
Definition digits_of (n : Z) : jsstr := digits_fuel (S (Z.to_nat (Z.log2 n))) n [].

(** [String(n)] of an integer below 10^21. *)
Definition str_of_Z (n : Z) : jsstr :=
  if n <? 0 then 45 :: digits_of (- n) else digits_of n.

Lemma digits_value_app s t :
  digits_value (s ++ t)
  = fold_left (fun acc c => acc * 10 + (c - 48)) t (digits_value s).
Proof. unfold digits_value. by rewrite fold_left_app. Qed.

Lemma log2_div10 n : 10 <= n -> Z.log2 (n / 10) + 3 <= Z.log2 n.
Proof.
  intros Hn.
  assert (0 < n / 10) by (apply Z.div_str_pos; lia).
  rewrite <- Z.log2_shiftl by lia. apply Z.log2_le_mono.
  rewrite Z.shiftl_mul_pow2 by lia. pose proof (Z.mul_div_le n 10). lia.
Qed.

Lemma digits_fuel_acc fuel n acc :
  0 <= n -> (Z.to_nat (Z.log2 n) < fuel)%nat ->
  exists w, digits_fuel fuel n acc = w ++ acc /\ w <> [] /\
    forallb is_digit w = true /\ digits_value w = n.
Proof.
  revert n acc. induction fuel as [|fuel IH]; intros n acc Hn Hf; [lia|]. simpl.
  pose proof (Z.mod_pos_bound n 10 ltac:(lia)).
  destruct (Z.ltb_spec n 10) as [Hlt|Hge].
  - exists [48 + n mod 10]. split_and!; [done | done | |].
    + unfold is_digit. simpl. rewrite !andb_true_iff, !Z.leb_le. lia.
    + unfold digits_value. simpl. rewrite Z.mod_small by lia. lia.
  - pose proof (log2_div10 n ltac:(lia)). pose proof (Z.log2_nonneg (n / 10)).
    destruct (IH (n / 10) ((48 + n mod 10) :: acc)) as (w & -> & Hw & Hd & Hv).
    { apply Z.div_pos; lia. } { lia. }
    exists (w ++ [48 + n mod 10]). split_and!.
    + by rewrite <- app_assoc.
    + by destruct w.
    + rewrite forallb_app, Hd. unfold is_digit. simpl. rewrite !andb_true_iff, !Z.leb_le. lia.
    + rewrite digits_value_app, Hv. simpl. pose proof (Z.div_mod n 10). lia.
Qed.

Lemma digits_of_spec n :
  0 <= n -> digits_of n <> [] /\ forallb is_digit (digits_of n) = true
            /\ digits_value (digits_of n) = n.
Proof.
  intros Hn. destruct (digits_fuel_acc (S (Z.to_nat (Z.log2 n))) n []) as (w & Hw & H);
    [done | lia|].
  unfold digits_of. by rewrite Hw, app_nil_r.
Qed.

Lemma digits_fuel_app f n acc : digits_fuel f n acc = digits_fuel f n [] ++ acc.
Proof.
  revert n acc. induction f as [|f IH]; intros n acc; simpl; [done|].
  destruct (n <? 10); [done|]. rewrite (IH _ (_ :: acc)), (IH _ [_]).
  by rewrite <- app_assoc.
Qed.

Lemma digits_fuel_enough f1 f2 n :
  0 <= n -> (Z.to_nat (Z.log2 n) < f1)%nat -> (Z.to_nat (Z.log2 n) < f2)%nat ->
  digits_fuel f1 n [] = digits_fuel f2 n [].
Proof.
  revert f2 n. induction f1 as [|f1 IH]; intros [|f2] n Hn H1 H2; try lia. simpl.
  destruct (Z.ltb_spec n 10) as [|Hge]; [done|].
  pose proof (log2_div10 n ltac:(lia)). pose proof (Z.log2_nonneg (n / 10)).
  assert (0 <= n / 10) by (apply Z.div_pos; lia).
  rewrite (digits_fuel_app f1), (digits_fuel_app f2). f_equal. apply IH; lia.
Qed.

(** The recursion equation of decimal printing. *)
Lemma digits_of_step n :
  0 <= n ->
  digits_of n
  = if n <? 10 then [48 + n] else digits_of (n / 10) ++ [48 + n mod 10].
Proof.
  intros Hn. unfold digits_of at 1. simpl.
  destruct (Z.ltb_spec n 10) as [|Hge]; [by rewrite Z.mod_small by lia|].
  pose proof (log2_div10 n ltac:(lia)). pose proof (Z.log2_nonneg (n / 10)).
  assert (0 <= n / 10) by (apply Z.div_pos; lia).
  rewrite digits_fuel_app. f_equal. apply digits_fuel_enough; lia.
Qed.

(** The number of decimal digits. *)
Lemma digits_of_bounds n :
  0 < n ->
  10 ^ (Z.of_nat (length (digits_of n)) - 1) <= n < 10 ^ Z.of_nat (length (digits_of n)).
Proof.
  intros Hn. assert (0 <= n) as Hn' by lia. revert Hn. pattern n.
  apply (Z_lt_induction _); [|exact Hn']. clear n Hn'. intros n IH Hn.
  rewrite digits_of_step by lia. destruct (Z.ltb_spec n 10) as [|Hge]; [simpl; lia|].
  assert (0 < n / 10) by (apply Z.div_str_pos; lia).
  assert (n / 10 < n) by (apply Z.div_lt; lia).
  specialize (IH (n / 10) ltac:(lia) ltac:(lia)).
  rewrite length_app. simpl. set (k := length (digits_of (n / 10))) in *.
  replace (Z.of_nat (k + 1) - 1) with (Z.succ (Z.of_nat k - 1)) by lia.
  replace (Z.of_nat (k + 1)) with (Z.succ (Z.of_nat k)) by lia.
  destruct k as [|k']; [simpl in IH; lia|].
  rewrite !Z.pow_succ_r by lia. pose proof (Z.div_mod n 10). pose proof (Z.mod_pos_bound n 10).
  lia.
Qed.

Lemma digits_of_mul10 n : 0 < n -> digits_of (n * 10) = digits_of n ++ [48].
Proof.
  intros Hn. rewrite digits_of_step by lia. destruct (Z.ltb_spec (n * 10) 10); [lia|].
  by rewrite Z.div_mul, Z.mod_mul by lia.
Qed.

Lemma digits_of_mul_pow10 n j :
  0 < n -> digits_of (n * 10 ^ Z.of_nat j) = digits_of n ++ replicate j 48.
Proof.
  intros Hn. induction j as [|j IH]; [by rewrite Z.mul_1_r, app_nil_r|].
  replace (n * 10 ^ Z.of_nat (S j)) with (n * 10 ^ Z.of_nat j * 10)
    by (rewrite Nat2Z.inj_succ, Z.pow_succ_r by lia; lia).
  pose proof (Z.pow_pos_nonneg 10 (Z.of_nat j)).
  rewrite digits_of_mul10 by nia. rewrite IH, <- app_assoc. f_equal.
  by rewrite <- replicate_cons_app.
Qed.

Lemma digits_of_inj m n : 0 <= m -> 0 <= n -> digits_of m = digits_of n -> m = n.
Proof.
  intros Hm Hn E. destruct (digits_of_spec m Hm) as (_ & _ & <-).
  destruct (digits_of_spec n Hn) as (_ & _ & <-). congruence.
Qed.

(** A code unit outside the digits does not occur in a printed integer. *)
Lemma digits_of_not_in c n : 0 <= n -> is_digit c = false -> c ∉ digits_of n.
Proof.
  intros Hn Hc Hin. destruct (digits_of_spec n Hn) as (_ & Hd & _).
  rewrite forallb_forall in Hd. rewrite list_elem_of_In in Hin.
  apply Hd in Hin. congruence.
Qed.

(** A code unit of a digit string is not white space. *)
Lemma digit_not_space c : is_digit c = true -> is_space c = false.
Proof.
  intros H. assert (c ∈ seqZ 48 10) as Hc by (unfold is_digit in H; bool_simp; apply elem_of_seqZ; lia).
  revert c Hc H. apply (Forall_forall (fun c => is_digit c = true -> is_space c = false)).
  repeat constructor.
Qed.

(** ** Comparison by code units (the default order of [Array.prototype.sort]) *)

Fixpoint str_cmp (a b : jsstr) : Z :=
  match a, b with
  | [], [] => 0
  | [], _ :: _ => -1
  | _ :: _, [] => 1
  | x :: a', y :: b' => if x =? y then str_cmp a' b' else if x <? y then -1 else 1
  end.

Lemma str_cmp_refl a : str_cmp a a = 0.
Proof. induction a; simpl; [done | by rewrite Z.eqb_refl]. Qed.

Lemma str_cmp_eq a b : str_cmp a b = 0 -> a = b.
Proof.
  revert b. induction a as [|x a IH]; intros [|y b]; simpl; try done.
  destruct (Z.eqb_spec x y); [intros; subst; f_equal; auto|]. by destruct (_ <? _).
Qed.

#[export] Instance str_cmp_comparator : Comparator str_cmp.
Proof.
  split.
  - induction x as [|a x IH]; intros [|b y]; simpl; try lia.
    destruct (Z.eqb_spec a b), (Z.eqb_spec b a); try lia; [apply IH|].
    destruct (Z.ltb_spec a b), (Z.ltb_spec b a); lia.
  - induction x as [|a x IH]; intros [|b y] [|c z]; simpl; try lia.
    destruct (Z.eqb_spec a b), (Z.eqb_spec b c), (Z.eqb_spec a c); subst; try lia;
      try apply IH;
    repeat match goal with |- context [Z.ltb ?a ?b] => destruct (Z.ltb_spec a b) end; lia.
Qed.

(** ** Case mapping

    The mapping of ASCII letters is fixed; the Unicode tables for the other
    code units are an argument of the definitions that change case. *)

Class UnicodeCase := {
  upper_other : Z -> jsstr;
  lower_other : Z -> jsstr
}.

Section Case.
Context `{UnicodeCase}.

Definition upper_unit (c : Z) : jsstr :=
  if c <? 128 then (if (97 <=? c) && (c <=? 122) then [c - 32] else [c])
  else upper_other c.

Definition lower_unit (c : Z) : jsstr :=
  if c <? 128 then (if (65 <=? c) && (c <=? 90) then [c + 32] else [c])
  else lower_other c.

Definition toUpperCase (s : jsstr) : jsstr := concat (upper_unit <$> s).
Definition toLowerCase (s : jsstr) : jsstr := concat (lower_unit <$> s).
End Case.

(** The tables restricted to code units without case, used by witnesses. *)
Definition ascii_case : UnicodeCase := {| upper_other c := [c]; lower_other c := [c] |}.
