(* ===== verification/JsNumber.v ===== *)
(** * JavaScript numbers

    A number is an IEEE 754 double: NaN, a signed infinity, a signed zero or a
    finite non-zero value, kept as the exact rational it denotes.  Every
    operation computes the exact rational result and rounds it with [rnd],
    round-to-nearest with ties to even on 53-bit significands and exponents
    from -1074, as ECMAScript prescribes.  The file proves that [rnd] is
    monotone, exact on the doubles and off by at most half a unit in the last
    place, and derives that sums of safe integers are exact. *)

From S2P Require Import Prelude JsString.
From Stdlib Require Import QArith Qround Qreduction Qabs Qpower Qminmax Lqa.

#[local] Open Scope Q_scope.

(** ** Powers of two *)

Definition p2 (e : Z) : Q := Qpower 2 e.

Lemma p2_pos e : 0 < p2 e.
Proof. apply Qpower_0_lt. lra. Qed.

Lemma p2_nz e : ~ p2 e == 0.
Proof. pose proof (p2_pos e). lra. Qed.

Lemma p2_add a b : p2 (a + b) == p2 a * p2 b.
Proof. apply Qpower_plus. lra. Qed.

Lemma p2_Z e : (0 <= e)%Z -> p2 e == inject_Z (2 ^ e).
Proof. intros H. unfold p2. by rewrite <- (Zpower_Qpower 2 e H). Qed.

Lemma p2_le a b : (a <= b)%Z -> p2 a <= p2 b.
Proof.
  intros H. replace b with (a + (b - a))%Z by lia. rewrite p2_add.
  assert (1 <= p2 (b - a)).
  { rewrite p2_Z by lia. change 1 with (inject_Z 1). rewrite <- Zle_Qle.
    pose proof (Z.pow_pos_nonneg 2 (b - a)). lia. }
  pose proof (p2_pos a). nra.
Qed.

Lemma p2_1 : p2 1 == 2.
Proof. reflexivity. Qed.

Lemma p2_lt_inv a b : p2 a < p2 b -> (a < b)%Z.
Proof. intros H. apply Z.nle_gt. intros Hle. pose proof (p2_le b a Hle). lra. Qed.

(** ** Rounding to an integer, ties to even *)

Definition rneQ (z : Q) : Z :=
  let f := Qfloor z in
  match Qcompare (2 * (z - inject_Z f)) 1 with
  | Lt => f
  | Gt => (f + 1)%Z
  | Eq => if Z.even f then f else (f + 1)%Z
  end.

Lemma Qfloor_spec z : inject_Z (Qfloor z) <= z /\ z < inject_Z (Qfloor z) + 1.
Proof.
  split; [apply Qfloor_le|]. pose proof (Qlt_floor z) as H.
  rewrite inject_Z_plus in H. exact H.
Qed.

Lemma rneQ_cases z :
  (rneQ z = Qfloor z /\ 2 * (z - inject_Z (Qfloor z)) <= 1) \/
  (rneQ z = (Qfloor z + 1)%Z /\ 1 <= 2 * (z - inject_Z (Qfloor z))).
Proof.
  unfold rneQ. destruct (Qcompare_spec (2 * (z - inject_Z (Qfloor z))) 1) as [H|H|H].
  - destruct (Z.even _); [left | right]; split; try done; lra.
  - left. split; [done | lra].
  - right. split; [done | lra].
Qed.

Lemma rneQ_error z : inject_Z (rneQ z) - z <= 1 # 2 /\ z - inject_Z (rneQ z) <= 1 # 2.
Proof.
  pose proof (Qfloor_spec z) as [H1 H2].
  destruct (rneQ_cases z) as [[-> H]|[-> H]]; rewrite ?inject_Z_plus;
    change (inject_Z 1) with 1; lra.
Qed.

Lemma inject_Z_lt_succ a b : inject_Z a < inject_Z b + 1 -> (a <= b)%Z.
Proof.
  intros H. assert (inject_Z a < inject_Z (b + 1)) as H'.
  { rewrite inject_Z_plus. exact H. }
  rewrite <- Zlt_Qlt in H'. lia.
Qed.

Lemma rneQ_int n : rneQ (inject_Z n) = n.
Proof.
  pose proof (rneQ_error (inject_Z n)) as [H1 H2].
  apply Z.le_antisymm; apply inject_Z_lt_succ; lra.
Qed.

#[export] Instance rneQ_proper : Proper (Qeq ==> eq) rneQ.
Proof.
  intros x y H. unfold rneQ. rewrite (Qfloor_comp x y H).
  assert (Qcompare (2 * (x - inject_Z (Qfloor y))) 1
          = Qcompare (2 * (y - inject_Z (Qfloor y))) 1) as -> by by rewrite H.
  reflexivity.
Qed.

Lemma rneQ_mono x y : x <= y -> (rneQ x <= rneQ y)%Z.
Proof.
  intros Hxy. pose proof (Qfloor_spec x) as [Hx1 Hx2]. pose proof (Qfloor_spec y) as [Hy1 Hy2].
  pose proof (Qfloor_resp_le x y Hxy) as Hf.
  destruct (Z.eq_dec (Qfloor x) (Qfloor y)) as [E|NE].
  - unfold rneQ. rewrite <- E in *.
    destruct (Qcompare_spec (2 * (x - inject_Z (Qfloor x))) 1),
             (Qcompare_spec (2 * (y - inject_Z (Qfloor x))) 1);
      destruct (Z.even (Qfloor x)); try lia; lra.
  - destruct (rneQ_cases x) as [[-> ?]|[-> ?]], (rneQ_cases y) as [[-> ?]|[-> ?]]; lia.
Qed.

(** ** The binary exponent of a positive rational *)

(** floor (log2 x) *)
Definition ilog2 (x : Q) : Z :=
  if Qle_bool 1 x then Z.log2 (Qfloor x) else - Z.log2_up (Qceiling (/ x)).

Lemma ilog2_spec x : 0 < x -> p2 (ilog2 x) <= x /\ x < p2 (ilog2 x + 1).
Proof.
  intros Hx. unfold ilog2. destruct (Qle_bool 1 x) eqn:E.
  - apply Qle_bool_iff in E. pose proof (Qfloor_spec x) as [H1 H2].
    assert (1 <= Qfloor x)%Z as Hf by (apply inject_Z_lt_succ; change (inject_Z 1) with 1; lra).
    pose proof (Z.log2_nonneg (Qfloor x)).
    destruct (Z.log2_spec (Qfloor x)) as [L1 L2]; [lia|]. rewrite !p2_Z by lia.
    rewrite Zle_Qle in L1. split; [lra|].
    apply Z.le_succ_l in L2. rewrite Zle_Qle in L2.
    replace (Z.succ (Qfloor x)) with (Qfloor x + 1)%Z in L2 by lia.
    rewrite inject_Z_plus in L2. rewrite <- Z.add_1_r in L2.
    change (inject_Z 1) with 1 in L2. lra.
  - assert (x < 1) as Hlt.
    { apply Qnot_le_lt. rewrite <- Qle_bool_iff. congruence. }
    assert (1 < / x) as Hinv.
    { apply Qlt_shift_inv_l; lra. }
    pose proof (Qle_ceiling (/ x)) as C1. pose proof (Qceiling_lt (/ x)) as C2.
    assert (1 < Qceiling (/ x))%Z as Hc.
    { rewrite Zlt_Qlt. change (inject_Z 1) with 1. lra. }
    destruct (Z.log2_up_spec (Qceiling (/ x))) as [L1 L2]; [lia|].
    set (k := Z.log2_up (Qceiling (/ x))) in *.
    assert (1 <= k)%Z by (unfold k; change 1%Z with (Z.log2_up 2); apply Z.log2_up_le_mono; lia).
    assert (p2 (- k) == / p2 k) as Hneg by (unfold p2; apply Qpower_opp).
    assert (p2 (- k + 1) == / p2 (k - 1)) as Hneg1.
    { replace (- k + 1)%Z with (- (k - 1))%Z by lia. unfold p2. apply Qpower_opp. }
    assert (/ x <= p2 k) as U.
    { rewrite p2_Z by lia. rewrite Zle_Qle in L2. lra. }
    assert (p2 (k - 1) < / x) as L.
    { rewrite p2_Z by lia. rewrite <- Z.sub_1_r in L1.
      assert (2 ^ (k - 1) <= Qceiling (/ x) - 1)%Z as L1' by lia.
      rewrite Zle_Qle in L1'. lra. }
    pose proof (p2_pos k). pose proof (p2_pos (k - 1)).
    assert (x * / x == 1) as Hxi by (apply Qmult_inv_r; lra).
    rewrite Hneg, Hneg1. split.
    + apply Qle_shift_inv_r; [lra | nra].
    + apply Qlt_shift_inv_l; [lra | nra].
Qed.

(** ** Rounding to a double *)

(** Exponent of the unit in the last place, bounded below by the subnormals. *)
Definition ulp_exp (x : Q) : Z := Z.max (ilog2 x - 52) (-1074).

Definition rnd_pos (x : Q) : Q :=
  inject_Z (rneQ (x / p2 (ulp_exp x))) * p2 (ulp_exp x).

Definition rnd (x : Q) : Q :=
  match Qcompare x 0 with
  | Eq => 0
  | Gt => rnd_pos x
  | Lt => - rnd_pos (- x)
  end.

(** The values of the doubles, without the bound on large exponents. *)
Definition is_double (x : Q) : Prop :=
  exists n k, (Z.abs n <= 2 ^ 53)%Z /\ (-1074 <= k)%Z /\ x == inject_Z n * p2 k.

Lemma div_mul_p2 x e : x == x / p2 e * p2 e.
Proof. pose proof (p2_nz e). field. done. Qed.

Lemma grid_div n k e : (e <= k)%Z ->
  inject_Z n * p2 k / p2 e == inject_Z (n * 2 ^ (k - e)).
Proof.
  intros H. rewrite inject_Z_mult, <- p2_Z by lia.
  replace k with (e + (k - e))%Z at 1 by lia. rewrite p2_add.
  pose proof (p2_nz e). field. done.
Qed.

Lemma div_p2_le x y e : x <= y <-> x / p2 e <= y / p2 e.
Proof.
  pose proof (p2_pos e) as Hp. rewrite (div_mul_p2 x e), (div_mul_p2 y e) at 1.
  split; intros H; [|nra]. apply Qmult_lt_0_le_reg_r with (z := p2 e); [done | lra].
Qed.

(** Rounding respects the grid points that are multiples of the last place. *)
Lemma rnd_pos_le_grid x n k :
  (ulp_exp x <= k)%Z -> x <= inject_Z n * p2 k -> rnd_pos x <= inject_Z n * p2 k.
Proof.
  intros Hk Hx. unfold rnd_pos. set (e := ulp_exp x) in *.
  rewrite (div_mul_p2 (inject_Z n * p2 k) e). pose proof (p2_pos e).
  apply (div_p2_le _ _ e) in Hx. rewrite grid_div in * by done.
  apply rneQ_mono in Hx. rewrite rneQ_int in Hx. rewrite Zle_Qle in Hx. nra.
Qed.

Lemma rnd_pos_ge_grid x n k :
  (ulp_exp x <= k)%Z -> inject_Z n * p2 k <= x -> inject_Z n * p2 k <= rnd_pos x.
Proof.
  intros Hk Hx. unfold rnd_pos. set (e := ulp_exp x) in *.
  rewrite (div_mul_p2 (inject_Z n * p2 k) e) at 1. pose proof (p2_pos e).
  apply (div_p2_le _ _ e) in Hx. rewrite grid_div in * by done.
  apply rneQ_mono in Hx. rewrite rneQ_int in Hx. rewrite Zle_Qle in Hx. nra.
Qed.

Lemma ilog2_mono x y : 0 < x -> x <= y -> (ilog2 x <= ilog2 y)%Z.
Proof.
  intros Hx Hxy. pose proof (ilog2_spec x Hx). pose proof (ilog2_spec y ltac:(lra)).
  enough (ilog2 x < ilog2 y + 1)%Z by lia. apply p2_lt_inv. lra.
Qed.

Lemma rnd_pos_mono x y : 0 < x -> x <= y -> rnd_pos x <= rnd_pos y.
Proof.
  intros Hx Hxy. pose proof (ilog2_mono x y Hx Hxy) as Hl.
  assert (ulp_exp x <= ulp_exp y)%Z as Hu by (unfold ulp_exp; lia).
  destruct (Z.eq_dec (ulp_exp x) (ulp_exp y)) as [E|NE].
  - unfold rnd_pos. rewrite E. pose proof (p2_pos (ulp_exp y)).
    apply (div_p2_le _ _ (ulp_exp y)) in Hxy. apply rneQ_mono in Hxy.
    rewrite Zle_Qle in Hxy. nra.
  - (* the power of two at the exponent of [y] separates the two *)
    assert (ilog2 x < ilog2 y)%Z by (unfold ulp_exp in *; lia).
    pose proof (ilog2_spec x Hx) as [_ Hx2]. pose proof (ilog2_spec y ltac:(lra)) as [Hy1 _].
    pose proof (p2_le (ilog2 x + 1) (ilog2 y) ltac:(lia)).
    apply Qle_trans with (inject_Z 1 * p2 (ilog2 y)).
    + apply rnd_pos_le_grid; [unfold ulp_exp in *; lia|]. change (inject_Z 1) with 1. lra.
    + apply rnd_pos_ge_grid; [unfold ulp_exp in *; lia|]. change (inject_Z 1) with 1. lra.
Qed.

Lemma rnd_pos_exact x : 0 < x -> is_double x -> rnd_pos x == x.
Proof.
  intros Hx (n & k & Hn & Hk & E).
  enough (exists m, x == inject_Z m * p2 (ulp_exp x)) as [m Em].
  { pose proof (rnd_pos_le_grid x m (ulp_exp x) ltac:(lia) ltac:(lra)).
    pose proof (rnd_pos_ge_grid x m (ulp_exp x) ltac:(lia) ltac:(lra)). lra. }
  destruct (Z.le_gt_cases (ulp_exp x) k) as [Hle|Hgt].
  - exists (n * 2 ^ (k - ulp_exp x))%Z.
    rewrite <- (grid_div n k) by done.
    transitivity (inject_Z n * p2 k); [done | apply div_mul_p2].
  - pose proof (ilog2_spec x Hx) as [H1 _].
    assert (x <= p2 (53 + k)) as H2.
    { rewrite E, p2_add, (p2_Z 53) by lia. pose proof (p2_pos k).
      assert (n <= 2 ^ 53)%Z as Hn' by lia. rewrite Zle_Qle in Hn'. nra. }
    assert (p2 (ilog2 x) < p2 (53 + k + 1)) as H3.
    { rewrite (p2_add (53 + k) 1), p2_1. pose proof (p2_pos (53 + k)). lra. }
    apply p2_lt_inv in H3.
    assert (ulp_exp x = k + 1 /\ ilog2 x = 53 + k)%Z as [Hu Hl] by (unfold ulp_exp in *; lia).
    exists (2 ^ 52)%Z. rewrite Hu, <- (p2_Z 52), <- p2_add by lia.
    replace (52 + (k + 1))%Z with (53 + k)%Z by lia.
    rewrite Hl in H1. lra.
Qed.

Lemma rnd_pos_error x : 0 < x -> Qabs (rnd_pos x - x) <= p2 (ulp_exp x) * (1 # 2).
Proof.
  intros Hx. unfold rnd_pos. set (e := ulp_exp x). pose proof (p2_pos e).
  pose proof (rneQ_error (x / p2 e)) as [H1 H2].
  rewrite (div_mul_p2 x e) at 2. apply Qabs_Qle_condition. split; nra.
Qed.

Lemma is_double_opp x : is_double x -> is_double (- x).
Proof.
  intros (n & k & Hn & Hk & E). exists (- n)%Z, k. split_and!; [lia | lia|].
  rewrite E, inject_Z_opp. ring.
Qed.

Lemma rnd_pos_nonneg x : 0 < x -> 0 <= rnd_pos x.
Proof.
  intros Hx. pose proof (rnd_pos_ge_grid x 0 (ulp_exp x) ltac:(lia)) as H.
  change (inject_Z 0) with 0 in H. rewrite Qmult_0_l in H. apply H. lra.
Qed.

(** Rounding is exact on the doubles. *)
Lemma rnd_exact x : is_double x -> rnd x == x.
Proof.
  intros H. unfold rnd. destruct (Qcompare_spec x 0).
  - lra.
  - rewrite rnd_pos_exact; [lra | lra | by apply is_double_opp].
  - apply rnd_pos_exact; [lra | done].
Qed.

(** Rounding is monotone. *)
Lemma rnd_mono x y : x <= y -> rnd x <= rnd y.
Proof.
  intros H. unfold rnd. destruct (Qcompare_spec x 0), (Qcompare_spec y 0); try lra.
  - by apply rnd_pos_nonneg.
  - pose proof (rnd_pos_nonneg (- x) ltac:(lra)). lra.
  - pose proof (rnd_pos_mono (- y) (- x) ltac:(lra) ltac:(lra)). lra.
  - pose proof (rnd_pos_nonneg (- x) ltac:(lra)).
    pose proof (rnd_pos_nonneg y ltac:(lra)). lra.
  - by apply rnd_pos_mono.
Qed.

#[export] Instance rnd_proper : Proper (Qeq ==> Qeq) rnd.
Proof. intros x y H. apply Qle_antisym; apply rnd_mono; lra. Qed.

Lemma rnd_ge a x : is_double a -> a <= x -> a <= rnd x.
Proof. intros Ha H. rewrite <- (rnd_exact a Ha). by apply rnd_mono. Qed.

Lemma rnd_le b x : is_double b -> x <= b -> rnd x <= b.
Proof. intros Hb H. rewrite <- (rnd_exact b Hb). by apply rnd_mono. Qed.

Lemma is_double_int n : (Z.abs n <= 2 ^ 53)%Z -> is_double (inject_Z n).
Proof.
  intros H. exists n, 0%Z. split_and!; [done | lia|].
  change (p2 0) with 1. ring.
Qed.

Lemma is_double_0 : is_double 0.
Proof. apply (is_double_int 0). lia. Qed.

(** ** The number type *)

Inductive num :=
  | NaN
  | Inf (neg : bool)
  | Zero (neg : bool)
  | Fin (q : Q).

Definition Qltb (x y : Q) : bool := negb (Qle_bool y x).

Lemma Qltb_lt x y : Qltb x y = true <-> x < y.
Proof.
  unfold Qltb. rewrite negb_true_iff. split.
  - intros H. apply Qnot_le_lt. rewrite <- Qle_bool_iff. congruence.
  - intros H. apply not_true_is_false. rewrite Qle_bool_iff. lra.
Qed.

Lemma Qltb_ge x y : Qltb x y = false <-> y <= x.
Proof. unfold Qltb. rewrite negb_false_iff. apply Qle_bool_iff. Qed.

Definition max_bound : Q := p2 1024.

(** Round an exact result; [z] is the sign of an exact zero. *)
Definition to_num (z : bool) (x : Q) : num :=
  let r := Qred (rnd x) in
  if Qeq_bool r 0 then Zero (if Qltb x 0 then true else if Qltb 0 x then false else z)
  else if Qle_bool max_bound (Qabs r) then Inf (Qltb r 0)
  else Fin r.

(** The rational a finite number denotes. *)
Definition val (a : num) : option Q :=
  match a with
  | Zero _ => Some 0
  | Fin q => Some q
  | _ => None
  end.

Definition val0 (a : num) : Q := match val a with Some q => q | None => 0 end.

Definition is_neg (a : num) : bool :=
  match a with
  | NaN => false
  | Inf s | Zero s => s
  | Fin q => Qltb q 0
  end.

Definition of_Z (n : Z) : num := to_num false (inject_Z n).

(** *** Tests *)

Definition is_nan (a : num) : bool := match a with NaN => true | _ => false end.
Definition is_finite (a : num) : bool := match val a with Some _ => true | None => false end.
Definition is_integer (a : num) : bool :=
  match val a with Some q => Qeq_bool q (inject_Z (Qfloor q)) | None => false end.
Definition num_truthy (a : num) : bool :=
  match a with NaN | Zero _ => false | _ => true end.

(** Comparison of numbers; [None] when one is NaN. *)
Definition num_compare (a b : num) : option comparison :=
  match a, b with
  | NaN, _ | _, NaN => None
  | Inf s, Inf t => Some (if Bool.eqb s t then Eq else if s then Lt else Gt)
  | Inf s, _ => Some (if s then Lt else Gt)
  | _, Inf t => Some (if t then Gt else Lt)
  | _, _ => Some (Qcompare (val0 a) (val0 b))
  end.

Definition num_lt a b := match num_compare a b with Some Lt => true | _ => false end.
Definition num_le a b := match num_compare a b with Some Lt | Some Eq => true | _ => false end.
Definition num_gt a b := num_lt b a.
Definition num_ge a b := num_le b a.
(** [===] and [==] on numbers. *)
Definition num_eq a b := match num_compare a b with Some Eq => true | _ => false end.

(** *** Arithmetic *)

Definition num_neg (a : num) : num :=
  match a with
  | NaN => NaN
  | Inf s => Inf (negb s)
  | Zero s => Zero (negb s)
  | Fin q => Fin (- q)
  end.

Definition num_abs (a : num) : num := if is_neg a then num_neg a else a.

Definition num_add (a b : num) : num :=
  match a, b with
  | NaN, _ | _, NaN => NaN
  | Inf s, Inf t => if Bool.eqb s t then Inf s else NaN
  | Inf s, _ | _, Inf s => Inf s
  | Zero s, Zero t => Zero (s && t)
  | _, _ => to_num false (val0 a + val0 b)
  end.

Definition num_sub (a b : num) : num := num_add a (num_neg b).

Definition num_mul (a b : num) : num :=
  let s := xorb (is_neg a) (is_neg b) in
  match a, b with
  | NaN, _ | _, NaN => NaN
  | Inf _, Zero _ | Zero _, Inf _ => NaN
  | Inf _, _ | _, Inf _ => Inf s
  | _, _ => to_num s (val0 a * val0 b)
  end.

Definition num_div (a b : num) : num :=
  let s := xorb (is_neg a) (is_neg b) in
  match a, b with
  | NaN, _ | _, NaN => NaN
  | Inf _, Inf _ | Zero _, Zero _ => NaN
  | Inf _, _ | _, Zero _ => Inf s
  | _, Inf _ => Zero s
  | _, _ => to_num s (val0 a / val0 b)
  end.

(** [Math.floor], [Math.ceil] and [Math.round] (halves towards +infinity). *)
Definition num_floor (a : num) : num :=
  match a with Fin q => to_num (Qltb q 0) (inject_Z (Qfloor q)) | _ => a end.
Definition num_ceil (a : num) : num :=
  match a with Fin q => to_num (Qltb q 0) (inject_Z (Qceiling q)) | _ => a end.
Definition num_round (a : num) : num :=
  match a with Fin q => to_num (Qltb q 0) (inject_Z (Qfloor (q + (1 # 2)))) | _ => a end.

Definition num_max (a b : num) : num :=
  if is_nan a || is_nan b then NaN
  else if num_lt a b then b
  else if num_eq a b && is_neg a then b else a.
Definition num_min (a b : num) : num :=
  if is_nan a || is_nan b then NaN
  else if num_lt b a then b
  else if num_eq a b && is_neg b then b else a.

(** [a % b], the exact remainder with the sign of the dividend. *)
Definition num_rem (a b : num) : num :=
  match a, b with
  | NaN, _ | _, NaN => NaN
  | Inf _, _ | _, Zero _ => NaN
  | _, Inf _ | Zero _, _ => a
  | Fin p, Fin q =>
      let t := inject_Z (Qfloor (Qabs p / Qabs q)) in
      let r := Qabs p - t * Qabs q in
      to_num (Qltb p 0) (if Qltb p 0 then - r else r)
  end.

(** The sign of a comparison result, as [sort] uses it: [NaN] counts as 0. *)
Definition num_sgn (a : num) : Z :=
  if num_truthy a then (if is_neg a then -1 else 1)%Z else 0%Z.

(** ** Facts *)

(** A well-formed number: what every operation returns. *)
Definition wf_num (a : num) : Prop :=
  match a with
  | Fin q => is_double q /\ ~ q == 0 /\ Qabs q < max_bound /\ Qred q = q
  | _ => True
  end.

Lemma is_double_proper x y : x == y -> is_double x -> is_double y.
Proof. intros H (n & k & ? & ? & E). exists n, k. split_and!; [done | done | lra]. Qed.

(** The significand never exceeds 53 bits. *)
Lemma rnd_pos_double x : 0 < x -> is_double (rnd_pos x).
Proof.
  intros Hx. exists (rneQ (x / p2 (ulp_exp x))), (ulp_exp x).
  split_and!; [|unfold ulp_exp; lia | reflexivity].
  pose proof (ilog2_spec x Hx) as [_ H2]. pose proof (p2_pos (ulp_exp x)) as Hp.
  assert (0 <= x / p2 (ulp_exp x)) as Hlo by (apply Qle_shift_div_l; lra).
  assert (x / p2 (ulp_exp x) <= inject_Z (2 ^ 53)) as Hhi.
  { apply Qle_shift_div_r; [done|]. rewrite <- p2_Z, <- p2_add by lia.
    pose proof (p2_le (ilog2 x + 1) (53 + ulp_exp x) ltac:(unfold ulp_exp; lia)). lra. }
  apply rneQ_mono in Hlo, Hhi. rewrite rneQ_int in Hhi.
  change 0 with (inject_Z 0) in Hlo. rewrite rneQ_int in Hlo. lia.
Qed.

Lemma rnd_double x : is_double (rnd x).
Proof.
  unfold rnd. destruct (Qcompare_spec x 0); [apply is_double_0 | |].
  - apply is_double_opp, rnd_pos_double. lra.
  - by apply rnd_pos_double.
Qed.

Lemma to_num_wf z x : wf_num (to_num z x).
Proof.
  unfold to_num. destruct (Qeq_bool _ 0) eqn:E1; [done|].
  destruct (Qle_bool _ _) eqn:E2; [done|]. simpl. split_and!.
  - apply (is_double_proper (rnd x)); [symmetry; apply Qred_correct | apply rnd_double].
  - by apply Qeq_bool_neq.
  - apply Qnot_le_lt. rewrite <- Qle_bool_iff. congruence.
  - apply Qred_complete, Qred_correct.
Qed.

Lemma of_Z_wf n : wf_num (of_Z n).
Proof. apply to_num_wf. Qed.

#[export] Hint Resolve to_num_wf of_Z_wf : js.

(** Rounding a result that stays in range keeps its rounded value. *)
Lemma to_num_val z x : Qabs (rnd x) < max_bound -> exists q, val (to_num z x) = Some q /\ q == rnd x.
Proof.
  intros H. unfold to_num. pose proof (Qred_correct (rnd x)) as Hr.
  destruct (Qeq_bool _ 0) eqn:E1.
  - apply Qeq_bool_iff in E1. exists 0. split; [done | lra].
  - destruct (Qle_bool _ _) eqn:E2.
    + apply Qle_bool_iff in E2. rewrite Hr in E2. lra.
    + by exists (Qred (rnd x)).
Qed.

Lemma to_num_ext z x y : x == y -> to_num z x = to_num z y.
Proof.
  intros H. unfold to_num.
  assert (Qred (rnd x) = Qred (rnd y)) as -> by (apply Qred_complete; by rewrite H).
  assert (Qltb x 0 = Qltb y 0) as -> by (unfold Qltb; by rewrite H).
  assert (Qltb 0 x = Qltb 0 y) as -> by (unfold Qltb; by rewrite H).
  reflexivity.
Qed.

Lemma Qred_inject_Z n : Qred (inject_Z n) = inject_Z n.
Proof.
  unfold inject_Z, Qred.
  pose proof (Z.ggcd_gcd n 1) as Hg. pose proof (Z.ggcd_correct_divisors n 1) as Hd.
  destruct (Z.ggcd n 1) as [g [r1 r2]]. simpl in *.
  rewrite Z.gcd_1_r in Hg. subst g. destruct Hd as [Hd1 Hd2].
  f_equal; [lia|]. assert (r2 = 1%Z) as -> by lia. done.
Qed.

(** A safe integer is its own double. *)
Lemma of_Z_safe n : (Z.abs n <= 2 ^ 53)%Z ->
  of_Z n = if (n =? 0)%Z then Zero false else Fin (inject_Z n).
Proof.
  intros H. unfold of_Z, to_num.
  assert (Qred (rnd (inject_Z n)) = inject_Z n) as ->.
  { rewrite <- (Qred_inject_Z n) at 2. apply Qred_complete. by apply rnd_exact, is_double_int. }
  destruct (Z.eqb_spec n 0) as [->|Hn]; [done|].
  destruct (Qeq_bool (inject_Z n) 0) eqn:E.
  { apply Qeq_bool_iff in E. by apply (proj1 (inject_Z_injective n 0)) in E. }
  destruct (Qle_bool _ _) eqn:E2; [|done]. apply Qle_bool_iff in E2.
  exfalso. unfold max_bound in E2. change (Qabs (inject_Z n)) with (inject_Z (Z.abs n)) in E2.
  rewrite p2_Z, <- Zle_Qle in E2 by lia.
  assert (2 ^ 53 < 2 ^ 1024)%Z by (apply Z.pow_lt_mono_r; lia). lia.
Qed.

Lemma val_of_Z n : (Z.abs n <= 2 ^ 53)%Z -> val (of_Z n) = Some (inject_Z n).
Proof. intros H. rewrite of_Z_safe by done. by destruct (Z.eqb_spec n 0) as [->|]. Qed.

(** Sums of safe integers that stay safe are exact. *)
Lemma num_add_of_Z a b :
  (Z.abs a <= 2 ^ 53)%Z -> (Z.abs b <= 2 ^ 53)%Z ->
  num_add (of_Z a) (of_Z b) = of_Z (a + b).
Proof.
  intros Ha Hb. rewrite (of_Z_safe a), (of_Z_safe b) by done.
  destruct (Z.eqb_spec a 0) as [->|], (Z.eqb_spec b 0) as [->|]; simpl; unfold of_Z;
    try reflexivity; apply to_num_ext; unfold val0; simpl; rewrite inject_Z_plus;
    change (inject_Z 0) with 0; lra.
Qed.

Lemma num_compare_of_Z a b :
  (Z.abs a <= 2 ^ 53)%Z -> (Z.abs b <= 2 ^ 53)%Z ->
  num_compare (of_Z a) (of_Z b) = Some (a ?= b)%Z.
Proof.
  intros Ha Hb.
  assert (forall x y, Qcompare (inject_Z x) (inject_Z y) = (x ?= y)%Z) as Hc.
  { intros x y. unfold Qcompare. simpl. by rewrite !Z.mul_1_r. }
  rewrite (of_Z_safe a), (of_Z_safe b) by done.
  destruct (Z.eqb_spec a 0) as [->|], (Z.eqb_spec b 0) as [->|]; simpl; try done;
    unfold val0; simpl; f_equal; change 0 with (inject_Z 0); apply Hc.
Qed.

(** Comparing an integer of any size with a safe one is exact. *)
Lemma of_Z_large n b :
  (2 ^ 53 < n)%Z -> (Z.abs b < 2 ^ 53)%Z -> num_compare (of_Z n) (of_Z b) = Some Gt.
Proof.
  intros Hn Hb. rewrite (of_Z_safe b) by lia. unfold of_Z, to_num.
  assert (inject_Z (2 ^ 53) <= Qred (rnd (inject_Z n))) as Hr.
  { rewrite Qred_correct. apply rnd_ge; [by apply is_double_int | rewrite <- Zle_Qle; lia]. }
  set (r := Qred (rnd (inject_Z n))) in *. clearbody r.
  assert (0 < r) as Hpos.
  { eapply Qlt_le_trans; [|exact Hr]. change 0 with (inject_Z 0). rewrite <- Zlt_Qlt. lia. }
  destruct (Qeq_bool r 0) eqn:E; [apply Qeq_bool_iff in E; lra|].
  destruct (Qle_bool _ _).
  { assert (Qltb r 0 = false) as -> by (apply Qltb_ge; lra).
    by destruct (b =? 0)%Z. }
  assert (inject_Z b < r) as Hlt.
  { eapply Qlt_le_trans; [|exact Hr]. rewrite <- Zlt_Qlt. lia. }
  destruct (Z.eqb_spec b 0) as [->|]; simpl; unfold val0; simpl; f_equal; apply Qgt_alt; lra.
Qed.

Lemma num_compare_nonneg n b :
  (0 <= n)%Z -> (Z.abs b < 2 ^ 53)%Z -> num_compare (of_Z n) (of_Z b) = Some (n ?= b)%Z.
Proof.
  intros Hn Hb. destruct (Z.le_gt_cases n (2 ^ 53)).
  - apply num_compare_of_Z; lia.
  - rewrite of_Z_large by lia. f_equal. symmetry. apply Z.compare_gt_iff. lia.
Qed.

(** The integer a number denotes. *)
Definition num_Z (a : num) : Z := Qfloor (val0 a).

Lemma num_Z_of_Z n : (Z.abs n <= 2 ^ 53)%Z -> num_Z (of_Z n) = n.
Proof. intros H. unfold num_Z, val0. rewrite val_of_Z by done. apply Qfloor_Z. Qed.

Lemma is_finite_of_Z n : (Z.abs n <= 2 ^ 53)%Z -> is_finite (of_Z n) = true.
Proof. intros H. unfold is_finite. by rewrite val_of_Z. Qed.

Lemma num_lt_of_Z a b :
  (Z.abs a <= 2 ^ 53)%Z -> (Z.abs b <= 2 ^ 53)%Z -> num_lt (of_Z a) (of_Z b) = (a <? b)%Z.
Proof. intros. unfold num_lt, Z.ltb. rewrite num_compare_of_Z by done. by destruct (a ?= b)%Z. Qed.

Lemma num_compare_antisym a b :
  num_compare b a = option_map CompOpp (num_compare a b).
Proof.
  destruct a as [|s| |q], b as [|t| |r]; simpl; try done; try (by destruct s); try (by destruct t);
    try (by destruct s, t); by rewrite <- Qcompare_antisym.
Qed.

Lemma to_num_zero s x : x == 0 -> to_num s x = Zero s.
Proof.
  intros E. unfold to_num.
  assert (Qred (rnd x) = 0) as ->.
  { change 0 with (Qred 0). apply Qred_complete. rewrite E. apply rnd_exact, is_double_0. }
  change (Qeq_bool 0 0) with true. cbv iota.
  rewrite (proj2 (Qltb_ge x 0)), (proj2 (Qltb_ge 0 x)) by lra. done.
Qed.

(** *** Arithmetic on natural numbers that stays in the safe range is exact *)

Lemma is_neg_of_Z n : (0 <= n <= 2 ^ 53)%Z -> is_neg (of_Z n) = false.
Proof.
  intros H. rewrite of_Z_safe by lia. destruct (Z.eqb_spec n 0); [done|]. simpl.
  apply Qltb_ge. change 0 with (inject_Z 0). rewrite <- Zle_Qle. lia.
Qed.

Lemma val0_of_Z n : (Z.abs n <= 2 ^ 53)%Z -> val0 (of_Z n) = inject_Z n.
Proof. intros H. unfold val0. by rewrite val_of_Z. Qed.

Lemma num_mul_finite a b :
  is_finite a = true -> is_finite b = true ->
  num_mul a b = to_num (xorb (is_neg a) (is_neg b)) (val0 a * val0 b).
Proof. by destruct a, b. Qed.

Lemma num_mul_of_Z a b :
  (0 <= a <= 2 ^ 53)%Z -> (0 <= b <= 2 ^ 53)%Z -> num_mul (of_Z a) (of_Z b) = of_Z (a * b).
Proof.
  intros Ha Hb. rewrite num_mul_finite by (apply is_finite_of_Z; lia).
  rewrite !is_neg_of_Z, !val0_of_Z by lia. unfold of_Z. apply to_num_ext. by rewrite inject_Z_mult.
Qed.

Lemma num_div_of_Z a b :
  (0 <= a)%Z -> (0 < b)%Z -> (a * b <= 2 ^ 53)%Z -> num_div (of_Z (a * b)) (of_Z b) = of_Z a.
Proof.
  intros Ha Hb Hab. assert (0 <= a <= 2 ^ 53)%Z by nia. assert (0 <= b <= 2 ^ 53 \/ a = 0)%Z as Hb' by nia.
  destruct (Z.eq_dec a 0) as [->|Hne].
  - rewrite Z.mul_0_l. change (of_Z 0) with (Zero false).
    destruct (Z.le_gt_cases b (2 ^ 53)) as [Hs|Hs].
    + rewrite (of_Z_safe b) by lia. destruct (Z.eqb_spec b 0); [lia|]. simpl.
      assert (Qltb (inject_Z b) 0 = false) as ->.
      { apply Qltb_ge. change 0 with (inject_Z 0). rewrite <- Zle_Qle. lia. }
      apply to_num_zero. unfold val0, Qdiv. simpl. apply Qmult_0_l.
    + pose proof (of_Z_large b 0 ltac:(lia) ltac:(lia)) as Hc. change (of_Z 0) with (Zero false) in Hc.
      pose proof (of_Z_wf b) as Hwf. destruct (of_Z b) as [|s|s|q]; simpl in *; try done.
      * destruct s; done.
      * injection Hc as Hc. unfold val0 in Hc. simpl in Hc. apply Qgt_alt in Hc.
        assert (Qltb q 0 = false) as -> by (apply Qltb_ge; lra).
        apply to_num_zero. unfold val0, Qdiv. simpl. apply Qmult_0_l.
  - assert (0 <= b <= 2 ^ 53)%Z by lia.
    rewrite (of_Z_safe (a * b)), (of_Z_safe b) by lia.
    destruct (Z.eqb_spec (a * b) 0); [nia|]. destruct (Z.eqb_spec b 0); [lia|]. simpl.
    rewrite !(proj2 (Qltb_ge (inject_Z _) 0)) by (change 0 with (inject_Z 0); rewrite <- Zle_Qle; lia).
    unfold of_Z, val0. simpl. apply to_num_ext. rewrite inject_Z_mult. field.
    change 0 with (inject_Z 0). rewrite inject_Z_injective. lia.
Qed.

Lemma num_round_of_Z n : (0 <= n <= 2 ^ 53)%Z -> num_round (of_Z n) = of_Z n.
Proof.
  intros Hn. rewrite of_Z_safe by lia. destruct (Z.eqb_spec n 0) as [->|]; [done|].
  unfold num_round. assert (Qfloor (inject_Z n + (1 # 2)) = n) as ->.
  { pose proof (Qfloor_spec (inject_Z n + (1 # 2))) as [H1 H2]. set (k := Qfloor _) in *. clearbody k.
    apply Z.le_antisymm; apply inject_Z_lt_succ; lra. }
  rewrite (proj2 (Qltb_ge _ _)) by (change 0 with (inject_Z 0); rewrite <- Zle_Qle; lia).
  fold (of_Z n). rewrite of_Z_safe by lia. by destruct (Z.eqb_spec n 0).
Qed.

(** A number that is not below zero, nor NaN. *)
Definition nonneg_num (a : num) : Prop :=
  match a with NaN => False | Inf s => s = false | Zero _ => True | Fin q => 0 <= q end.

Lemma to_num_nonneg s x : 0 <= x -> nonneg_num (to_num s x).
Proof.
  intros Hx. unfold to_num. destruct (Qeq_bool _ 0); [done|].
  assert (0 <= Qred (rnd x)) as Hr.
  { rewrite Qred_correct. apply rnd_ge; [apply is_double_0 | done]. }
  destruct (Qle_bool _ _); simpl; [by apply Qltb_ge | done].
Qed.

Lemma nonneg_mul a b :
  nonneg_num a -> nonneg_num b -> is_finite a = true -> is_finite b = true ->
  nonneg_num (num_mul a b).
Proof.
  intros Ha Hb Fa Fb. rewrite num_mul_finite by done. apply to_num_nonneg.
  apply Qmult_le_0_compat; destruct a, b; unfold val0; simpl in *; try done; lra.
Qed.

Lemma nonneg_le a : nonneg_num a -> num_le (Zero false) a = true.
Proof.
  destruct a as [|s|s|q]; simpl; intros H; try done; [by subst|].
  unfold num_le. simpl. unfold val0. simpl. destruct (Qcompare_spec 0 q); try done. lra.
Qed.

Lemma num_max_nonneg a b : nonneg_num a -> nonneg_num b -> nonneg_num (num_max a b).
Proof.
  unfold num_max. intros Ha Hb. destruct (is_nan a || is_nan b) eqn:E.
  - apply orb_true_iff in E as [E|E]; [by destruct a | by destruct b].
  - destruct (num_lt a b); [done|]. by destruct (num_eq a b && is_neg a).
Qed.

Lemma nonneg_of_Z n : (0 <= n)%Z -> nonneg_num (of_Z n).
Proof. intros H. apply to_num_nonneg. change 0 with (inject_Z 0). by rewrite <- Zle_Qle. Qed.

Lemma num_sub_self a : is_finite a = true -> num_sub a a = Zero false \/ num_sub a a = Zero true.
Proof.
  destruct a as [|s|s|q]; simpl; intros H; try done.
  - unfold num_sub. simpl. destruct s; auto.
  - left. unfold num_sub, num_neg, num_add. apply to_num_zero. unfold val0. simpl. lra.
Qed.
