(* ===== verification/JsNumText.v ===== *)
(** * Numbers as text

    [String(x)], [x.toFixed(d)], [Number(s)], [parseFloat(s)] and
    [parseInt(s, 10)] of ECMAScript, on the numbers of [JsNumber]. *)

From Stdlib Require Import QArith Qround Qreduction Qabs Qpower Lqa.
From S2P Require Import Prelude JsString JsNumber.

#[local] Open Scope Z_scope.

(** ** Printing *)

Definition p10 (e : Z) : Q := Qpower 10 e.

(** The position of the decimal point: 10^(n-1) <= x < 10^n, for x > 0. *)
Definition dec_exp (x : Q) : Z :=
  if Qle_bool 1 x then Z.of_nat (length (digits_of (Qfloor x)))
  else 1 - Z.of_nat (length (digits_of (Qceiling (/ x) - 1))).

(** A decimal with significand [s] and scale [j] reads back as [x]. *)
Definition reads_back (x : Q) (s j : Z) : bool :=
  Qeq_bool (rnd (inject_Z s * p10 j)) x.

(** The [k]-digit significand that reads back as [x], the closest one when two do. *)
Definition shortest_at (x : Q) (n k : Z) : option Z :=
  let y := (x / p10 (n - k))%Q in
  let lo := Qfloor y in
  let hi := Qceiling y in
  match reads_back x lo (n - k), reads_back x hi (n - k) with
  | true, true =>
      match Qcompare (y - inject_Z lo) (inject_Z hi - y) with
      | Lt => Some lo
      | Gt => Some hi
      | Eq => if Z.even lo then Some lo else Some hi
      end
  | true, false => Some lo
  | false, true => Some hi
  | false, false => None
  end.

(** The fewest digits that identify [x]; 17 always do for a double. *)
Fixpoint shortest (fuel : nat) (x : Q) (n k : Z) : Z * Z :=
  match fuel with
  | O => (Qfloor (x / p10 (n - k)), k)
  | S fuel' =>
      match shortest_at x n k with
      | Some s => (s, k)
      | None => shortest fuel' x n (k + 1)
      end
  end.

Definition zeros (n : Z) : jsstr := replicate (Z.to_nat n) 48.

(** Layout of the digits [ds] with the decimal point after position [n]. *)
Definition layout (ds : jsstr) (n : Z) : jsstr :=
  let k := Z.of_nat (length ds) in
  if (k <=? n) && (n <=? 21) then ds ++ zeros (n - k)
  else if (0 <? n) && (n <=? 21) then
    take (Z.to_nat n) ds ++ 46 :: drop (Z.to_nat n) ds
  else if (-6 <? n) && (n <=? 0) then 48 :: 46 :: zeros (- n) ++ ds
  else
    let e := n - 1 in
    let mant := match ds with [d] => [d] | d :: r => d :: 46 :: r | [] => [] end in
    mant ++ 101 :: (if e <? 0 then 45 else 43) :: digits_of (Z.abs e).

Definition pos_to_string (x : Q) : jsstr :=
  let n := dec_exp x in
  let '(s, k) := shortest 17 x n 1 in
  if s =? 10 ^ k then layout (digits_of (10 ^ (k - 1))) (n + 1)
  else layout (digits_of s) n.

(** [String(a)] *)
Definition num_to_string (a : num) : jsstr :=
  match a with
  | NaN => u "NaN"
  | Inf s => if s then u "-Infinity" else u "Infinity"
  | Zero _ => u "0"
  | Fin q => if Qltb q 0 then 45 :: pos_to_string (- q) else pos_to_string q
  end.

(** The decimal digits of [n] with a point before the last [f] of them. *)
Definition fixed_digits (f n : Z) : jsstr :=
  let ds := digits_of n in
  let ds := zeros (f + 1 - Z.of_nat (length ds)) ++ ds in
  let i := Z.to_nat (Z.of_nat (length ds) - f) in
  if f =? 0 then ds else take i ds ++ 46 :: drop i ds.

(** [a.toFixed(f)] *)
Definition to_fixed (f : Z) (a : num) : jsstr :=
  match val a with
  | None => num_to_string a
  | Some q =>
      if Qle_bool (p10 21) (Qabs q) then num_to_string a
      else
        (if Qltb q 0 then [45] else [])
        ++ fixed_digits f (Qfloor (Qabs q * p10 f + (1 # 2)))
  end.

(** ** Reading *)

(** An unsigned decimal literal at the head of [s]: the integer made of its
    digits, the scale, and the rest of the string. *)
Definition scan_unsigned (s : jsstr) : option (Z * Z * jsstr) :=
  let '(ip, r) := span is_digit s in
  let '(fp, r) :=
    match r with
    | 46 :: r' =>
        let '(fp, r'') := span is_digit r' in
        if bool_decide (ip = []) && bool_decide (fp = []) then ([], r) else (fp, r'')
    | _ => ([], r)
    end in
  if bool_decide (ip = []) && bool_decide (fp = []) then None
  else
    let '(e, r) :=
      match r with
      | c :: r' =>
          if (c =? 101) || (c =? 69) then
            let '(sg, r'') :=
              match r' with
              | 43 :: r'' => (1, r'')
              | 45 :: r'' => (-1, r'')
              | _ => (1, r')
              end in
            let '(ed, r3) := span is_digit r'' in
            if bool_decide (ed = []) then (0, r) else (sg * digits_value ed, r3)
          else (0, r)
      | [] => (0, r)
      end in
    Some (digits_value (ip ++ fp), e - Z.of_nat (length fp), r).

(** A signed decimal literal or [Infinity] at the head of [s]. *)
Definition scan_decimal (s : jsstr) : option (num * jsstr) :=
  let '(sg, r) :=
    match s with
    | 43 :: r => (false, r)
    | 45 :: r => (true, r)
    | _ => (false, s)
    end in
  if startsWith (u "Infinity") r then Some (Inf sg, drop 8 r)
  else
    match scan_unsigned r with
    | None => None
    | Some (m, e, r') =>
        let q := (inject_Z m * p10 e)%Q in
        Some (to_num sg (if sg then - q else q)%Q, r')
    end.

Definition digit_of_base (b c : Z) : option Z :=
  let d :=
    if is_digit c then c - 48
    else if (97 <=? c) && (c <=? 122) then c - 87
    else if (65 <=? c) && (c <=? 90) then c - 55
    else b in
  if d <? b then Some d else None.

Fixpoint base_value (b acc : Z) (s : jsstr) : option Z :=
  match s with
  | [] => Some acc
  | c :: s' =>
      match digit_of_base b c with
      | Some d => base_value b (acc * b + d) s'
      | None => None
      end
  end.

Definition based_literal (b : Z) (s : jsstr) : num :=
  match s with
  | [] => NaN
  | _ => match base_value b 0 s with Some n => of_Z n | None => NaN end
  end.

(** [Number(s)] of a string *)
Definition string_to_num (s : jsstr) : num :=
  match trim s with
  | [] => Zero false
  | 48 :: c :: r =>
      if (c =? 120) || (c =? 88) then based_literal 16 r
      else if (c =? 111) || (c =? 79) then based_literal 8 r
      else if (c =? 98) || (c =? 66) then based_literal 2 r
      else match scan_decimal (48 :: c :: r) with Some (n, []) => n | _ => NaN end
  | t => match scan_decimal t with Some (n, []) => n | _ => NaN end
  end.

(** [parseFloat(s)] *)
Definition parse_float (s : jsstr) : num :=
  match scan_decimal (trimStart s) with Some (n, _) => n | None => NaN end.

(** [parseInt(s, 10)] *)
Definition parse_int (s : jsstr) : num :=
  let '(sg, r) :=
    match trimStart s with
    | 43 :: r => (false, r)
    | 45 :: r => (true, r)
    | r => (false, r)
    end in
  match takeWhile is_digit r with
  | [] => NaN
  | ds => to_num sg (inject_Z (if sg then - digits_value ds else digits_value ds))
  end.

(** ** Printing a safe integer prints its decimal digits *)

Lemma p10_Z e : 0 <= e -> (p10 e == inject_Z (10 ^ e))%Q.
Proof. intros H. unfold p10. by rewrite <- (Zpower_Qpower 10 e H). Qed.

Lemma Qfloor_int n : Qfloor (inject_Z n) = n.
Proof. apply Qfloor_Z. Qed.

Lemma reads_back_int n s j :
  0 <= j -> 0 <= s -> 0 < n < 2 ^ 53 ->
  reads_back (inject_Z n) s j = (s * 10 ^ j =? n).
Proof.
  intros Hj Hs Hn. unfold reads_back.
  assert (inject_Z s * p10 j == inject_Z (s * 10 ^ j))%Q as E
    by (by rewrite p10_Z, inject_Z_mult).
  pose proof (Z.pow_pos_nonneg 10 j ltac:(lia) Hj).
  apply eq_true_iff_eq. rewrite Qeq_bool_iff, E, Z.eqb_eq.
  destruct (Z.le_gt_cases (s * 10 ^ j) (2 ^ 53)) as [Hle|Hgt].
  - rewrite rnd_exact by (apply is_double_int; nia). apply inject_Z_injective.
  - split; [|lia]. intros Hr.
    assert (inject_Z (2 ^ 53) <= rnd (inject_Z (s * 10 ^ j)))%Q as Hge.
    { apply rnd_ge; [apply is_double_int; lia | rewrite <- Zle_Qle; lia]. }
    rewrite Hr, <- Zle_Qle in Hge. lia.
Qed.

Lemma Qfloor_div n d : 0 < d -> Qfloor (inject_Z n / inject_Z d) = n / d.
Proof.
  intros Hd. unfold Qdiv, Qinv. simpl. destruct d as [|d|d]; [lia| |lia].
  simpl. by rewrite Z.mul_1_r.
Qed.

Lemma shortest_at_int n m k :
  0 < n < 2 ^ 53 -> k <= m ->
  shortest_at (inject_Z n) m k
  = if n mod 10 ^ (m - k) =? 0 then Some (n / 10 ^ (m - k)) else None.
Proof.
  intros Hn Hk. unfold shortest_at.
  pose proof (Z.pow_pos_nonneg 10 (m - k) ltac:(lia) ltac:(lia)) as Hd.
  set (d := 10 ^ (m - k)) in *.
  assert (inject_Z n / p10 (m - k) == inject_Z n / inject_Z d)%Q as E
    by (by rewrite p10_Z by lia).
  assert (Qfloor (inject_Z n / p10 (m - k)) = n / d) as Ef
    by (rewrite E; by apply Qfloor_div).
  assert (Qceiling (inject_Z n / p10 (m - k)) = - (- n / d)) as Ec.
  { unfold Qceiling. f_equal. rewrite E. rewrite <- Qfloor_div by done. apply Qfloor_comp.
    rewrite inject_Z_opp. field. intros H0. apply (proj1 (inject_Z_injective d 0)) in H0. lia. }
  rewrite Ef, Ec. assert (0 <= n / d) by (apply Z.div_pos; lia).
  pose proof (Z.div_mod n d ltac:(lia)). pose proof (Z.mod_pos_bound n d Hd).
  destruct (Z.eqb_spec (n mod d) 0) as [Hm|Hm].
  - rewrite Z.div_opp_l_z by lia. rewrite Z.opp_involutive.
    rewrite !reads_back_int by lia. fold d. destruct (Z.eqb_spec (n / d * d) n); [|lia].
    destruct (Qcompare _ _); [|done|done]. by destruct (Z.even _).
  - rewrite Z.div_opp_l_nz by lia.
    rewrite !reads_back_int by lia. fold d.
    destruct (Z.eqb_spec (n / d * d) n); [lia|].
    destruct (Z.eqb_spec (- (- (n / d) - 1) * d) n); [nia | done].
Qed.

Lemma shortest_int fuel n m k :
  0 < n < 2 ^ 53 -> k <= m -> m - k < Z.of_nat fuel ->
  exists k', k <= k' <= m /\ n mod 10 ^ (m - k') = 0 /\
    shortest fuel (inject_Z n) m k = (n / 10 ^ (m - k'), k').
Proof.
  intros Hn. revert k. induction fuel as [|fuel IH]; intros k Hk Hf; [lia|]. simpl.
  rewrite shortest_at_int by done.
  destruct (Z.eqb_spec (n mod 10 ^ (m - k)) 0) as [E|NE]; [by exists k|].
  assert (k <> m).
  { intros ->. rewrite Z.sub_diag in NE. simpl in NE. rewrite Z.mod_1_r in NE. lia. }
  destruct (IH (k + 1) ltac:(lia) ltac:(lia)) as (k' & ? & ? & ?).
  exists k'. split_and!; [lia..| |]; done.
Qed.

Lemma pos_to_string_int n : 0 < n < 2 ^ 53 -> pos_to_string (inject_Z n) = digits_of n.
Proof.
  intros Hn. unfold pos_to_string, dec_exp.
  assert (Qle_bool 1 (inject_Z n) = true) as ->.
  { apply Qle_bool_iff. change 1%Q with (inject_Z 1). rewrite <- Zle_Qle. lia. }
  rewrite Qfloor_int. pose proof (digits_of_bounds n ltac:(lia)) as Hb.
  set (m := Z.of_nat (length (digits_of n))) in *.
  assert (1 <= m).
  { destruct (Z.le_gt_cases 1 m); [done|]. destruct (digits_of_spec n ltac:(lia)) as [Hne _].
    destruct (digits_of n); [done | unfold m in *; simpl in *; lia]. }
  assert (m <= 16).
  { destruct (Z.le_gt_cases m 16); [done|].
    pose proof (Z.pow_le_mono_r 10 16 (m - 1) ltac:(lia) ltac:(lia)). lia. }
  destruct (shortest_int 17 n m 1 Hn ltac:(lia) ltac:(lia)) as (k & Hk & Hmod & ->).
  pose proof (Z.pow_pos_nonneg 10 (m - k) ltac:(lia) ltac:(lia)) as Hd.
  set (s := n / 10 ^ (m - k)) in *.
  assert (n = s * 10 ^ (m - k)) as En.
  { pose proof (Z.div_mod n (10 ^ (m - k))). unfold s. lia. }
  assert (10 ^ m = 10 ^ k * 10 ^ (m - k)) as Epow.
  { rewrite <- Z.pow_add_r by lia. f_equal. lia. }
  assert (10 ^ (m - 1) = 10 ^ (k - 1) * 10 ^ (m - k)) as Epow1.
  { rewrite <- Z.pow_add_r by lia. f_equal. lia. }
  assert (10 ^ (k - 1) <= s < 10 ^ k) as Hs by nia.
  pose proof (Z.pow_pos_nonneg 10 (k - 1) ltac:(lia) ltac:(lia)).
  destruct (Z.eqb_spec s (10 ^ k)); [lia|].
  assert (Z.of_nat (length (digits_of n)) = Z.of_nat (length (digits_of s)) + (m - k)) as Hlen.
  { rewrite En. replace (m - k) with (Z.of_nat (Z.to_nat (m - k))) at 1 by lia.
    rewrite digits_of_mul_pow10, length_app, length_replicate by lia. lia. }
  fold m in Hlen. clearbody s. unfold layout.
  replace (Z.of_nat (length (digits_of s))) with k by lia.
  destruct (Z.leb_spec k m); [|lia]. destruct (Z.leb_spec m 21); [|lia]. simpl.
  symmetry. unfold zeros. rewrite <- digits_of_mul_pow10 by lia.
  rewrite Z2Nat.id by lia. congruence.
Qed.

(** [String(n)] of a safe integer. *)
Lemma num_to_string_int n : Z.abs n < 2 ^ 53 -> num_to_string (of_Z n) = str_of_Z n.
Proof.
  intros Hn. rewrite of_Z_safe by lia. unfold str_of_Z.
  destruct (Z.eqb_spec n 0) as [->|H0]; [done|]. simpl.
  assert (Qltb (inject_Z n) 0 = (n <? 0)) as ->.
  { apply eq_true_iff_eq. rewrite Qltb_lt, Z.ltb_lt. change 0%Q with (inject_Z 0).
    by rewrite <- Zlt_Qlt. }
  destruct (Z.ltb_spec n 0).
  - change (- inject_Z n)%Q with (inject_Z (- n)). by rewrite pos_to_string_int by lia.
  - apply pos_to_string_int. lia.
Qed.

Lemma digit_cases c :
  is_digit c = true ->
  c = 48 \/ c = 49 \/ c = 50 \/ c = 51 \/ c = 52 \/ c = 53 \/ c = 54 \/ c = 55 \/ c = 56 \/ c = 57.
Proof. unfold is_digit. rewrite andb_true_iff, !Z.leb_le. lia. Qed.

(** Reading a string of digits. *)
Lemma parse_int_digits s :
  s <> [] -> forallb is_digit s = true -> parse_int s = of_Z (digits_value s).
Proof.
  intros Hne Hd. unfold parse_int, trimStart.
  assert (takeWhile is_digit s = s) as Ht.
  { unfold takeWhile. rewrite <- (app_nil_r s) at 1. by rewrite span_prefix. }
  destruct s as [|c s]; [done|]. simpl in Hd. apply andb_true_iff in Hd as [Hc Hd].
  rewrite dropWhile_none by (by apply digit_not_space).
  apply digit_cases in Hc.
  destruct_or! Hc; subst c; cbv beta iota; rewrite Ht; reflexivity.
Qed.

Lemma digits_value_nonneg s : forallb is_digit s = true -> 0 <= digits_value s.
Proof.
  unfold digits_value. intros H.
  assert (forall a, 0 <= a -> 0 <= fold_left (fun acc c => acc * 10 + (c - 48)) s a) as Hf; [|by apply Hf].
  induction s as [|c s IH]; intros a Ha; cbn [fold_left]; [done|]. cbn [forallb] in H. bool_simp.
  unfold is_digit in *. bool_simp. apply IH; [done | lia].
Qed.

(** ** Printing and reading integers *)

(** A decimal literal that starts with a digit. *)
Lemma scan_decimal_digit c s :
  is_digit c = true ->
  scan_decimal (c :: s)
  = match scan_unsigned (c :: s) with
    | None => None
    | Some (m, e, r) => Some (to_num false (inject_Z m * p10 e)%Q, r)
    end.
Proof.
  intros Hr%digit_cases. unfold scan_decimal.
  destruct_or! Hr; subst c; cbv beta iota;
    (destruct (scan_unsigned _) as [[[m e] r]|]; reflexivity).
Qed.

Lemma digits_span ds rest :
  forallb is_digit ds = true -> match rest with [] => True | x :: _ => is_digit x = false end ->
  span is_digit (ds ++ rest) = (ds, rest).
Proof. apply span_prefix. Qed.

Lemma scan_unsigned_digits ds :
  ds <> [] -> forallb is_digit ds = true -> scan_unsigned ds = Some (digits_value ds, 0, []).
Proof.
  intros Hne Hd. unfold scan_unsigned. rewrite <- (app_nil_r ds) at 1. rewrite digits_span by done.
  rewrite bool_decide_false by done. simpl. by rewrite app_nil_r.
Qed.

Lemma scan_unsigned_fixed ds fs :
  ds <> [] -> forallb is_digit ds = true -> forallb is_digit fs = true ->
  scan_unsigned (ds ++ 46 :: fs) = Some (digits_value (ds ++ fs), - Z.of_nat (length fs), []).
Proof.
  intros Hne Hd Hf. unfold scan_unsigned. rewrite digits_span by done. cbv beta iota.
  rewrite <- (app_nil_r fs) at 1. rewrite digits_span by done.
  rewrite bool_decide_false by done. cbn [andb]. done.
Qed.

(** [Number(s)] of a string of digits. *)
Lemma string_to_num_digits s :
  s <> [] -> forallb is_digit s = true -> string_to_num s = of_Z (digits_value s).
Proof.
  intros Hne Hd. unfold string_to_num.
  assert (trim s = s) as ->.
  { apply trim_trimmed_id. by apply (forallb_trimmed is_digit); [apply digit_not_space|]. }
  pose proof (scan_unsigned_digits s Hne Hd) as E. destruct s as [|c s]; [done|].
  simpl in Hd. apply andb_true_iff in Hd as [Hc Hd].
  assert (scan_decimal (c :: s) = Some (of_Z (digits_value (c :: s)), [])) as Hs.
  { rewrite scan_decimal_digit, E by done. do 2 f_equal. apply to_num_ext.
    unfold p10. simpl. apply Qmult_1_r. }
  destruct s as [|d s].
  { apply digit_cases in Hc. destruct_or! Hc; subst c; cbv beta iota; by rewrite Hs. }
  assert ((d =? 120) || (d =? 88) = false /\ (d =? 111) || (d =? 79) = false
          /\ (d =? 98) || (d =? 66) = false) as (E1 & E2 & E3).
  { simpl in Hd. apply andb_true_iff in Hd as [Hdd _]. unfold is_digit in Hdd.
    rewrite andb_true_iff, !Z.leb_le in Hdd. rewrite !orb_false_iff, !Z.eqb_neq. lia. }
  apply digit_cases in Hc.
  destruct_or! Hc; subst c; cbv beta iota; rewrite ?E1, ?E2, ?E3; by rewrite Hs.
Qed.

Lemma replicate_digits j : forallb is_digit (replicate j 48) = true.
Proof. induction j; simpl; auto. Qed.

(** [n.toFixed(f)] of a natural number. *)
Lemma fixed_digits_int f n :
  0 <= n -> fixed_digits (Z.of_nat (S f)) (n * 10 ^ Z.of_nat (S f))
            = digits_of n ++ 46 :: replicate (S f) 48.
Proof.
  intros Hn. unfold fixed_digits. rewrite (proj2 (Z.eqb_neq _ 0)) by lia.
  assert (zeros (Z.of_nat (S f) + 1 - Z.of_nat (length (digits_of (n * 10 ^ Z.of_nat (S f)))))
          ++ digits_of (n * 10 ^ Z.of_nat (S f)) = digits_of n ++ replicate (S f) 48) as ->.
  { destruct (Z.eq_dec n 0) as [->|].
    - rewrite Z.mul_0_l. change (digits_of 0) with [48]. unfold zeros.
      replace (Z.to_nat _) with (S f) by (simpl length; lia).
      change (48 :: replicate (S f) 48) with (replicate (S (S f)) 48).
      change [48] with (replicate 1 48). by rewrite <- replicate_add, Nat.add_comm.
    - rewrite digits_of_mul_pow10 by lia. rewrite length_app, length_replicate.
      destruct (digits_of_spec n Hn) as (Hne & _ & _).
      assert (0 < length (digits_of n))%nat by (destruct (digits_of n); [done | simpl; lia]).
      unfold zeros. replace (Z.to_nat _) with O by lia. done. }
  rewrite length_app, length_replicate.
  replace (Z.to_nat _) with (length (digits_of n)) by lia.
  by rewrite take_app_length, drop_app_length.
Qed.

(** [parseFloat(n.toFixed(f))] of a natural number below 2^53. *)
Lemma parse_float_fixed_int f n :
  0 <= n < 2 ^ 53 -> parse_float (to_fixed (Z.of_nat (S f)) (of_Z n)) = of_Z n.
Proof.
  intros Hn. unfold to_fixed. rewrite val_of_Z by lia.
  assert (Qle_bool (p10 21) (Qabs (inject_Z n)) = false) as ->.
  { apply not_true_is_false. rewrite Qle_bool_iff.
    change (Qabs (inject_Z n)) with (inject_Z (Z.abs n)).
    rewrite p10_Z, <- Zle_Qle by lia. lia. }
  assert (Qltb (inject_Z n) 0 = false) as ->.
  { apply Qltb_ge. change 0%Q with (inject_Z 0). rewrite <- Zle_Qle. lia. }
  assert (Qfloor (Qabs (inject_Z n) * p10 (Z.of_nat (S f)) + (1 # 2)) = n * 10 ^ Z.of_nat (S f)) as ->.
  { rewrite p10_Z by lia. change (Qabs (inject_Z n)) with (inject_Z (Z.abs n)).
    rewrite Z.abs_eq, <- inject_Z_mult by lia. set (m := n * _). clearbody m.
    pose proof (Qfloor_spec (inject_Z m + (1 # 2))) as [H1 H2].
    set (k := Qfloor _) in *. clearbody k.
    apply Z.le_antisymm.
    - apply inject_Z_lt_succ. lra.
    - apply inject_Z_lt_succ. lra. }
  rewrite app_nil_l, fixed_digits_int by lia.
  destruct (digits_of_spec n) as (Hne & Hd & Hv); [lia|].
  unfold parse_float, trimStart. destruct (digits_of n) as [|c ds] eqn:E; [done|].
  cbn [forallb] in Hd. apply andb_true_iff in Hd as [Hc Hd].
  change ((c :: ds) ++ 46 :: replicate (S f) 48) with (c :: (ds ++ 46 :: replicate (S f) 48)).
  rewrite dropWhile_none by (by apply digit_not_space).
  rewrite scan_decimal_digit by done.
  change (c :: (ds ++ 46 :: replicate (S f) 48)) with ((c :: ds) ++ 46 :: replicate (S f) 48).
  rewrite scan_unsigned_fixed by (done || (cbn [forallb]; by rewrite ?Hc, ?Hd) || apply replicate_digits).
  apply to_num_ext. rewrite length_replicate.
  assert (digits_value ((c :: ds) ++ replicate (S f) 48) = n * 10 ^ Z.of_nat (S f)) as ->.
  { rewrite <- E. destruct (Z.eq_dec n 0) as [->|].
    - rewrite Z.mul_0_l. change (digits_of 0) with [48]. rewrite digits_value_app.
      unfold digits_value. simpl. clear. induction f as [|f IH]; [done|]. done.
    - rewrite <- digits_of_mul_pow10 by lia. apply digits_of_spec. nia. }
  rewrite inject_Z_mult. unfold p10. rewrite Qpower_opp, <- p10_Z by lia. unfold p10.
  field. apply Qpower_not_0. lra.
Qed.
