(* ===== verification/JsValue.v ===== *)
(** * JavaScript values

    The dynamically typed data the client handles: what [JSON.parse] and the
    HTTP layer deliver.  Objects list their own properties in enumeration
    order (array-index keys first, in ascending order, then the others in
    insertion order).  Functions, dates and inherited properties of
    [Object.prototype] are not values of this model: no key is [__proto__], and
    no object overrides [toString] or [valueOf]. *)

From S2P Require Import Prelude JsString JsNumber JsNumText.

Inductive jsv :=
  | JUndef
  | JNull
  | JBool (b : bool)
  | JNum (n : num)
  | JStr (s : jsstr)
  | JArr (l : list jsv)
  | JObj (o : list (jsstr * jsv)).

(** ** Property tables *)

(** A canonical array index: the decimal form of an integer below 2^32 - 1. *)
Definition array_index (k : jsstr) : option Z :=
  match k with
  | [] => None
  | _ =>
      if forallb is_digit k then
        let n := digits_value k in
        if (n <? 4294967295) && bool_decide (digits_of n = k) then Some n else None
      else None
  end.

Section Props.
Context {V : Type}.

(** Insert a fresh array-index key before the first greater or ordinary key. *)
Fixpoint insert_index (n : Z) (k : jsstr) (v : V) (o : list (jsstr * V)) : list (jsstr * V) :=
  match o with
  | [] => [(k, v)]
  | (k', v') :: o' =>
      match array_index k' with
      | Some m => if m <? n then (k', v') :: insert_index n k v o' else (k, v) :: o
      | None => (k, v) :: o
      end
  end.

(** [o[k] = v] *)
Definition obj_set (k : jsstr) (v : V) (o : list (jsstr * V)) : list (jsstr * V) :=
  match om_get k o, array_index k with
  | None, Some n => insert_index n k v o
  | _, _ => om_set k v o
  end.

(** [{ ...o, ...p }] *)
Definition obj_merge (o p : list (jsstr * V)) : list (jsstr * V) :=
  fold_left (fun acc kv => obj_set kv.1 kv.2 acc) p o.

Lemma om_get_insert_index n k v o k' :
  om_get k o = None ->
  om_get k' (insert_index n k v o) = if decide (k' = k) then Some v else om_get k' o.
Proof.
  induction o as [|[k1 v1] o IH]; simpl; [done|].
  destruct (decide (k = k1)); [done|]. intros H.
  destruct (array_index k1) as [m|]; [destruct (m <? n)|]; simpl; try done.
  rewrite IH by done.
  destruct (decide (k' = k1)); subst; [by rewrite decide_False by congruence | done].
Qed.

Lemma obj_get_set k v o k' :
  om_get k' (obj_set k v o) = if decide (k' = k) then Some v else om_get k' o.
Proof.
  assert (om_get k' (om_set k v o) = if decide (k' = k) then Some v else om_get k' o) as H.
  { destruct (decide (k' = k)) as [->|]; [apply om_get_set_eq | by apply om_get_set_ne]. }
  unfold obj_set. destruct (om_get k o) eqn:E; [done|].
  destruct (array_index k); [by apply om_get_insert_index | done].
Qed.

Lemma insert_index_keys n k v o : (insert_index n k v o).*1 ≡ₚ k :: o.*1.
Proof.
  induction o as [|[k1 v1] o IH]; simpl; [done|].
  destruct (array_index k1) as [m|]; [destruct (m <? n)|]; simpl; [|done..].
  rewrite IH. constructor.
Qed.

Lemma obj_set_NoDup k v o : NoDup (o.*1) -> NoDup ((obj_set k v o).*1).
Proof.
  intros H. unfold obj_set. destruct (om_get k o) eqn:E; [auto with js|].
  destruct (array_index k); [|auto with js].
  rewrite insert_index_keys. constructor; [by apply om_get_None | done].
Qed.

Lemma elem_of_obj_set_keys k v o k' :
  k' ∈ (obj_set k v o).*1 <-> k' = k \/ k' ∈ o.*1.
Proof.
  unfold obj_set. destruct (om_get k o) eqn:E; [apply elem_of_om_keys_set|].
  destruct (array_index k); [|apply elem_of_om_keys_set].
  rewrite insert_index_keys, elem_of_cons. done.
Qed.

(** The later table wins on the keys it has. *)
Lemma obj_get_merge o p k :
  NoDup (p.*1) ->
  om_get k (obj_merge o p)
  = match om_get k p with Some v => Some v | None => om_get k o end.
Proof.
  unfold obj_merge. revert o. induction p as [|[k1 v1] p IH]; intros o Hnd; simpl; [done|].
  inversion Hnd; subst. rewrite IH by done. rewrite obj_get_set.
  destruct (decide (k = k1)) as [->|]; [|done].
  assert (om_get k1 p = None) as -> by by apply om_get_None. done.
Qed.
End Props.

(** A table rebuilt entry by entry. *)
Lemma obj_get_rebuild {V W} (f : jsstr -> V -> W) (o : list (jsstr * V)) k :
  NoDup (o.*1) ->
  om_get k (fold_left (fun acc kv => obj_set kv.1 (f kv.1 kv.2) acc) o [])
  = f k <$> om_get k o.
Proof.
  intros Hnd.
  assert (forall acc, om_get k (fold_left (fun acc kv => obj_set kv.1 (f kv.1 kv.2) acc) o acc)
    = match om_get k o with Some v => Some (f k v) | None => om_get k acc end) as H.
  { induction o as [|[k1 v1] o IH]; intros acc; simpl; [done|].
    apply NoDup_cons in Hnd as [Hk Hnd]. rewrite IH by done. rewrite obj_get_set. simpl.
    destruct (decide (k = k1)) as [->|]; [|done].
    assert (om_get k1 o = None) as -> by by apply om_get_None. done. }
  rewrite H. by destruct (om_get k o).
Qed.

Lemma obj_merge_NoDup {V} (o p : list (jsstr * V)) : NoDup (o.*1) -> NoDup ((obj_merge o p).*1).
Proof.
  unfold obj_merge. revert o. induction p as [|kv p IH]; intros o H; simpl; [done|].
  by apply IH, obj_set_NoDup.
Qed.

Lemma elem_of_keys {V} (o : list (jsstr * V)) k : k ∈ o.*1 <-> is_Some (om_get k o).
Proof.
  rewrite <- not_eq_None_Some, om_get_None. split; [tauto|].
  intros H. destruct (decide (k ∈ o.*1)); tauto.
Qed.

(** ** Coercions *)

Definition truthy (v : jsv) : bool :=
  match v with
  | JUndef | JNull => false
  | JBool b => b
  | JNum n => num_truthy n
  | JStr s => negb (bool_decide (s = []))
  | JArr _ | JObj _ => true
  end.

Definition is_nullish (v : jsv) : bool := match v with JUndef | JNull => true | _ => false end.
Definition is_object (v : jsv) : bool := match v with JArr _ | JObj _ => true | _ => false end.
Definition is_array (v : jsv) : bool := match v with JArr _ => true | _ => false end.

(** [String(v)] *)
Fixpoint to_string (v : jsv) : jsstr :=
  match v with
  | JUndef => u "undefined"
  | JNull => u "null"
  | JBool b => if b then u "true" else u "false"
  | JNum n => num_to_string n
  | JStr s => s
  | JArr l =>
      join (u ",")
        ((fix go l := match l with
          | [] => []
          | x :: l' => (if is_nullish x then [] else to_string x) :: go l'
          end) l)
  | JObj _ => u "[object Object]"
  end.

(** [Number(v)] *)
Definition to_number (v : jsv) : num :=
  match v with
  | JUndef => NaN
  | JNull => Zero false
  | JBool b => if b then of_Z 1 else Zero false
  | JNum n => n
  | JStr s => string_to_num s
  | JArr _ => string_to_num (to_string v)
  | JObj _ => NaN
  end.

(** [a || b] and [a ?? b] *)
Definition js_or (a b : jsv) : jsv := if truthy a then a else b.
Definition js_nullish (a b : jsv) : jsv := if is_nullish a then b else a.

(** [a === "..."] *)
Definition is_str (v : jsv) (s : jsstr) : bool :=
  match v with JStr t => bool_decide (t = s) | _ => false end.
Definition is_true (v : jsv) : bool := match v with JBool true => true | _ => false end.
Definition is_false (v : jsv) : bool := match v with JBool false => true | _ => false end.

(** [a === b] on values that are not objects. *)
Definition strict_eq (a b : jsv) : bool :=
  match a, b with
  | JUndef, JUndef | JNull, JNull => true
  | JBool x, JBool y => Bool.eqb x y
  | JNum x, JNum y => num_eq x y
  | JStr x, JStr y => bool_decide (x = y)
  | _, _ => false
  end.

(** [a && b], and [a + b] *)
Definition js_and (a b : jsv) : jsv := if truthy a then b else a.

Definition js_plus (a b : jsv) : jsv :=
  match a, b with
  | JStr _, _ | _, JStr _ | JArr _, _ | _, JArr _ | JObj _, _ | _, JObj _ =>
      JStr (to_string a ++ to_string b)
  | _, _ => JNum (num_add (to_number a) (to_number b))
  end.

Definition list_get (l : list jsv) (k : jsstr) : jsv :=
  match array_index k with
  | Some n => match l !! Z.to_nat n with Some w => w | None => JUndef end
  | None => if bool_decide (k = u "length") then JNum (of_Z (Z.of_nat (length l))) else JUndef
  end.

(** The characters of a string, as strings. *)
Definition chars (s : jsstr) : list jsv := (fun c => JStr [c]) <$> s.

(** [v?.k] and [v?.[k]]: own properties, and the elements and the length of
    arrays and strings. *)
Definition oget (v : jsv) (k : jsstr) : jsv :=
  match v with
  | JObj o => match om_get k o with Some w => w | None => JUndef end
  | JArr l => list_get l k
  | JStr s => list_get (chars s) k
  | _ => JUndef
  end.

Definition own_props (v : jsv) : list (jsstr * jsv) := match v with JObj o => o | _ => [] end.

(** [Object.entries(v)], and what [{ ...v }] copies. *)
Definition entries (v : jsv) : list (jsstr * jsv) :=
  match v with
  | JObj o => o
  | JArr l => mapi (fun i x => (str_of_Z i, x)) l
  | JStr s => mapi (fun i x => (str_of_Z i, x)) (chars s)
  | _ => []
  end.
Definition keys (v : jsv) : list jsstr := (entries v).*1.

Declare Scope js_scope.
Delimit Scope js_scope with js.
Notation "v ?. k" := (oget v (u k)) (at level 1, left associativity, k at level 0) : js_scope.
#[global] Open Scope js_scope.

(** ** Exceptions

    A call that may throw returns [Throw] with the message of the error. *)

Inductive exc (A : Type) :=
  | Ret (a : A)
  | Throw (msg : jsstr).
Arguments Ret {A} a.
Arguments Throw {A} msg.

Lemma Ret_inj {A} (a b : A) : Ret a = Ret b -> a = b.
Proof. congruence. Qed.

#[export] Instance exc_ret : MRet exc := @Ret.
#[export] Instance exc_bind : MBind exc := fun A B f m =>
  match m with Ret a => f a | Throw e => Throw e end.

(** [xs.map(f)] and [for (x of xs)] with a body that may throw. *)
Fixpoint exc_map {A B : Type} (f : A -> exc B) (l : list A) : exc (list B) :=
  match l with
  | [] => Ret []
  | x :: l' => y ← f x; ys ← exc_map f l'; Ret (y :: ys)
  end.

Lemma exc_map_ret {A B} (f : A -> exc B) (g : A -> B) l :
  Forall (fun x => f x = Ret (g x)) l -> exc_map f l = Ret (g <$> l).
Proof. induction 1 as [|x l Hx _ IH]; simpl; [done|]. by rewrite Hx; simpl; rewrite IH. Qed.

Lemma exc_map_fmap {A B C} (f : B -> exc C) (h : A -> B) (g : A -> C) l :
  Forall (fun x => f (h x) = Ret (g x)) l -> exc_map f (h <$> l) = Ret (g <$> l).
Proof. induction 1 as [|x l Hx _ IH]; csimpl; [done|]. by rewrite Hx; simpl; rewrite IH. Qed.

(** The receiver of a [String.prototype] method. *)
Definition as_string (v : jsv) : exc jsstr :=
  match v with JStr s => Ret s | _ => Throw (u "TypeError") end.

(** The elements of [(v || [])] when [v] is an array or falsy. *)
Definition arr_or_empty (v : jsv) : list jsv := match v with JArr l => l | _ => [] end.

Lemma is_str_iff v s : is_str v s = true <-> v = JStr s.
Proof.
  destruct v; simpl; try (split; congruence).
  rewrite bool_decide_eq_true. split; congruence.
Qed.

Lemma truthy_or a b : truthy (js_or a b) = truthy a || truthy b.
Proof. unfold js_or. destruct (truthy a) eqn:E; simpl; congruence. Qed.

#[export] Hint Rewrite @obj_get_set : jsrw.
