(* ===== verification/JsJson.v ===== *)
(** * JSON

    [JSON.stringify] (compact and with an indentation of two) and
    [JSON.parse], with the round trip of strings. *)

From S2P Require Import Prelude JsString JsNumber JsNumText JsValue.

(** ** Printing *)

Definition hex_digit (n : Z) : Z := if n <? 10 then 48 + n else 87 + n.

Definition hex4 (c : Z) : jsstr :=
  [hex_digit (c / 4096 mod 16); hex_digit (c / 256 mod 16);
   hex_digit (c / 16 mod 16); hex_digit (c mod 16)].

Definition is_high_surrogate (c : Z) : bool := (55296 <=? c) && (c <=? 56319).
Definition is_low_surrogate (c : Z) : bool := (56320 <=? c) && (c <=? 57343).

(** The escape of a code unit that is not part of a surrogate pair. *)
Definition escape_unit (c : Z) : jsstr :=
  if c =? 34 then [92; 34]
  else if c =? 92 then [92; 92]
  else if c =? 8 then [92; 98]
  else if c =? 12 then [92; 102]
  else if c =? 10 then [92; 110]
  else if c =? 13 then [92; 114]
  else if c =? 9 then [92; 116]
  else if (c <? 32) || is_high_surrogate c || is_low_surrogate c then 92 :: 117 :: hex4 c
  else [c].

Fixpoint escape (s : jsstr) : jsstr :=
  match s with
  | [] => []
  | c :: s' =>
      if is_high_surrogate c then
        match s' with
        | d :: s'' => if is_low_surrogate d then c :: d :: escape s''
                      else escape_unit c ++ escape s'
        | [] => escape_unit c
        end
      else escape_unit c ++ escape s'
  end.

(** [JSON.stringify(s)] of a string *)
Definition quote (s : jsstr) : jsstr := 34 :: escape s ++ [34].

(** [JSON.stringify(v)]; [None] is the undefined result. *)
Fixpoint stringify (v : jsv) : option jsstr :=
  match v with
  | JUndef => None
  | JNull => Some (u "null")
  | JBool b => Some (if b then u "true" else u "false")
  | JNum n => Some (if is_finite n then num_to_string n else u "null")
  | JStr s => Some (quote s)
  | JArr l =>
      let items := (fix go l := match l with
        | [] => []
        | x :: l' => (match stringify x with Some t => t | None => u "null" end) :: go l'
        end) l in
      Some (u "[" ++ join (u ",") items ++ u "]")
  | JObj o =>
      let items := (fix go o := match o with
        | [] => []
        | (k, x) :: o' =>
            match stringify x with
            | Some t => (quote k ++ u ":" ++ t) :: go o'
            | None => go o'
            end
        end) o in
      Some (u "{" ++ join (u ",") items ++ u "}")
  end.

(** [JSON.stringify(v, null, 2)] at nesting depth [d]. *)
Fixpoint stringify2 (d : nat) (v : jsv) : option jsstr :=
  let nl (d : nat) := 10 :: replicate (2 * d) 32 in
  match v with
  | JArr l =>
      let items := (fix go l := match l with
        | [] => []
        | x :: l' => (match stringify2 (S d) x with Some t => t | None => u "null" end) :: go l'
        end) l in
      Some (match items with
            | [] => u "[]"
            | _ => u "[" ++ nl (S d) ++ join (u "," ++ nl (S d)) items ++ nl d ++ u "]"
            end)
  | JObj o =>
      let items := (fix go o := match o with
        | [] => []
        | (k, x) :: o' =>
            match stringify2 (S d) x with
            | Some t => (quote k ++ u ": " ++ t) :: go o'
            | None => go o'
            end
        end) o in
      Some (match items with
            | [] => u "{}"
            | _ => u "{" ++ nl (S d) ++ join (u "," ++ nl (S d)) items ++ nl d ++ u "}"
            end)
  | _ => stringify v
  end.

(** ** Reading *)

Definition json_space (c : Z) : bool := (c =? 32) || (c =? 9) || (c =? 10) || (c =? 13).
Definition skip_ws (s : jsstr) : jsstr := dropWhile json_space s.

Definition hex_value (c : Z) : option Z := digit_of_base 16 c.

Definition hex4_value (a b c d : Z) : option Z :=
  x ← hex_value a; y ← hex_value b; z ← hex_value c; w ← hex_value d;
  Some (x * 4096 + y * 256 + z * 16 + w).

Definition simple_escape (c : Z) : option Z :=
  if c =? 34 then Some 34 else if c =? 92 then Some 92 else if c =? 47 then Some 47
  else if c =? 98 then Some 8 else if c =? 102 then Some 12 else if c =? 110 then Some 10
  else if c =? 114 then Some 13 else if c =? 116 then Some 9 else None.

(** The rest of a string literal after its opening quote. *)
Fixpoint scan_string (s : jsstr) : option (jsstr * jsstr) :=
  match s with
  | [] => None
  | c :: s' =>
      if c =? 34 then Some ([], s')
      else if c =? 92 then
        match s' with
        | [] => None
        | e :: s'' =>
            if e =? 117 then
              match s'' with
              | a :: b :: c' :: d :: r =>
                  match hex4_value a b c' d, scan_string r with
                  | Some x, Some (t, r') => Some (x :: t, r')
                  | _, _ => None
                  end
              | _ => None
              end
            else match simple_escape e, scan_string s'' with
                 | Some x, Some (t, r) => Some (x :: t, r)
                 | _, _ => None
                 end
        end
      else if c <? 32 then None
      else match scan_string s' with
           | Some (t, r) => Some (c :: t, r)
           | None => None
           end
  end.

(** A JSON number: no leading zeros, digits on both sides of the point. *)
Definition scan_number (s : jsstr) : option (num * jsstr) :=
  let '(sg, r) := match s with 45 :: r => (true, r) | _ => (false, s) end in
  let '(ip, r1) := span is_digit r in
  match ip with
  | [] => None
  | d :: ds =>
      if (d =? 48) && negb (bool_decide (ds = [])) then None
      else
        let frac :=
          match r1 with
          | 46 :: r2 =>
              match span is_digit r2 with
              | ([], _) => None
              | (fp, r3) => Some (fp, r3)
              end
          | _ => Some ([], r1)
          end in
        match frac with
        | None => None
        | Some (fp, r3) =>
            let ex :=
              match r3 with
              | c :: r4 =>
                  if (c =? 101) || (c =? 69) then
                    let '(esg, r5) :=
                      match r4 with
                      | 43 :: r5 => (1, r5)
                      | 45 :: r5 => (-1, r5)
                      | _ => (1, r4)
                      end in
                    match span is_digit r5 with
                    | ([], _) => None
                    | (ed, r6) => Some (esg * digits_value ed, r6)
                    end
                  else Some (0, r3)
              | [] => Some (0, r3)
              end in
            match ex with
            | None => None
            | Some (e, r6) =>
                let q := QArith_base.Qmult (QArith_base.inject_Z (digits_value (ip ++ fp)))
                           (p10 (e - Z.of_nat (length fp))) in
                Some (to_num sg (if sg then QArith_base.Qopp q else q), r6)
            end
        end
  end.

Fixpoint parse_value (fuel : nat) (s : jsstr) {struct fuel} : option (jsv * jsstr) :=
  match fuel with
  | O => None
  | S fuel' =>
      match skip_ws s with
      | [] => None
      | c :: r =>
          if c =? 34 then
            match scan_string r with Some (t, r') => Some (JStr t, r') | None => None end
          else if c =? 91 then
            match skip_ws r with
            | 93 :: r' => Some (JArr [], r')
            | _ => parse_elems fuel' r []
            end
          else if c =? 123 then
            match skip_ws r with
            | 125 :: r' => Some (JObj [], r')
            | _ => parse_members fuel' r []
            end
          else if startsWith (u "null") (c :: r) then Some (JNull, drop 4 (c :: r))
          else if startsWith (u "true") (c :: r) then Some (JBool true, drop 4 (c :: r))
          else if startsWith (u "false") (c :: r) then Some (JBool false, drop 5 (c :: r))
          else match scan_number (c :: r) with
               | Some (n, r') => Some (JNum n, r')
               | None => None
               end
      end
  end
with parse_elems (fuel : nat) (s : jsstr) (acc : list jsv) {struct fuel} : option (jsv * jsstr) :=
  match fuel with
  | O => None
  | S fuel' =>
      match parse_value fuel' s with
      | None => None
      | Some (v, r) =>
          match skip_ws r with
          | 44 :: r' => parse_elems fuel' r' (acc ++ [v])
          | 93 :: r' => Some (JArr (acc ++ [v]), r')
          | _ => None
          end
      end
  end
with parse_members (fuel : nat) (s : jsstr) (acc : list (jsstr * jsv)) {struct fuel}
  : option (jsv * jsstr) :=
  match fuel with
  | O => None
  | S fuel' =>
      match skip_ws s with
      | 34 :: r =>
          match scan_string r with
          | None => None
          | Some (k, r1) =>
              match skip_ws r1 with
              | 58 :: r2 =>
                  match parse_value fuel' r2 with
                  | None => None
                  | Some (v, r3) =>
                      match skip_ws r3 with
                      | 44 :: r4 => parse_members fuel' r4 (obj_set k v acc)
                      | 125 :: r4 => Some (JObj (obj_set k v acc), r4)
                      | _ => None
                      end
                  end
              | _ => None
              end
          end
      | _ => None
      end
  end.

(** [JSON.parse(s)]; [None] is the SyntaxError.  Every call consumes a code
    unit for every two units of fuel. *)
Definition json_parse (s : jsstr) : option jsv :=
  match parse_value (2 * length s + 2) s with
  | Some (v, r) => if bool_decide (skip_ws r = []) then Some v else None
  | None => None
  end.

(** ** Strings round trip *)

Definition unit_ok (c : Z) : Prop := 0 <= c <= 65535.

Lemma hex_value_digit n : 0 <= n < 16 -> hex_value (hex_digit n) = Some n.
Proof.
  intros H. assert (n ∈ seqZ 0 16) as Hin by (apply elem_of_seqZ; lia). revert Hin.
  generalize n. apply Forall_forall. repeat constructor.
Qed.

Lemma hex4_roundtrip c : unit_ok c ->
  hex4_value (hex_digit (c / 4096 mod 16)) (hex_digit (c / 256 mod 16))
             (hex_digit (c / 16 mod 16)) (hex_digit (c mod 16)) = Some c.
Proof.
  unfold unit_ok. intros H. unfold hex4_value.
  rewrite !hex_value_digit by (apply Z.mod_pos_bound; lia). simpl. f_equal.
  assert (c / 256 = c / 16 / 16) as -> by (by rewrite Z.div_div by lia).
  assert (c / 4096 = c / 16 / 16 / 16) as ->
    by (by rewrite (Z.div_div (c / 16)), Z.div_div by lia).
  assert (0 <= c / 16 / 16 / 16 < 16).
  { split; [repeat apply Z.div_pos; lia|].
    rewrite !Z.div_div by lia. apply Z.div_lt_upper_bound; lia. }
  rewrite (Z.mod_small (c / 16 / 16 / 16)) by lia.
  pose proof (Z.div_mod c 16 ltac:(lia)) as E1.
  pose proof (Z.div_mod (c / 16) 16 ltac:(lia)) as E2.
  pose proof (Z.div_mod (c / 16 / 16) 16 ltac:(lia)) as E3. lia.
Qed.

Lemma scan_string_plain c s t r :
  32 <= c -> c <> 34 -> c <> 92 -> scan_string s = Some (t, r) ->
  scan_string (c :: s) = Some (c :: t, r).
Proof.
  intros H1 H2 H3 H. simpl. rewrite H.
  destruct (Z.eqb_spec c 34); [done|]. destruct (Z.eqb_spec c 92); [done|].
  destruct (Z.ltb_spec c 32); [lia | done].
Qed.

Lemma scan_string_escape_unit c s t r :
  unit_ok c -> scan_string s = Some (t, r) ->
  scan_string (escape_unit c ++ s) = Some (c :: t, r).
Proof.
  intros Hc H. unfold escape_unit.
  repeat match goal with
  | |- context [if ?a =? ?b then _ else _] =>
      destruct (Z.eqb_spec a b); [subst; simpl; by rewrite H|]
  end.
  destruct ((c <? 32) || _ || _) eqn:E.
  - unfold hex4.
    change (scan_string ((92 :: 117 :: [hex_digit (c / 4096 mod 16);
      hex_digit (c / 256 mod 16); hex_digit (c / 16 mod 16); hex_digit (c mod 16)]) ++ s))
      with (match hex4_value (hex_digit (c / 4096 mod 16)) (hex_digit (c / 256 mod 16))
             (hex_digit (c / 16 mod 16)) (hex_digit (c mod 16)), scan_string s with
            | Some x, Some (t0, r') => Some (x :: t0, r')
            | _, _ => None
            end).
    by rewrite hex4_roundtrip, H.
  - apply orb_false_iff in E as [[E%Z.ltb_ge _]%orb_false_iff _].
    by apply scan_string_plain.
Qed.

Lemma scan_string_escape s r :
  Forall unit_ok s -> scan_string (escape s ++ 34 :: r) = Some (s, r).
Proof.
  intros Hs. remember (length s) as n eqn:Hn. revert s Hs Hn.
  induction n as [n IH] using lt_wf_ind. intros [|c s] Hs ->; [done|].
  inversion Hs as [|? ? Hc Hs']; subst. simpl.
  destruct (is_high_surrogate c) eqn:Eh.
  - unfold is_high_surrogate in Eh. bool_simp.
    destruct s as [|d s]; [by apply scan_string_escape_unit|].
    destruct (is_low_surrogate d) eqn:El.
    + unfold is_low_surrogate in El. bool_simp. inversion Hs'; subst.
      rewrite <- !app_comm_cons. repeat (apply scan_string_plain; [lia..|]).
      eapply IH; [|done|done]. simpl. lia.
    + rewrite <- app_assoc. apply scan_string_escape_unit; [done|].
      eapply IH; [|done|done]. simpl. lia.
  - rewrite <- app_assoc. apply scan_string_escape_unit; [done|].
    eapply IH; [|done|done]. simpl. lia.
Qed.

(** [JSON.parse(JSON.stringify(s))] is [s]. *)
Lemma json_parse_quote s : Forall unit_ok s -> json_parse (quote s) = Some (JStr s).
Proof.
  intros Hs. unfold json_parse, quote.
  generalize (2 * length (34%Z :: escape s ++ [34%Z]))%nat as f. intros f.
  rewrite Nat.add_succ_r. cbn [parse_value]. unfold skip_ws at 1.
  rewrite dropWhile_none by done. simpl.
  by rewrite scan_string_escape.
Qed.

(** ** Arrays of strings round trip *)

Definition str_array (ks : list jsstr) : jsv := JArr (JStr <$> ks).

Lemma stringify_str_array ks :
  stringify (str_array ks) = Some (u "[" ++ join (u ",") (quote <$> ks) ++ u "]").
Proof.
  unfold str_array. simpl. do 3 f_equal. f_equal. induction ks as [|k ks IH]; csimpl; [done|]. by rewrite IH.
Qed.

Lemma parse_value_quote fuel k r :
  Forall unit_ok k -> parse_value (S fuel) (quote k ++ r) = Some (JStr k, r).
Proof.
  intros Hk. unfold quote. cbn [parse_value app]. unfold skip_ws. rewrite dropWhile_none by done.
  simpl. rewrite <- app_assoc. simpl. by rewrite scan_string_escape.
Qed.

Lemma parse_elems_eq fuel s acc :
  parse_elems (S fuel) s acc
  = match parse_value fuel s with
    | None => None
    | Some (v, r) =>
        match skip_ws r with
        | 44 :: r' => parse_elems fuel r' (acc ++ [v])
        | 93 :: r' => Some (JArr (acc ++ [v]), r')
        | _ => None
        end
    end.
Proof. done. Qed.

Lemma parse_elems_strs ks k fuel acc r :
  Forall (Forall unit_ok) (k :: ks) -> (length ks + 2 <= fuel)%nat ->
  parse_elems fuel (join (u ",") (quote <$> (k :: ks)) ++ 93 :: r) acc
  = Some (JArr (acc ++ (JStr <$> (k :: ks))), r).
Proof.
  revert k fuel acc. induction ks as [|k' ks IH]; intros k fuel acc Hok Hf;
    (destruct fuel as [|[|fuel]]; [simpl in Hf; lia..|]); apply Forall_cons in Hok as [Hk Hok].
  - rewrite parse_elems_eq. change (join (u ",") (quote <$> [k])) with (quote k).
    rewrite parse_value_quote by done. unfold skip_ws. by rewrite dropWhile_none.
  - rewrite parse_elems_eq.
    change (join (u ",") (quote <$> k :: k' :: ks)) with (quote k ++ 44 :: join (u ",") (quote <$> k' :: ks)).
    rewrite <- app_assoc, parse_value_quote by done. unfold skip_ws. rewrite dropWhile_none by done.
    rewrite <- app_comm_cons. rewrite IH; [|done|simpl in Hf; lia]. by rewrite <- app_assoc.
Qed.

Lemma length_join_quotes ks :
  (2 * length ks <= length (join (u ",") (quote <$> ks)) + 1)%nat.
Proof.
  induction ks as [|k [|k' ks] IH]; [simpl; lia | unfold quote; simpl; rewrite length_app; simpl; lia|].
  change (join (u ",") (quote <$> k :: k' :: ks)) with (quote k ++ u "," ++ join (u ",") (quote <$> k' :: ks)).
  rewrite !length_app. unfold quote at 1. simpl length at 2 3. rewrite length_app. simpl in *. lia.
Qed.

(** [JSON.parse(JSON.stringify(keys))] is [keys]. *)
Lemma json_parse_str_array ks :
  Forall (Forall unit_ok) ks ->
  exists s, stringify (str_array ks) = Some s /\ json_parse s = Some (str_array ks).
Proof.
  intros Hok. eexists. split; [apply stringify_str_array|]. destruct ks as [|k ks]; [done|].
  unfold json_parse. set (body := join (u ",") (quote <$> (k :: ks))).
  pose proof (length_join_quotes (k :: ks)) as Hl. fold body in Hl.
  assert (exists b, body = 34 :: b) as [b Hb].
  { unfold body. destruct ks; [by eexists|]. by eexists. }
  change (u "[" ++ body ++ u "]") with (91 :: (body ++ [93])).
  remember (2 * length (91%Z :: (body ++ [93%Z])) + 2)%nat as fuel eqn:Ef.
  assert (parse_value fuel (91 :: (body ++ [93])) = Some (str_array (k :: ks), [])) as ->; [|done].
  destruct fuel as [|fuel]; [lia|]. cbn [parse_value]. unfold skip_ws at 1. rewrite dropWhile_none by done.
  simpl (91 =? _). cbn iota. unfold skip_ws. rewrite dropWhile_none by (by rewrite Hb).
  rewrite Hb at 1. cbn [app]. unfold body. rewrite parse_elems_strs; [done..|].
  simpl in Hl, Ef. rewrite length_app in Ef. simpl in Ef. lia.
Qed.
