(* ===== verification/JsRegex.v ===== *)
(** * Regular expressions

    The backtracking semantics of ECMAScript regular expressions for the
    constructs the client uses: classes, sequence, ordered choice, greedy
    repetition, capture groups, back references and the end assertion.  All the
    patterns of the client that are modelled with it start with [^]. *)

From S2P Require Import Prelude JsString.

Inductive regex :=
  | REps
  | RChr (p : Z -> bool)
  | RSeq (r1 r2 : regex)
  | RAlt (r1 r2 : regex)
  | RStar (r : regex)
  | RGroup (i : nat) (r : regex)
  | RBack (i : nat)
  | REnd.

Declare Scope regex_scope.
Delimit Scope regex_scope with re.
Infix "·" := RSeq (at level 40, left associativity) : regex_scope.

Definition rplus (r : regex) : regex := RSeq r (RStar r).
Definition ropt (r : regex) : regex := RAlt r REps.

Fixpoint runits (s : jsstr) : regex :=
  match s with
  | [] => REps
  | c :: s' => RSeq (RChr (Z.eqb c)) (runits s')
  end.
(** A literal piece of a pattern. *)
Definition rlit (s : string) : regex := runits (u s).

(** Ordered choice of literals. *)
Fixpoint rchoice (l : list string) : regex :=
  match l with
  | [] => RChr (fun _ => false)
  | [s] => rlit s
  | s :: l' => RAlt (rlit s) (rchoice l')
  end.

Notation caps := (list (nat * jsstr)) (only parsing).

(** Matching in continuation style: the continuation receives the rest of the
    input and the captures; the first alternative whose continuation succeeds
    wins.  An iteration must consume input, so the length of the input is
    enough fuel for a repetition. *)
Fixpoint rmatch {R : Type} (r : regex) (s : jsstr) (c : caps)
    (k : jsstr -> caps -> option R) {struct r} : option R :=
  match r with
  | REps => k s c
  | RChr p =>
      match s with
      | x :: s' => if p x then k s' c else None
      | [] => None
      end
  | RSeq r1 r2 => rmatch r1 s c (fun s' c' => rmatch r2 s' c' k)
  | RAlt r1 r2 =>
      match rmatch r1 s c k with
      | Some x => Some x
      | None => rmatch r2 s c k
      end
  | RStar r1 =>
      (fix loop (fuel : nat) (s : jsstr) (c : caps) {struct fuel} : option R :=
         match fuel with
         | O => k s c
         | S fuel' =>
             match rmatch r1 s c (fun s' c' =>
                     if (length s' <? length s)%nat then loop fuel' s' c' else None) with
             | Some x => Some x
             | None => k s c
             end
         end) (length s) s c
  | RGroup i r1 =>
      rmatch r1 s c (fun s' c' => k s' (om_set i (take (length s - length s') s) c'))
  | RBack i =>
      match om_get i c with
      | Some w => if startsWith w s then k (drop (length w) s) c else None
      | None => k s c
      end
  | REnd => match s with [] => k [] c | _ => None end
  end.

(** [s.match(/^r/)] and [/^r/.test(s)] *)
Definition rexec (r : regex) (s : jsstr) : option caps :=
  rmatch r s [] (fun _ c => Some c).
Definition rtest (r : regex) (s : jsstr) : bool :=
  match rexec r s with Some _ => true | None => false end.
Definition cap (i : nat) (c : caps) : jsstr :=
  match om_get i c with Some w => w | None => [] end.

(** ** Facts about matching *)

Section Facts.
Context {R : Type}.
Implicit Types (k : jsstr -> caps -> option R) (s w : jsstr) (c : caps).

Lemma rmatch_units w s c k :
  rmatch (runits w) s c k = if startsWith w s then k (drop (length w) s) c else None.
Proof.
  revert s. induction w as [|x w IH]; intros s; simpl; [by rewrite ?drop_0|].
  destruct s as [|y s]; [done|]. destruct (x =? y); simpl; [apply IH | done].
Qed.

Lemma rmatch_units_app w s c k : rmatch (runits w) (w ++ s) c k = k s c.
Proof. by rewrite rmatch_units, startsWith_app, drop_app_length. Qed.

(** A greedy repetition of a class whose continuation cannot start inside the
    class takes the longest run, and only that. *)
Lemma rmatch_star_span p s c k :
  (forall x s', p x = true -> k (x :: s') c = None) ->
  rmatch (RStar (RChr p)) s c k = k (dropWhile p s) c.
Proof.
  intros Hk. simpl.
  set (loop := fix loop (fuel : nat) (s : jsstr) (c : caps) {struct fuel} := _).
  assert (forall fuel s, (length s <= fuel)%nat -> loop fuel s c = k (dropWhile p s) c) as H.
  { induction fuel as [|fuel IH]; intros s0 Hl.
    - destruct s0; [done | simpl in Hl; lia].
    - destruct s0 as [|x s0]; [done|]. simpl.
      replace (length s0 <? S (length s0))%nat with true by (symmetry; apply Nat.ltb_lt; lia).
      simpl in Hl. rewrite IH by lia. unfold dropWhile at 2. simpl.
      destruct (p x) eqn:Ep; [|done]. rewrite (Hk x s0 Ep).
      fold (dropWhile p s0). by destruct (k _ c). }
  by apply H.
Qed.

Lemma rmatch_plus_span p s c k :
  (forall x s', p x = true -> k (x :: s') c = None) ->
  rmatch (rplus (RChr p)) s c k
  = match takeWhile p s with [] => None | _ => k (dropWhile p s) c end.
Proof.
  intros Hk. unfold rplus, takeWhile, dropWhile. simpl.
  destruct s as [|x s]; [done|]. simpl. destruct (p x) eqn:E; [|done]. simpl.
  apply (rmatch_star_span p s c k Hk).
Qed.

(** The longest run wins whenever the continuation accepts what follows it. *)
Lemma rmatch_star_longest p w rest c k r :
  forallb p w = true ->
  match rest with [] => True | x :: _ => p x = false end ->
  k rest c = Some r ->
  rmatch (RStar (RChr p)) (w ++ rest) c k = Some r.
Proof.
  intros Hw Hrest Hk. simpl.
  set (loop := fix loop (fuel : nat) (s : jsstr) (c : caps) {struct fuel} := _).
  assert (forall fuel w, (length w + length rest <= fuel)%nat -> forallb p w = true ->
    loop fuel (w ++ rest) c = Some r) as H.
  { induction fuel as [|fuel IH]; intros w0 Hl Hw0.
    - destruct w0, rest; simpl in *; try lia. done.
    - destruct w0 as [|x w0]; simpl.
      + destruct rest as [|y rest']; [done|]. by rewrite Hrest.
      + simpl in Hw0. bool_simp. rewrite H.
        replace (length (w0 ++ rest) <? S (length (w0 ++ rest)))%nat with true
          by (symmetry; apply Nat.ltb_lt; lia).
        simpl in Hl. rewrite IH by (done || lia). done. }
  apply H; [by rewrite length_app | done].
Qed.

(** A repetition of a class that accepts everything backs off to the shortest
    remainder the continuation accepts. *)
Lemma rmatch_star_any p w rest c k r :
  (forall x, p x = true) ->
  k rest c = Some r ->
  (forall a b, rest = a ++ b -> a <> [] -> k b c = None) ->
  rmatch (RStar (RChr p)) (w ++ rest) c k = Some r.
Proof.
  intros Hp Hk Hno. simpl.
  set (loop := fix loop (fuel : nat) (s : jsstr) (c : caps) {struct fuel} := _).
  assert (forall fuel b a, rest = a ++ b -> a <> [] -> loop fuel b c = None) as Hfail.
  { induction fuel as [|fuel IH]; intros b a E Ha; simpl; [by eapply Hno|].
    destruct b as [|y b]; [by eapply Hno|]. rewrite Hp.
    destruct (_ <? _)%nat; [|by eapply Hno].
    rewrite (IH b (a ++ [y])); [by eapply Hno | by rewrite <- app_assoc | by destruct a]. }
  assert (forall fuel w, (length w + length rest <= fuel)%nat ->
    loop fuel (w ++ rest) c = Some r) as H.
  { induction fuel as [|fuel IH]; intros w0 Hl.
    - destruct w0, rest; simpl in *; try lia. done.
    - destruct w0 as [|x w0]; simpl.
      + destruct rest as [|y rest'] eqn:E; [done|]. rewrite Hp.
        destruct (_ <? _)%nat; [|done].
        by rewrite (Hfail fuel rest' [y] eq_refl).
      + rewrite Hp. simpl in Hl.
        replace (length (w0 ++ rest) <? S (length (w0 ++ rest)))%nat with true
          by (symmetry; apply Nat.ltb_lt; lia).
        rewrite IH by lia. done. }
  apply H. by rewrite length_app.
Qed.

(** The text a group captures. *)
Lemma group_capture w s : take (length (w ++ s) - length s) (w ++ s) = w.
Proof.
  rewrite length_app. replace (length w + length s - length s)%nat with (length w) by lia.
  by rewrite take_app_length.
Qed.
End Facts.

(** ** Equations for stepping through a pattern *)

Section Step.
Context {R : Type}.
Implicit Types (k : jsstr -> caps -> option R) (s w : jsstr) (c : caps).

Lemma rmatch_seq r1 r2 s c k :
  rmatch (RSeq r1 r2) s c k = rmatch r1 s c (fun s' c' => rmatch r2 s' c' k).
Proof. done. Qed.

Lemma rmatch_alt r1 r2 s c k :
  rmatch (RAlt r1 r2) s c k
  = match rmatch r1 s c k with Some x => Some x | None => rmatch r2 s c k end.
Proof. done. Qed.

Lemma rmatch_chr p x s c k : p x = true -> rmatch (RChr p) (x :: s) c k = k s c.
Proof. simpl. by intros ->. Qed.

Lemma rmatch_back i w s c k : om_get i c = Some w -> rmatch (RBack i) (w ++ s) c k = k s c.
Proof. simpl. intros ->. by rewrite startsWith_app, drop_app_length. Qed.

Lemma rmatch_end s c k : rmatch REnd s c k = match s with [] => k [] c | _ => None end.
Proof. done. Qed.

(** A group around a pattern that consumes exactly [w]. *)
Lemma rmatch_group i r w rest c k :
  (forall k', rmatch r (w ++ rest) c k' = k' rest c) ->
  rmatch (RGroup i r) (w ++ rest) c k = k rest (om_set i w c).
Proof. intros H. simpl. rewrite H. by rewrite group_capture. Qed.

(** A repetition over a text that splits into items the body consumes exactly. *)
Lemma rmatch_star_items r items rest c k x :
  Forall (fun w => w <> [] /\ forall rest' (k' : jsstr -> caps -> option R),
                   rmatch r (w ++ rest') c k' = k' rest' c) items ->
  (forall k' : jsstr -> caps -> option R, rmatch r rest c k' = None) ->
  k rest c = Some x ->
  rmatch (RStar r) (concat items ++ rest) c k = Some x.
Proof.
  intros Hall Hrest Hk. simpl.
  set (loop := fix loop (fuel : nat) (s : jsstr) (c : caps) {struct fuel} := _).
  assert (forall fuel, (length (concat items ++ rest) <= fuel)%nat ->
    loop fuel (concat items ++ rest) c = Some x) as H; [|by apply H].
  induction Hall as [|w items [Hw Hstep] Hall IH]; intros fuel Hf; simpl in *.
  - destruct fuel as [|fuel]; simpl; [done|]. by rewrite Hrest.
  - rewrite <- app_assoc in *.
    destruct fuel as [|fuel].
    { destruct w; [done | simpl in Hf; lia]. }
    assert (length (concat items ++ rest) < length (w ++ concat items ++ rest))%nat as Hlt.
    { rewrite (length_app w). destruct w; [done | simpl; lia]. }
    simpl. rewrite Hstep. apply Nat.ltb_lt in Hlt as Hlt'. rewrite Hlt', IH by lia. done.
Qed.
End Step.

(** ** What a pattern without back references can consume *)

Fixpoint chars_in (P : Z -> bool) (r : regex) : Prop :=
  match r with
  | REps | REnd => True
  | RChr p => forall x, p x = true -> P x = true
  | RSeq r1 r2 | RAlt r1 r2 => chars_in P r1 /\ chars_in P r2
  | RStar r1 | RGroup _ r1 => chars_in P r1
  | RBack _ => False
  end.

Lemma rmatch_chars {R} P r s c (k : jsstr -> caps -> option R) x :
  chars_in P r -> rmatch r s c k = Some x ->
  exists w s' c', s = w ++ s' /\ forallb P w = true /\ k s' c' = Some x.
Proof.
  revert s c k x. induction r as [|p|r1 IH1 r2 IH2|r1 IH1 r2 IH2|r IH|i r IH|i|];
    intros s c k x Hc H; simpl in Hc, H.
  - by exists [], s, c.
  - destruct s as [|y s]; [done|]. destruct (p y) eqn:E; [|done].
    exists [y], s, c. simpl. by rewrite (Hc y E).
  - destruct Hc as [Hc1 Hc2].
    destruct (IH1 _ _ _ _ Hc1 H) as (w1 & s1 & c1 & -> & H1 & Hk).
    destruct (IH2 _ _ _ _ Hc2 Hk) as (w2 & s2 & c2 & -> & H2 & Hk').
    exists (w1 ++ w2), s2, c2. rewrite forallb_app, H1, H2, app_assoc. done.
  - destruct Hc as [Hc1 Hc2]. destruct (rmatch r1 s c k) eqn:E; simplify_eq; eauto.
  - revert H. generalize (length s) as fuel. intros fuel. revert s c.
    induction fuel as [|fuel IHf]; intros s c H; [by exists [], s, c|].
    destruct (rmatch r s c _) eqn:E.
    + simplify_eq. destruct (IH _ _ _ _ Hc E) as (w1 & s1 & c1 & -> & H1 & Hk).
      destruct (_ <? _)%nat; [|done].
      destruct (IHf _ _ Hk) as (w2 & s2 & c2 & -> & H2 & Hk').
      exists (w1 ++ w2), s2, c2. rewrite forallb_app, H1, H2, app_assoc. done.
    + by exists [], s, c.
  - destruct (IH _ _ _ _ Hc H) as (w1 & s1 & c1 & ? & H1 & Hk). eauto 8.
  - done.
  - destruct s; [|done]. by exists [], [], c.
Qed.

(** A match of a whole string consists of characters of the pattern. *)
Lemma rtest_chars P r s :
  chars_in P r -> rtest (RSeq r REnd) s = true -> forallb P s = true.
Proof.
  unfold rtest, rexec. intros Hc H.
  destruct (rmatch (RSeq r REnd) s [] _) eqn:E; [|done].
  rewrite rmatch_seq in E. apply (rmatch_chars P) in E as (w & s' & c' & -> & Hw & Hk); [|done].
  rewrite rmatch_end in Hk. destruct s'; [by rewrite app_nil_r | done].
Qed.

(** ** Patterns that consume a given text

    [eats r w f ok]: on a text that starts with [w], when what follows satisfies
    [ok], the pattern consumes exactly [w] and changes the captures by [f], as
    soon as the continuation accepts that.  [refuses r s]: no match at [s]. *)

Definition eats (r : regex) (w : jsstr) (f : caps -> caps) (ok : jsstr -> Prop) : Prop :=
  forall R rest c (k : jsstr -> caps -> option R) x,
  ok rest -> k rest (f c) = Some x -> rmatch r (w ++ rest) c k = Some x.

Definition refuses (r : regex) (s : jsstr) : Prop :=
  forall R c (k : jsstr -> caps -> option R), rmatch r s c k = None.

(** The text does not continue with a unit of the class. *)
Definition stops (p : Z -> bool) (s : jsstr) : Prop := match s with [] => True | x :: _ => p x = false end.

Definition anything (s : jsstr) : Prop := True.
Arguments anything s /.

Lemma eats_seq r1 r2 w1 w2 f1 f2 (ok1 ok2 : jsstr -> Prop) :
  eats r1 w1 f1 ok1 -> eats r2 w2 f2 ok2 -> (forall rest, ok2 rest -> ok1 (w2 ++ rest)) ->
  eats (RSeq r1 r2) (w1 ++ w2) (fun c => f2 (f1 c)) ok2.
Proof.
  intros H1 H2 Hok R rest c k x Hr Hk. rewrite <- app_assoc. simpl.
  apply H1; [by apply Hok|]. by apply H2.
Qed.

Lemma eats_weaken r w f (ok ok' : jsstr -> Prop) :
  eats r w f ok -> (forall rest, ok' rest -> ok rest) -> eats r w f ok'.
Proof. intros H Hok R rest c k x Hr. apply H. auto. Qed.

Lemma eats_units w : eats (runits w) w id anything.
Proof. intros R rest c k x _ Hk. by rewrite rmatch_units_app. Qed.

Lemma eats_star p w : forallb p w = true -> eats (RStar (RChr p)) w id (stops p).
Proof. intros Hw R rest c k x Hr Hk. by apply rmatch_star_longest. Qed.

Lemma eats_plus p w : forallb p w = true -> w <> [] -> eats (rplus (RChr p)) w id (stops p).
Proof.
  intros Hw Hne R rest c k x Hr Hk. destruct w as [|y w]; [done|]. simpl in Hw. bool_simp.
  unfold rplus. rewrite rmatch_seq. cbn [app]. rewrite rmatch_chr by done.
  by apply rmatch_star_longest.
Qed.

Lemma eats_group i r w f ok : eats r w f ok -> eats (RGroup i r) w (fun c => om_set i w (f c)) ok.
Proof.
  intros H R rest c k x Hr Hk. cbn [rmatch]. apply H; [done|]. by rewrite group_capture.
Qed.

Lemma eats_opt r w f ok : eats r w f ok -> eats (ropt r) w f ok.
Proof. intros H R rest c k x Hr Hk. unfold ropt. rewrite rmatch_alt. by erewrite H. Qed.

Lemma eats_opt_none r (ok : jsstr -> Prop) : (forall rest, ok rest -> refuses r rest) -> eats (ropt r) [] id ok.
Proof. intros H R rest c k x Hr Hk. unfold ropt. rewrite rmatch_alt. cbn [app]. by rewrite H. Qed.

Lemma eats_eps ok : eats REps [] id ok.
Proof. intros R rest c k x _ Hk. done. Qed.

(** A repetition over items that the body consumes, up to a text it refuses. *)
Lemma eats_star_items r items (ok0 ok : jsstr -> Prop) :
  Forall (fun w => w <> [] /\ eats r w id ok0 /\ forall s, ok0 (w ++ s)) items ->
  (forall rest, ok rest -> refuses r rest /\ ok0 rest) ->
  eats (RStar r) (concat items) id ok.
Proof.
  intros Hall Hrest R rest c k x Hr Hk. destruct (Hrest rest Hr) as [Href Hok0]. simpl.
  set (loop := fix loop (fuel : nat) (s : jsstr) (c : caps) {struct fuel} := _).
  assert (forall fuel, (length (concat items ++ rest) <= fuel)%nat ->
    ok0 (concat items ++ rest) /\ loop fuel (concat items ++ rest) c = Some x) as H; [|by apply H].
  induction Hall as [|w items (Hw & Hstep & Hn) Hall IH]; intros fuel Hf; simpl in *.
  - split; [done|]. destruct fuel as [|fuel]; simpl; [done|]. by rewrite (Href _ c).
  - rewrite <- app_assoc in *. split; [apply Hn|]. destruct fuel as [|fuel].
    { destruct w; [done | simpl in Hf; lia]. }
    assert (length (concat items ++ rest) < length (w ++ concat items ++ rest))%nat as Hlt.
    { rewrite (length_app w). destruct w; [done | simpl; lia]. }
    destruct (IH fuel) as [Hok IHl]; [lia|].
    simpl. erewrite Hstep; [done|done|]. cbv beta. apply Nat.ltb_lt in Hlt as ->. done.
Qed.

(** From a consumed text to the result of a match. *)
Lemma eats_rexec r w f ok : eats r w f ok -> ok [] -> rexec (RSeq r REnd) w = Some (f []).
Proof.
  intros H Hok. unfold rexec. rewrite rmatch_seq. rewrite <- (app_nil_r w) at 1. by apply H.
Qed.
