(* ===== verification/JsJsonRound.v ===== *)
(** * JSON round trips

    The texts that [JSON.parse] reads as a given value ([json_text]), and the
    proof that [JSON.stringify], compact or indented, prints one of them for
    every value that JSON can hold. *)

From S2P Require Import Prelude JsString JsNumber JsNumText JsValue JsJson JsRegex.

(** ** Induction on values *)

Section JsvInd.
Variable P : jsv -> Prop.
Hypothesis Hundef : P JUndef.
Hypothesis Hnull : P JNull.
Hypothesis Hbool : forall b, P (JBool b).
Hypothesis Hnum : forall n, P (JNum n).
Hypothesis Hstr : forall s, P (JStr s).
Hypothesis Harr : forall l, Forall P l -> P (JArr l).
Hypothesis Hobj : forall o, Forall (fun kv => P kv.2) o -> P (JObj o).

Fixpoint jsv_ind' (v : jsv) : P v :=
  match v with
  | JUndef => Hundef
  | JNull => Hnull
  | JBool b => Hbool b
  | JNum n => Hnum n
  | JStr s => Hstr s
  | JArr l => Harr l ((fix go l : Forall P l :=
      match l with [] => List.Forall_nil _ | x :: l' => List.Forall_cons _ _ _ (jsv_ind' x) (go l') end) l)
  | JObj o => Hobj o ((fix go o : Forall (fun kv => P kv.2) o :=
      match o with
      | [] => List.Forall_nil _
      | kv :: o' => List.Forall_cons (fun kv => P kv.2) kv o' (jsv_ind' kv.2) (go o')
      end) o)
  end.
End JsvInd.

(** ** Texts of a value *)

Definition spaces (w : jsstr) : Prop := forallb json_space w = true.

(** What may follow a number. *)
Definition is_json_numch (c : Z) : bool := is_digit c || (c =? 46) || (c =? 101) || (c =? 69) || (c =? 43) || (c =? 45).
Definition ends_number (r : jsstr) : Prop := stops is_json_numch r.

Record json_num (n : num) (t : jsstr) : Prop := {
  jn_start : exists c t', t = c :: t' /\ (is_digit c || (c =? 45)) = true;
  jn_reads : forall r, ends_number r -> scan_number (t ++ r) = Some (n, r)
}.

Inductive json_text : jsv -> jsstr -> Prop :=
  | jt_null : json_text JNull (u "null")
  | jt_true : json_text (JBool true) (u "true")
  | jt_false : json_text (JBool false) (u "false")
  | jt_num n t : json_num n t -> json_text (JNum n) t
  | jt_str s : Forall unit_ok s -> json_text (JStr s) (quote s)
  | jt_arr0 : json_text (JArr []) [91; 93]
  | jt_arr l t : elems_text l t -> json_text (JArr l) (91 :: t)
  | jt_obj0 : json_text (JObj []) [123; 125]
  | jt_obj o t : members_text [] o t -> json_text (JObj o) (123 :: t)
with elems_text : list jsv -> jsstr -> Prop :=
  | et_last v t w1 w2 :
      json_text v t -> spaces w1 -> spaces w2 -> elems_text [v] (w1 ++ t ++ w2 ++ [93])
  | et_cons v t l t' w1 w2 :
      json_text v t -> spaces w1 -> spaces w2 -> elems_text l t' ->
      elems_text (v :: l) (w1 ++ t ++ w2 ++ 44 :: t')
with members_text : list (jsstr * jsv) -> list (jsstr * jsv) -> jsstr -> Prop :=
  | mt_last acc k v t w1 w2 w3 :
      Forall unit_ok k -> json_text v t -> spaces w1 -> spaces w2 -> spaces w3 ->
      members_text acc (obj_set k v acc) (w1 ++ quote k ++ 58 :: w2 ++ t ++ w3 ++ [125])
  | mt_cons acc o k v t t' w1 w2 w3 :
      Forall unit_ok k -> json_text v t -> spaces w1 -> spaces w2 -> spaces w3 ->
      members_text (obj_set k v acc) o t' ->
      members_text acc o (w1 ++ quote k ++ 58 :: w2 ++ t ++ w3 ++ 44 :: t').

Scheme json_text_mind := Induction for json_text Sort Prop
  with elems_text_mind := Induction for elems_text Sort Prop
  with members_text_mind := Induction for members_text Sort Prop.
Combined Scheme json_texts_ind from json_text_mind, elems_text_mind, members_text_mind.

(** ** Reading such a text *)

Lemma skip_spaces w s : spaces w -> skip_ws (w ++ s) = skip_ws s.
Proof.
  unfold spaces, skip_ws, dropWhile. induction w as [|c w IH]; [done|].
  cbn [forallb app span]. intros [-> H]%andb_true_iff. specialize (IH H). by destruct (span json_space (w ++ s)).
Qed.

Lemma skip_here c s : json_space c = false -> skip_ws (c :: s) = c :: s.
Proof. intros H. unfold skip_ws. by apply dropWhile_none. Qed.

Lemma space_ends w c r : spaces w -> is_json_numch c = false -> ends_number (w ++ c :: r).
Proof.
  intros Hw Hc. destruct w as [|x w]; [done|]. unfold spaces in Hw. simpl in Hw.
  apply andb_true_iff in Hw as [Hx _]. simpl. unfold json_space in Hx. rewrite !orb_true_iff, !Z.eqb_eq in Hx.
  destruct Hx as [[[->| ->]| ->]| ->]; done.
Qed.

Definition jt_nonspace (s : jsstr) : Prop := match s with [] => False | c :: _ => json_space c = false end.

Lemma json_text_start v t : json_text v t -> jt_nonspace t.
Proof.
  destruct 1 as [| | |n t [(c & t' & -> & Hc) _]| | | | |]; try done. simpl. unfold json_space, is_digit in *.
  destruct (Z.eqb_spec c 32); [by subst|]. destruct (Z.eqb_spec c 9); [by subst|].
  destruct (Z.eqb_spec c 10); [by subst|]. destruct (Z.eqb_spec c 13); by subst.
Qed.

Lemma skip_text v t r : json_text v t -> skip_ws (t ++ r) = t ++ r.
Proof. intros H%json_text_start. destruct t as [|c t]; [done|]. simpl in H. by apply skip_here. Qed.

Lemma parse_value_eq fuel s :
  parse_value (S fuel) s
  = match skip_ws s with
    | [] => None
    | c :: r =>
        if c =? 34 then
          match scan_string r with Some (t, r') => Some (JStr t, r') | None => None end
        else if c =? 91 then
          match skip_ws r with 93 :: r' => Some (JArr [], r') | _ => parse_elems fuel r [] end
        else if c =? 123 then
          match skip_ws r with 125 :: r' => Some (JObj [], r') | _ => parse_members fuel r [] end
        else if startsWith (u "null") (c :: r) then Some (JNull, drop 4 (c :: r))
        else if startsWith (u "true") (c :: r) then Some (JBool true, drop 4 (c :: r))
        else if startsWith (u "false") (c :: r) then Some (JBool false, drop 5 (c :: r))
        else match scan_number (c :: r) with Some (n, r') => Some (JNum n, r') | None => None end
    end.
Proof. done. Qed.

Lemma parse_members_eq fuel s acc :
  parse_members (S fuel) s acc
  = match skip_ws s with
    | 34 :: r =>
        match scan_string r with
        | None => None
        | Some (k, r1) =>
            match skip_ws r1 with
            | 58 :: r2 =>
                match parse_value fuel r2 with
                | None => None
                | Some (v, r3) =>
                    match skip_ws r3 with
                    | 44 :: r4 => parse_members fuel r4 (obj_set k v acc)
                    | 125 :: r4 => Some (JObj (obj_set k v acc), r4)
                    | _ => None
                    end
                end
            | _ => None
            end
        end
    | _ => None
    end.
Proof. done. Qed.

(** A number is none of the other values. *)
Lemma parse_value_num fuel n t r :
  json_num n t -> ends_number r -> parse_value (S fuel) (t ++ r) = Some (JNum n, r).
Proof.
  intros [(c & t' & -> & Hc) Hr] He. rewrite parse_value_eq. specialize (Hr r He). rewrite <- app_comm_cons in *.
  assert (json_space c = false /\ c <> 34 /\ c <> 91 /\ c <> 123 /\ c <> 110 /\ c <> 116 /\ c <> 102)
    as (H0 & H1 & H2 & H3 & H4 & H5 & H6).
  { unfold is_digit, json_space in *. apply orb_true_iff in Hc as [Hc|Hc]; bool_simp;
      repeat match goal with |- context [?a =? ?b] => destruct (Z.eqb_spec a b); [lia|] end; split_and!; done || lia. }
  rewrite skip_here by done. apply Z.eqb_neq in H1, H2, H3, H4, H5, H6.
  rewrite H1, H2, H3. change (u "null") with [110; 117; 108; 108]. change (u "true") with [116; 114; 117; 101].
  change (u "false") with [102; 97; 108; 115; 101]. cbn [startsWith].
  rewrite (Z.eqb_sym 110 c), (Z.eqb_sym 116 c), (Z.eqb_sym 102 c), H4, H5, H6. cbn [andb]. by rewrite Hr.
Qed.

(** The first unit of the elements or members, after white space, opens a value
    or a key. *)
Lemma elems_start l t r : elems_text l t -> exists c s, skip_ws (t ++ r) = c :: s /\ c <> 93.
Proof.
  assert (forall v t w s, json_text v t -> spaces w -> exists c s', skip_ws ((w ++ t) ++ s) = c :: s' /\ c <> 93) as H.
  { intros v t0 w s Hv Hw. rewrite <- app_assoc, skip_spaces by done. rewrite (skip_text v) by done.
    destruct Hv as [| | |n t0 [(c & t' & -> & Hc) _]| | | | |]; try (by eexists _, _).
    exists c, (t' ++ s). split; [done|]. intros ->. done. }
  destruct 1 as [v t w1 w2 Hv|v t l t' w1 w2 Hv].
  - rewrite <- !app_assoc, (app_assoc w1 t). by apply (H v).
  - rewrite <- !app_assoc, (app_assoc w1 t). by apply (H v).
Qed.

Lemma members_start acc o t r : members_text acc o t -> exists s, skip_ws (t ++ r) = 34 :: s.
Proof.
  destruct 1; rewrite <- !app_assoc, skip_spaces by done; unfold quote; cbn [app];
    rewrite skip_here by done; by eexists.
Qed.

(** Any fuel of twice the length of the text is enough. *)
Lemma parse_texts :
  (forall v t, json_text v t -> forall fuel w r,
     (2 * length t <= fuel)%nat -> spaces w -> ends_number r -> parse_value fuel (w ++ t ++ r) = Some (v, r))
  /\ (forall l t, elems_text l t -> forall fuel acc r,
     (2 * length t <= fuel)%nat -> parse_elems fuel (t ++ r) acc = Some (JArr (acc ++ l), r))
  /\ (forall acc o t, members_text acc o t -> forall fuel r,
     (2 * length t <= fuel)%nat -> parse_members fuel (t ++ r) acc = Some (JObj o, r)).
Proof.
  apply json_texts_ind.
  - intros [|fuel] w r Hf Hw _; [simpl in Hf; lia|]. by rewrite parse_value_eq, skip_spaces.
  - intros [|fuel] w r Hf Hw _; [simpl in Hf; lia|]. by rewrite parse_value_eq, skip_spaces.
  - intros [|fuel] w r Hf Hw _; [simpl in Hf; lia|]. by rewrite parse_value_eq, skip_spaces.
  - intros n t Hn [|fuel] w r Hf Hw He.
    { destruct Hn as [(c & t' & -> & _) _]. simpl in Hf. lia. }
    rewrite <- (parse_value_num fuel n t r Hn He). by rewrite !parse_value_eq, skip_spaces.
  - intros s Hs [|fuel] w r Hf Hw _; [simpl in Hf; lia|].
    rewrite <- (parse_value_quote fuel s r Hs). by rewrite !parse_value_eq, skip_spaces.
  - intros [|fuel] w r Hf Hw _; [simpl in Hf; lia|]. by rewrite parse_value_eq, skip_spaces.
  - intros l t Hl IH [|fuel] w r Hf Hw _; [simpl in Hf; lia|]. rewrite parse_value_eq, skip_spaces by done.
    rewrite <- app_comm_cons, skip_here by done. change (91 =? 34) with false. change (91 =? 91) with true. cbv iota.
    destruct (elems_start l t r Hl) as (c & s & E & Hc). rewrite E.
    assert (match c :: s with 93 :: r' => Some (JArr [], r') | _ => parse_elems fuel (t ++ r) [] end
      = parse_elems fuel (t ++ r) []) as ->.
    { destruct c as [|p|p]; try done. do 7 (destruct p as [p|p|]; try done). }
    apply IH. simpl in Hf. lia.
  - intros [|fuel] w r Hf Hw _; [simpl in Hf; lia|]. by rewrite parse_value_eq, skip_spaces.
  - intros o t Ho IH [|fuel] w r Hf Hw _; [simpl in Hf; lia|]. rewrite parse_value_eq, skip_spaces by done.
    rewrite <- app_comm_cons, skip_here by done.
    change (123 =? 34) with false. change (123 =? 91) with false. change (123 =? 123) with true. cbv iota.
    destruct (members_start [] o t r Ho) as (s & ->). apply IH. simpl in Hf. lia.
  - intros v t w1 w2 Hv IH H1 H2 [|fuel] acc r Hf; [rewrite !length_app in Hf; simpl in Hf; lia|].
    rewrite parse_elems_eq, <- !app_assoc. rewrite IH; [|rewrite !length_app in Hf; cbn [length] in Hf; lia | done | by apply space_ends].
    by rewrite skip_spaces.
  - intros v t l t' w1 w2 Hv IH H1 H2 Hl IHl [|fuel] acc r Hf; [rewrite !length_app in Hf; simpl in Hf; lia|].
    rewrite parse_elems_eq, <- !app_assoc. rewrite IH; [|rewrite !length_app in Hf; cbn [length] in Hf; lia | done | by apply space_ends].
    rewrite skip_spaces by done. rewrite <- app_comm_cons, skip_here by done.
    rewrite IHl; [by rewrite <- app_assoc|]. rewrite !length_app in Hf. simpl in Hf. lia.
  - intros acc k v t w1 w2 w3 Hk Hv IH H1 H2 H3 [|fuel] r Hf; [rewrite !length_app in Hf; simpl in Hf; lia|].
    rewrite parse_members_eq, <- !app_assoc, skip_spaces by done. unfold quote. rewrite <- !app_comm_cons, skip_here by done.
    rewrite <- ?app_assoc. cbn [app]. rewrite scan_string_escape, skip_here by done. rewrite <- ?app_assoc.
    rewrite !length_app in Hf. cbn [length] in Hf. rewrite !length_app in Hf.
    rewrite IH; [|lia | done | by apply space_ends]. by rewrite skip_spaces.
  - intros acc o k v t t' w1 w2 w3 Hk Hv IH H1 H2 H3 Ho IHo [|fuel] r Hf; [rewrite !length_app in Hf; simpl in Hf; lia|].
    rewrite parse_members_eq, <- !app_assoc, skip_spaces by done. unfold quote. rewrite <- !app_comm_cons, skip_here by done.
    rewrite <- ?app_assoc. cbn [app]. rewrite scan_string_escape, skip_here by done. rewrite <- ?app_assoc.
    rewrite !length_app in Hf. cbn [length] in Hf. rewrite !length_app in Hf. cbn [length] in Hf.
    rewrite IH; [|lia | done | by apply space_ends]. rewrite skip_spaces by done.
    rewrite skip_here by done. apply IHo. lia.
Qed.

(** [JSON.parse] of such a text, with white space around it. *)
Lemma json_parse_text v t w1 w2 :
  json_text v t -> spaces w1 -> spaces w2 -> json_parse (w1 ++ t ++ w2) = Some v.
Proof.
  intros Hv H1 H2. unfold json_parse. rewrite (proj1 parse_texts v t Hv); [|rewrite !length_app; lia | done|].
  - rewrite <- (app_nil_r w2), skip_spaces by done. done.
  - destruct w2 as [|c w2]; [done|]. unfold ends_number. simpl. unfold spaces in H2. cbn [forallb] in H2.
    apply andb_true_iff in H2 as [H2 _]. unfold json_space in H2. rewrite !orb_true_iff, !Z.eqb_eq in H2.
    destruct H2 as [[[->| ->]| ->]| ->]; done.
Qed.

(** ** Printing such a text *)

Definition obj_build (acc o : list (jsstr * jsv)) : list (jsstr * jsv) :=
  fold_left (fun acc kv => obj_set kv.1 kv.2 acc) o acc.

(** The values that JSON can hold: properties in the order of enumeration. *)
Inductive json_ok : jsv -> Prop :=
  | ok_null : json_ok JNull
  | ok_bool b : json_ok (JBool b)
  | ok_num n : is_finite n = true -> json_num n (num_to_string n) -> json_ok (JNum n)
  | ok_str s : Forall unit_ok s -> json_ok (JStr s)
  | ok_arr l : Forall json_ok l -> json_ok (JArr l)
  | ok_obj o :
      Forall (fun kv => Forall unit_ok kv.1 /\ json_ok kv.2) o -> obj_build [] o = o -> json_ok (JObj o).

(** Elements and members with the same white space [a] before each, [b] after
    the last and [c] after each colon. *)
Lemma elems_join l ts a b :
  Forall2 json_text l ts -> l <> [] -> spaces a -> spaces b ->
  elems_text l (a ++ join (44 :: a) ts ++ b ++ [93]).
Proof.
  intros H Hne Ha Hb. induction H as [|v t l ts Hv Hl IH]; [done|]. destruct Hl as [|v' t' l ts Hv' Hl].
  - by apply et_last.
  - change (join (44 :: a) (t :: t' :: ts)) with (t ++ (44 :: a) ++ join (44 :: a) (t' :: ts)).
    rewrite <- !app_assoc. apply (et_cons v t _ _ a []); [done | done | done | by apply IH].
Qed.

Definition member_text (c : jsstr) (kt : jsstr * jsstr) : jsstr := quote kt.1 ++ 58 :: c ++ kt.2.

Lemma members_join acc o kts a b c :
  Forall2 (fun kv kt => kt.1 = kv.1 /\ Forall unit_ok kv.1 /\ json_text kv.2 kt.2) o kts -> o <> [] ->
  spaces a -> spaces b -> spaces c ->
  members_text acc (obj_build acc o) (a ++ join (44 :: a) (member_text c <$> kts) ++ b ++ [125]).
Proof.
  intros H Hne Ha Hb Hc. revert acc. induction H as [|[k v] [k' t] o kts (E & Hk & Hv) Ho IH]; intros acc; [done|].
  simpl in E, Hk, Hv. subst k'. destruct Ho as [|kv kt o kts Hkv Ho].
  - change (join (44 :: a) (member_text c <$> [(k, t)])) with (quote k ++ 58 :: c ++ t).
    replace (a ++ (quote k ++ 58 :: c ++ t) ++ b ++ [125]) with (a ++ quote k ++ 58 :: c ++ t ++ b ++ [125])
      by (rewrite <- !app_assoc; cbn [app]; by rewrite <- !app_assoc).
    by apply mt_last.
  - rewrite !fmap_cons. change (join (44 :: a) (member_text c (k, t) :: member_text c kt :: (member_text c <$> kts)))
      with ((quote k ++ 58 :: c ++ t) ++ (44 :: a) ++ join (44 :: a) (member_text c <$> kt :: kts)).
    replace (a ++ ((quote k ++ 58 :: c ++ t) ++ (44 :: a) ++ join (44 :: a) (member_text c <$> kt :: kts)) ++ b ++ [125])
      with (a ++ quote k ++ 58 :: c ++ t ++ [] ++ 44 :: (a ++ join (44 :: a) (member_text c <$> kt :: kts) ++ b ++ [125]))
      by (rewrite <- ?app_assoc; cbn [app]; rewrite <- ?app_assoc; cbn [app]; by rewrite <- ?app_assoc).
    apply (mt_cons acc _ k v t _ a c []); [done..|]. by apply (IH ltac:(done) (obj_set k v acc)).
Qed.

(** What [stringify] prints for arrays and objects whose parts print. *)
Lemma stringify_arr l ts :
  Forall2 (fun v t => stringify v = Some t) l ts ->
  stringify (JArr l) = Some (u "[" ++ join (u ",") ts ++ u "]").
Proof.
  intros H. cbn [stringify]. do 3 f_equal. f_equal. induction H as [|v t l ts Hv _ IH]; [done|]. by rewrite Hv, IH.
Qed.

Lemma stringify_obj o kts :
  Forall2 (fun kv kt => kt.1 = kv.1 /\ stringify kv.2 = Some kt.2) o kts ->
  stringify (JObj o) = Some (u "{" ++ join (u ",") (member_text [] <$> kts) ++ u "}").
Proof.
  intros H. cbn [stringify]. do 3 f_equal. f_equal.
  induction H as [|[k v] [k' t] o kts [E Hv] _ IH]; [done|]. simpl in E, Hv. subst k'. rewrite fmap_cons, Hv, IH. done.
Qed.

Definition indent (d : nat) : jsstr := 10 :: replicate (2 * d) 32.

Lemma indent_spaces d : spaces (indent d).
Proof.
  unfold spaces, indent. cbn [forallb]. change (json_space 10) with true. cbn [andb].
  generalize (2 * d)%nat as n. induction n; done.
Qed.

Lemma stringify2_arr d l ts :
  Forall2 (fun v t => stringify2 (S d) v = Some t) l ts -> l <> [] ->
  stringify2 d (JArr l)
  = Some (91 :: indent (S d) ++ join (44 :: indent (S d)) ts ++ indent d ++ [93]).
Proof.
  intros H Hne. cbn [stringify2].
  assert ((fix go (l : list jsv) := match l with
     | [] => []
     | x :: l' => (match stringify2 (S d) x with Some t => t | None => u "null" end) :: go l'
     end) l = ts) as ->.
  { clear Hne. induction H as [|v t l ts Hv _ IH]; [done|]. by rewrite Hv, IH. }
  by destruct H.
Qed.

Lemma stringify2_obj d o kts :
  Forall2 (fun kv kt => kt.1 = kv.1 /\ stringify2 (S d) kv.2 = Some kt.2) o kts -> o <> [] ->
  stringify2 d (JObj o)
  = Some (123 :: indent (S d) ++ join (44 :: indent (S d)) (member_text [32] <$> kts) ++ indent d ++ [125]).
Proof.
  intros H Hne. cbn [stringify2].
  assert ((fix go (o : list (jsstr * jsv)) := match o with
     | [] => []
     | (k, x) :: o' =>
         match stringify2 (S d) x with
         | Some t => (quote k ++ u ": " ++ t) :: go o'
         | None => go o'
         end
     end) o = member_text [32] <$> kts) as ->.
  { clear Hne. induction H as [|[k v] [k' t] o kts [E Hv] _ IH]; [done|]. simpl in E, Hv. subst k'.
    rewrite fmap_cons, Hv, IH. done. }
  by destruct H.
Qed.

(** The parts of a list or an object that print, as a list of texts. *)
Lemma collect_texts {A} (P : A -> jsstr -> Prop) (l : list A) :
  Forall (fun x => exists t, P x t) l -> exists ts, Forall2 P l ts.
Proof.
  induction 1 as [|x l [t Ht] _ [ts IH]]; [by exists []|]. exists (t :: ts). by constructor.
Qed.

Lemma collect_members (P : jsv -> jsstr -> Prop) (o : list (jsstr * jsv)) :
  Forall (fun kv => Forall unit_ok kv.1 /\ exists t, P kv.2 t /\ json_text kv.2 t) o ->
  exists kts, Forall2 (fun kv kt => kt.1 = kv.1 /\ P kv.2 kt.2) o kts
    /\ Forall2 (fun kv kt => kt.1 = kv.1 /\ Forall unit_ok kv.1 /\ json_text kv.2 kt.2) o kts.
Proof.
  induction 1 as [|[k v] o (Hk & t & Hp & Ht) _ (kts & IH1 & IH2)]; [by exists []|].
  exists ((k, t) :: kts). split; by constructor.
Qed.

(** What JSON.stringify prints is a text of the value, compact and indented. *)
Lemma stringify_text v : json_ok v -> exists t, stringify v = Some t /\ json_text v t.
Proof.
  induction v as [| |b|n|s|l IH|o IH] using jsv_ind'; intros H; inversion H; subst.
  - eexists. split; [done | constructor].
  - eexists. split; [done|]. destruct b; constructor.
  - eexists. simpl. split; [done|]. match goal with E : is_finite n = true |- _ => rewrite E end. by constructor.
  - eexists. split; [done | by constructor].
  - assert (exists ts, Forall2 (fun v t => stringify v = Some t /\ json_text v t) l ts) as [ts Hts].
    { apply collect_texts. rewrite Forall_forall in *. auto. }
    exists (u "[" ++ join (u ",") ts ++ u "]"). split.
    + apply stringify_arr. eapply Forall2_impl; [exact Hts|]. by intros ? ? [? _].
    + destruct l as [|v l]; [inversion Hts; subst; apply jt_arr0|]. apply jt_arr.
      apply (elems_join (v :: l) ts [] []); [|done..]. eapply Forall2_impl; [exact Hts|]. by intros ? ? [_ ?].
  - destruct (collect_members (fun v t => stringify v = Some t) o) as (kts & K1 & K2).
    { rewrite Forall_forall in *. intros kv Hkv. naive_solver. }
    exists (u "{" ++ join (u ",") (member_text [] <$> kts) ++ u "}"). split; [by apply stringify_obj|].
    destruct o as [|kv o]; [inversion K2; subst; apply jt_obj0|]. apply jt_obj.
    match goal with E : obj_build [] _ = _ |- _ => rewrite <- E at 1 end.
    by apply (members_join [] (kv :: o) kts [] [] []).
Qed.

Lemma stringify2_text v : json_ok v -> forall d, exists t, stringify2 d v = Some t /\ json_text v t.
Proof.
  induction v as [| |b|n|s|l IH|o IH] using jsv_ind'; intros H d.
  1-5: destruct (stringify_text _ H) as (t & Ht & Hv); by exists t.
  - inversion H; subst.
    assert (exists ts, Forall2 (fun v t => stringify2 (S d) v = Some t /\ json_text v t) l ts) as [ts Hts].
    { apply collect_texts. rewrite Forall_forall in *. intros x Hx. by apply IH; auto. }
    destruct l as [|v l]; [exists [91; 93]; split; [done | constructor]|]. eexists. split.
    + apply stringify2_arr; [|done]. eapply Forall2_impl; [exact Hts|]. by intros ? ? [? _].
    + apply jt_arr, elems_join; [|done | apply indent_spaces..]. eapply Forall2_impl; [exact Hts|]. by intros ? ? [_ ?].
  - inversion H as [| | | | |? Hp Hb]; subst.
    destruct (collect_members (fun v t => stringify2 (S d) v = Some t) o) as (kts & K1 & K2).
    { rewrite Forall_forall in *. intros kv Hkv. destruct (Hp kv Hkv) as [Hk Hv]. split; [done|]. by apply IH. }
    destruct o as [|kv o]; [exists [123; 125]; split; [done | constructor]|]. eexists. split.
    + by apply stringify2_obj.
    + apply jt_obj. rewrite <- Hb at 1. apply members_join; [done | done | apply indent_spaces | apply indent_spaces | done].
Qed.

(** [JSON.parse(JSON.stringify(v))] is [v], indented or not. *)
Lemma json_roundtrip v : json_ok v -> exists t, stringify v = Some t /\ json_parse t = Some v.
Proof.
  intros H. destruct (stringify_text v H) as (t & Ht & Hv). exists t. split; [done|].
  rewrite <- (app_nil_r t). by apply (json_parse_text v t [] []).
Qed.

Lemma json_roundtrip2 v : json_ok v -> exists t, stringify2 0 v = Some t /\ json_parse t = Some v.
Proof.
  intros H. destruct (stringify2_text v H 0) as (t & Ht & Hv). exists t. split; [done|].
  rewrite <- (app_nil_r t). by apply (json_parse_text v t [] []).
Qed.

(** ** Objects of ordinary properties

    Properties whose keys are no array indices keep the order in which they are
    written. *)

Definition units_okb (s : jsstr) : bool := forallb (fun c => (0 <=? c) && (c <=? 65535)) s.

Lemma units_okb_ok s : units_okb s = true -> Forall unit_ok s.
Proof.
  unfold units_okb. rewrite forallb_forall. intros H. apply Forall_forall. intros c Hc.
  specialize (H c (proj1 (list_elem_of_In _ _) Hc)). unfold unit_ok. lia.
Qed.

Record plain_props (o : list (jsstr * jsv)) : Prop := {
  plain_nodup : NoDup (o.*1);
  plain_each : Forall (fun kv => array_index kv.1 = None /\ Forall unit_ok kv.1 /\ json_ok kv.2) o
}.

Lemma om_set_fresh {K V} `{EqDecision K} (k : K) (v : V) m : k ∉ m.*1 -> om_set k v m = m ++ [(k, v)].
Proof.
  induction m as [|[k' v'] m IH]; csimpl; [done|]. intros H. rewrite decide_False by set_solver.
  by rewrite IH by set_solver.
Qed.

Lemma obj_build_plain acc o :
  NoDup (acc.*1 ++ o.*1) -> Forall (fun kv => array_index kv.1 = None) o -> obj_build acc o = acc ++ o.
Proof.
  revert acc. induction o as [|[k v] o IH]; intros acc Hnd Ho; [by rewrite app_nil_r|].
  apply Forall_cons in Ho as [Hk Ho]. rewrite fmap_cons in Hnd. cbn [fst] in *.
  assert (k ∉ acc.*1) as Hf by (apply NoDup_app in Hnd as (_ & Hd & _); intros Hin; apply (Hd k Hin); left).
  unfold obj_build. cbn [fold_left fst snd]. fold (obj_build (obj_set k v acc) o).
  assert (obj_set k v acc = acc ++ [(k, v)]) as ->.
  { unfold obj_set. rewrite Hk. destruct (om_get k acc); by apply om_set_fresh. }
  rewrite IH; [by rewrite <- app_assoc | | done]. by rewrite fmap_app, <- app_assoc.
Qed.

Lemma plain_json_ok o : plain_props o -> json_ok (JObj o).
Proof.
  intros [Hnd Ho]. constructor.
  - eapply Forall_impl; [exact Ho|]. naive_solver.
  - apply (obj_build_plain []); [done|]. eapply Forall_impl; [exact Ho|]. naive_solver.
Qed.

Lemma om_set_Forall {K V} `{EqDecision K} (P : K * V -> Prop) k v m :
  P (k, v) -> Forall P m -> Forall P (om_set k v m).
Proof.
  intros Hp. induction 1 as [|[k' v'] m Hk Hm IH]; csimpl; [by constructor|].
  destruct (decide (k = k')) as [->|]; by constructor.
Qed.

Lemma plain_set k v o :
  array_index k = None -> Forall unit_ok k -> json_ok v -> plain_props o -> plain_props (obj_set k v o).
Proof.
  intros Hk Hu Hv [Hnd Ho]. split; [by apply obj_set_NoDup|].
  unfold obj_set. rewrite Hk. destruct (om_get k o); by apply om_set_Forall.
Qed.

Lemma plain_cons k v o :
  array_index k = None -> Forall unit_ok k -> json_ok v -> k ∉ o.*1 -> plain_props o -> plain_props ((k, v) :: o).
Proof. intros Hk Hu Hv Hn [Hnd Ho]. split; [by constructor | by constructor]. Qed.

Lemma plain_nil : plain_props [].
Proof. split; constructor. Qed.

(** A printed object or array is trimmed. *)
Lemma stringify2_trimmed v t :
  match v with JArr _ | JObj _ => True | _ => False end -> stringify2 0 v = Some t -> trim t = t.
Proof.
  assert (forall b s e, is_space b = false -> is_space e = false -> trimmed (b :: s ++ [e]) = true) as Hw.
  { intros b s e Hb He. unfold trimmed. rewrite app_comm_cons, reverse_app. simpl. by rewrite Hb, He. }
  assert (forall b n s m e, is_space b = false -> is_space e = false ->
    trimmed ([b] ++ n ++ s ++ m ++ [e]) = true) as Hw'.
  { intros b n s m e Hb He. cbn [app]. rewrite !app_assoc. by apply Hw. }
  destruct v as [| | | | |l|o]; intros Hv; try done; cbn [stringify2]; intros H; apply (inj Some) in H;
    subst t; apply trim_trimmed_id.
  - match goal with |- context [match ?x with [] => _ | _ => _ end] => destruct x end; [done|].
    by apply (Hw' 91 _ _ _ 93).
  - match goal with |- context [match ?x with [] => _ | _ => _ end] => destruct x end; [done|].
    by apply (Hw' 123 _ _ _ 125).
Qed.

(** ** Numbers *)

Lemma span_stops (p : Z -> bool) s r :
  stops p r -> span p (s ++ r) = ((span p s).1, (span p s).2 ++ r).
Proof.
  intros Hr. induction s as [|c s IH]; cbn [app span].
  - destruct r as [|c r]; [done|]. simpl in Hr. cbn [span]. by rewrite Hr.
  - destruct (p c); [|done]. rewrite IH. by destruct (span p s).
Qed.

Lemma ends_digit r : ends_number r -> stops is_digit r.
Proof. destruct r as [|c r]; [done|]. unfold ends_number. simpl. unfold is_json_numch. by intros [[[[[? ?]%orb_false_iff ?]%orb_false_iff ?]%orb_false_iff ?]%orb_false_iff ?]%orb_false_iff. Qed.

(** The fraction and the exponent of a number, apart. *)
Definition scan_frac (r1 : jsstr) : option (jsstr * jsstr) :=
  match r1 with
  | 46 :: r2 => match span is_digit r2 with ([], _) => None | (fp, r3) => Some (fp, r3) end
  | _ => Some ([], r1)
  end.

Definition scan_exp (r3 : jsstr) : option (Z * jsstr) :=
  match r3 with
  | c :: r4 =>
      if (c =? 101) || (c =? 69) then
        let '(esg, r5) :=
          match r4 with 43 :: r5 => (1, r5) | 45 :: r5 => (-1, r5) | _ => (1, r4) end in
        match span is_digit r5 with ([], _) => None | (ed, r6) => Some (esg * digits_value ed, r6) end
      else Some (0, r3)
  | [] => Some (0, r3)
  end.

Lemma frac_app s r fp r3 :
  scan_frac s = Some (fp, r3) -> ends_number r -> scan_frac (s ++ r) = Some (fp, r3 ++ r).
Proof.
  intros H He. destruct s as [|c s].
  - injection H as <- <-. destruct r as [|c r]; [done|]. cbn [app]. unfold scan_frac.
    destruct (Z.eq_dec c 46) as [->|Hc]; [done|].
    destruct c as [|p|p]; try done. do 6 (destruct p as [p|p|]; try done).
  - cbn [app]. unfold scan_frac in *. destruct (Z.eq_dec c 46) as [->|Hc].
    + rewrite span_stops by (by apply ends_digit). destruct (span is_digit s) as [[|d ds] r2]; [done|].
      cbn [fst snd]. by injection H as <- <-.
    + destruct c as [|p|p]; try (by injection H as <- <-).
      do 6 (destruct p as [p|p|]; try (by injection H as <- <-)); done.
Qed.

Lemma exp_app s r e r6 :
  scan_exp s = Some (e, r6) -> ends_number r -> scan_exp (s ++ r) = Some (e, r6 ++ r).
Proof.
  intros H He. destruct s as [|c s].
  - injection H as <- <-. destruct r as [|c r]; [done|]. cbn [app]. unfold scan_exp.
    unfold ends_number in He. simpl in He. unfold is_json_numch in He.
    apply orb_false_iff in He as [[[[_ H1]%orb_false_iff H2]%orb_false_iff _]%orb_false_iff _].
    by rewrite H1, H2.
  - cbn [app]. unfold scan_exp in *. destruct ((c =? 101) || (c =? 69)); [|by injection H as <- <-].
    assert (forall esg r5, match span is_digit r5 with ([], _) => None | (ed, r6) => Some (esg * digits_value ed, r6) end = Some (e, r6) ->
      match span is_digit (r5 ++ r) with ([], _) => None | (ed, r6) => Some (esg * digits_value ed, r6) end = Some (e, r6 ++ r)) as Hsp.
    { intros esg r5 H'. rewrite span_stops by (by apply ends_digit). destruct (span is_digit r5) as [[|d ds] r7]; [done|].
      cbn [fst snd]. by injection H' as <- <-. }
    destruct s as [|x s]; [done|]. cbn [app].
    destruct (Z.eq_dec x 43) as [->|N1]; [by apply Hsp|]. destruct (Z.eq_dec x 45) as [->|N2]; [by apply Hsp|].
    destruct x as [|p|p]; try (by apply (Hsp 1 (_ :: s))).
    do 6 (destruct p as [p|p|]; try (by apply (Hsp 1 (_ :: s)))); done.
Qed.

Lemma scan_number_parts s :
  scan_number s
  = let '(sg, r) := match s with 45 :: r => (true, r) | _ => (false, s) end in
    let '(ip, r1) := span is_digit r in
    match ip with
    | [] => None
    | d :: ds =>
        if (d =? 48) && negb (bool_decide (ds = [])) then None
        else match scan_frac r1 with
             | None => None
             | Some (fp, r3) =>
                 match scan_exp r3 with
                 | None => None
                 | Some (e, r6) =>
                     let q := QArith_base.Qmult (QArith_base.inject_Z (digits_value (ip ++ fp)))
                                (p10 (e - Z.of_nat (length fp))) in
                     Some (to_num sg (if sg then QArith_base.Qopp q else q), r6)
                 end
             end
    end.
Proof. reflexivity. Qed.

Lemma scan_number_app s r n r6 :
  scan_number s = Some (n, r6) -> ends_number r -> scan_number (s ++ r) = Some (n, r6 ++ r).
Proof.
  intros H He. rewrite scan_number_parts in H |- *.
  assert (match s ++ r with 45 :: r' => (true, r') | _ => (false, s ++ r) end
    = let '(sg, r') := match s with 45 :: r' => (true, r') | _ => (false, s) end in (sg, r' ++ r)) as ->.
  { destruct s as [|c s]; [done|]. cbn [app]. destruct c as [|p|p]; try done.
    do 6 (destruct p as [p|p|]; try done). }
  destruct (match s with 45 :: r' => (true, r') | _ => (false, s) end) as [sg r'].
  rewrite span_stops by (by apply ends_digit). destruct (span is_digit r') as [[|d ds] r1]; [done|]. cbn [fst snd].
  destruct ((d =? 48) && _); [done|]. destruct (scan_frac r1) as [[fp r3]|] eqn:Ef; [|done].
  rewrite (frac_app r1 r fp r3 Ef He). destruct (scan_exp r3) as [[e r7]|] eqn:Ex; [|done].
  rewrite (exp_app r3 r e r7 Ex He). cbv zeta in H |- *. by injection H as <- <-.
Qed.

(** A number whose text reads back is one that JSON can hold. *)
Lemma json_num_reads n :
  is_finite n = true -> scan_number (num_to_string n) = Some (n, []) -> json_ok (JNum n).
Proof.
  intros Hf H. constructor; [done|]. split.
  - rewrite scan_number_parts in H. destruct (num_to_string n) as [|c t]; [done|]. exists c, t. split; [done|].
    destruct (Z.eqb_spec c 45); [by rewrite orb_true_r|]. rewrite orb_false_r.
    destruct (is_digit c) eqn:E; [done|].
    assert (match c :: t with 45 :: r' => (true, r') | _ => (false, c :: t) end = (false, c :: t)) as Hm.
    { destruct c as [|p|p]; try done. do 6 (destruct p as [p|p|]; try done). }
    rewrite Hm in H. cbn [span] in H. by rewrite E in H.
  - intros r He. by apply (scan_number_app _ _ _ [] H).
Qed.
