(* ===== verification/JsObject.v ===== *)
(** * The order of an object's properties

    An object enumerates its array-index keys first, in increasing order, then the
    other keys in the order in which they were added.  [ordered o] says that the
    property list [o] is in such an order; assignment and deletion keep it, and an
    object rebuilt from its own entries is the object itself. *)

From S2P Require Import Prelude JsString JsNumber JsNumText JsValue JsJson JsRegex JsJsonRound.

Definition key_before (k k' : jsstr) : Prop :=
  match array_index k, array_index k' with
  | Some n, Some m => n < m
  | Some _, None => True
  | None, Some _ => False
  | None, None => k <> k'
  end.

Section Ordered.
Context {V : Type}.
Implicit Types (o : list (jsstr * V)).

Definition ordered o : Prop := StronglySorted key_before (o.*1).

Lemma ordered_nil : ordered [].
Proof. constructor. Qed.

Lemma ordered_cons k v o : ordered ((k, v) :: o) <-> Forall (key_before k) (o.*1) /\ ordered o.
Proof.
  unfold ordered. rewrite fmap_cons. split.
  - intros H. by apply StronglySorted_inv in H as [].
  - intros [? ?]. by constructor.
Qed.

Lemma key_before_ne k k' : key_before k k' -> k <> k'.
Proof. unfold key_before. repeat case_match; try done; intros ? ->; simplify_eq; lia. Qed.

Lemma ordered_NoDup o : ordered o -> NoDup (o.*1).
Proof.
  induction o as [|[k v] o IH]; [constructor|]. rewrite ordered_cons. intros [Hk Ho].
  rewrite fmap_cons. constructor; [|by apply IH]. intros Hin. rewrite Forall_forall in Hk.
  by apply (key_before_ne k k (Hk k Hin)).
Qed.

Lemma array_index_inj k k' n : array_index k = Some n -> array_index k' = Some n -> k = k'.
Proof.
  unfold array_index. destruct k as [|c k], k' as [|c' k']; try done.
  repeat case_match; try done. intros E1 E2. apply (inj Some) in E1, E2.
  bool_simp. congruence.
Qed.

(** The three ways an assignment changes the list. *)
Lemma om_set_keys k (v : V) o : om_get k o <> None -> (om_set k v o).*1 = o.*1.
Proof.
  induction o as [|[k' v'] o IH]; csimpl; [done|]. intros H.
  destruct (decide (k = k')); csimpl; [done|]. by rewrite IH.
Qed.

Lemma om_set_fresh_keys k (v : V) o : om_get k o = None -> (om_set k v o).*1 = o.*1 ++ [k].
Proof.
  intros H%om_get_None. rewrite om_set_fresh by done. by rewrite fmap_app.
Qed.

Lemma sorted_snoc o k :
  array_index k = None -> k ∉ o.*1 -> ordered o -> StronglySorted key_before (o.*1 ++ [k]).
Proof.
  intros Hk. induction o as [|[k' v'] o IH]; csimpl; intros Hn Ho; [by repeat constructor|].
  rewrite ordered_cons in Ho. destruct Ho as [Hf Ho]. constructor; [apply IH; set_solver|].
  apply Forall_app. split; [done|]. constructor; [|done]. unfold key_before. rewrite Hk.
  case_match; [done | set_solver].
Qed.

Lemma insert_index_ordered n k v o :
  array_index k = Some n -> om_get k o = None -> ordered o -> ordered (insert_index n k v o).
Proof.
  intros Hk. induction o as [|[k' v'] o IH]; simpl; intros Hn Ho; [by repeat constructor|].
  destruct (decide (k = k')) as [|Hne]; [done|].
  pose proof Ho as Ho'. rewrite ordered_cons in Ho'. destruct Ho' as [Hf Ho'].
  assert (Hlater : key_before k k' -> Forall (key_before k) (k' :: o.*1)).
  { intros Hb. constructor; [done|]. eapply Forall_impl; [exact Hf|]. intros k2 H2.
    unfold key_before in *. rewrite Hk in *. repeat case_match; try done; lia. }
  destruct (array_index k') as [m|] eqn:Hm; [destruct (Z.ltb_spec m n)|].
  - rewrite ordered_cons. split; [|by apply IH]. rewrite insert_index_keys. constructor; [|done].
    unfold key_before. by rewrite Hk, Hm.
  - rewrite ordered_cons. split; [|done]. apply Hlater. unfold key_before. rewrite Hk, Hm.
    assert (n <> m) by (intros ->; by apply Hne, (array_index_inj k k' m)). lia.
  - rewrite ordered_cons. split; [|done]. apply Hlater. unfold key_before. by rewrite Hk, Hm.
Qed.

Lemma obj_set_ordered k v o : ordered o -> ordered (obj_set k v o).
Proof.
  intros Ho. unfold obj_set. destruct (om_get k o) eqn:E.
  - unfold ordered. rewrite om_set_keys; [done | congruence].
  - destruct (array_index k) eqn:Hk; [by apply insert_index_ordered|].
    unfold ordered. rewrite om_set_fresh_keys by done. apply sorted_snoc; [done | | done].
    by apply om_get_None.
Qed.

Lemma obj_merge_ordered o p : ordered o -> ordered (obj_merge o p).
Proof.
  unfold obj_merge. revert o. induction p as [|kv p IH]; intros o Ho; simpl; [done|].
  by apply IH, obj_set_ordered.
Qed.

Lemma om_del_ordered k o : ordered o -> ordered (om_del k o).
Proof.
  induction o as [|[k' v'] o IH]; simpl; [done|]. rewrite ordered_cons. intros [Hf Ho].
  destruct (decide (k = k')); [by apply IH|]. rewrite ordered_cons. split; [|by apply IH].
  apply Forall_forall. intros x Hx. rewrite Forall_forall in Hf. apply Hf.
  apply elem_of_keys. apply elem_of_keys in Hx as [w Hw].
  destruct (decide (x = k)) as [->|]; [by rewrite om_get_del_eq in Hw|].
  rewrite om_get_del_ne in Hw by done. by eexists.
Qed.

(** An object rebuilt from its entries. *)
Lemma obj_set_last k v o :
  ordered (o ++ [(k, v)]) -> obj_set k v o = o ++ [(k, v)].
Proof.
  intros Ho. assert (Hn : k ∉ o.*1).
  { apply ordered_NoDup in Ho. rewrite fmap_app in Ho. apply NoDup_app in Ho as (_ & Hd & _).
    intros Hin. apply (Hd k Hin). left. }
  unfold obj_set. rewrite (proj2 (om_get_None k o)) by done.
  destruct (array_index k) as [n|] eqn:Hk; [|by apply om_set_fresh].
  clear Hn. induction o as [|[k' v'] o IH]; simpl; [done|]. simpl in Ho.
  rewrite ordered_cons in Ho. destruct Ho as [Hf Ho].
  rewrite fmap_app in Hf. apply Forall_app in Hf as [_ Hf]. apply Forall_cons in Hf as [Hb _].
  unfold key_before in Hb. simpl in Hb. rewrite Hk in Hb.
  destruct (array_index k') as [m|]; [|done]. rewrite (proj2 (Z.ltb_lt _ _)) by done.
  by rewrite IH.
Qed.

Lemma ordered_app_l (a b : list (jsstr * V)) : ordered (a ++ b) -> ordered a.
Proof.
  induction a as [|[k v] a IH]; simpl; [constructor|]. rewrite !ordered_cons.
  intros [Hf Ho]. split; [|by apply IH]. rewrite fmap_app in Hf. by apply Forall_app in Hf as [].
Qed.

Lemma obj_merge_self o : ordered o -> obj_merge [] o = o.
Proof.
  unfold obj_merge. induction o as [|[k v] o IH] using rev_ind; intros Ho; [done|].
  rewrite fold_left_app. simpl. rewrite IH by by apply ordered_app_l in Ho.
  by apply obj_set_last.
Qed.
End Ordered.

Lemma obj_set_Forall {V} (P : jsstr * V -> Prop) k v o :
  P (k, v) -> Forall P o -> Forall P (obj_set k v o).
Proof.
  intros Hp Ho. unfold obj_set.
  assert (forall n, Forall P (insert_index n k v o)).
  { intros n. induction Ho as [|[k' v'] o Hk Ho IH]; simpl; [by repeat constructor|].
    repeat case_match; by repeat constructor. }
  repeat case_match; auto using om_set_Forall.
Qed.

Lemma om_del_Forall {V} (P : jsstr * V -> Prop) k o : Forall P o -> Forall P (om_del k o).
Proof. induction 1 as [|[k' v'] o Hk Ho IH]; simpl; [done|]. case_decide; [done | by constructor]. Qed.

#[export] Hint Resolve ordered_nil obj_set_ordered obj_merge_ordered om_del_ordered ordered_NoDup : js.

Lemma ordered_json_ok o :
  ordered o -> Forall (fun kv => Forall unit_ok kv.1 /\ json_ok kv.2) o -> json_ok (JObj o).
Proof. intros Ho Hf. constructor; [done|]. by apply obj_merge_self. Qed.

(** ** What [JSON.parse] builds

    The objects of a parsed value are ordered, and their keys are strings of code
    units. *)

Inductive tidy : jsv -> Prop :=
  | tidy_null : tidy JNull
  | tidy_bool b : tidy (JBool b)
  | tidy_num n : tidy (JNum n)
  | tidy_str s : tidy (JStr s)
  | tidy_arr l : Forall tidy l -> tidy (JArr l)
  | tidy_obj o : ordered o -> Forall (fun kv => Forall unit_ok kv.1 /\ tidy kv.2) o -> tidy (JObj o).

Lemma dropWhile_units p s : Forall unit_ok s -> Forall unit_ok (dropWhile p s).
Proof. destruct (dropWhile_suffix p s) as [w Hw]. rewrite Hw at 1. by rewrite Forall_app; intros []. Qed.

Lemma span_units p s : Forall unit_ok s -> Forall unit_ok (span p s).2.
Proof. apply dropWhile_units. Qed.

Lemma hex_value_bound c x : hex_value c = Some x -> unit_ok c -> 0 <= x < 16.
Proof.
  unfold hex_value, digit_of_base, is_digit, unit_ok. repeat case_match; intros [= <-] Hc; bool_simp; lia.
Qed.

Lemma hex4_units a b c d x :
  hex4_value a b c d = Some x -> Forall unit_ok [a; b; c; d] -> unit_ok x.
Proof.
  unfold hex4_value. intros H Hf. rewrite !Forall_cons in Hf. destruct Hf as (Ha & Hb & Hc & Hd & _).
  destruct (hex_value a) eqn:E1; [|done]. destruct (hex_value b) eqn:E2; [|done].
  destruct (hex_value c) eqn:E3; [|done]. destruct (hex_value d) eqn:E4; [|done].
  apply hex_value_bound in E1, E2, E3, E4; [|done..]. simpl in H. simplify_eq. unfold unit_ok. lia.
Qed.

Lemma simple_escape_units c x : simple_escape c = Some x -> unit_ok x.
Proof. unfold simple_escape. repeat case_match; intros [= <-]; unfold unit_ok; lia. Qed.

Lemma scan_string_units s t r :
  scan_string s = Some (t, r) -> Forall unit_ok s -> Forall unit_ok t /\ Forall unit_ok r.
Proof.
  remember (length s) as n eqn:Hn. revert s t r Hn. induction (lt_wf n) as [n _ IH]. intros s t r -> H Hs.
  destruct s as [|c s]; [done|]. cbn [scan_string] in H. apply Forall_cons in Hs as [Hc Hs].
  destruct (c =? 34); [by simplify_eq|].
  destruct (c =? 92).
  - destruct s as [|e s]; [done|]. apply Forall_cons in Hs as [He Hs]. destruct (e =? 117).
    + destruct s as [|a [|b [|c' [|d s]]]]; try done.
      destruct (hex4_value a b c' d) eqn:E1; [|done].
      destruct (scan_string s) as [[t' r']|] eqn:E2; [|done]. simplify_eq.
      rewrite !Forall_cons in Hs. destruct Hs as (Ha & Hb & Hc' & Hd & Hs).
      edestruct (IH (length s)) as [Ht Hr]; [simpl; lia | done | done | done |]. split; [|done].
      constructor; [|done]. eapply hex4_units; [done|]. by rewrite !Forall_cons.
    + destruct (simple_escape e) eqn:E1; [|done].
      destruct (scan_string s) as [[t' r']|] eqn:E2; [|done]. simplify_eq.
      edestruct (IH (length s)) as [Ht Hr]; [simpl; lia | done | done | done |]. split; [|done].
      constructor; [by eapply simple_escape_units | done].
  - destruct (c <? 32); [done|]. destruct (scan_string s) as [[t' r']|] eqn:E2; [|done]. simplify_eq.
    edestruct (IH (length s)) as [Ht Hr]; [simpl; lia | done | done | done |]. split; [|done]. by constructor.
Qed.

(** Case analysis on a code unit compared with a literal. *)
Ltac unit_cases c :=
  let p := fresh "p" in destruct c as [|p|p]; try first [exact I | done];
  do 7 (destruct p as [p|p|]; try first [exact I | done]).

Lemma digits_units s ds r : span is_digit s = (ds, r) -> Forall unit_ok s -> Forall unit_ok r.
Proof. intros H Hs. apply (span_units is_digit) in Hs. by rewrite H in Hs. Qed.

Lemma scan_frac_units s fp r : scan_frac s = Some (fp, r) -> Forall unit_ok s -> Forall unit_ok r.
Proof.
  intros H Hs. destruct s as [|c s]; [by injection H as <- <-|].
  assert (Hgo : c <> 46 -> Some ([], c :: s) = Some (fp, r) -> Forall unit_ok r) by (intros _; congruence).
  destruct (Z.eq_dec c 46) as [->|Hc].
  - simpl in H. destruct (span is_digit s) as [[|d ds] r3] eqn:E; [done|]. simplify_eq.
    eapply digits_units; [exact E|]. by apply Forall_cons in Hs as [].
  - apply (Hgo Hc). rewrite <- H. unfold scan_frac. clear -Hc. unit_cases c.
Qed.

Lemma scan_exp_units s e r : scan_exp s = Some (e, r) -> Forall unit_ok s -> Forall unit_ok r.
Proof.
  intros H Hs. destruct s as [|c s]; [by injection H as <- <-|]. unfold scan_exp in H.
  destruct ((c =? 101) || (c =? 69)); [|by injection H as <- <-].
  apply Forall_cons in Hs as [_ Hs].
  assert (Hsign : Forall unit_ok (match s with 43 :: r5 => (1, r5) | 45 :: r5 => (-1, r5) | _ => (1, s) end).2).
  { destruct s as [|c' s]; [done|]. pose proof (proj1 (Forall_cons unit_ok c' s) Hs) as [_ Hs'].
    unit_cases c'. }
  destruct (match s with 43 :: r5 => (1, r5) | 45 :: r5 => (-1, r5) | _ => (1, s) end) as [esg r5].
  destruct (span is_digit r5) as [[|d ds] r3] eqn:E; [done|]. simplify_eq. by eapply digits_units.
Qed.

Lemma scan_number_units s n r : scan_number s = Some (n, r) -> Forall unit_ok s -> Forall unit_ok r.
Proof.
  intros H Hs. rewrite scan_number_parts in H.
  assert (Hsign : Forall unit_ok (match s with 45 :: r' => (true, r') | _ => (false, s) end).2).
  { destruct s as [|c' s]; [done|]. pose proof (proj1 (Forall_cons unit_ok c' s) Hs) as [_ Hs'].
    unit_cases c'. }
  destruct (match s with 45 :: r' => (true, r') | _ => (false, s) end) as [sg r'].
  destruct (span is_digit r') as [[|d ds] r1] eqn:E1; [done|].
  destruct ((d =? 48) && _); [done|].
  destruct (scan_frac r1) as [[fp r3]|] eqn:E2; [|done].
  destruct (scan_exp r3) as [[e r6]|] eqn:E3; [|done]. cbv zeta in H. simplify_eq.
  eapply scan_exp_units; [exact E3|]. eapply scan_frac_units; [exact E2|]. by eapply digits_units.
Qed.

Lemma drop_units n s : Forall unit_ok s -> Forall unit_ok (drop n s).
Proof. apply Forall_drop. Qed.

(** What a call of the parser returns, and leaves. *)
Definition parsed (o : option (jsv * jsstr)) : Prop :=
  match o with Some (v, r) => tidy v /\ Forall unit_ok r | None => True end.

Lemma skip_next c s r : skip_ws s = c :: r -> Forall unit_ok s -> Forall unit_ok r.
Proof. intros H Hs%(dropWhile_units json_space). unfold skip_ws in H. rewrite H in Hs. by apply Forall_cons in Hs as []. Qed.

(** A [match] on the next unit, by the literals it names. *)
Lemma next_unit {A} (P : A -> Prop) k s (f : jsstr -> A) (d : A) (m : jsstr -> A) :
  (forall r, m (k :: r) = f r) -> (forall s, (forall r, s <> k :: r) -> m s = d) ->
  (forall r, s = k :: r -> P (f r)) -> P d -> P (m s).
Proof.
  intros Hk Hd Hf HP. destruct s as [|c r].
  - by rewrite Hd.
  - destruct (Z.eq_dec c k) as [->|Hne]; [rewrite Hk; by apply Hf|].
    rewrite Hd; [done|]. intros r' [= ? ?]. done.
Qed.

(** The same, when every other unit is an error. *)
Lemma expect_unit (Q : jsstr -> Prop) k s :
  (forall s, (forall r, s <> k :: r) -> Q s) -> (forall r, s = k :: r -> Q (k :: r)) -> Q s.
Proof.
  intros Hd Hk. destruct s as [|c r]; [by apply Hd|].
  destruct (Z.eq_dec c k) as [->|Hne]; [by apply Hk|]. apply Hd. intros r' [= ? ?]. done.
Qed.

Lemma expect_unit2 (Q : jsstr -> Prop) k k' s :
  (forall s, (forall r, s <> k :: r) -> (forall r, s <> k' :: r) -> Q s) ->
  (forall r, s = k :: r -> Q (k :: r)) -> (forall r, s = k' :: r -> Q (k' :: r)) -> Q s.
Proof.
  intros Hd Hk Hk'. destruct s as [|c r]; [by apply Hd|].
  destruct (Z.eq_dec c k) as [->|Hne]; [by apply Hk|].
  destruct (Z.eq_dec c k') as [->|Hne']; [by apply Hk'|].
  apply Hd; intros r' [= ? ?]; done.
Qed.

Ltac other_unit :=
  let c := fresh "c" in let r := fresh "r" in let p := fresh "p" in
  let close := first [exact I | done | match goal with H : forall r, _ <> _ |- _ => by destruct (H _ eq_refl) end] in
  intros [|c r]; intros; [close|]; destruct c as [|p|p]; try close;
  do 7 (destruct p as [p|p|]; try close).

Section Parse.
Context (fuel : nat).
Hypothesis IHv : forall s, Forall unit_ok s -> parsed (parse_value fuel s).
Hypothesis IHe : forall s acc, Forall unit_ok s -> Forall tidy acc -> parsed (parse_elems fuel s acc).
Hypothesis IHm : forall s acc, Forall unit_ok s -> ordered acc ->
  Forall (fun kv => Forall unit_ok kv.1 /\ tidy kv.2) acc -> parsed (parse_members fuel s acc).

Lemma value_step s : Forall unit_ok s -> parsed (parse_value (S fuel) s).
Proof using IHe IHm.
  intros Hs. cbn [parse_value]. destruct (skip_ws s) as [|c r] eqn:Ews; [done|].
  pose proof (skip_next c s r Ews Hs) as Hr.
  assert (Hcr : Forall unit_ok (c :: r)) by (rewrite <- Ews; by apply dropWhile_units).
  destruct (c =? 34).
  { destruct (scan_string r) as [[t r']|] eqn:E; [|done].
    destruct (scan_string_units r t r' E Hr). split; [constructor | done]. }
  destruct (c =? 91).
  { apply (next_unit parsed 93 (skip_ws r) (fun r' => Some (JArr [], r')) (parse_elems fuel r [])
      (fun x => match x with 93 :: r' => Some (JArr [], r') | _ => parse_elems fuel r [] end));
      [done | other_unit | | by apply IHe].
    intros r' E. split; [by repeat constructor | by eapply skip_next]. }
  destruct (c =? 123).
  { apply (next_unit parsed 125 (skip_ws r) (fun r' => Some (JObj [], r')) (parse_members fuel r [])
      (fun x => match x with 125 :: r' => Some (JObj [], r') | _ => parse_members fuel r [] end));
      [done | other_unit | | by apply IHm; [|constructor..]].
    intros r' E. split; [by repeat constructor | by eapply skip_next]. }
  destruct (startsWith (u "null") (c :: r)); [split; [constructor | by apply drop_units]|].
  destruct (startsWith (u "true") (c :: r)); [split; [constructor | by apply drop_units]|].
  destruct (startsWith (u "false") (c :: r)); [split; [constructor | by apply drop_units]|].
  destruct (scan_number (c :: r)) as [[n r']|] eqn:E; [|done].
  split; [constructor | by eapply scan_number_units].
Qed.

Lemma elems_step s acc : Forall unit_ok s -> Forall tidy acc -> parsed (parse_elems (S fuel) s acc).
Proof using IHv IHe.
  intros Hs Hacc. cbn [parse_elems]. pose proof (IHv s Hs) as Hv.
  destruct (parse_value fuel s) as [[v r]|]; [|done]. destruct Hv as [Hv Hr].
  assert (Hacc' : Forall tidy (acc ++ [v])) by (apply Forall_app; split; [done | by constructor]).
  pattern (skip_ws r). apply (expect_unit2 _ 44 93); [other_unit | ..].
  - intros r' E. apply IHe; [by eapply skip_next | done].
  - intros r' E. split; [by constructor | by eapply skip_next].
Qed.

Lemma members_step s acc :
  Forall unit_ok s -> ordered acc -> Forall (fun kv => Forall unit_ok kv.1 /\ tidy kv.2) acc ->
  parsed (parse_members (S fuel) s acc).
Proof using IHv IHm.
  intros Hs Ho Hacc. cbn [parse_members].
  pattern (skip_ws s). apply (expect_unit _ 34); [other_unit|]. intros r E. pose proof (skip_next _ _ _ E Hs) as Hr.
  destruct (scan_string r) as [[k r1]|] eqn:Ek; [|done].
  destruct (scan_string_units r k r1 Ek Hr) as [Hk Hr1].
  pattern (skip_ws r1). apply (expect_unit _ 58); [other_unit|]. intros r2 E2. pose proof (IHv r2 (skip_next _ _ _ E2 Hr1)) as Hv.
  destruct (parse_value fuel r2) as [[v r3]|]; [|done]. destruct Hv as [Hv Hr3].
  assert (Hacc' : Forall (fun kv => Forall unit_ok kv.1 /\ tidy kv.2) (obj_set k v acc))
    by by apply obj_set_Forall.
  pattern (skip_ws r3). apply (expect_unit2 _ 44 125); [other_unit | ..].
  - intros r4 E4. apply IHm; [by eapply skip_next | by apply obj_set_ordered | done].
  - intros r4 E4. split; [constructor; [by apply obj_set_ordered | done] | by eapply skip_next].
Qed.
End Parse.

Lemma parse_tidy fuel :
  (forall s, Forall unit_ok s -> parsed (parse_value fuel s)) /\
  (forall s acc, Forall unit_ok s -> Forall tidy acc -> parsed (parse_elems fuel s acc)) /\
  (forall s acc, Forall unit_ok s -> ordered acc ->
     Forall (fun kv => Forall unit_ok kv.1 /\ tidy kv.2) acc -> parsed (parse_members fuel s acc)).
Proof.
  induction fuel as [|fuel (IHv & IHe & IHm)]; [done|].
  split; [|split]; intros; [by apply value_step | by apply elems_step | by apply members_step].
Qed.

Lemma json_parse_tidy s v : Forall unit_ok s -> json_parse s = Some v -> tidy v.
Proof.
  intros Hs. unfold json_parse. destruct (parse_tidy (2 * length s + 2)) as [Hp _].
  specialize (Hp s Hs). destruct (parse_value _ s) as [[w r]|]; [|done]. destruct Hp as [Hw _].
  case_bool_decide; [|done]. by intros [= <-].
Qed.
