(* ===== verification/RequestRule.v ===== *)
(** * Request rules of billing expressions

    Model of web/classic/src/pages/Setting/Ratio/components/requestRuleExpr.js:
    conditions on request parameters, headers and the time of day, grouped into
    factors [(cond && cond ? multiplier : 1)], printed to and parsed from the
    billing expression language. *)

From S2P Require Import Prelude JsString JsNumber JsNumText JsValue JsJson JsRegex.

#[local] Open Scope regex_scope.

(** ** Constants *)

Definition SOURCE_PARAM : jsstr := u "param".
Definition SOURCE_HEADER : jsstr := u "header".
Definition SOURCE_TIME : jsstr := u "time".

Inductive mode :=
  | MATCH_EQ
  | MATCH_CONTAINS
  | MATCH_GT
  | MATCH_GTE
  | MATCH_LT
  | MATCH_LTE
  | MATCH_EXISTS
  | MATCH_RANGE.

#[export] Instance mode_eq_dec : EqDecision mode.
Proof. solve_decision. Defined.

Definition mode_str (m : mode) : jsstr :=
  match m with
  | MATCH_EQ => u "eq"
  | MATCH_CONTAINS => u "contains"
  | MATCH_GT => u "gt"
  | MATCH_GTE => u "gte"
  | MATCH_LT => u "lt"
  | MATCH_LTE => u "lte"
  | MATCH_EXISTS => u "exists"
  | MATCH_RANGE => u "range"
  end.

Definition TIME_FUNCS : list jsstr := [u "hour"; u "minute"; u "weekday"; u "month"; u "day"].

Definition is_e (c : Z) : bool := (c =? 101) || (c =? 69).
Definition is_sign (c : Z) : bool := (c =? 43) || (c =? 45).

(** [/^-?(?:\d+\.?\d*|\.\d+)(?:[eE][+-]?\d+)?$/] *)
Definition NUMERIC_LITERAL_REGEX : regex :=
  ropt (rlit "-")
  · RAlt (rplus (RChr is_digit) · ropt (rlit ".") · RStar (RChr is_digit))
         (rlit "." · rplus (RChr is_digit))
  · ropt (RChr is_e · ropt (RChr is_sign) · rplus (RChr is_digit))
  · REnd.

(** ** Conditions *)

Inductive condition :=
  | ReqCond (source : jsstr) (path : jsv) (m : mode) (value : jsstr)
  | TimeCond (timeFunc : jsstr) (timezone : jsv) (m : mode) (value rangeStart rangeEnd : jsstr).

Record group := { g_conditions : list condition; g_multiplier : jsstr }.

Definition cond_obj (c : condition) : jsv :=
  match c with
  | ReqCond source path m value =>
      JObj [(u "source", JStr source); (u "path", path); (u "mode", JStr (mode_str m));
            (u "value", JStr value)]
  | TimeCond tf tz m value rs re =>
      JObj [(u "source", JStr SOURCE_TIME); (u "timeFunc", JStr tf); (u "timezone", tz);
            (u "mode", JStr (mode_str m)); (u "value", JStr value);
            (u "rangeStart", JStr rs); (u "rangeEnd", JStr re)]
  end.

Definition group_obj (g : group) : jsv :=
  JObj [(u "conditions", JArr (cond_obj <$> g_conditions g));
        (u "multiplier", JStr (g_multiplier g))].

Definition createEmptyCondition : condition := ReqCond SOURCE_PARAM (JStr []) MATCH_EQ [].

Definition createEmptyTimeCondition : condition :=
  TimeCond (u "hour") (JStr (u "Asia/Shanghai")) MATCH_GTE [] [] [].

Definition createEmptyRuleGroup : group :=
  {| g_conditions := [createEmptyCondition]; g_multiplier := [] |}.

Definition createEmptyTimeRuleGroup : group :=
  {| g_conditions := [createEmptyTimeCondition]; g_multiplier := [] |}.

Definition createEmptyRequestRule : jsv :=
  JObj [(u "source", JStr SOURCE_PARAM); (u "path", JStr []);
        (u "mode", JStr (mode_str MATCH_EQ)); (u "value", JStr []); (u "multiplier", JStr [])].

Definition createEmptyTimeRule : jsv :=
  JObj [(u "source", JStr SOURCE_TIME); (u "timeFunc", JStr (u "hour"));
        (u "timezone", JStr (u "Asia/Shanghai")); (u "mode", JStr (mode_str MATCH_GTE));
        (u "value", JStr []); (u "rangeStart", JStr []); (u "rangeEnd", JStr []);
        (u "multiplier", JStr [])].

Definition getRequestRuleMatchOptions (source : jsstr) (t : jsstr -> jsstr) : list (mode * jsstr) :=
  if bool_decide (source = SOURCE_TIME) then
    [(MATCH_EQ, t (u "等于")); (MATCH_GTE, t (u "大于等于")); (MATCH_LT, t (u "小于"));
     (MATCH_RANGE, t (u "跨夜范围"))]
  else
    let base := [(MATCH_EQ, t (u "等于")); (MATCH_CONTAINS, t (u "包含"));
                 (MATCH_EXISTS, t (u "存在"))] in
    if bool_decide (source = SOURCE_HEADER) then base
    else base ++ [(MATCH_GT, t (u "大于")); (MATCH_GTE, t (u "大于等于"));
                  (MATCH_LT, t (u "小于")); (MATCH_LTE, t (u "小于等于"))].

(** [options.some((item) => item.value === v) ? v : d] *)
Definition pick_mode (options : list (mode * jsstr)) (v : jsv) (d : mode) : mode :=
  match List.find (fun o => is_str v (mode_str o.1)) options with
  | Some (m, _) => m
  | None => d
  end.

(** [v == null ? '' : String(v)] *)
Definition str_or_empty (v : jsv) : jsstr := if is_nullish v then [] else to_string v.

Definition normalizeCondition (cond : jsv) : condition :=
  let source :=
    if is_str (cond?."source") SOURCE_TIME then SOURCE_TIME
    else if is_str (cond?."source") SOURCE_HEADER then SOURCE_HEADER
    else SOURCE_PARAM in
  if bool_decide (source = SOURCE_TIME) then
    let timeFunc :=
      match cond?."timeFunc" with
      | JStr f => if bool_decide (f ∈ TIME_FUNCS) then f else u "hour"
      | _ => u "hour"
      end in
    let options := getRequestRuleMatchOptions SOURCE_TIME id in
    TimeCond timeFunc
      (js_or (cond?."timezone") (JStr (u "Asia/Shanghai")))
      (pick_mode options (cond?."mode") MATCH_GTE)
      (str_or_empty (cond?."value")) (str_or_empty (cond?."rangeStart"))
      (str_or_empty (cond?."rangeEnd"))
  else
    let options := getRequestRuleMatchOptions source id in
    ReqCond source (js_or (cond?."path") (JStr []))
      (pick_mode options (cond?."mode") MATCH_EQ) (str_or_empty (cond?."value")).

Definition normalizeRequestRule (rule : jsv) : jsv :=
  JObj (own_props (cond_obj (normalizeCondition rule))
        ++ [(u "multiplier", JStr (str_or_empty (rule?."multiplier")))]).

(** ** Splitting at the top level *)

Definition step_depth (depth c : Z) : Z :=
  if c =? 40 then depth + 1 else if c =? 41 then depth - 1 else depth.

(** The scanning loop of [splitTopLevelMultiply] and [splitTopLevelAnd]: [skip]
    is what is left of a separator, [cur] the current part in reverse. *)
Fixpoint split_go (sep s : jsstr) (skip : nat) (depth : Z) (cur : jsstr) : list jsstr :=
  match s with
  | [] => [trim (reverse cur)]
  | c :: s' =>
      match skip with
      | S k => split_go sep s' k depth cur
      | O =>
          let depth' := step_depth depth c in
          if (depth' =? 0) && startsWith sep s
          then trim (reverse cur) :: split_go sep s' (length sep - 1) depth' []
          else split_go sep s' 0 depth' (c :: cur)
      end
  end.

Definition nonempty (s : jsstr) : bool := negb (bool_decide (s = [])).

Definition splitTopLevelMultiply (expr : jsstr) : list jsstr :=
  List.filter nonempty (split_go (u " * ") expr 0 0 []).

Definition splitTopLevelAnd (expr : jsstr) : list jsstr :=
  List.filter nonempty (split_go (u " && ") expr 0 0 []).

(** ** Literals *)

Definition is_bool_text (text : jsstr) : bool :=
  bool_decide (text = u "true") || bool_decide (text = u "false").

(** [None] is the null result. *)
Definition parseExprLiteral (raw : jsstr) : option jsv :=
  let text := trim raw in
  if is_bool_text text then Some (JStr text)
  else if rtest NUMERIC_LITERAL_REGEX text then Some (JStr text)
  else match json_parse text with
       | Some JNull => None
       | Some v => Some v
       | None => None
       end.

Definition buildExprLiteral (m : mode) (value : jsstr) : jsstr :=
  let text := trim value in
  if bool_decide (m = MATCH_CONTAINS) then quote text
  else if is_bool_text text then text
  else if rtest NUMERIC_LITERAL_REGEX text then text
  else quote text.

(** ** Printing conditions and groups *)

(** [JSON.stringify(v)] inside a template literal. *)
Definition stringify_text (v : jsv) : jsstr :=
  match stringify v with Some s => s | None => u "undefined" end.

Definition time_op (m : mode) : jsstr :=
  match m with
  | MATCH_EQ => u "=="
  | MATCH_GTE => u ">="
  | MATCH_LT => u "<"
  | _ => u "=="
  end.

Definition buildTimeConditionExpr (cond : jsv) : jsstr :=
  match normalizeCondition cond with
  | TimeCond timeFunc timezone m value rangeStart rangeEnd =>
      let fn := timeFunc ++ u "(" ++ stringify_text timezone ++ u ")" in
      if bool_decide (m = MATCH_RANGE) then
        let s := trim rangeStart in
        let e := trim rangeEnd in
        if negb (rtest NUMERIC_LITERAL_REGEX s) || negb (rtest NUMERIC_LITERAL_REGEX e) then []
        else fn ++ u " >= " ++ s ++ u " || " ++ fn ++ u " < " ++ e
      else
        let v := trim value in
        if negb (rtest NUMERIC_LITERAL_REGEX v) then []
        else fn ++ u " " ++ time_op m ++ u " " ++ v
  | ReqCond _ _ _ _ => []
  end.

Definition cmp_op (m : mode) : jsstr :=
  match m with
  | MATCH_GT => u ">"
  | MATCH_GTE => u ">="
  | MATCH_LT => u "<"
  | _ => u "<="
  end.

Definition buildRequestConditionExpr (cond : jsv) : exc jsstr :=
  if is_str (cond?."source") SOURCE_TIME then Ret (buildTimeConditionExpr cond)
  else
    match normalizeCondition cond with
    | TimeCond _ _ _ _ _ _ => Ret []
    | ReqCond source path m value =>
        raw ← as_string path;
        let p := trim raw in
        if bool_decide (p = []) then Ret []
        else
          let is_header := bool_decide (source = SOURCE_HEADER) in
          let sourceExpr :=
            if is_header then u "header(" ++ quote p ++ u ")"
            else u "param(" ++ quote p ++ u ")" in
          Ret match m with
          | MATCH_EXISTS =>
              if is_header then sourceExpr ++ u " != " ++ [34; 34]
              else sourceExpr ++ u " != nil"
          | MATCH_CONTAINS =>
              let has := u "has(" ++ sourceExpr ++ u ", " ++ buildExprLiteral m value ++ u ")" in
              if is_header then has else sourceExpr ++ u " != nil && " ++ has
          | MATCH_GT | MATCH_GTE | MATCH_LT | MATCH_LTE =>
              if negb (rtest NUMERIC_LITERAL_REGEX (trim value)) then []
              else sourceExpr ++ u " != nil && " ++ sourceExpr ++ u " " ++ cmp_op m
                   ++ u " " ++ trim value
          | MATCH_EQ | MATCH_RANGE =>
              sourceExpr ++ u " == " ++ buildExprLiteral m value
          end
    end.

Definition wrap_or (e : jsstr) : jsstr :=
  if includes (u " || ") e then u "(" ++ e ++ u ")" else e.

(** [(v || [])], on which [map] is called. *)
Definition array_or_throw (v : jsv) : exc (list jsv) :=
  if truthy v then match v with JArr l => Ret l | _ => Throw (u "TypeError") end else Ret [].

Definition buildRuleGroupFactor (g : jsv) : exc jsstr :=
  if is_nullish g then Throw (u "TypeError") else
  raw ← as_string (js_or (g?."multiplier") (JStr []));
  let multiplier := trim raw in
  if negb (rtest NUMERIC_LITERAL_REGEX multiplier) then Ret []
  else
    conditions ← array_or_throw (g?."conditions");
    all ← exc_map buildRequestConditionExpr conditions;
    let condExprs := List.filter nonempty all in
    match condExprs with
    | [] => Ret []
    | _ =>
        let combined :=
          match condExprs with
          | [e] => e
          | _ => join (u " && ") (wrap_or <$> condExprs)
          end in
        Ret (u "(" ++ combined ++ u " ? " ++ multiplier ++ u " : 1)")
    end.

Definition buildRequestRuleExpr (groups : jsv) : exc jsstr :=
  l ← array_or_throw groups;
  fs ← exc_map buildRuleGroupFactor l;
  Ret (join (u " * ") (List.filter nonempty fs)).

(** ** Parsing conditions and groups *)

Definition not_quote (c : Z) : bool := negb (c =? 34).
(** [[\d.eE+-]] *)
Definition is_numch (c : Z) : bool := is_digit c || (c =? 46) || is_e c || is_sign c.
(** [.] without and with the [s] flag *)
Definition is_dot (c : Z) : bool :=
  negb ((c =? 10) || (c =? 13) || (c =? 8232) || (c =? 8233)).
Definition is_any (c : Z) : bool := true.

Definition r_numch (i : nat) : regex := RGroup i (rplus (RChr is_numch)).
(** The quoted argument in parentheses after a function name. *)
Definition r_arg (i : nat) : regex :=
  runits [40; 34] · RGroup i (rplus (RChr not_quote)) · runits [34; 41].
Definition r_timefn : regex := RGroup 1 (rchoice ["hour"; "minute"; "weekday"; "month"; "day"]).
(** A string literal with backslash escapes. *)
Definition r_strlit : regex :=
  RChr (Z.eqb 34)
  · RStar (RAlt (RChr (fun c => not_quote c && negb (c =? 92))) (RChr (Z.eqb 92) · RChr is_dot))
  · RChr (Z.eqb 34).

Definition TIME_RANGE_BODY : regex :=
  r_timefn · r_arg 2 · rlit " >= " · r_numch 3 · rlit " || "
  · RBack 1 · runits [40; 34] · RBack 2 · runits [34; 41] · rlit " < " · r_numch 4.
Definition TIME_RANGE_REGEX : regex := TIME_RANGE_BODY · REnd.
Definition TIME_RANGE_WRAPPED_REGEX : regex := rlit "(" · TIME_RANGE_BODY · rlit ")" · REnd.
Definition TIME_SIMPLE_REGEX : regex :=
  r_timefn · r_arg 2 · rlit " " · RGroup 3 (rchoice ["=="; ">="; "<"]) · rlit " "
  · r_numch 4 · REnd.

Definition time_range_cond (m : list (nat * jsstr)) : condition :=
  TimeCond (cap 1 m) (JStr (cap 2 m)) MATCH_RANGE [] (cap 3 m) (cap 4 m).

Definition time_op_mode (op : jsstr) : mode :=
  if bool_decide (op = u "==") then MATCH_EQ
  else if bool_decide (op = u ">=") then MATCH_GTE
  else if bool_decide (op = u "<") then MATCH_LT
  else MATCH_EQ.

Definition tryParseTimeCondition (expr : jsstr) : option condition :=
  match rexec TIME_RANGE_REGEX expr with
  | Some m => Some (time_range_cond m)
  | None =>
  match rexec TIME_RANGE_WRAPPED_REGEX expr with
  | Some m => Some (time_range_cond m)
  | None =>
  match rexec TIME_SIMPLE_REGEX expr with
  | Some m => Some (TimeCond (cap 1 m) (JStr (cap 2 m)) (time_op_mode (cap 3 m)) (cap 4 m) [] [])
  | None => None
  end end end.

Definition HEADER_EXISTS_REGEX : regex :=
  rlit "header" · r_arg 1 · rlit " != " · runits [34; 34] · REnd.
Definition PARAM_EXISTS_REGEX : regex := rlit "param" · r_arg 1 · rlit " != nil" · REnd.
Definition HEADER_HAS_REGEX : regex :=
  rlit "has(header" · r_arg 1 · rlit ", " · RGroup 2 r_strlit · rlit ")" · REnd.
Definition PARAM_HAS_REGEX : regex :=
  rlit "param" · r_arg 1 · rlit " != nil && has(param" · r_arg 2 · rlit ", "
  · RGroup 3 r_strlit · rlit ")" · REnd.
Definition PARAM_CMP_REGEX : regex :=
  rlit "param" · r_arg 1 · rlit " != nil && param" · r_arg 2 · rlit " "
  · RGroup 3 (rchoice [">"; ">="; "<"; "<="]) · rlit " " · r_numch 4 · REnd.
Definition EQ_REGEX : regex :=
  RGroup 1 (rchoice ["param"; "header"]) · r_arg 2 · rlit " == "
  · RGroup 3 (rplus (RChr is_dot)) · REnd.

Definition cmp_op_mode (op : jsstr) : mode :=
  if bool_decide (op = u ">") then MATCH_GT
  else if bool_decide (op = u ">=") then MATCH_GTE
  else if bool_decide (op = u "<") then MATCH_LT
  else MATCH_LTE.

(** [JSON.parse(s)], whose SyntaxError propagates. *)
Definition json_parse_exc (s : jsstr) : exc jsv :=
  match json_parse s with Some v => Ret v | None => Throw (u "SyntaxError") end.

Definition parse_eq_condition (expr : jsstr) : option condition :=
  match rexec EQ_REGEX expr with
  | Some m =>
      match parseExprLiteral (cap 3 m) with
      | Some v => Some (ReqCond (cap 1 m) (JStr (cap 2 m)) MATCH_EQ (to_string v))
      | None => None
      end
  | None => None
  end.

Definition parse_param_cmp (expr : jsstr) : option condition :=
  match rexec PARAM_CMP_REGEX expr with
  | Some m =>
      if bool_decide (cap 1 m = cap 2 m)
      then Some (ReqCond SOURCE_PARAM (JStr (cap 1 m)) (cmp_op_mode (cap 3 m)) (cap 4 m))
      else parse_eq_condition expr
  | None => parse_eq_condition expr
  end.

Definition parse_param_has (expr : jsstr) : exc (option condition) :=
  match rexec PARAM_HAS_REGEX expr with
  | Some m =>
      if bool_decide (cap 1 m = cap 2 m) then
        v ← json_parse_exc (cap 3 m);
        Ret (Some (ReqCond SOURCE_PARAM (JStr (cap 1 m)) MATCH_CONTAINS (to_string v)))
      else Ret (parse_param_cmp expr)
  | None => Ret (parse_param_cmp expr)
  end.

Definition tryParseRequestCondition (expr : jsstr) : exc (option condition) :=
  match tryParseTimeCondition expr with
  | Some tc => Ret (Some tc)
  | None =>
  match rexec HEADER_EXISTS_REGEX expr with
  | Some m => Ret (Some (ReqCond SOURCE_HEADER (JStr (cap 1 m)) MATCH_EXISTS []))
  | None =>
  match rexec PARAM_EXISTS_REGEX expr with
  | Some m => Ret (Some (ReqCond SOURCE_PARAM (JStr (cap 1 m)) MATCH_EXISTS []))
  | None =>
  match rexec HEADER_HAS_REGEX expr with
  | Some m =>
      v ← json_parse_exc (cap 2 m);
      Ret (Some (ReqCond SOURCE_HEADER (JStr (cap 1 m)) MATCH_CONTAINS (to_string v)))
  | None => parse_param_has expr
  end end end end.

(** [/^\((.+) \? ([\d.eE+-]+) : 1\)$/s] *)
Definition FACTOR_REGEX : regex :=
  rlit "(" · RGroup 1 (rplus (RChr is_any)) · rlit " ? " · r_numch 2 · rlit " : 1)" · REnd.

(** The loop over the conjuncts: the first one that is not a condition ends it. *)
Fixpoint parse_conditions (andParts : list jsstr) : exc (option (list condition)) :=
  match andParts with
  | [] => Ret (Some [])
  | ap :: rest =>
      c ← tryParseRequestCondition (trim ap);
      match c with
      | None => Ret None
      | Some cond =>
          cs ← parse_conditions rest;
          Ret (match cs with
               | None => None
               | Some l => Some (normalizeCondition (cond_obj cond) :: l)
               end)
      end
  end.

Definition tryParseRuleGroupFactor (part : jsstr) : exc (option group) :=
  match rexec FACTOR_REGEX part with
  | None => Ret None
  | Some m =>
      cs ← parse_conditions (splitTopLevelAnd (cap 1 m));
      Ret (match cs with
           | None | Some [] => None
           | Some l => Some {| g_conditions := l; g_multiplier := cap 2 m |}
           end)
  end.

Fixpoint parse_groups (parts : list jsstr) : exc (option (list group)) :=
  match parts with
  | [] => Ret (Some [])
  | p :: rest =>
      g ← tryParseRuleGroupFactor p;
      match g with
      | None => Ret None
      | Some gr =>
          gs ← parse_groups rest;
          Ret (match gs with None => None | Some l => Some (gr :: l) end)
      end
  end.

Definition tryParseRequestRuleExpr (expr : jsstr) : exc (option (list group)) :=
  let trimmed := trim expr in
  if bool_decide (trimmed = []) then Ret (Some [])
  else parse_groups (splitTopLevelMultiply trimmed).

(** ** Combining and splitting billing expressions *)

(** The loop of [hasFullOuterParens]: depth 0 is only reached at the end. *)
Fixpoint outer_go (s : jsstr) (depth : Z) : bool :=
  match s with
  | [] => depth =? 0
  | c :: s' =>
      let depth' := step_depth depth c in
      if (depth' =? 0) && negb (bool_decide (s' = [])) then false
      else outer_go s' depth'
  end.

Definition hasFullOuterParens (expr : jsstr) : bool :=
  if negb (startsWith (u "(") expr) || negb (endsWith (u ")") expr) then false
  else outer_go expr 0.

(** [s.slice(1, -1)] *)
Definition strip_ends (s : jsstr) : jsstr := take (length s - 2) (drop 1 s).

(** Every turn of the loop drops at least one code unit. *)
Fixpoint unwrap_loop (fuel : nat) (current : jsstr) : jsstr :=
  match fuel with
  | O => current
  | S fuel' =>
      if hasFullOuterParens current then unwrap_loop fuel' (trim (strip_ends current))
      else current
  end.

Definition unwrapOuterParens (expr : jsstr) : jsstr := unwrap_loop (length expr) (trim expr).

Definition combineBillingExpr (baseExpr requestRuleExpr : jsstr) : jsstr :=
  let base := trim baseExpr in
  let rules := trim requestRuleExpr in
  if bool_decide (base = []) then []
  else if bool_decide (rules = []) then base
  else u "(" ++ base ++ u ") * " ++ rules.

(** [tryParseRequestRuleExpr(part) !== null && ....length > 0] *)
Definition is_rule_part (part : jsstr) : exc bool :=
  r ← tryParseRequestRuleExpr part;
  Ret (match r with Some (_ :: _) => true | _ => false end).

(** The rule parts and the base parts, in order. *)
Fixpoint partition_parts (parts : list jsstr) : exc (list jsstr * list jsstr) :=
  match parts with
  | [] => Ret ([], [])
  | p :: rest =>
      b ← is_rule_part p;
      rb ← partition_parts rest;
      Ret (if (b : bool) then (p :: rb.1, rb.2) else (rb.1, p :: rb.2))
  end.

Record billing_split := { billingExpr : jsstr; requestRuleExpr : jsstr }.

Definition splitBillingExprAndRequestRules (expr : jsstr) : exc billing_split :=
  let trimmed := trim expr in
  if bool_decide (trimmed = []) then Ret {| billingExpr := []; requestRuleExpr := [] |}
  else
    let parts := splitTopLevelMultiply trimmed in
    if (length parts <=? 1)%nat then Ret {| billingExpr := trimmed; requestRuleExpr := [] |}
    else
      rb ← partition_parts parts;
      match rb with
      | ((_ :: _) as ruleParts, [base]) =>
          Ret {| billingExpr := unwrapOuterParens base;
                 requestRuleExpr := join (u " * ") ruleParts |}
      | _ => Ret {| billingExpr := trimmed; requestRuleExpr := [] |}
      end.
