(* ===== verification/RequestRuleThms.v ===== *)
(** * Request rules: printing and parsing agree

    Theorems about [RequestRule]: the conditions the parser can read back, the
    round trip of rule expressions and of combined billing expressions, and the
    conditions that do not survive the trip. *)

From S2P Require Import Prelude JsString JsNumber JsNumText JsValue JsJson JsRegex RequestRule.

(** ** Text that needs no escaping *)

(** Code units of a path or a time zone that print as themselves inside a
    string literal and do not disturb the parenthesis count. *)
Definition is_plain (c : Z) : bool :=
  (32 <=? c) && (c <=? 65535) && not_quote c && negb (c =? 92)
  && negb (is_high_surrogate c) && negb (is_low_surrogate c)
  && negb (c =? 40) && negb (c =? 41).

Definition no_parens (s : jsstr) : bool := forallb (fun c => negb (c =? 40) && negb (c =? 41)) s.

Lemma escape_plain s : forallb is_plain s = true -> escape s = s.
Proof.
  induction s as [|c s IH]; simpl; intros H; [done|].
  unfold is_plain, not_quote in H. bool_simp. rewrite H4.
  unfold escape_unit. rewrite H4, H3.
  repeat match goal with
  | |- context [if ?a =? ?b then _ else _] => destruct (Z.eqb_spec a b); [lia|]
  end.
  destruct (Z.ltb_spec c 32); [lia|]. simpl. by rewrite IH.
Qed.

Lemma quote_plain s : forallb is_plain s = true -> quote s = 34 :: s ++ [34].
Proof. intros H. unfold quote. by rewrite escape_plain. Qed.

Lemma plain_not_quote s : forallb is_plain s = true -> forallb not_quote s = true.
Proof.
  rewrite !forallb_forall. intros H x Hx. specialize (H x Hx). unfold is_plain in H.
  by bool_simp.
Qed.

Lemma plain_no_parens s : forallb is_plain s = true -> no_parens s = true.
Proof.
  unfold no_parens. rewrite !forallb_forall. intros H x Hx. specialize (H x Hx).
  unfold is_plain in H. apply andb_true_iff in H as [H ->]. by apply andb_true_iff in H as [_ ->].
Qed.

(** ** Numeric literals *)

Lemma numeric_chars s : rtest NUMERIC_LITERAL_REGEX s = true -> forallb is_numch s = true.
Proof.
  apply rtest_chars. unfold rlit. lits. cbn [chars_in runits ropt rplus].
  split_and!; try done; intros x H;
    solve [apply Z.eqb_eq in H; subst; reflexivity
          | unfold is_numch; rewrite H, ?orb_true_r; reflexivity].
Qed.

Lemma numeric_nonempty s : rtest NUMERIC_LITERAL_REGEX s = true -> s <> [].
Proof. intros H ->. done. Qed.

Lemma numch_cases c : is_numch c = true -> 43 <= c <= 57 \/ c = 69 \/ c = 101.
Proof.
  unfold is_numch, is_digit, is_e, is_sign. rewrite !orb_true_iff, andb_true_iff, !Z.leb_le, !Z.eqb_eq.
  lia.
Qed.

Lemma numch_not_space c : is_numch c = true -> is_space c = false.
Proof.
  intros H%numch_cases. unfold is_space.
  repeat match goal with |- context [Z.leb ?a ?b] => destruct (Z.leb_spec a b); try lia end;
  repeat match goal with |- context [Z.eqb ?a ?b] => destruct (Z.eqb_spec a b); try lia end; done.
Qed.

Lemma numch_trim s : forallb is_numch s = true -> trim s = s.
Proof. intros H. apply trim_trimmed_id. eapply forallb_trimmed; [apply numch_not_space | done]. Qed.

Lemma numeric_trim s : rtest NUMERIC_LITERAL_REGEX s = true -> trim s = s.
Proof. intros H. by apply numch_trim, numeric_chars. Qed.

#[export] Hint Resolve numeric_chars numeric_nonempty plain_not_quote plain_no_parens : js.

(** ** Matching the pieces of the patterns *)

Section Pieces.
Context {R : Type}.
Implicit Types (k : jsstr -> list (nat * jsstr) -> option R).

Lemma rmatch_lit s rest c k : rmatch (rlit s) (u s ++ rest) c k = k rest c.
Proof. apply rmatch_units_app. Qed.

(** An alternative that excludes the other ones. *)
Lemma rmatch_choice l s rest c k :
  s ∈ l -> Forall (fun s' => s' = s \/ startsWith (u s') (u s ++ rest) = false) l ->
  rmatch (rchoice l) (u s ++ rest) c k = k rest c.
Proof.
  intros Hin Hall. assert (forall s', rmatch (rlit s') (u s ++ rest) c k
    = if startsWith (u s') (u s ++ rest) then k (drop (length (u s')) (u s ++ rest)) c else None)
    as Hu by (intros; apply rmatch_units).
  assert (rmatch (rchoice l) (u s ++ rest) c k
          = if decide (s ∈ l) then k rest c else None) as ->; [|by rewrite decide_True].
  clear Hin. induction Hall as [|s' l Hs Hall IH].
  { rewrite decide_False by set_solver. simpl. by destruct (u s ++ rest). }
  assert (rmatch (rlit s') (u s ++ rest) c k = if decide (s' = s) then k rest c else None) as E.
  { destruct (decide (s' = s)) as [->|]; [apply rmatch_lit|].
    destruct Hs as [?|Hs]; [done|]. by rewrite Hu, Hs. }
  destruct l as [|s2 l].
  - cbn [rchoice]. rewrite E. destruct (decide (s' = s)), (decide (s ∈ [s'])); set_solver.
  - change (rchoice (s' :: s2 :: l)) with (RAlt (rlit s') (rchoice (s2 :: l))).
    rewrite rmatch_alt, E, IH.
    destruct (decide (s' = s)), (decide (s ∈ s2 :: l)), (decide (s ∈ s' :: s2 :: l));
      try set_solver; by destruct (k rest c).
Qed.

(** A run of a class, followed by something outside it. *)
Lemma rmatch_run i p w rest c k :
  forallb p w = true -> w <> [] ->
  match rest with [] => True | x :: _ => p x = false end ->
  (forall x s', p x = true -> k (x :: s') (om_set i (take (length (w ++ rest) - S (length s')) (w ++ rest)) c) = None) ->
  rmatch (RGroup i (rplus (RChr p))) (w ++ rest) c k = k rest (om_set i w c).
Proof.
  intros Hw Hne Hrest Hk. simpl rmatch at 1.
  change (rmatch (rplus (RChr p)) (w ++ rest) c
    (fun s' c' => k s' (om_set i (take (length (w ++ rest) - length s') (w ++ rest)) c'))
    = k rest (om_set i w c)).
  rewrite rmatch_plus_span.
  - unfold takeWhile, dropWhile. rewrite span_prefix by done. simpl.
    destruct w; [done|]. by rewrite group_capture.
  - intros x s' Hx. by apply Hk.
Qed.

(** The quoted argument of a function. *)
Lemma rmatch_arg i w rest c k :
  forallb not_quote w = true -> w <> [] ->
  rmatch (r_arg i) ([40; 34] ++ w ++ [34; 41] ++ rest) c k = k rest (om_set i w c).
Proof.
  intros Hw Hne. unfold r_arg. rewrite !rmatch_seq, rmatch_units_app.
  rewrite rmatch_run; [apply rmatch_units_app | done..|].
  intros x s' Hx. rewrite rmatch_units. cbn [startsWith]. unfold not_quote in Hx.
  rewrite Z.eqb_sym. apply negb_true_iff in Hx. by rewrite Hx.
Qed.

(** A run of number characters before a continuation that starts elsewhere. *)
Lemma rmatch_num i w rest c k :
  forallb is_numch w = true -> w <> [] ->
  match rest with [] => True | x :: _ => is_numch x = false end ->
  (forall x s' c', is_numch x = true -> k (x :: s') c' = None) ->
  rmatch (r_numch i) (w ++ rest) c k = k rest (om_set i w c).
Proof. intros. apply rmatch_run; auto. Qed.
End Pieces.

(** ** The conditions the parser can read back *)

Definition path_ok (p : jsstr) : bool := nonempty p && trimmed p && forallb is_plain p.
Definition zone_ok (z : jsstr) : bool := nonempty z && forallb is_plain z.
Definition numeric (s : jsstr) : bool := rtest NUMERIC_LITERAL_REGEX s.

(** A value compared with [==] stands outside parentheses, so it must not
    contain an ampersand (nor a line separator, which [.] does not match). *)
Definition eq_char (c : Z) : bool :=
  (0 <=? c) && (c <=? 65535) && negb (c =? 40) && negb (c =? 41) && negb (c =? 38)
  && negb (c =? 8232) && negb (c =? 8233).
Definition has_char (c : Z) : bool :=
  (0 <=? c) && (c <=? 65535) && negb (c =? 40) && negb (c =? 41).

Definition representable (c : condition) : bool :=
  match c with
  | ReqCond source (JStr p) m v =>
      path_ok p && trimmed v
      && (if bool_decide (source = SOURCE_HEADER) then
            match m with
            | MATCH_EQ => forallb eq_char v
            | MATCH_EXISTS => bool_decide (v = [])
            | MATCH_CONTAINS => forallb has_char v
            | _ => false
            end
          else bool_decide (source = SOURCE_PARAM)
            && match m with
               | MATCH_EQ => forallb eq_char v
               | MATCH_EXISTS => bool_decide (v = [])
               | _ => false
               end)
  | TimeCond tf (JStr tz) m v rs re =>
      bool_decide (tf ∈ TIME_FUNCS) && zone_ok tz
      && match m with
         | MATCH_RANGE => bool_decide (v = []) && numeric rs && numeric re
         | MATCH_EQ | MATCH_GTE | MATCH_LT =>
             numeric v && bool_decide (rs = []) && bool_decide (re = [])
         | _ => false
         end
  | _ => false
  end.

Definition arg (p : jsstr) : jsstr := [40; 34] ++ p ++ [34; 41].

(** The printed form of a representable condition. *)
Definition cond_text (c : condition) : jsstr :=
  match c with
  | ReqCond source (JStr p) m v =>
      match m with
      | MATCH_EXISTS =>
          if bool_decide (source = SOURCE_HEADER)
          then source ++ arg p ++ u " != " ++ [34; 34]
          else source ++ arg p ++ u " != nil"
      | MATCH_CONTAINS => u "has(" ++ source ++ arg p ++ u ", " ++ quote v ++ u ")"
      | _ => source ++ arg p ++ u " == " ++ buildExprLiteral m v
      end
  | TimeCond tf (JStr tz) m v rs re =>
      match m with
      | MATCH_RANGE =>
          tf ++ arg tz ++ u " >= " ++ rs ++ u " || " ++ tf ++ arg tz ++ u " < " ++ re
      | _ => tf ++ arg tz ++ u " " ++ time_op m ++ u " " ++ v
      end
  | _ => []
  end.

(** The cases of [representable], for the proofs below. *)
Inductive repr_view : condition -> Prop :=
  | RvEq source p v :
      source = SOURCE_PARAM \/ source = SOURCE_HEADER -> path_ok p = true ->
      trimmed v = true -> forallb eq_char v = true ->
      repr_view (ReqCond source (JStr p) MATCH_EQ v)
  | RvExists source p :
      source = SOURCE_PARAM \/ source = SOURCE_HEADER -> path_ok p = true ->
      repr_view (ReqCond source (JStr p) MATCH_EXISTS [])
  | RvHas p v :
      path_ok p = true -> trimmed v = true -> forallb has_char v = true ->
      repr_view (ReqCond SOURCE_HEADER (JStr p) MATCH_CONTAINS v)
  | RvRange tf tz rs re :
      tf ∈ TIME_FUNCS -> zone_ok tz = true -> numeric rs = true -> numeric re = true ->
      repr_view (TimeCond tf (JStr tz) MATCH_RANGE [] rs re)
  | RvTime tf tz m v :
      tf ∈ TIME_FUNCS -> zone_ok tz = true -> numeric v = true ->
      m = MATCH_EQ \/ m = MATCH_GTE \/ m = MATCH_LT ->
      repr_view (TimeCond tf (JStr tz) m v [] []).

Lemma representable_view c : representable c = true -> repr_view c.
Proof.
  destruct c as [source [| | | |p| |] m v|tf [| | | |tz| |] m v rs re]; simpl; try done.
  - intros H. bool_simp. case_bool_decide as Hs.
    + subst. destruct m; try done; bool_simp; subst; constructor; auto.
    + bool_simp. subst. destruct m; try done; bool_simp; subst; constructor; auto.
  - intros H. bool_simp. destruct m; try done; bool_simp; subst; constructor; auto.
Qed.

Lemma path_ok_inv p :
  path_ok p = true -> p <> [] /\ trim p = p /\ forallb is_plain p = true.
Proof.
  unfold path_ok, nonempty. intros H. bool_simp. split_and!; [done | | done].
  by apply trim_trimmed_id.
Qed.

Lemma zone_ok_inv z : zone_ok z = true -> z <> [] /\ forallb is_plain z = true.
Proof. unfold zone_ok, nonempty. intros H. by bool_simp. Qed.

Lemma js_or_str p : js_or (JStr p) (JStr []) = JStr p.
Proof. by destruct p. Qed.

Lemma TIME_FUNCS_cases tf :
  tf ∈ TIME_FUNCS ->
  tf = u "hour" \/ tf = u "minute" \/ tf = u "weekday" \/ tf = u "month" \/ tf = u "day".
Proof. unfold TIME_FUNCS. rewrite !elem_of_cons. set_solver. Qed.

(** Normalizing a representable condition changes nothing. *)
Lemma normalize_representable c :
  representable c = true -> normalizeCondition (cond_obj c) = c.
Proof.
  intros H%representable_view. destruct H as [s p v Hs ? ? ?|s p Hs ?|p v|tf tz rs re Htf Hz|tf tz m v Htf Hz ? Hm].
  - destruct Hs as [-> | ->]; by destruct p.
  - destruct Hs as [-> | ->]; by destruct p.
  - by destruct p.
  - apply zone_ok_inv in Hz as [Hz _]. destruct tz; [done|].
    apply TIME_FUNCS_cases in Htf as [->|[->|[->|[->| ->]]]]; reflexivity.
  - apply zone_ok_inv in Hz as [Hz _]. destruct tz; [done|].
    apply TIME_FUNCS_cases in Htf as [->|[->|[->|[->| ->]]]];
      destruct Hm as [->|[->| ->]]; reflexivity.
Qed.

Lemma quoted_arg p : forallb is_plain p = true -> u "(" ++ quote p ++ u ")" = arg p.
Proof. intros H. rewrite quote_plain by done. unfold arg. lits. simpl. by rewrite <- app_assoc. Qed.

Lemma quoted_header p :
  forallb is_plain p = true -> u "header(" ++ quote p ++ u ")" = SOURCE_HEADER ++ arg p.
Proof. intros H. by rewrite <- quoted_arg. Qed.

Lemma quoted_param p :
  forallb is_plain p = true -> u "param(" ++ quote p ++ u ")" = SOURCE_PARAM ++ arg p.
Proof. intros H. by rewrite <- quoted_arg. Qed.

Lemma cond_source_time c :
  is_str ((cond_obj c)?."source") SOURCE_TIME
  = match c with
    | ReqCond source _ _ _ => bool_decide (source = SOURCE_TIME)
    | TimeCond _ _ _ _ _ _ => true
    end.
Proof. by destruct c. Qed.

Lemma param_not_header : bool_decide (SOURCE_PARAM = SOURCE_HEADER) = false.
Proof. done. Qed.
Lemma header_is_header : bool_decide (SOURCE_HEADER = SOURCE_HEADER) = true.
Proof. done. Qed.
#[export] Hint Rewrite param_not_header header_is_header : jsrw.

(** Printing a representable condition gives [cond_text]. *)
Lemma build_representable c :
  representable c = true -> buildRequestConditionExpr (cond_obj c) = Ret (cond_text c).
Proof.
  intros Hr. unfold buildRequestConditionExpr. rewrite cond_source_time.
  unfold buildTimeConditionExpr. rewrite (normalize_representable c Hr).
  apply representable_view in Hr.
  destruct Hr as [s p v Hs Hp ? ?|s p Hs Hp|p v Hp Hv|tf tz rs re Htf Hz Hrs Hre|tf tz m v Htf Hz Hv Hm].
  1-3: apply path_ok_inv in Hp as (Hne & Ht & Hp).
  1-2: rewrite bool_decide_false by (destruct Hs as [-> | ->]; done).
  3: rewrite bool_decide_false by done.
  1-3: cbn [mbind exc_bind as_string]; rewrite Ht, bool_decide_false by done;
    rewrite !(quoted_header p), !(quoted_param p) by done.
  - destruct Hs as [-> | ->]; autorewrite with jsrw; unfold cond_text; by rewrite <- ?app_assoc.
  - destruct Hs as [-> | ->]; unfold cond_text; autorewrite with jsrw; by rewrite <- ?app_assoc.
  - autorewrite with jsrw. unfold cond_text, buildExprLiteral.
    rewrite bool_decide_true by done. rewrite trim_trimmed_id by done.
    by rewrite <- ?app_assoc.
  - apply zone_ok_inv in Hz as [Hne Hz]. unfold stringify_text. cbn [stringify].
    rewrite quoted_arg by done. rewrite bool_decide_true by done.
    rewrite !numeric_trim by done. unfold numeric in *. rewrite Hrs, Hre.
    cbn [negb orb]. unfold cond_text. by rewrite <- ?app_assoc.
  - apply zone_ok_inv in Hz as [Hne Hz]. unfold stringify_text. cbn [stringify].
    rewrite quoted_arg by done.
    rewrite (numeric_trim v) by done. unfold numeric in *. rewrite Hv.
    rewrite bool_decide_false by (destruct Hm as [->|[->| ->]]; done). cbn [negb].
    destruct Hm as [->|[->| ->]]; unfold cond_text; by rewrite <- ?app_assoc.
Qed.

(** ** Reading back a representable condition *)

(** Step over literals and quoted arguments of the pattern in the goal. *)
Ltac rx :=
  unfold rexec, arg; rewrite <- ?app_assoc;
  repeat first
    [ rewrite rmatch_seq
    | rewrite rmatch_lit
    | rewrite rmatch_units_app
    | rewrite rmatch_arg by eauto with js ].

Lemma time_none_param r : tryParseTimeCondition (SOURCE_PARAM ++ r) = None.
Proof. reflexivity. Qed.
Lemma time_none_header r : tryParseTimeCondition (SOURCE_HEADER ++ r) = None.
Proof. reflexivity. Qed.
Lemma time_none_has r : tryParseTimeCondition (u "has(" ++ r) = None.
Proof. reflexivity. Qed.

Section Parse.
Context (p : jsstr) (Hp : forallb is_plain p = true) (Hne : p <> []).

Lemma header_exists_eq r : rexec HEADER_EXISTS_REGEX (SOURCE_HEADER ++ arg p ++ u " == " ++ r) = None.
Proof using Hp Hne. unfold HEADER_EXISTS_REGEX, SOURCE_HEADER. rx. reflexivity. Qed.

Lemma param_exists_eq r : rexec PARAM_EXISTS_REGEX (SOURCE_PARAM ++ arg p ++ u " == " ++ r) = None.
Proof using Hp Hne. unfold PARAM_EXISTS_REGEX, SOURCE_PARAM. rx. reflexivity. Qed.

Lemma param_has_eq r : rexec PARAM_HAS_REGEX (SOURCE_PARAM ++ arg p ++ u " == " ++ r) = None.
Proof using Hp Hne. unfold PARAM_HAS_REGEX, SOURCE_PARAM. rx. reflexivity. Qed.

Lemma param_cmp_eq r : rexec PARAM_CMP_REGEX (SOURCE_PARAM ++ arg p ++ u " == " ++ r) = None.
Proof using Hp Hne. unfold PARAM_CMP_REGEX, SOURCE_PARAM. rx. reflexivity. Qed.

(** An equality test goes through to the last pattern. *)
Lemma tryParse_eq_param r :
  tryParseRequestCondition (SOURCE_PARAM ++ arg p ++ u " == " ++ r)
  = Ret (parse_eq_condition (SOURCE_PARAM ++ arg p ++ u " == " ++ r)).
Proof using Hp Hne.
  unfold tryParseRequestCondition, parse_param_has, parse_param_cmp.
  rewrite time_none_param, param_exists_eq, param_has_eq, param_cmp_eq. reflexivity.
Qed.

Lemma tryParse_eq_header r :
  tryParseRequestCondition (SOURCE_HEADER ++ arg p ++ u " == " ++ r)
  = Ret (parse_eq_condition (SOURCE_HEADER ++ arg p ++ u " == " ++ r)).
Proof using Hp Hne.
  unfold tryParseRequestCondition, parse_param_has, parse_param_cmp.
  rewrite time_none_header, header_exists_eq. reflexivity.
Qed.

Lemma eq_captures source lit :
  source = SOURCE_PARAM \/ source = SOURCE_HEADER ->
  forallb is_dot lit = true -> lit <> [] ->
  rexec EQ_REGEX (source ++ arg p ++ u " == " ++ lit) = Some [(1%nat, source); (2%nat, p); (3%nat, lit)].
Proof using Hp Hne.
  intros Hs Hd Hl. unfold EQ_REGEX, rexec. rewrite !rmatch_seq.
  rewrite rmatch_group.
  2: { intros k'. destruct Hs as [-> | ->]; apply rmatch_choice; [set_solver| |set_solver|];
       repeat constructor; (by left) || (by right). }
  unfold arg. rewrite <- !app_assoc. rewrite rmatch_arg by eauto with js.
  rewrite rmatch_lit. rewrite <- (app_nil_r lit) at 1.
  rewrite rmatch_run; [reflexivity | done..].
Qed.
End Parse.

(** ** Escaped text *)

(** The code units escaping can introduce. *)
Definition esc_alphabet : list Z := [92; 34; 98; 102; 110; 114; 116; 117] ++ seqZ 48 10 ++ seqZ 97 6.

Lemma hex_digit_alphabet n : 0 <= n < 16 -> hex_digit n ∈ esc_alphabet.
Proof.
  intros H. unfold esc_alphabet, hex_digit. rewrite !elem_of_app, !elem_of_seqZ.
  destruct (Z.ltb_spec n 10); lia.
Qed.

Lemma escape_unit_chars c x : x ∈ escape_unit c -> (x = c /\ 32 <= c) \/ x ∈ esc_alphabet.
Proof.
  unfold escape_unit.
  repeat match goal with
  | |- context [if ?a =? ?b then _ else _] => destruct (a =? b);
      [unfold esc_alphabet; rewrite !elem_of_app; set_solver|]
  end.
  destruct (Z.ltb_spec c 32), (is_high_surrogate c || is_low_surrogate c) eqn:E;
    rewrite <- orb_assoc, E; simpl.
  4: { rewrite list_elem_of_singleton. auto. }
  all: unfold hex4; rewrite !elem_of_cons;
    intros [->|[->|H']]; [right; unfold esc_alphabet; set_solver..|];
    right; repeat (destruct H' as [->|H']; [apply hex_digit_alphabet, Z.mod_pos_bound; lia|]);
    set_solver.
Qed.

Lemma escape_chars s x : x ∈ escape s -> (x ∈ s /\ 32 <= x) \/ x ∈ esc_alphabet.
Proof.
  remember (length s) as n eqn:Hn. revert s Hn.
  induction n as [n IH] using lt_wf_ind. intros [|c s] ->; cbn [escape]; [by intros ?%not_elem_of_nil|].
  assert (x ∈ escape_unit c ++ escape s -> (x ∈ c :: s /\ 32 <= x) \/ x ∈ esc_alphabet) as Hstep.
  { rewrite elem_of_app. intros [[[-> Hx]|Hx]%escape_unit_chars|Hin]; [left | by right|].
    { split; [apply list_elem_of_here | done]. }
    destruct (IH (length s) ltac:(simpl; lia) s eq_refl Hin) as [[Hs Hx]|Hx]; [left | by right].
    split; [by apply list_elem_of_further | done]. }
  destruct (is_high_surrogate c) eqn:Eh; [|done].
  destruct s as [|d s].
  { intros [[-> Hx]|Hx]%escape_unit_chars; [left; split; [apply list_elem_of_here | done] | by right]. }
  destruct (is_low_surrogate d) eqn:El; [|done].
  unfold is_high_surrogate, is_low_surrogate in *. bool_simp.
  rewrite !elem_of_cons. intros [->|[->|Hin]]; [left; split; [tauto | lia]..|].
  destruct (IH (length s) ltac:(simpl; lia) s eq_refl Hin) as [[Hs Hx]|Hx]; tauto.
Qed.

Lemma quote_forallb P s :
  forallb P esc_alphabet = true -> (forall c, c ∈ s -> 32 <= c -> P c = true) ->
  forallb P (quote s) = true.
Proof.
  intros Ha Hs. rewrite forallb_forall in *.
  assert (P 34 = true) as H34 by (apply Ha; apply list_elem_of_In; set_solver).
  unfold quote. intros x [<-|Hx]; [done|]. apply in_app_iff in Hx as [Hx|[<-|[]]]; [|done].
  apply list_elem_of_In, escape_chars in Hx as [[Hx ?]|Hx]; [by apply Hs | apply Ha];
    by apply list_elem_of_In.
Qed.

(** ** Literals round trip *)

(** [buildExprLiteral] prints on one line, and without an ampersand or
    parentheses when the value has none. *)
Lemma literal_forallb P v :
  forallb P esc_alphabet = true -> forallb P (u "truefalse") = true ->
  (forall c, is_numch c = true -> P c = true) ->
  (forall c, c ∈ v -> 32 <= c -> P c = true) -> trimmed v = true ->
  forallb P (buildExprLiteral MATCH_EQ v) = true.
Proof.
  intros Ha Hb Hn Hv Ht. unfold buildExprLiteral. rewrite trim_trimmed_id by done.
  rewrite bool_decide_false by done.
  destruct (is_bool_text v) eqn:Eb.
  - unfold is_bool_text in Eb. change (u "truefalse") with (u "true" ++ u "false") in Hb.
    rewrite forallb_app in Hb. bool_simp. apply orb_true_iff in Eb as [Eb|Eb]; bool_simp; by subst.
  - destruct (rtest _ v) eqn:En; [|by apply quote_forallb].
    eapply forallb_imp; [apply Hn | by apply numeric_chars].
Qed.

Lemma literal_nonempty v : buildExprLiteral MATCH_EQ v <> [].
Proof.
  unfold buildExprLiteral. rewrite bool_decide_false by done.
  destruct (is_bool_text _) eqn:Eb; [intros E; rewrite E in Eb; done|].
  destruct (rtest _ _) eqn:En; [by apply numeric_nonempty | done].
Qed.

Lemma quote_trim v : trim (quote v) = quote v.
Proof.
  apply trim_trimmed_id. unfold trimmed, quote. simpl. rewrite app_comm_cons, reverse_snoc. done.
Qed.

Lemma parse_build_literal v :
  trimmed v = true -> Forall unit_ok v ->
  parseExprLiteral (buildExprLiteral MATCH_EQ v) = Some (JStr v).
Proof.
  intros Ht Hv. unfold buildExprLiteral, parseExprLiteral.
  rewrite (trim_trimmed_id v) by done. rewrite bool_decide_false by done.
  destruct (is_bool_text v) eqn:Eb; [by rewrite trim_trimmed_id, Eb|].
  destruct (rtest NUMERIC_LITERAL_REGEX v) eqn:En; [by rewrite trim_trimmed_id, Eb, En|].
  rewrite quote_trim.
  assert (is_bool_text (quote v) = false) as -> by done.
  assert (rtest NUMERIC_LITERAL_REGEX (quote v) = false) as -> by reflexivity.
  by rewrite json_parse_quote.
Qed.
