(* ===== verification/RequestRuleRound.v ===== *)
(** * Request rules: the round trip

    A rule expression built from representable conditions parses back to the
    same groups, and a base expression combined with it splits off again. *)

From S2P Require Import Prelude JsString JsNumber JsNumText JsValue JsJson JsRegex RequestRule RequestRuleThms.

(** ** Conditions *)

Lemma eq_char_units v : forallb eq_char v = true -> Forall unit_ok v.
Proof.
  rewrite forallb_forall, Forall_forall. intros H x Hx%list_elem_of_In%H.
  unfold eq_char in Hx. bool_simp. unfold unit_ok. lia.
Qed.

Lemma has_char_units v : forallb has_char v = true -> Forall unit_ok v.
Proof.
  rewrite forallb_forall, Forall_forall. intros H x Hx%list_elem_of_In%H.
  unfold has_char in Hx. bool_simp. unfold unit_ok. lia.
Qed.

Lemma numch_is_dot c : is_numch c = true -> is_dot c = true.
Proof.
  intros H%numch_cases. unfold is_dot.
  repeat match goal with |- context [Z.eqb ?a ?b] => destruct (Z.eqb_spec a b); try lia end; done.
Qed.

Lemma literal_dot v :
  trimmed v = true -> forallb eq_char v = true ->
  forallb is_dot (buildExprLiteral MATCH_EQ v) = true.
Proof.
  intros Ht Hv. apply literal_forallb; [done..|apply numch_is_dot| |done].
  intros c Hc Hge. eapply forallb_elem in Hc; [|done]. unfold eq_char in Hc. bool_simp.
  unfold is_dot.
  repeat match goal with |- context [Z.eqb ?a ?b] => destruct (Z.eqb_spec a b); try lia end; done.
Qed.

Lemma parse_eq_representable source p v :
  source = SOURCE_PARAM \/ source = SOURCE_HEADER -> path_ok p = true ->
  trimmed v = true -> forallb eq_char v = true ->
  tryParseRequestCondition (source ++ arg p ++ u " == " ++ buildExprLiteral MATCH_EQ v)
  = Ret (Some (ReqCond source (JStr p) MATCH_EQ v)).
Proof.
  intros Hs (Hne & _ & Hp)%path_ok_inv Ht Hv.
  pose proof (eq_captures p Hp Hne source _ Hs (literal_dot v Ht Hv) (literal_nonempty v)) as E.
  assert (tryParseRequestCondition (source ++ arg p ++ u " == " ++ buildExprLiteral MATCH_EQ v)
    = Ret (parse_eq_condition (source ++ arg p ++ u " == " ++ buildExprLiteral MATCH_EQ v))) as ->.
  { destruct Hs as [-> | ->]; [by apply tryParse_eq_param | by apply tryParse_eq_header]. }
  unfold parse_eq_condition. rewrite E. unfold cap. cbn [om_get decide].
  simpl. rewrite parse_build_literal by (done || by apply eq_char_units). done.
Qed.

Lemma parse_exists_representable source p :
  source = SOURCE_PARAM \/ source = SOURCE_HEADER -> path_ok p = true ->
  tryParseRequestCondition (cond_text (ReqCond source (JStr p) MATCH_EXISTS []))
  = Ret (Some (ReqCond source (JStr p) MATCH_EXISTS [])).
Proof.
  intros Hs (Hne & _ & Hp)%path_ok_inv. unfold tryParseRequestCondition, cond_text.
  destruct Hs as [-> | ->]; autorewrite with jsrw.
  - rewrite time_none_param.
    assert (rexec HEADER_EXISTS_REGEX (SOURCE_PARAM ++ arg p ++ u " != nil") = None) as -> by reflexivity.
    assert (rexec PARAM_EXISTS_REGEX (SOURCE_PARAM ++ arg p ++ u " != nil") = Some [(1%nat, p)]) as ->.
    { unfold PARAM_EXISTS_REGEX, SOURCE_PARAM. rx. reflexivity. }
    reflexivity.
  - rewrite time_none_header.
    assert (rexec HEADER_EXISTS_REGEX (SOURCE_HEADER ++ arg p ++ u " != " ++ [34; 34]) = Some [(1%nat, p)]) as ->.
    { unfold HEADER_EXISTS_REGEX, SOURCE_HEADER. rx. reflexivity. }
    reflexivity.
Qed.

(** *** Containment: the string literal inside [has(...)] *)

(** The pieces the body of the string pattern consumes. *)
Definition lit_item (w : jsstr) : Prop :=
  (exists c, w = [c] /\ not_quote c = true /\ c <> 92)
  \/ (exists d, w = [92; d] /\ is_dot d = true).

Lemma lit_item_plain c : c <> 34 -> c <> 92 -> lit_item [c].
Proof.
  intros H1 H2. left. exists c. split_and!; [done| |done]. unfold not_quote.
  by apply negb_true_iff, Z.eqb_neq.
Qed.

Lemma hex_digit_plain n : 0 <= n < 16 -> lit_item [hex_digit n].
Proof. intros. apply lit_item_plain; unfold hex_digit; destruct (Z.ltb_spec n 10); lia. Qed.

Lemma escape_unit_items c :
  exists items, escape_unit c = concat items /\ Forall lit_item items.
Proof.
  unfold escape_unit.
  repeat match goal with
  | |- context [if ?a =? ?b then _ else _] =>
      destruct (Z.eqb_spec a b);
        [eexists [[_; _]]; split; [reflexivity|]; constructor; [right; eauto | done]|]
  end.
  destruct (_ || _).
  - exists [[92; 117]; [hex_digit (c / 4096 mod 16)]; [hex_digit (c / 256 mod 16)];
            [hex_digit (c / 16 mod 16)]; [hex_digit (c mod 16)]].
    split; [done|]. constructor; [right; eauto|].
    repeat (constructor; [apply hex_digit_plain, Z.mod_pos_bound; lia|]). constructor.
  - exists [[c]]. split; [done|]. constructor; [by apply lit_item_plain | constructor].
Qed.

Lemma escape_items s : exists items, escape s = concat items /\ Forall lit_item items.
Proof.
  remember (length s) as n eqn:Hn. revert s Hn.
  induction n as [n IH] using lt_wf_ind. intros [|c s] ->; cbn [escape]; [by exists []|].
  assert (forall s', (length s' <= length s)%nat ->
    exists items, escape_unit c ++ escape s' = concat items /\ Forall lit_item items) as Hstep.
  { intros s' Hs'. destruct (escape_unit_items c) as (i1 & -> & H1).
    destruct (IH (length s') ltac:(simpl; lia) s' eq_refl) as (i2 & -> & H2).
    exists (i1 ++ i2). rewrite concat_app. split; [done | by apply Forall_app]. }
  destruct (is_high_surrogate c) eqn:Eh; [|by apply Hstep].
  destruct s as [|d s]; [by apply escape_unit_items|].
  destruct (is_low_surrogate d) eqn:El; [|by apply Hstep].
  unfold is_high_surrogate, is_low_surrogate in *. bool_simp.
  destruct (IH (length s) ltac:(simpl; lia) s eq_refl) as (i2 & -> & Hi).
  exists ([c] :: [d] :: i2). split; [done|].
  repeat (constructor; [apply lit_item_plain; lia|]). done.
Qed.

Lemma rmatch_strlit {R} i v rest c (k : jsstr -> list (nat * jsstr) -> option R) x :
  k rest (om_set i (quote v) c) = Some x ->
  rmatch (RGroup i r_strlit) (quote v ++ rest) c k = Some x.
Proof.
  intros Hk. unfold r_strlit.
  change (rmatch (RSeq (RSeq (RChr (Z.eqb 34))
    (RStar (RAlt (RChr (fun c => not_quote c && negb (c =? 92)))
                 (RSeq (RChr (Z.eqb 92)) (RChr is_dot))))) (RChr (Z.eqb 34)))
    (quote v ++ rest) c
    (fun s' c' => k s' (om_set i (take (length (quote v ++ rest) - length s') (quote v ++ rest)) c'))
    = Some x).
  rewrite !rmatch_seq.
  set (k1 := fun s' c' => k s' _).
  assert (quote v ++ rest = 34 :: escape v ++ [34] ++ rest) as ->
    by (unfold quote; simpl; by rewrite <- app_assoc).
  rewrite rmatch_chr by done. destruct (escape_items v) as (items & -> & Hit).
  apply (rmatch_star_items _ items ([34] ++ rest)).
  - eapply Forall_impl; [exact Hit|]. intros w Hw. split; [by destruct Hw as [(?&->&_)|(?&->&_)]|].
    intros rest' k'. destruct Hw as [(y & -> & H1 & H2)|(d & -> & Hd)]; cbn [rmatch app].
    + rewrite H1. apply Z.eqb_neq in H2. rewrite H2. cbn [negb andb]. destruct (k' rest' c); [done|].
      destruct (92 =? y) eqn:E; [|done]. apply Z.eqb_eq in E. apply Z.eqb_neq in H2. by subst.
    + by rewrite Hd.
  - done.
  - simpl. unfold k1. by rewrite group_capture.
Qed.

Lemma parse_has_representable p v :
  path_ok p = true -> forallb has_char v = true ->
  tryParseRequestCondition (cond_text (ReqCond SOURCE_HEADER (JStr p) MATCH_CONTAINS v))
  = Ret (Some (ReqCond SOURCE_HEADER (JStr p) MATCH_CONTAINS v)).
Proof.
  intros (Hne & _ & Hp)%path_ok_inv Hv. unfold tryParseRequestCondition, cond_text.
  rewrite time_none_has.
  set (s := u "has(" ++ _).
  assert (rexec HEADER_EXISTS_REGEX s = None) as -> by reflexivity.
  assert (rexec PARAM_EXISTS_REGEX s = None) as -> by reflexivity.
  assert (rexec HEADER_HAS_REGEX s = Some [(1%nat, p); (2%nat, quote v)]) as ->.
  { subst s. unfold HEADER_HAS_REGEX, SOURCE_HEADER.
    rewrite (app_assoc (u "has(")). change (u "has(" ++ u "header") with (u "has(header").
    rx. apply rmatch_strlit. reflexivity. }
  unfold cap, json_parse_exc. simpl. by rewrite json_parse_quote by by apply has_char_units.
Qed.

(** *** Time of day *)

Lemma numch_not_lit {R} w x s c (k : jsstr -> list (nat * jsstr) -> option R) :
  is_numch x = true -> match w with y :: _ => is_numch y = false | [] => False end ->
  rmatch (runits w) (x :: s) c k = None.
Proof.
  intros Hx Hw. destruct w as [|y w]; [done|]. rewrite rmatch_units. cbn [startsWith].
  destruct (Z.eqb_spec y x); [congruence | done].
Qed.

(** Select the literal of an ordered choice. *)
Ltac choice :=
  apply rmatch_choice;
  [ apply list_elem_of_In; cbn; tauto
  | repeat (apply Forall_cons; split; [first [left; reflexivity | right; reflexivity]|]);
    apply Forall_nil; exact I ].

Section Time.
Context (tf tz : jsstr) (Htf : tf ∈ TIME_FUNCS) (Htz : zone_ok tz = true).

Lemma rmatch_timefn {R} rest c (k : jsstr -> list (nat * jsstr) -> option R) :
  rmatch r_timefn (tf ++ arg tz ++ rest) c k = k (arg tz ++ rest) (om_set 1%nat tf c).
Proof using Htf.
  unfold r_timefn. apply rmatch_group. intros k'.
  apply TIME_FUNCS_cases in Htf.
  destruct Htf as [->|[->|[->|[->| ->]]]]; choice.
Qed.

Lemma rmatch_zone {R} i rest c (k : jsstr -> list (nat * jsstr) -> option R) :
  rmatch (r_arg i) (arg tz ++ rest) c k = k rest (om_set i tz c).
Proof using Htz.
  apply zone_ok_inv in Htz as [Hne Hz]. unfold arg. rewrite <- !app_assoc.
  rewrite rmatch_arg; eauto with js.
Qed.

(** The body of the range pattern on a printed range. *)
Lemma rmatch_range_body {R} rs re rest (k : jsstr -> list (nat * jsstr) -> option R) :
  numeric rs = true -> numeric re = true ->
  match rest with [] => True | x :: _ => is_numch x = false end ->
  (forall x s' c', is_numch x = true -> k (x :: s') c' = None) ->
  rmatch TIME_RANGE_BODY
    (tf ++ arg tz ++ u " >= " ++ rs ++ u " || " ++ tf ++ arg tz ++ u " < " ++ re ++ rest) [] k
  = k rest [(1%nat, tf); (2%nat, tz); (3%nat, rs); (4%nat, re)].
Proof using Htf Htz.
  intros Hrs Hre Hrest Hk. unfold TIME_RANGE_BODY, numeric in *. rewrite !rmatch_seq.
  rewrite rmatch_timefn, rmatch_zone, rmatch_lit.
  rewrite rmatch_num; [|eauto with js..|done|].
  2: { intros. by apply numch_not_lit. }
  rewrite rmatch_lit.
  rewrite (rmatch_back _ tf) by done. unfold arg. rewrite <- !app_assoc.
  rewrite rmatch_units_app, (rmatch_back _ tz) by done.
  rewrite rmatch_units_app, rmatch_lit.
  rewrite rmatch_num; [done | eauto with js..| done | done].
Qed.

Definition range_text (rs re : jsstr) : jsstr :=
  tf ++ arg tz ++ u " >= " ++ rs ++ u " || " ++ tf ++ arg tz ++ u " < " ++ re.

Lemma parse_range rs re :
  numeric rs = true -> numeric re = true ->
  tryParseTimeCondition (range_text rs re) = Some (TimeCond tf (JStr tz) MATCH_RANGE [] rs re).
Proof using Htf Htz.
  intros Hrs Hre. unfold tryParseTimeCondition, TIME_RANGE_REGEX, rexec, range_text.
  rewrite rmatch_seq, <- (app_nil_r re) at 1.
  rewrite rmatch_range_body; done.
Qed.

Lemma parse_range_wrapped rs re :
  numeric rs = true -> numeric re = true ->
  tryParseTimeCondition (u "(" ++ range_text rs re ++ u ")")
  = Some (TimeCond tf (JStr tz) MATCH_RANGE [] rs re).
Proof using Htf Htz.
  intros Hrs Hre. unfold tryParseTimeCondition.
  assert (rexec TIME_RANGE_REGEX (u "(" ++ range_text rs re ++ u ")") = None) as -> by reflexivity.
  unfold TIME_RANGE_WRAPPED_REGEX, rexec, range_text.
  rewrite !rmatch_seq, rmatch_lit, <- !app_assoc.
  rewrite rmatch_range_body; [done..|]. intros. by apply numch_not_lit.
Qed.

Lemma parse_time_simple m v :
  numeric v = true -> m = MATCH_EQ \/ m = MATCH_GTE \/ m = MATCH_LT ->
  tryParseTimeCondition (tf ++ arg tz ++ u " " ++ time_op m ++ u " " ++ v)
  = Some (TimeCond tf (JStr tz) m v [] []).
Proof using Htf Htz.
  intros Hv Hm. unfold tryParseTimeCondition.
  set (s := tf ++ _). unfold numeric in *.
  assert (rexec TIME_RANGE_REGEX s = None) as ->.
  { subst s. unfold TIME_RANGE_REGEX, TIME_RANGE_BODY, rexec. rewrite !rmatch_seq.
    rewrite rmatch_timefn, rmatch_zone. destruct Hm as [->|[->| ->]]; [done| |done].
    change (u " " ++ time_op MATCH_GTE ++ u " " ++ v) with (u " >= " ++ v).
    rewrite rmatch_lit, <- (app_nil_r v).
    rewrite rmatch_num; [done | eauto with js.. | done |].
    intros. by apply numch_not_lit. }
  assert (rexec TIME_RANGE_WRAPPED_REGEX s = None) as ->.
  { subst s. apply TIME_FUNCS_cases in Htf. by destruct Htf as [->|[->|[->|[->| ->]]]]. }
  assert (rexec TIME_SIMPLE_REGEX s
          = Some [(1%nat, tf); (2%nat, tz); (3%nat, time_op m); (4%nat, v)]) as ->.
  { subst s. unfold TIME_SIMPLE_REGEX, rexec. rewrite !rmatch_seq.
    rewrite rmatch_timefn, rmatch_zone, rmatch_lit.
    rewrite rmatch_group.
    2: { intros k'. destruct Hm as [->|[->| ->]]; choice. }
    rewrite rmatch_lit, <- (app_nil_r v) at 1.
    by rewrite rmatch_num; [|eauto with js..|]. }
  destruct Hm as [->|[->| ->]]; reflexivity.
Qed.
End Time.

(** Parsing the printed form of a representable condition gives it back. *)
Lemma parse_representable c :
  representable c = true -> tryParseRequestCondition (cond_text c) = Ret (Some c).
Proof.
  intros Hr%representable_view.
  destruct Hr as [s p v Hs Hp ? ?|s p Hs Hp|p v Hp Hv|tf tz rs re Htf Hz Hrs Hre|tf tz m v Htf Hz Hv Hm].
  - by apply parse_eq_representable.
  - by apply parse_exists_representable.
  - by apply parse_has_representable.
  - unfold tryParseRequestCondition. pose proof (parse_range tf tz Htf Hz rs re Hrs Hre) as E.
    unfold range_text in E. unfold cond_text. by rewrite E.
  - unfold tryParseRequestCondition.
    pose proof (parse_time_simple tf tz Htf Hz m v Hv Hm) as E.
    assert (cond_text (TimeCond tf (JStr tz) m v [] [])
            = tf ++ arg tz ++ u " " ++ time_op m ++ u " " ++ v) as ->
      by (by destruct Hm as [->|[->| ->]]). by rewrite E.
Qed.

(** ** Parentheses and separators *)

Definition depth_of (w : jsstr) (d : Z) : Z := fold_left step_depth w d.

(** The depth never falls below zero and is zero at the end. *)
Fixpoint nonneg (w : jsstr) (d : Z) : bool :=
  match w with
  | [] => true
  | c :: w' => (0 <=? step_depth d c) && nonneg w' (step_depth d c)
  end.

Definition balanced (w : jsstr) : bool := nonneg w 0 && (depth_of w 0 =? 0).

(** The second code unit of the separator does not occur outside parentheses. *)
Fixpoint sep_free (x : Z) (w : jsstr) (d : Z) : bool :=
  match w with
  | [] => true
  | c :: w' => negb ((step_depth d c =? 0) && (c =? x)) && sep_free x w' (step_depth d c)
  end.

Definition free (x : Z) (w : jsstr) : bool := balanced w && sep_free x w 0.

Lemma depth_of_app a b d : depth_of (a ++ b) d = depth_of b (depth_of a d).
Proof. apply fold_left_app. Qed.

Lemma step_depth_shift d e c : step_depth (d + e) c = step_depth d c + e.
Proof. unfold step_depth. destruct (c =? 40), (c =? 41); lia. Qed.

Lemma depth_of_shift w d e : depth_of w (d + e) = depth_of w d + e.
Proof.
  unfold depth_of. revert d. induction w as [|c w IH]; intros d; simpl; [done|].
  by rewrite step_depth_shift, IH.
Qed.

Lemma nonneg_app a b d : nonneg (a ++ b) d = nonneg a d && nonneg b (depth_of a d).
Proof.
  revert d. induction a as [|c a IH]; intros d; simpl; [done|]. by rewrite IH, andb_assoc.
Qed.

Lemma nonneg_shift w d e : 0 <= e -> nonneg w d = true -> nonneg w (d + e) = true.
Proof.
  intros He. revert d. induction w as [|c w IH]; intros d; cbn [nonneg]; [done|].
  intros H. bool_simp. rewrite step_depth_shift, IH by done.
  rewrite andb_true_r. apply Z.leb_le. lia.
Qed.

Lemma sep_free_app x a b d : sep_free x (a ++ b) d = sep_free x a d && sep_free x b (depth_of a d).
Proof.
  revert d. induction a as [|c a IH]; intros d; simpl; [done|]. by rewrite IH, andb_assoc.
Qed.

(** Inside parentheses there is no separator. *)
Lemma sep_free_inside x w d e :
  0 < e -> nonneg w d = true -> sep_free x w (d + e) = true.
Proof.
  intros He. revert d. induction w as [|c w IH]; intros d; cbn [nonneg sep_free]; [done|].
  intros H. bool_simp. rewrite step_depth_shift, IH by done.
  destruct (Z.eqb_spec (step_depth d c + e) 0); [lia | done].
Qed.

Lemma balanced_app a b : balanced a = true -> balanced b = true -> balanced (a ++ b) = true.
Proof.
  unfold balanced. intros Ha Hb. bool_simp. by rewrite nonneg_app, depth_of_app, H2, H1, H, H0.
Qed.

Lemma balanced_join sep ws :
  balanced sep = true -> Forall (fun w => balanced w = true) ws -> balanced (join sep ws) = true.
Proof.
  intros Hs. induction 1 as [|w ws Hw Hall IH]; [done|].
  destruct ws as [|w' ws]; [done|].
  change (join sep (w :: w' :: ws)) with (w ++ sep ++ join sep (w' :: ws)).
  by repeat apply balanced_app.
Qed.

Lemma free_balanced x w : free x w = true -> balanced w = true.
Proof. unfold free. intros. by bool_simp. Qed.

Lemma free_app x a b : free x a = true -> free x b = true -> free x (a ++ b) = true.
Proof.
  unfold free. intros Ha Hb. bool_simp. rewrite balanced_app by done.
  unfold balanced in H1. bool_simp. by rewrite sep_free_app, H2, H3, H0.
Qed.

(** A balanced text in parentheses. *)
Lemma free_parens x w :
  x <> 40 -> x <> 41 -> balanced w = true -> free x (40 :: w ++ [41]) = true.
Proof.
  unfold free, balanced. intros H1 H2 Hw. bool_simp.
  cbn [nonneg sep_free depth_of fold_left]. change (step_depth 0 40) with (0 + 1).
  fold (depth_of (w ++ [41]) (0 + 1)).
  rewrite depth_of_app, nonneg_app, sep_free_app, depth_of_shift, H0.
  rewrite nonneg_shift, sep_free_inside by (done || lia).
  cbn [sep_free]. change (step_depth (0 + 1) 41) with 0.
  destruct (Z.eqb_spec 41 x), (Z.eqb_spec 40 x); done || lia.
Qed.

Lemma no_parens_balanced w : no_parens w = true -> balanced w = true.
Proof.
  unfold balanced, no_parens. intros Hp.
  assert (depth_of w 0 = 0 /\ nonneg w 0 = true) as [-> ->]; [|done].
  induction w as [|c w IH]; [done|]. cbn [forallb] in *. bool_simp.
  assert (step_depth 0 c = 0) as E.
  { unfold step_depth. destruct (Z.eqb_spec c 40), (Z.eqb_spec c 41); lia. }
  destruct IH as (Hd & Hn); [done|]. unfold depth_of in *.
  cbn [fold_left nonneg]. by rewrite E, Hn, Hd.
Qed.

Lemma no_parens_free x w :
  no_parens w = true -> forallb (fun c => negb (c =? x)) w = true -> free x w = true.
Proof.
  unfold free. intros Hp Hx. rewrite no_parens_balanced by done. simpl.
  generalize 0. induction w as [|c w IH]; intros d; [done|]. cbn [forallb] in *.
  unfold no_parens in Hp. cbn [forallb] in Hp. bool_simp. cbn [sep_free]. rewrite IH by done.
  destruct (Z.eqb_spec c x); [lia | by rewrite andb_false_r].
Qed.

(** ** Splitting a joined list *)

Section Split.
Context (x : Z) (sep' : jsstr) (Hx1 : x <> 40) (Hx2 : x <> 41).
Let sep := 32 :: x :: sep'.

Lemma not_separator w rest :
  sep_free x w 0 = true -> rest = [] \/ w <> [] -> startsWith (x :: sep') (w ++ rest) = false.
Proof using Hx1 Hx2.
  intros Hf Hw. destruct w as [|y w]; [by destruct Hw as [-> |[]]|].
  cbn [sep_free] in Hf. bool_simp. cbn [app startsWith].
  destruct (Z.eqb_spec x y) as [<-|]; [|done].
  assert (step_depth 0 x = 0) as E.
  { unfold step_depth. destruct (Z.eqb_spec x 40), (Z.eqb_spec x 41); lia. }
  by rewrite E, !Z.eqb_refl in H.
Qed.

Lemma split_go_pass w rest d cur :
  sep_free x w d = true -> rest = [] \/ last w <> Some 32 ->
  split_go sep (w ++ rest) 0 d cur = split_go sep rest 0 (depth_of w d) (reverse w ++ cur).
Proof using Hx1 Hx2.
  revert d cur. induction w as [|c w IH]; intros d cur Hf Hl; [done|].
  cbn [app split_go sep_free] in *. bool_simp.
  assert ((step_depth d c =? 0) && startsWith sep (c :: w ++ rest) = false) as E.
  { destruct (Z.eqb_spec (step_depth d c) 0) as [E|]; [|done]. rewrite E in *.
    unfold sep. cbn [startsWith]. destruct (Z.eqb_spec 32 c) as [<-|]; [|done].
    cbn [andb]. apply not_separator; [done|]. destruct Hl as [?|Hl]; [by left | right].
    intros ->. done. }
  rewrite E, IH; [|done|]; last first.
  { destruct Hl as [?|Hl]; [by left|]. right. by destruct w. }
  rewrite reverse_cons, <- app_assoc. done.
Qed.

Lemma split_go_skip s d cur k :
  split_go sep s k d cur = split_go sep (drop k s) 0 d cur.
Proof using.
  revert k. induction s as [|c s IH]; intros [|k]; try done. cbn [split_go drop]. apply IH.
Qed.

Lemma split_go_sep rest cur :
  split_go sep (sep ++ rest) 0 0 cur = trim (reverse cur) :: split_go sep rest 0 0 [].
Proof using.
  assert (startsWith sep (sep ++ rest) = true) as E by apply startsWith_app.
  change (sep ++ rest) with (32 :: (x :: sep') ++ rest) in *.
  remember ((x :: sep') ++ rest) as r eqn:Hr.
  cbn [split_go]. change (step_depth 0 32) with 0. rewrite E. cbn [Z.eqb andb]. f_equal.
  rewrite split_go_skip.
  replace (length sep - 1)%nat with (length (x :: sep')) by (simpl; lia).
  subst r. by rewrite drop_app_length.
Qed.

(** A list of parts without separators splits into the same parts. *)
Lemma split_go_join ws :
  ws <> [] -> Forall (fun w => free x w = true /\ trimmed w = true) ws ->
  split_go sep (join sep ws) 0 0 [] = ws.
Proof using Hx1 Hx2.
  intros Hne Hall. induction Hall as [|w ws [Hf Ht] Hall IH]; [done|].
  assert (sep_free x w 0 = true /\ depth_of w 0 = 0) as [Hs Hd].
  { unfold free, balanced in Hf. by bool_simp. }
  assert (trim (reverse (reverse w ++ [])) = w) as E
    by (rewrite app_nil_r, reverse_involutive; by apply trim_trimmed_id).
  destruct ws as [|w' ws].
  - change (join sep [w]) with w. rewrite <- (app_nil_r w) at 1.
    rewrite split_go_pass by auto. cbn [split_go]. by rewrite E.
  - change (join sep (w :: w' :: ws)) with (w ++ sep ++ join sep (w' :: ws)). rewrite split_go_pass; [|done|right]; last first.
    { unfold trimmed in Ht. bool_simp. rewrite <- (reverse_involutive w).
      destruct (reverse w) as [|y r]; [done|]. rewrite reverse_cons, last_snoc. by intros [= ->]. }
    by rewrite Hd, split_go_sep, E, IH.
Qed.

Lemma split_parts ws :
  ws <> [] -> Forall (fun w => free x w = true /\ trimmed w = true /\ w <> []) ws ->
  List.filter nonempty (split_go sep (join sep ws) 0 0 []) = ws.
Proof using Hx1 Hx2.
  intros Hne Hall. rewrite split_go_join by (done || (eapply Forall_impl; [done|]; by intros ? (?&?&?))).
  clear Hne. induction Hall as [|w ws (_ & _ & Hw) _ IH]; simpl; [done|].
  unfold nonempty at 1. by rewrite bool_decide_false, IH.
Qed.
End Split.

Lemma splitTopLevelMultiply_join ws :
  ws <> [] -> Forall (fun w => free 42 w = true /\ trimmed w = true /\ w <> []) ws ->
  splitTopLevelMultiply (join (u " * ") ws) = ws.
Proof. by apply (split_parts 42 [32]). Qed.

Lemma splitTopLevelAnd_join ws :
  ws <> [] -> Forall (fun w => free 38 w = true /\ trimmed w = true /\ w <> []) ws ->
  splitTopLevelAnd (join (u " && ") ws) = ws.
Proof. by apply (split_parts 38 [38; 32]). Qed.

(** ** The printed forms are well delimited *)

Lemma trimmed_wrap a m b :
  a <> [] -> b <> [] -> trimmed a = true -> trimmed b = true -> trimmed (a ++ m ++ b) = true.
Proof.
  unfold trimmed. intros Ha Hb H1 H2. bool_simp. rewrite !reverse_app.
  destruct a as [|x a]; [done|]. cbn [app]. rewrite H1. cbn [andb].
  destruct (reverse b) as [|y r] eqn:E; [|done].
  apply (f_equal reverse) in E. by rewrite reverse_involutive in E.
Qed.

Lemma trimmed_ends s a m b :
  s = a ++ m ++ b ->
  a <> [] -> b <> [] -> trimmed a = true -> trimmed b = true -> trimmed s = true.
Proof. intros ->. apply trimmed_wrap. Qed.

Lemma numch_forallb (P : Z -> bool) s :
  (forall c, 43 <= c <= 57 \/ c = 69 \/ c = 101 -> P c = true) ->
  numeric s = true -> forallb P s = true.
Proof.
  intros HP Hs%numeric_chars. eapply forallb_imp; [|exact Hs]. intros c Hc. by apply HP, numch_cases.
Qed.

Lemma numeric_free s : numeric s = true -> free 38 s = true.
Proof.
  intros Hs. apply no_parens_free; [unfold no_parens|];
    apply numch_forallb; try done; intros c Hc; rewrite ?andb_true_iff, !negb_true_iff, !Z.eqb_neq; lia.
Qed.

Lemma numeric_trimmed s : numeric s = true -> trimmed s = true.
Proof. intros Hs%numeric_chars. by apply (forallb_trimmed is_numch); [apply numch_not_space|]. Qed.

Lemma arg_free p : forallb is_plain p = true -> free 38 (arg p) = true.
Proof.
  intros Hp. change (arg p) with (40 :: [34] ++ p ++ [34; 41]).
  rewrite (app_assoc p [34] [41] : p ++ [34; 41] = _), (app_assoc [34]).
  apply free_parens; [lia..|]. apply balanced_app; [done|]. apply balanced_app; [|done].
  apply no_parens_balanced. eauto with js.
Qed.

Lemma literal_free v :
  trimmed v = true -> forallb eq_char v = true -> free 38 (buildExprLiteral MATCH_EQ v) = true.
Proof.
  intros Ht Hv. apply no_parens_free; [unfold no_parens|];
    (apply literal_forallb; [done..| | |done]).
  1,3: intros c Hc%numch_cases; rewrite ?andb_true_iff, !negb_true_iff, !Z.eqb_neq; lia.
  all: intros c Hc _; eapply forallb_elem in Hc; [|done]; unfold eq_char in Hc; bool_simp;
    rewrite ?andb_true_iff, !negb_true_iff, !Z.eqb_neq; lia.
Qed.

Lemma literal_trimmed v : trimmed (buildExprLiteral MATCH_EQ v) = true.
Proof.
  unfold buildExprLiteral. rewrite bool_decide_false by done.
  destruct (is_bool_text _); [apply trim_trimmed|].
  destruct (rtest _ _); [apply trim_trimmed|]. rewrite <- quote_trim. apply trim_trimmed.
Qed.

Lemma quote_balanced v : forallb has_char v = true -> balanced (quote v) = true.
Proof.
  intros Hv. apply no_parens_balanced. apply quote_forallb; [done|].
  intros c Hc _. eapply forallb_elem in Hc; [|done]. unfold has_char in Hc. bool_simp.
  rewrite ?andb_true_iff, !negb_true_iff, !Z.eqb_neq. lia.
Qed.

#[export] Hint Resolve numeric_free numeric_trimmed arg_free literal_free quote_balanced
  numeric_nonempty literal_nonempty : js.

Lemma source_free s : s = SOURCE_PARAM \/ s = SOURCE_HEADER -> free 38 s = true.
Proof. by intros [-> | ->]. Qed.
Lemma timefn_free tf : tf ∈ TIME_FUNCS -> free 38 tf = true /\ trimmed tf = true /\ tf <> [].
Proof. intros [->|[->|[->|[->| ->]]]]%TIME_FUNCS_cases; done. Qed.

Ltac free_pieces := repeat (apply free_app; [solve [done | eauto with js]|]).

(** The printed form has balanced parentheses, no conjunction outside them and
    no white space at its ends. *)
Lemma cond_text_delimited c :
  representable c = true ->
  free 38 (cond_text c) = true /\ trimmed (cond_text c) = true /\ cond_text c <> [].
Proof.
  intros Hr%representable_view.
  destruct Hr as [s p v Hs Hp ? ?|s p Hs Hp|p v Hp Ht Hv|tf tz rs re Htf Hz Hrs Hre|tf tz m v Htf Hz Hv Hm].
  - apply path_ok_inv in Hp as (_ & _ & Hp). pose proof (source_free s Hs).
    unfold cond_text. split_and!.
    + free_pieces. eauto with js.
    + rewrite (app_assoc (arg p)). apply trimmed_wrap; [by destruct Hs as [-> | ->]|eauto with js| |].
      * by destruct Hs as [-> | ->].
      * apply literal_trimmed.
    + by destruct Hs as [-> | ->].
  - apply path_ok_inv in Hp as (_ & _ & Hp). pose proof (source_free s Hs).
    unfold cond_text. destruct Hs as [-> | ->]; autorewrite with jsrw; split_and!; try done.
    1,3: free_pieces; done.
    1: change (u " != nil") with (u " != " ++ u "nil"). all: rewrite (app_assoc (arg p)).
    all: by apply trimmed_wrap.
  - apply path_ok_inv in Hp as (_ & _ & Hp). unfold cond_text. split_and!; [| |done].
    2: { apply (trimmed_ends _ (u "has(") (SOURCE_HEADER ++ arg p ++ u ", " ++ quote v) (u ")"));
         [by rewrite <- !app_assoc | done..]. }
    change (u "has(" ++ SOURCE_HEADER ++ arg p ++ u ", " ++ quote v ++ u ")")
      with (u "has" ++ 40 :: (SOURCE_HEADER ++ arg p ++ u ", " ++ quote v ++ [41])).
    apply free_app; [done|]. rewrite !app_assoc. apply free_parens; [lia..|]. rewrite <- !app_assoc.
    repeat (apply balanced_app; [solve [done | eauto using free_balanced with js]|]).
    eauto with js.
  - apply zone_ok_inv in Hz as (_ & Hz). apply timefn_free in Htf as (Htf & Htr & Hne).
    unfold cond_text. split_and!.
    + free_pieces. eauto with js.
    + apply (trimmed_ends _ tf (arg tz ++ u " >= " ++ rs ++ u " || " ++ tf ++ arg tz ++ u " < ") re);
        [by rewrite <- !app_assoc | eauto with js..].
    + by destruct tf.
  - apply zone_ok_inv in Hz as (_ & Hz). apply timefn_free in Htf as (Htf & Htr & Hne).
    assert (cond_text (TimeCond tf (JStr tz) m v [] [])
            = tf ++ arg tz ++ u " " ++ time_op m ++ u " " ++ v) as ->
      by (by destruct Hm as [->|[->| ->]]).
    assert (free 38 (time_op m) = true) by (by destruct Hm as [->|[->| ->]]).
    split_and!.
    + free_pieces. eauto with js.
    + apply (trimmed_ends _ tf (arg tz ++ u " " ++ time_op m ++ u " ") v);
        [by rewrite <- !app_assoc | eauto with js..].
    + by destruct tf.
Qed.

(** ** Rule groups *)

Definition is_range (c : condition) : bool :=
  match c with TimeCond _ _ MATCH_RANGE _ _ _ => true | _ => false end.

(** A group the parser reads back: representable conditions, a numeric
    multiplier and, among several conditions, no disjunction sign other than
    the one of a time range.  A condition with the sign in one of its texts is
    wrapped in parentheses by [buildRuleGroupFactor], which the parser removes
    from time ranges only, see [disjunction_text_lost]. *)
Definition group_ok (g : group) : bool :=
  negb (bool_decide (g_conditions g = [])) && forallb representable (g_conditions g)
  && numeric (g_multiplier g)
  && ((length (g_conditions g) =? 1)%nat
      || forallb (fun c => is_range c || negb (includes (u " || ") (cond_text c))) (g_conditions g)).

Definition combined_text (cs : list condition) : jsstr :=
  match cs with
  | [c] => cond_text c
  | _ => join (u " && ") (wrap_or <$> (cond_text <$> cs))
  end.

Definition factor_text (g : group) : jsstr :=
  u "(" ++ combined_text (g_conditions g) ++ u " ? " ++ g_multiplier g ++ u " : 1)".

Lemma filter_nonempty_id l : Forall (fun w => w <> []) l -> List.filter nonempty l = l.
Proof.
  induction 1 as [|w l Hw _ IH]; simpl; [done|]. unfold nonempty at 1.
  by rewrite bool_decide_false, IH.
Qed.

Lemma texts_nonempty cs :
  forallb representable cs = true -> Forall (fun w => w <> []) (cond_text <$> cs).
Proof.
  rewrite forallb_forall, Forall_fmap, Forall_forall. intros H c Hc%list_elem_of_In%H.
  by apply cond_text_delimited.
Qed.

Lemma group_ok_inv g :
  group_ok g = true ->
  g_conditions g <> [] /\ forallb representable (g_conditions g) = true
  /\ numeric (g_multiplier g) = true.
Proof. unfold group_ok. intros H. by bool_simp. Qed.

Lemma build_group g :
  group_ok g = true -> buildRuleGroupFactor (group_obj g) = Ret (factor_text g).
Proof.
  intros (Hne & Hr & Hm)%group_ok_inv. destruct g as [cs m]; simpl in *.
  unfold buildRuleGroupFactor. cbn [is_nullish group_obj]. cbv iota.
  change ((group_obj {| g_conditions := cs; g_multiplier := m |})?."multiplier") with (JStr m).
  change ((group_obj {| g_conditions := cs; g_multiplier := m |})?."conditions")
    with (JArr (cond_obj <$> cs)).
  rewrite js_or_str. simpl. rewrite numeric_trim by done.
  unfold numeric in Hm. rewrite Hm. simpl.
  assert (exc_map buildRequestConditionExpr (cond_obj <$> cs) = Ret (cond_text <$> cs)) as ->.
  { apply exc_map_fmap. rewrite forallb_forall in Hr. apply Forall_forall.
    intros c Hc%list_elem_of_In. by apply build_representable, Hr. }
  simpl. rewrite filter_nonempty_id by by apply texts_nonempty.
  unfold factor_text, combined_text. simpl. by destruct cs as [|c1 [|c2 cs]].
Qed.

(** A conjunct of a printed group. *)
Lemma part_text c :
  representable c = true -> is_range c || negb (includes (u " || ") (cond_text c)) = true ->
  (free 38 (wrap_or (cond_text c)) = true /\ trimmed (wrap_or (cond_text c)) = true
   /\ wrap_or (cond_text c) <> [])
  /\ tryParseRequestCondition (wrap_or (cond_text c)) = Ret (Some c).
Proof.
  intros Hr Ho. pose proof (cond_text_delimited c Hr) as (Hf & Ht & Hne).
  unfold wrap_or. destruct (includes _ _) eqn:Ei; [|split; [done | by apply parse_representable]].
  rewrite orb_false_r in Ho. split.
  - split_and!; [|by apply trimmed_wrap|done].
    apply (free_parens 38 (cond_text c)); [lia..|]. by eapply free_balanced.
  - apply representable_view in Hr. destruct Hr as [| | |tf tz rs re Htf Hz Hrs Hre|? ? ? ? ? ? ? Hm];
      try done; [|by destruct Hm as [->|[->| ->]]].
    unfold tryParseRequestCondition.
    pose proof (parse_range_wrapped tf tz Htf Hz rs re Hrs Hre) as E. unfold range_text in E.
    unfold cond_text. by rewrite E.
Qed.

(** Conjuncts that parse give their conditions. *)
Lemma parse_conditions_ok ws cs :
  Forall2 (fun w c => trimmed w = true /\ representable c = true
                      /\ tryParseRequestCondition w = Ret (Some c)) ws cs ->
  parse_conditions ws = Ret (Some cs).
Proof.
  induction 1 as [|w c ws cs (Ht & Hr & Hp) _ IH]; cbn [parse_conditions]; [done|].
  rewrite trim_trimmed_id, Hp by done. cbn [mbind exc_bind].
  rewrite IH. cbn [mbind exc_bind]. by rewrite normalize_representable.
Qed.

Lemma parse_combined g :
  group_ok g = true ->
  parse_conditions (splitTopLevelAnd (combined_text (g_conditions g)))
  = Ret (Some (g_conditions g)) /\ balanced (combined_text (g_conditions g)) = true
  /\ combined_text (g_conditions g) <> [].
Proof.
  unfold group_ok. destruct g as [cs m]; simpl. intros H. bool_simp.
  destruct cs as [|c [|c2 cs]]; [done| |].
  - simpl in *. bool_simp. pose proof (cond_text_delimited c ltac:(done)) as (Hf & Ht & Hne).
    split_and!; [|by eapply free_balanced|done].
    assert (splitTopLevelAnd (cond_text c) = [cond_text c]) as ->.
    { apply (splitTopLevelAnd_join [cond_text c]); [done|]. repeat constructor; done. }
    apply parse_conditions_ok. repeat constructor; try done. by apply parse_representable.
  - change (combined_text (c :: c2 :: cs))
      with (join (u " && ") (wrap_or <$> (cond_text <$> c :: c2 :: cs))).
    change (length (c :: c2 :: cs) =? 1)%nat with false in H0. cbn [orb] in H0.
    remember (c :: c2 :: cs) as l eqn:El.
    assert (forall x, x ∈ l -> (free 38 (wrap_or (cond_text x)) = true
      /\ trimmed (wrap_or (cond_text x)) = true /\ wrap_or (cond_text x) <> [])
      /\ tryParseRequestCondition (wrap_or (cond_text x)) = Ret (Some x)) as Hpart.
    { intros x Hx%list_elem_of_In. rewrite forallb_forall in *.
      subst l. apply part_text; [by apply H2 | by apply H0]. }
    split_and!.
    + rewrite splitTopLevelAnd_join; [|by subst|].
      2: { rewrite !Forall_fmap, Forall_forall. intros x Hx. by apply Hpart. }
      apply parse_conditions_ok. rewrite !Forall2_fmap_l. apply Forall_Forall2_diag, Forall_forall.
      intros x Hx. destruct (Hpart x Hx) as ((?&?&?)&?). rewrite forallb_forall in H2.
      split_and!; [done | by apply H2, list_elem_of_In | done].
    + apply balanced_join; [done|]. rewrite !Forall_fmap, Forall_forall. intros x Hx.
      eapply free_balanced. by apply Hpart.
    + subst l. csimpl. destruct (Hpart c) as ((_&_&?)&_); [set_solver|].
      intros E. apply app_eq_nil in E as [E _]. done.
Qed.

(** ** Factors *)

(** No later text of a factor looks like its question mark. *)
Lemma factor_no_later m a b :
  numeric m = true -> u " ? " ++ m ++ u " : 1)" = a ++ b -> a <> [] ->
  startsWith (u " ? ") b = false.
Proof.
  intros Hm E Ha. destruct (startsWith (u " ? ") b) eqn:Es; [|done]. exfalso.
  apply startsWith_iff in Es as [r ->].
  assert (forallb (fun c => negb (c =? 63)) (m ++ u " : 1)") = true) as Hf.
  { rewrite forallb_app, andb_true_iff. split; [|done]. apply numch_forallb; [|done].
    intros c Hc. rewrite negb_true_iff, Z.eqb_neq. lia. }
  assert (In 63 (m ++ u " : 1)")) as Hin.
  { set (t := m ++ u " : 1)") in *. clearbody t. lits_in E.
    destruct a as [|a0 [|a1 [|a2 a]]]; cbn [app] in E; [done | discriminate E| |].
    - injection E as _ _ ->. by left.
    - injection E as _ _ _ ->. apply in_app_iff. right. right. by left. }
  rewrite forallb_forall in Hf. by apply Hf in Hin.
Qed.

Lemma factor_captures X m :
  X <> [] -> numeric m = true ->
  rexec FACTOR_REGEX (u "(" ++ X ++ u " ? " ++ m ++ u " : 1)") = Some [(1%nat, X); (2%nat, m)].
Proof.
  intros HX Hm. destruct X as [|x X]; [done|].
  unfold FACTOR_REGEX, rexec. rewrite !rmatch_seq, rmatch_lit.
  set (s := (x :: X) ++ _).
  set (k := fun s' c' => rmatch (rlit " ? ") s' c' _).
  change (rmatch (RStar (RChr is_any)) (X ++ u " ? " ++ m ++ u " : 1)") []
    (fun s' c' => k s' (om_set 1%nat (take (length s - length s') s) c'))
    = Some [(1%nat, x :: X); (2%nat, m)]).
  apply rmatch_star_any; [done| |].
  - subst s. rewrite group_capture. unfold k. rewrite rmatch_lit.
    rewrite rmatch_num; [done| |by apply numeric_nonempty|done|].
    + by apply numeric_chars.
    + intros. by apply numch_not_lit.
  - intros a b E Ha. unfold k. unfold rlit at 1. rewrite rmatch_units.
    by rewrite (factor_no_later m a b).
Qed.

Lemma parse_factor g :
  group_ok g = true -> tryParseRuleGroupFactor (factor_text g) = Ret (Some g).
Proof.
  intros Hg. pose proof (group_ok_inv g Hg) as (Hne & _ & Hm).
  destruct (parse_combined g Hg) as (Hp & _ & Hx).
  unfold tryParseRuleGroupFactor, factor_text. rewrite factor_captures by done.
  set (X := combined_text _) in *.
  change (cap 1 [(1%nat, X); (2%nat, g_multiplier g)]) with X. rewrite Hp. simpl.
  destruct g as [[|c cs] m]; done.
Qed.

Lemma factor_delimited g :
  group_ok g = true ->
  free 42 (factor_text g) = true /\ trimmed (factor_text g) = true /\ factor_text g <> [].
Proof.
  intros Hg. pose proof (group_ok_inv g Hg) as (_ & _ & Hm).
  destruct (parse_combined g Hg) as (_ & Hb & _).
  unfold factor_text. split_and!; [| |done].
  - change (u " : 1)") with (u " : 1" ++ [41]).
    assert (u "(" ++ combined_text (g_conditions g) ++ u " ? " ++ g_multiplier g ++ u " : 1" ++ [41]
      = 40 :: (combined_text (g_conditions g) ++ u " ? " ++ g_multiplier g ++ u " : 1") ++ [41])
      as -> by (by rewrite <- !app_assoc).
    apply free_parens; [lia..|]. apply balanced_app; [done|].
    apply balanced_app; [done|]. apply balanced_app; [|done]. by apply (free_balanced 38), numeric_free.
  - apply (trimmed_ends _ (u "(") (combined_text (g_conditions g) ++ u " ? " ++ g_multiplier g ++ u " : 1")
      (u ")")); [by rewrite <- !app_assoc | done..].
Qed.

(** ** Rule expressions *)

Definition rules_text (gs : list group) : jsstr := join (u " * ") (factor_text <$> gs).

Lemma factors_delimited gs :
  forallb group_ok gs = true ->
  Forall (fun w => free 42 w = true /\ trimmed w = true /\ w <> []) (factor_text <$> gs).
Proof.
  rewrite forallb_forall, Forall_fmap, Forall_forall. intros H g Hg%list_elem_of_In%H.
  by apply factor_delimited.
Qed.

Lemma build_rules gs :
  forallb group_ok gs = true -> buildRequestRuleExpr (JArr (group_obj <$> gs)) = Ret (rules_text gs).
Proof.
  intros H. unfold buildRequestRuleExpr. simpl.
  rewrite (exc_map_fmap _ _ factor_text).
  - simpl. rewrite filter_nonempty_id; [done|]. eapply Forall_impl; [by apply factors_delimited|].
    by intros w (_ & _ & ?).
  - rewrite forallb_forall in H. apply Forall_forall. intros g Hg%list_elem_of_In.
    by apply build_group, H.
Qed.

Lemma trimmed_join sep ws :
  Forall (fun w => trimmed w = true /\ w <> []) ws ->
  trimmed (join sep ws) = true /\ (ws <> [] -> join sep ws <> []).
Proof.
  induction 1 as [|w ws [Ht Hne] H [IH1 IH2]]; [done|]. destruct ws as [|w' ws]; [done|].
  change (join sep (w :: w' :: ws)) with (w ++ sep ++ join sep (w' :: ws)). split.
  - apply trimmed_wrap; auto.
  - intros _ E. apply app_eq_nil in E as [E _]. done.
Qed.

Lemma rules_trimmed gs :
  forallb group_ok gs = true ->
  trimmed (rules_text gs) = true /\ (gs <> [] -> rules_text gs <> []).
Proof.
  intros H%factors_delimited. unfold rules_text.
  destruct (trimmed_join (u " * ") (factor_text <$> gs)) as [Ht Hne].
  { eapply Forall_impl; [done|]. by intros w (_ & ? & ?). }
  split; [done|]. intros Hgs. apply Hne. by destruct gs.
Qed.

Lemma parse_groups_ok gs :
  forallb group_ok gs = true -> parse_groups (factor_text <$> gs) = Ret (Some gs).
Proof.
  induction gs as [|g gs IH]; csimpl; [done|]. intros H. bool_simp.
  rewrite parse_factor by done. cbn [mbind exc_bind]. by rewrite IH.
Qed.

Lemma parse_rules gs :
  forallb group_ok gs = true -> tryParseRequestRuleExpr (rules_text gs) = Ret (Some gs).
Proof.
  intros Hgs. pose proof (rules_trimmed gs Hgs) as [Ht Hne]. unfold tryParseRequestRuleExpr.
  rewrite trim_trimmed_id by done. case_bool_decide as E.
  - destruct gs; [done|]. by destruct (Hne ltac:(done)).
  - unfold rules_text. rewrite splitTopLevelMultiply_join; [by apply parse_groups_ok| |].
    + by destruct gs.
    + by apply factors_delimited.
Qed.

(** ** Base expressions *)

(** A base expression whose own parentheses match and that does not end like
    a rule factor. *)
Definition base_ok (base : jsstr) : bool :=
  trimmed base && nonempty base && balanced base && negb (endsWith (u " : 1") base).

Definition in_parens (base : jsstr) : jsstr := 40 :: base ++ [41].

Lemma base_ok_inv base :
  base_ok base = true ->
  trimmed base = true /\ base <> [] /\ balanced base = true /\ endsWith (u " : 1") base = false.
Proof. unfold base_ok, nonempty. intros H. by bool_simp. Qed.

Lemma in_parens_delimited base :
  balanced base = true ->
  free 42 (in_parens base) = true /\ trimmed (in_parens base) = true /\ in_parens base <> [].
Proof.
  intros Hb. split_and!; [by apply free_parens| |done].
  by apply (trimmed_ends _ [40] base [41]).
Qed.

(** The text of a factor ends like one. *)
Lemma factor_ends s m : rexec FACTOR_REGEX s = Some m -> exists w, s = w ++ u " : 1)".
Proof.
  unfold FACTOR_REGEX, rexec. rewrite rmatch_seq, rmatch_seq. intros H.
  apply (rmatch_chars (fun _ => true)) in H as (w & s' & c' & -> & _ & Hk).
  - exists w. f_equal. unfold rlit in Hk. rewrite rmatch_units in Hk.
    destruct (startsWith _ s') eqn:E; [|done]. apply startsWith_iff in E as [r ->].
    rewrite drop_app_length, rmatch_end in Hk. destruct r; [by rewrite app_nil_r | done].
  - repeat (split; try done).
Qed.

Lemma base_not_factor base :
  base_ok base = true -> tryParseRuleGroupFactor (in_parens base) = Ret None.
Proof.
  intros (_ & _ & _ & He)%base_ok_inv. unfold tryParseRuleGroupFactor.
  destruct (rexec FACTOR_REGEX _) as [m|] eqn:E; [|done]. exfalso.
  apply factor_ends in E as [w E]. change (u " : 1)") with (u " : 1" ++ [41]) in E.
  unfold in_parens in E. rewrite app_comm_cons, (app_assoc w) in E.
  apply app_inj_2 in E as [E _]; [|done]. destruct w as [|x w]; [done|].
  injection E as _ E. assert (endsWith (u " : 1") base = true) by (apply endsWith_iff; eauto).
  congruence.
Qed.

Lemma single_part p :
  free 42 p = true -> trimmed p = true -> p <> [] ->
  tryParseRequestRuleExpr p = parse_groups [p].
Proof.
  intros Hf Ht Hne. unfold tryParseRequestRuleExpr. rewrite trim_trimmed_id by done.
  rewrite bool_decide_false by done. f_equal.
  apply (splitTopLevelMultiply_join [p]); [done|]. by repeat constructor.
Qed.

Lemma rule_part_factor g : group_ok g = true -> is_rule_part (factor_text g) = Ret true.
Proof.
  intros Hg. destruct (factor_delimited g Hg) as (? & ? & ?).
  unfold is_rule_part. rewrite single_part by done. cbn [parse_groups].
  by rewrite parse_factor.
Qed.

Lemma not_rule_part p :
  free 42 p = true -> trimmed p = true -> p <> [] ->
  tryParseRuleGroupFactor p = Ret None -> is_rule_part p = Ret false.
Proof.
  intros ? ? ? H. unfold is_rule_part. rewrite single_part by done. cbn [parse_groups].
  by rewrite H.
Qed.

Lemma partition_factors gs :
  forallb group_ok gs = true ->
  partition_parts (factor_text <$> gs) = Ret (factor_text <$> gs, []).
Proof.
  induction gs as [|g gs IH]; csimpl; [done|]. intros H. bool_simp.
  rewrite rule_part_factor by done. cbn [mbind exc_bind]. by rewrite IH.
Qed.

Lemma partition_combined base gs :
  base_ok base = true -> forallb group_ok gs = true ->
  partition_parts (in_parens base :: (factor_text <$> gs))
  = Ret (factor_text <$> gs, [in_parens base]).
Proof.
  intros Hb Hgs. pose proof (base_ok_inv base Hb) as (_ & _ & Hbal & _).
  destruct (in_parens_delimited base Hbal) as (? & ? & ?).
  pose proof (partition_factors gs Hgs) as E. set (ws := factor_text <$> gs) in *. clearbody ws.
  cbn [partition_parts]. rewrite not_rule_part by (try done; by apply base_not_factor).
  cbn [mbind exc_bind]. by rewrite E.
Qed.

(** ** Outer parentheses *)

Lemma outer_go_inside w d :
  0 < d -> nonneg w (d - 1) = true -> depth_of w (d - 1) = 0 -> outer_go (w ++ [41]) d = true.
Proof.
  revert d. induction w as [|c w IH]; intros d Hd Hn He.
  - unfold depth_of in He. simpl in He. assert (d = 1) as -> by lia. done.
  - cbn [app outer_go nonneg] in *. bool_simp.
    assert (step_depth d c = step_depth (d - 1) c + 1) as E
      by (rewrite <- step_depth_shift; f_equal; lia).
    destruct (Z.eqb_spec (step_depth d c) 0); [lia|]. cbn [andb]. apply IH; [lia|..].
    + by replace (step_depth d c - 1) with (step_depth (d - 1) c) by lia.
    + by replace (step_depth d c - 1) with (step_depth (d - 1) c) by lia.
Qed.

Lemma full_parens base : balanced base = true -> hasFullOuterParens (in_parens base) = true.
Proof.
  intros Hb. unfold hasFullOuterParens, in_parens.
  assert (endsWith (u ")") (40 :: base ++ [41]) = true) as ->
    by (apply endsWith_iff; by exists (40 :: base)).
  cbn [startsWith negb orb]. change (startsWith (u "(") (40 :: base ++ [41])) with true.
  cbn [negb orb outer_go]. change (step_depth 0 40) with 1. cbn [Z.eqb andb].
  unfold balanced in Hb. bool_simp. by apply outer_go_inside.
Qed.

Lemma strip_in_parens base : strip_ends (in_parens base) = base.
Proof.
  unfold strip_ends, in_parens.
  replace (length (40%Z :: base ++ [41%Z]) - 2)%nat with (length base)
    by (simpl; rewrite length_app; simpl; lia).
  change (drop 1 (40 :: base ++ [41])) with (base ++ [41]). by rewrite take_app_length.
Qed.


Lemma strip_shorter s :
  hasFullOuterParens s = true -> (length (trim (strip_ends s)) < length s)%nat.
Proof.
  intros H. assert (s <> []) by (by intros ->).
  pose proof (length_trim_le (strip_ends s)) as Hl. unfold strip_ends in *.
  rewrite length_take, length_drop in Hl. destruct s; [done|]. simpl in *. lia.
Qed.

(** Any fuel of at least the length gives the same result. *)
Lemma unwrap_fuel f1 f2 s :
  (length s <= f1)%nat -> (length s <= f2)%nat -> unwrap_loop f1 s = unwrap_loop f2 s.
Proof.
  revert f2 s. induction f1 as [|f1 IH]; intros [|f2] s H1 H2; cbn [unwrap_loop]; try done.
  1,2: by destruct s; [|simpl in *; lia].
  destruct (hasFullOuterParens s) eqn:E; [|done]. apply strip_shorter in E. apply IH; lia.
Qed.

Lemma unwrap_loop_done f s :
  (length s <= f)%nat -> hasFullOuterParens (unwrap_loop f s) = false.
Proof.
  revert s. induction f as [|f IH]; intros s H; cbn [unwrap_loop]; [by destruct s; [|simpl in *; lia]|].
  destruct (hasFullOuterParens s) eqn:E; [|done]. apply strip_shorter in E. apply IH. lia.
Qed.

Lemma unwrap_loop_trimmed f s : trimmed s = true -> trimmed (unwrap_loop f s) = true.
Proof.
  revert s. induction f as [|f IH]; intros s H; cbn [unwrap_loop]; [done|].
  destruct (hasFullOuterParens s); [|done]. apply IH, trim_trimmed.
Qed.

(** One more pair of parentheses makes no difference. *)
Lemma unwrap_in_parens base :
  balanced base = true -> unwrapOuterParens (in_parens base) = unwrapOuterParens base.
Proof.
  intros Hb. unfold unwrapOuterParens.
  destruct (in_parens_delimited base Hb) as (_ & Ht & _). rewrite (trim_trimmed_id _ Ht).
  assert (length (in_parens base) = S (S (length base))) as ->
    by (unfold in_parens; simpl; rewrite length_app; simpl; lia).
  cbn [unwrap_loop]. rewrite (full_parens base Hb), strip_in_parens.
  pose proof (length_trim_le base). apply (unwrap_fuel (S (length base)) (length base) (trim base)); lia.
Qed.

(** ** The round trips *)

(** C1. Printing rule groups and parsing the result gives the same groups, for
    every list of groups of representable conditions (equality and existence
    tests on parameters and headers, containment on headers, comparisons and
    overnight ranges on the time; paths and zones of plain characters, values
    trimmed and without parentheses, no ampersand in an equality) with numeric
    multipliers, where a text with a disjunction sign is in a group of its
    own. *)
Theorem rule_expr_roundtrip gs :
  forallb group_ok gs = true ->
  exists e, buildRequestRuleExpr (JArr (group_obj <$> gs)) = Ret e
            /\ tryParseRequestRuleExpr e = Ret (Some gs).
Proof. intros H. exists (rules_text gs). by rewrite build_rules, parse_rules. Qed.

Definition sample_groups : list group :=
  [{| g_conditions :=
        [ReqCond SOURCE_PARAM (JStr (u "service_tier")) MATCH_EQ (u "priority");
         TimeCond (u "hour") (JStr (u "Asia/Shanghai")) MATCH_RANGE [] (u "22") (u "6");
         ReqCond SOURCE_HEADER (JStr (u "x-beta")) MATCH_CONTAINS (u "fast && cheap")];
      g_multiplier := u "2.5" |};
   {| g_conditions := [ReqCond SOURCE_PARAM (JStr (u "stream")) MATCH_EXISTS []];
      g_multiplier := u "0.5" |}].

Lemma rule_expr_roundtrip_witness :
  exists e, buildRequestRuleExpr (JArr (group_obj <$> sample_groups)) = Ret e
            /\ tryParseRequestRuleExpr e = Ret (Some sample_groups).
Proof. apply (rule_expr_roundtrip sample_groups). vm_compute. reflexivity. Defined.

Lemma split_combined base gs e :
  base_ok base = true -> gs <> [] -> forallb group_ok gs = true ->
  buildRequestRuleExpr (JArr (group_obj <$> gs)) = Ret e ->
  splitBillingExprAndRequestRules (combineBillingExpr base e)
  = Ret {| billingExpr := unwrapOuterParens base; requestRuleExpr := e |}.
Proof.
  intros Hb Hne Hgs He. rewrite build_rules in He by done. injection He as <-.
  pose proof (base_ok_inv base Hb) as (Ht & Hbne & Hbal & _).
  pose proof (rules_trimmed gs Hgs) as [Hrt Hrne]. specialize (Hrne Hne).
  pose proof (in_parens_delimited base Hbal) as Hpar.
  unfold combineBillingExpr. rewrite !trim_trimmed_id by done.
  rewrite !bool_decide_false by done.
  assert (u "(" ++ base ++ u ") * " ++ rules_text gs
          = join (u " * ") (in_parens base :: (factor_text <$> gs))) as ->.
  { destruct gs as [|g gs]; [done|]. change (u ") * ") with ([41] ++ u " * ").
    unfold rules_text, in_parens. csimpl. by rewrite <- ?app_assoc. }
  assert (Forall (fun w => free 42 w = true /\ trimmed w = true /\ w <> [])
            (in_parens base :: (factor_text <$> gs))) as Hall
    by (constructor; [done | by apply factors_delimited]).
  unfold splitBillingExprAndRequestRules.
  destruct (trimmed_join (u " * ") (in_parens base :: (factor_text <$> gs))) as [Hj1 Hj2].
  { eapply Forall_impl; [exact Hall|]. by intros w (_ & ? & ?). }
  rewrite trim_trimmed_id, bool_decide_false by auto.
  rewrite splitTopLevelMultiply_join by done.
  rewrite partition_combined by done.
  destruct gs as [|g gs]; [done|]. cbn [length Nat.leb fmap list_fmap mbind exc_bind].
  by rewrite unwrap_in_parens.
Qed.

(** C2. Combining a base expression with printed rules and splitting the
    result recovers both: the base without redundant outer parentheses and the
    rule expression unchanged.  The base is not empty, has no white space at
    its ends, its parentheses match and it does not end in [ : 1]; there is a
    rule group, and each one satisfies [group_ok], the condition of C1: no
    containment test or numeric comparison on a parameter, plain paths and
    zones, trimmed values without parentheses (nor ampersands in an equality),
    a numeric multiplier, and no disjunction sign in a text beside another
    condition. *)
Theorem split_combine_roundtrip base gs e :
  base_ok base = true -> gs <> [] -> forallb group_ok gs = true ->
  buildRequestRuleExpr (JArr (group_obj <$> gs)) = Ret e ->
  splitBillingExprAndRequestRules (combineBillingExpr base e)
  = Ret {| billingExpr := unwrapOuterParens base; requestRuleExpr := e |}.
Proof. apply split_combined. Qed.

Lemma split_combine_roundtrip_witness :
  let base := u "tier(|base|, p * 2.5 + c * 15)" in
  exists e, splitBillingExprAndRequestRules (combineBillingExpr base e)
  = Ret {| billingExpr := unwrapOuterParens base; requestRuleExpr := e |}.
Proof.
  intros base. exists (rules_text sample_groups).
  apply (split_combine_roundtrip base sample_groups); vm_compute; congruence.
Defined.

(** The loop of [unwrapOuterParens] ends with an expression that has no
    white space at its ends and no pair of parentheses around it. *)
Theorem unwrapOuterParens_done expr :
  hasFullOuterParens (unwrapOuterParens expr) = false
  /\ trimmed (unwrapOuterParens expr) = true.
Proof.
  unfold unwrapOuterParens. split.
  - apply unwrap_loop_done, length_trim_le.
  - apply unwrap_loop_trimmed, trim_trimmed.
Qed.

(** ** Parameter conditions that do not survive the trip *)

(** The modes that print a guard [param(..) != nil && ...]. *)
Definition guarded_value (m : mode) (v : jsstr) : bool :=
  match m with
  | MATCH_CONTAINS => trimmed v && forallb has_char v
  | MATCH_GT | MATCH_GTE | MATCH_LT | MATCH_LTE => numeric v
  | _ => false
  end.

Definition guard_text (p : jsstr) : jsstr := SOURCE_PARAM ++ arg p ++ u " != nil".
Definition test_text (p : jsstr) (m : mode) (v : jsstr) : jsstr :=
  match m with
  | MATCH_CONTAINS => u "has(" ++ SOURCE_PARAM ++ arg p ++ u ", " ++ quote v ++ u ")"
  | _ => SOURCE_PARAM ++ arg p ++ u " " ++ cmp_op m ++ u " " ++ v
  end.

Section Guarded.
Context (p : jsstr) (m : mode) (v : jsstr).
Context (Hp : path_ok p = true) (Hv : guarded_value m v = true).
Let cond := ReqCond SOURCE_PARAM (JStr p) m v.

Lemma build_guarded :
  buildRequestConditionExpr (cond_obj cond) = Ret (guard_text p ++ u " && " ++ test_text p m v).
Proof using Hp Hv.
  apply path_ok_inv in Hp as (Hne & Ht & Hpl).
  assert (normalizeCondition (cond_obj cond) = cond) as E.
  { subst cond. destruct p; [done|]. by destruct m. }
  unfold buildRequestConditionExpr. rewrite cond_source_time, E. subst cond.
  cbv beta iota. rewrite bool_decide_false by done. cbn [mbind exc_bind as_string].
  rewrite Ht, bool_decide_false by done. rewrite !(quoted_param p) by done.
  autorewrite with jsrw. unfold guard_text, test_text.
  destruct m; try done; simpl in Hv; bool_simp; f_equal.
  - unfold buildExprLiteral. rewrite bool_decide_true, trim_trimmed_id by done.
    rewrite <- !app_assoc. done.
  - rewrite !numeric_trim by done. unfold numeric in Hv. rewrite Hv. simpl negb. by rewrite <- !app_assoc.
  - rewrite !numeric_trim by done. unfold numeric in Hv. rewrite Hv. simpl negb. by rewrite <- !app_assoc.
  - rewrite !numeric_trim by done. unfold numeric in Hv. rewrite Hv. simpl negb. by rewrite <- !app_assoc.
  - rewrite !numeric_trim by done. unfold numeric in Hv. rewrite Hv. simpl negb. by rewrite <- !app_assoc.
Qed.

Lemma guard_delimited :
  free 38 (guard_text p) = true /\ trimmed (guard_text p) = true /\ guard_text p <> [].
Proof using Hp.
  destruct (cond_text_delimited (ReqCond SOURCE_PARAM (JStr p) MATCH_EXISTS [])) as (?&?&?); [|done].
  unfold representable. rewrite Hp. done.
Qed.

Lemma test_delimited :
  free 38 (test_text p m v) = true /\ trimmed (test_text p m v) = true /\ test_text p m v <> [].
Proof using Hp Hv.
  apply path_ok_inv in Hp as (Hne & Ht & Hpl).
  assert (m = MATCH_CONTAINS \/ m <> MATCH_CONTAINS /\ numeric v = true
          /\ free 38 (cmp_op m) = true) as [->|(Hm & Hn & Ho)].
  { destruct m; try done; auto. }
  - simpl in Hv. bool_simp. unfold test_text. split_and!; [| |done].
    + change (u "has(" ++ SOURCE_PARAM ++ arg p ++ u ", " ++ quote v ++ u ")")
        with (u "has" ++ 40 :: (SOURCE_PARAM ++ arg p ++ u ", " ++ quote v ++ [41])).
      apply free_app; [done|]. rewrite !app_assoc. apply free_parens; [lia..|].
      rewrite <- !app_assoc.
      repeat (apply balanced_app; [solve [done | eauto using free_balanced with js]|]). eauto with js.
    + apply (trimmed_ends _ (u "has(") (SOURCE_PARAM ++ arg p ++ u ", " ++ quote v) (u ")"));
        [by rewrite <- !app_assoc | done..].
  - assert (test_text p m v = SOURCE_PARAM ++ arg p ++ u " " ++ cmp_op m ++ u " " ++ v) as ->
      by (by destruct m). split_and!; [| |done].
    + free_pieces. eauto with js.
    + apply (trimmed_ends _ SOURCE_PARAM (arg p ++ u " " ++ cmp_op m ++ u " ") v);
        [by rewrite <- !app_assoc | eauto with js..].
Qed.

Lemma exists_needs_nil r :
  startsWith (u " != nil") r = false -> rexec PARAM_EXISTS_REGEX (SOURCE_PARAM ++ arg p ++ r) = None.
Proof using Hp.
  apply path_ok_inv in Hp as (Hne & _ & Hpl). intros H.
  unfold PARAM_EXISTS_REGEX, SOURCE_PARAM. rx. unfold rlit. by rewrite rmatch_units, H.
Qed.

Lemma startsWith_prefix a b r :
  startsWith a r = false -> startsWith (a ++ b) r = false.
Proof using.
  intros H. destruct (startsWith (a ++ b) r) eqn:E; [|done].
  apply startsWith_iff in E as [t ->]. by rewrite <- app_assoc, startsWith_app in H.
Qed.

Lemma has_needs_nil r :
  startsWith (u " != nil") r = false -> rexec PARAM_HAS_REGEX (SOURCE_PARAM ++ arg p ++ r) = None.
Proof using Hp.
  apply path_ok_inv in Hp as (Hne & _ & Hpl). intros H%(startsWith_prefix _ (u " && has(param")).
  change (u " != nil" ++ u " && has(param") with (u " != nil && has(param") in H.
  unfold PARAM_HAS_REGEX, SOURCE_PARAM. rx. unfold rlit. by rewrite rmatch_units, H.
Qed.

Lemma cmp_needs_nil r :
  startsWith (u " != nil") r = false -> rexec PARAM_CMP_REGEX (SOURCE_PARAM ++ arg p ++ r) = None.
Proof using Hp.
  apply path_ok_inv in Hp as (Hne & _ & Hpl). intros H%(startsWith_prefix _ (u " && param")).
  change (u " != nil" ++ u " && param") with (u " != nil && param") in H.
  unfold PARAM_CMP_REGEX, SOURCE_PARAM. rx. unfold rlit. by rewrite rmatch_units, H.
Qed.

Lemma eq_needs_sign r :
  startsWith (u " == ") r = false -> rexec EQ_REGEX (SOURCE_PARAM ++ arg p ++ r) = None.
Proof using Hp.
  apply path_ok_inv in Hp as (Hne & _ & Hpl). intros H.
  unfold EQ_REGEX, rexec. rewrite !rmatch_seq. rewrite rmatch_group by (intros k'; choice).
  rx. unfold rlit. by rewrite rmatch_units, H.
Qed.

(** The test alone is not a condition the parser knows. *)
Lemma test_not_parsed : tryParseRequestCondition (test_text p m v) = Ret None.
Proof using Hp Hv.
  assert (m = MATCH_CONTAINS \/ m = MATCH_GT \/ m = MATCH_GTE \/ m = MATCH_LT \/ m = MATCH_LTE)
    as [->|Hm] by (destruct m; auto; done).
  - reflexivity.
  - assert (exists r, test_text p m v = SOURCE_PARAM ++ arg p ++ r
      /\ startsWith (u " != nil") r = false /\ startsWith (u " == ") r = false) as (r & -> & Hn1 & Hn2).
    { exists (u " " ++ cmp_op m ++ u " " ++ v). by destruct Hm as [->|[->|[->| ->]]]. }
    unfold tryParseRequestCondition. rewrite time_none_param, (exists_needs_nil r) by done.
    unfold parse_param_has, parse_param_cmp, parse_eq_condition.
    rewrite has_needs_nil, cmp_needs_nil, eq_needs_sign by done. reflexivity.
Qed.
End Guarded.

Section Lost.
Context (p : jsstr) (m : mode) (v k : jsstr).
Context (Hp : path_ok p = true) (Hv : guarded_value m v = true) (Hk : numeric k = true).
Let cond := ReqCond SOURCE_PARAM (JStr p) m v.
Let parts := join (u " && ") [guard_text p; test_text p m v].
Let factor := u "(" ++ parts ++ u " ? " ++ k ++ u " : 1)".

Lemma build_lost :
  buildRequestRuleExpr (JArr [group_obj {| g_conditions := [cond]; g_multiplier := k |}])
  = Ret factor.
Proof using Hp Hv Hk.
  unfold buildRequestRuleExpr. cbn [array_or_throw truthy mbind exc_bind exc_map]. unfold buildRuleGroupFactor.
  change (is_nullish (group_obj _)) with false. cbv iota.
  change ((group_obj {| g_conditions := [cond]; g_multiplier := k |})?."multiplier") with (JStr k).
  change ((group_obj {| g_conditions := [cond]; g_multiplier := k |})?."conditions")
    with (JArr [cond_obj cond]).
  rewrite js_or_str. cbn [as_string mbind exc_bind]. rewrite numeric_trim by done.
  unfold numeric in Hk. rewrite Hk. cbn [negb array_or_throw truthy mbind exc_bind exc_map].
  unfold cond. rewrite build_guarded by done. reflexivity.
Qed.

Lemma parts_delimited :
  Forall (fun w => free 38 w = true /\ trimmed w = true /\ w <> []) [guard_text p; test_text p m v].
Proof using Hp Hv. repeat constructor; apply guard_delimited || apply test_delimited; done. Qed.

Lemma factor_lost : tryParseRuleGroupFactor factor = Ret None.
Proof using Hp Hv Hk.
  unfold tryParseRuleGroupFactor. unfold factor. rewrite factor_captures; [|done..].
  change (cap 1 [(1%nat, parts); (2%nat, k)]) with parts. unfold parts.
  rewrite splitTopLevelAnd_join by (done || apply parts_delimited).
  pose proof parts_delimited as Hd. inversion Hd as [|? ? (_ & Ht1 & _) Hd2].
  inversion Hd2 as [|? ? (_ & Ht2 & _) _].
  cbn [parse_conditions]. rewrite !trim_trimmed_id by done.
  pose proof (parse_exists_representable SOURCE_PARAM p (or_introl eq_refl) Hp) as E.
  change (cond_text (ReqCond SOURCE_PARAM (JStr p) MATCH_EXISTS [])) with (guard_text p) in E.
  rewrite E. cbn [mbind exc_bind]. by rewrite test_not_parsed.
Qed.

Lemma lost_delimited : free 42 factor = true /\ trimmed factor = true /\ factor <> [].
Proof using Hp Hv Hk.
  unfold factor. split_and!; [| |done].
  - change (u " : 1)") with (u " : 1" ++ [41]).
    assert (u "(" ++ parts ++ u " ? " ++ k ++ u " : 1" ++ [41]
      = 40 :: (parts ++ u " ? " ++ k ++ u " : 1") ++ [41]) as -> by (by rewrite <- !app_assoc).
    apply free_parens; [lia..|]. apply balanced_app.
    { apply balanced_join; [done|]. eapply Forall_impl; [apply parts_delimited|].
      intros w (Hw & _). by eapply free_balanced. }
    apply balanced_app; [done|]. apply balanced_app; [|done]. by apply (free_balanced 38), numeric_free.
  - apply (trimmed_ends _ (u "(") (parts ++ u " ? " ++ k ++ u " : 1") (u ")"));
      [by rewrite <- !app_assoc | done..].
Qed.
End Lost.

(** A rule on a request parameter that tests containment or compares a
    number prints as a guarded conjunction, which the parser splits at the
    guard: the printed rule does not parse, and a billing expression combined
    with it splits into the whole text as base and no rules. *)
Theorem guarded_rules_lost p m v k base :
  path_ok p = true -> guarded_value m v = true -> numeric k = true -> base_ok base = true ->
  exists e,
    buildRequestRuleExpr (JArr [group_obj {| g_conditions := [ReqCond SOURCE_PARAM (JStr p) m v];
                                             g_multiplier := k |}]) = Ret e
    /\ e <> []
    /\ tryParseRequestRuleExpr e = Ret None
    /\ splitBillingExprAndRequestRules (combineBillingExpr base e)
       = Ret {| billingExpr := combineBillingExpr base e; requestRuleExpr := [] |}.
Proof.
  intros Hp Hv Hk Hb. eexists. split; [by apply build_lost|].
  destruct (lost_delimited p m v k Hp Hv Hk) as (Hf & Ht & Hne).
  pose proof (factor_lost p m v k Hp Hv Hk) as Hlost.
  set (e := u "(" ++ _) in *. clearbody e. split_and!; [done|by rewrite single_part; cbn [parse_groups]; rewrite ?Hlost|].
  pose proof (base_ok_inv base Hb) as (Hbt & Hbne & Hbal & _).
  destruct (in_parens_delimited base Hbal) as (? & ? & ?).
  unfold combineBillingExpr. rewrite !(trim_trimmed_id base), !(trim_trimmed_id e) by done.
  rewrite !bool_decide_false by done.
  assert (u "(" ++ base ++ u ") * " ++ e = join (u " * ") [in_parens base; e]) as ->
    by (unfold in_parens; simpl; by rewrite <- app_assoc).
  assert (Forall (fun w => free 42 w = true /\ trimmed w = true /\ w <> []) [in_parens base; e])
    as Hall by (by repeat constructor).
  unfold splitBillingExprAndRequestRules.
  destruct (trimmed_join (u " * ") [in_parens base; e]) as [Hj1 Hj2]; [by repeat constructor|].
  rewrite !(trim_trimmed_id (join _ _)), bool_decide_false by auto.
  rewrite splitTopLevelMultiply_join by done. cbn [length Nat.leb partition_parts].
  rewrite !not_rule_part by (try done; by apply base_not_factor). reflexivity.
Qed.

Lemma guarded_rules_lost_witness :
  let g := {| g_conditions := [ReqCond SOURCE_PARAM (JStr (u "max_tokens")) MATCH_GT (u "1000")];
              g_multiplier := u "2" |} in
  exists e,
    buildRequestRuleExpr (JArr [group_obj g]) = Ret e /\ e <> []
    /\ tryParseRequestRuleExpr e = Ret None
    /\ splitBillingExprAndRequestRules (combineBillingExpr (u "p * 2") e)
       = Ret {| billingExpr := combineBillingExpr (u "p * 2") e; requestRuleExpr := [] |}.
Proof. apply (guarded_rules_lost (u "max_tokens") MATCH_GT (u "1000") (u "2") (u "p * 2")); reflexivity. Defined.

(** A text with a disjunction sign is lost in a group of several conditions: the condition is
    wrapped in parentheses, which the parser does not remove.  Alone in its group it is read
    back. *)
Theorem disjunction_text_lost :
  let beta := ReqCond SOURCE_HEADER (JStr (u "x-beta")) MATCH_EQ (u "a || b") in
  let stream := ReqCond SOURCE_PARAM (JStr (u "stream")) MATCH_EXISTS [] in
  let g := {| g_conditions := [beta; stream]; g_multiplier := u "2" |} in
  let alone := {| g_conditions := [beta]; g_multiplier := u "2" |} in
  (exists e, buildRequestRuleExpr (JArr [group_obj g]) = Ret e /\ e <> [] /\ tryParseRequestRuleExpr e = Ret None) /\
  (exists e, buildRequestRuleExpr (JArr [group_obj alone]) = Ret e /\ tryParseRequestRuleExpr e = Ret (Some [alone])).
Proof. split; eexists; (split; [vm_compute; reflexivity|]); [split; [done|]|]; vm_compute; reflexivity. Qed.
