(* ===== verification/TieredPricing.v ===== *)
(** * Tiered pricing

    Model of web/classic/src/pages/Setting/Ratio/components/TieredPricingEditor.jsx
    and of the variables in web/classic/src/constants/billing.constants.js: the
    visual configuration of tiers, the billing expression it generates, the
    parser that reads an expression back, the edits of the visual editor, and the
    component that switches between the visual and the raw editor.

    A tier has the number fields the inputs and the parser produce; a condition
    whose number was cleared has no value.  The request rules and the expression
    that combines them with the base are those of [RequestRule]. *)

From S2P Require Import Prelude JsString JsNumber JsNumText JsValue JsJson JsRegex RequestRule.

#[local] Open Scope regex_scope.
#[local] Open Scope Z_scope.

(** ** Billing variables *)

Record billing_var := {
  bv_key : jsstr; bv_field : option jsstr; bv_tierField : option jsstr;
  bv_label : jsstr; bv_shortLabel : jsstr; bv_side : jsstr; bv_isBase : bool;
  bv_isConditionOnly : bool; bv_group : option jsstr
}.

Definition bvar (key field tierField label shortLabel side : string) (base : bool) (grp : option string)
  : billing_var :=
  {| bv_key := u key; bv_field := Some (u field); bv_tierField := Some (u tierField);
     bv_label := u label; bv_shortLabel := u shortLabel; bv_side := u side;
     bv_isBase := base; bv_isConditionOnly := false; bv_group := u <$> grp |}.

Definition BILLING_VARS : list billing_var :=
  [bvar "p" "inputPrice" "input_unit_cost" "输入价格" "输入" "input" true None;
   bvar "c" "outputPrice" "output_unit_cost" "补全价格" "补全" "output" true None;
   {| bv_key := u "len"; bv_field := None; bv_tierField := None; bv_label := u "输入长度";
      bv_shortLabel := u "长度"; bv_side := u "condition"; bv_isBase := false; bv_isConditionOnly := true; bv_group := None |};
   bvar "cr" "cacheReadPrice" "cache_read_unit_cost" "缓存读取价格" "缓存读" "input" false (Some "cache"%string);
   bvar "cc" "cacheCreatePrice" "cache_create_unit_cost" "缓存创建价格" "缓存创建" "input" false (Some "cache"%string);
   bvar "cc1h" "cacheCreate1hPrice" "cache_create_1h_unit_cost" "1h缓存创建价格" "1h缓存创建" "input" false
     (Some "cache"%string);
   bvar "img" "imagePrice" "image_unit_cost" "图片输入价格" "图片输入" "input" false (Some "media"%string);
   bvar "img_o" "imageOutputPrice" "image_output_unit_cost" "图片输出价格" "图片输出" "output" false
     (Some "media"%string);
   bvar "ai" "audioInputPrice" "audio_input_unit_cost" "音频输入价格" "音频输入" "input" false (Some "media"%string);
   bvar "ao" "audioOutputPrice" "audio_output_unit_cost" "音频补全价格" "音频输出" "output" false
     (Some "media"%string)].

Definition BILLING_EXTRA_VARS : list billing_var :=
  List.filter (fun v => negb (bv_isBase v) && negb (bv_isConditionOnly v)) BILLING_VARS.

Definition BILLING_CONDITION_VARS : list jsstr :=
  bv_key <$> List.filter (fun v => bv_isBase v || bv_isConditionOnly v) BILLING_VARS.

(** The field of a tier and the variable of the expression. *)
Definition CACHE_VAR_MAP : list (jsstr * jsstr) :=
  (fun v => (match bv_tierField v with Some f => f | None => [] end, bv_key v)) <$> BILLING_EXTRA_VARS.

(** ** Tiers *)

Record cond := { c_var : jsstr; c_op : jsstr; c_value : option num }.

Record tier := {
  t_conditions : list cond; input_unit_cost : num; output_unit_cost : num; t_label : jsstr;
  cache_mode : option jsstr; extra_costs : list (jsstr * num)
}.

Definition CACHE_MODE_TIMED : jsstr := u "timed".
Definition CACHE_MODE_GENERIC : jsstr := u "generic".
Definition FIELD_1H : jsstr := u "cache_create_1h_unit_cost".
Definition OPS : list jsstr := [u "<"; u "<="; u ">"; u ">="].

(** [Number(x) || 0] of a number, and of a field that may be missing *)
Definition or_zero (n : num) : num := if num_truthy n then n else Zero false.
Definition unitCostToPrice (uc : num) : num := or_zero uc.
Definition priceToUnitCost (price : num) : num := or_zero price.
Definition field_cost (t : tier) (field : jsstr) : num :=
  match om_get field (extra_costs t) with Some v => or_zero v | None => Zero false end.

Definition getTierCacheMode (t : tier) : jsstr :=
  if bool_decide (cache_mode t = Some CACHE_MODE_TIMED) then CACHE_MODE_TIMED
  else if bool_decide (cache_mode t = Some CACHE_MODE_GENERIC) then CACHE_MODE_GENERIC
  else if match om_get FIELD_1H (extra_costs t) with
          | Some v => num_gt v (Zero false)
          | None => false
          end
       then CACHE_MODE_TIMED else CACHE_MODE_GENERIC.

Definition normalizeVisualTier (t : tier) : tier :=
  {| t_conditions := t_conditions t; input_unit_cost := input_unit_cost t;
     output_unit_cost := output_unit_cost t; t_label := t_label t;
     cache_mode := Some (getTierCacheMode t); extra_costs := extra_costs t |}.

(** A configuration is its list of tiers; [None] is null. *)
Notation vconfig := (list tier) (only parsing).

Definition createDefaultVisualConfig : vconfig :=
  [normalizeVisualTier
     {| t_conditions := []; input_unit_cost := Zero false; output_unit_cost := Zero false;
        t_label := u "base"; cache_mode := Some CACHE_MODE_GENERIC; extra_costs := [] |}].

Definition normalizeVisualConfig (config : option vconfig) : vconfig :=
  match config with
  | None | Some [] => createDefaultVisualConfig
  | Some ts => normalizeVisualTier <$> ts
  end.

(** ** Generating the expression *)

Definition complete_cond (c : cond) : bool :=
  nonempty (c_var c) && nonempty (c_op c) && bool_decide (is_Some (c_value c)).

Definition tier_cond_text (c : cond) : jsstr :=
  c_var c ++ u " " ++ c_op c ++ u " "
    ++ match c_value c with Some v => num_to_string v | None => u "null" end.

Definition buildConditionStr (conditions : list cond) : jsstr :=
  join (u " && ") (tier_cond_text <$> List.filter complete_cond conditions).

Definition extra_text (t : tier) (fv : jsstr * jsstr) : list jsstr :=
  let v := field_cost t fv.1 in
  if num_eq v (Zero false) then [] else [fv.2 ++ u " * " ++ num_to_string v].

Definition buildTierBodyExpr (t : tier) : jsstr :=
  join (u " + ")
    ([u "p * " ++ num_to_string (or_zero (input_unit_cost t));
      u "c * " ++ num_to_string (or_zero (output_unit_cost t))]
     ++ concat (extra_text t <$> CACHE_VAR_MAP)).

Definition tier_call (label : jsstr) (t : tier) : jsstr :=
  u "tier(" ++ [34] ++ label ++ [34] ++ u ", " ++ buildTierBodyExpr t ++ u ")".

Definition ZERO_EXPR : jsstr := u "p * 0 + c * 0".

Definition tier_part (n i : Z) (t : tier) : jsstr :=
  let label := if nonempty (t_label t) then t_label t else u "第" ++ str_of_Z (i + 1) ++ u "档" in
  let body := tier_call label t in
  let c := buildConditionStr (t_conditions t) in
  if (i <? n - 1) && nonempty c then c ++ u " ? " ++ body else body.

Definition generateExprFromVisualConfig (config : option vconfig) : jsstr :=
  match config with
  | None | Some [] => ZERO_EXPR
  | Some [t] =>
      let label := if nonempty (t_label t) then t_label t else u "default" in
      let body := tier_call label t in
      let c := buildConditionStr (t_conditions t) in
      if nonempty c then c ++ u " ? " ++ body ++ u " : " ++ ZERO_EXPR else body
  | Some ts => join (u " : ") (mapi (tier_part (Z.of_nat (length ts))) ts)
  end.

(** ** Reading an expression *)

Definition ws : regex := RStar (RChr is_space).

Definition r_term (v : jsstr) (i : nat) : regex :=
  runits v · ws · rlit "*" · ws · r_numch i.

(** The optional terms of the cache and media variables. *)
Fixpoint r_extras (i : nat) (vars : list jsstr) : regex :=
  match vars with
  | [] => REps
  | v :: vars' => ropt (ws · rlit "+" · ws · r_term v i) · r_extras (S i) vars'
  end.

Definition r_body (i : nat) : regex :=
  r_term (u "p") i · ws · rlit "+" · ws · r_term (u "c") (S i)
  · r_extras (S (S i)) (CACHE_VAR_MAP.*2).

(** The call of [tier] from its name on; the label is group [i]. *)
Definition r_tier (i : nat) : regex :=
  runits (u "tier(" ++ [34]) · RGroup i (RStar (RChr not_quote)) · runits ([34] ++ u ",") · ws
  · r_body (S i) · rlit ")".

Definition SINGLE_RE : regex := r_tier 1 · REnd.

(** [[\d.eE+]] *)
Definition is_condch (c : Z) : bool := is_digit c || (c =? 46) || is_e c || (c =? 43).

Definition r_var : regex := rchoice ["p"; "c"; "len"].
Definition r_op : regex := rchoice ["<"; "<="; ">"; ">="].
Definition r_cond : regex := r_var · ws · r_op · ws · rplus (RChr is_condch).
Definition r_and : regex := ws · rlit "&&" · ws.
Definition COND_GROUP : regex := RGroup 1 (r_cond · RStar (r_and · r_cond)).
Definition TIER_RE : regex := ropt (COND_GROUP · ws · rlit "?" · ws) · r_tier 2.
Definition COND_RE : regex :=
  RGroup 1 r_var · ws · RGroup 2 r_op · ws · RGroup 3 (rplus (RChr is_condch)) · REnd.
Definition VERSION_RE : regex :=
  rlit "v" · rplus (RChr is_digit) · rlit ":" · RGroup 1 (RStar (RChr is_any)) · REnd.

(** A match at the start of a text, with what follows it. *)
Definition re_at (r : regex) (s : jsstr) : option (list (nat * jsstr) * jsstr) :=
  rmatch r s [] (fun s' c => Some (c, s')).

(** The first match in a text, and all the matches of a global pattern that
    never matches the empty text. *)
Fixpoint re_find (r : regex) (s : jsstr) : option (list (nat * jsstr) * jsstr) :=
  match re_at r s with
  | Some x => Some x
  | None => match s with [] => None | _ :: s' => re_find r s' end
  end.

Fixpoint re_find_all (fuel : nat) (r : regex) (s : jsstr) : list (list (nat * jsstr)) :=
  match fuel with
  | O => []
  | S fuel' =>
      match re_find r s with
      | None => []
      | Some (c, s') => c :: re_find_all fuel' r s'
      end
  end.

(** [s.split(r)] for a pattern that never matches the empty text. *)
Fixpoint re_split (fuel : nat) (r : regex) (s cur : jsstr) : list jsstr :=
  match fuel with
  | O => [cur ++ s]
  | S fuel' =>
      match s with
      | [] => [cur]
      | x :: s' =>
          match re_at r s with
          | Some (_, rest) => cur :: re_split fuel' r rest []
          | None => re_split fuel' r s' (cur ++ [x])
          end
      end
  end.

Definition parse_cond (cp : jsstr) : list cond :=
  match rexec COND_RE (trim cp) with
  | Some m => [{| c_var := cap 1 m; c_op := cap 2 m; c_value := Some (string_to_num (cap 3 m)) |}]
  | None => []
  end.

Definition parse_conds (condStr : jsstr) : list cond :=
  if bool_decide (condStr = []) then []
  else concat (parse_cond <$> re_split (length condStr) r_and condStr []).

(** The costs that the optional groups captured, from group [i] on. *)
Definition parse_extras (i : nat) (m : list (nat * jsstr)) : list (jsstr * num) :=
  concat (imap (fun j fv => match om_get (i + j)%nat m with
                            | Some v => [(fv.1, string_to_num v)]
                            | None => []
                            end) CACHE_VAR_MAP).

(** The tier of a match whose label is group [i]. *)
Definition parse_tier (i : nat) (conditions : list cond) (m : list (nat * jsstr)) : tier :=
  {| t_conditions := conditions; input_unit_cost := string_to_num (cap (S i) m);
     output_unit_cost := string_to_num (cap (S (S i)) m); t_label := cap i m;
     cache_mode := None; extra_costs := parse_extras (S (S (S i))) m |}.

Definition strip_spaces (s : jsstr) : jsstr := List.filter (fun c => negb (is_space c)) s.

Definition tryParseVisualConfig (exprStr : jsstr) : option vconfig :=
  if bool_decide (exprStr = []) then None
  else
    let expr := match rexec VERSION_RE exprStr with Some m => cap 1 m | None => exprStr end in
    match rexec SINGLE_RE expr with
    | Some m => Some (normalizeVisualConfig (Some [normalizeVisualTier (parse_tier 1 [] m)]))
    | None =>
        let ts := (fun m => normalizeVisualTier (parse_tier 2 (parse_conds (cap 1 m)) m))
                    <$> re_find_all (S (length expr)) TIER_RE expr in
        match ts with
        | [] => None
        | _ =>
            let cfg := normalizeVisualConfig (Some ts) in
            let regenerated := generateExprFromVisualConfig (Some cfg) in
            if bool_decide (strip_spaces regenerated = strip_spaces expr) then Some cfg else None
        end
    end.

(** ** Edits of the visual editor *)

(** The patches the inputs send to [updateTier]. *)
Inductive patch :=
  | PConditions (cs : list cond)
  | PInput (n : num)
  | POutput (n : num)
  | PExtra (field : jsstr) (n : num)
  | PLabel (s : jsstr)
  | PCacheMode (mode : jsstr).

Definition with_conditions (cs : list cond) (t : tier) : tier :=
  {| t_conditions := cs; input_unit_cost := input_unit_cost t; output_unit_cost := output_unit_cost t;
     t_label := t_label t; cache_mode := cache_mode t; extra_costs := extra_costs t |}.

(** [{ ...tier, ...patch }]; the generic cache mode also resets the one-hour
    price ([handleCacheModeChange]). *)
Definition apply_patch (p : patch) (t : tier) : tier :=
  match p with
  | PConditions cs => with_conditions cs t
  | PInput n =>
      {| t_conditions := t_conditions t; input_unit_cost := n; output_unit_cost := output_unit_cost t;
         t_label := t_label t; cache_mode := cache_mode t; extra_costs := extra_costs t |}
  | POutput n =>
      {| t_conditions := t_conditions t; input_unit_cost := input_unit_cost t; output_unit_cost := n;
         t_label := t_label t; cache_mode := cache_mode t; extra_costs := extra_costs t |}
  | PExtra field n =>
      {| t_conditions := t_conditions t; input_unit_cost := input_unit_cost t;
         output_unit_cost := output_unit_cost t; t_label := t_label t; cache_mode := cache_mode t;
         extra_costs := om_set field n (extra_costs t) |}
  | PLabel s =>
      {| t_conditions := t_conditions t; input_unit_cost := input_unit_cost t;
         output_unit_cost := output_unit_cost t; t_label := s; cache_mode := cache_mode t;
         extra_costs := extra_costs t |}
  | PCacheMode mode =>
      {| t_conditions := t_conditions t; input_unit_cost := input_unit_cost t;
         output_unit_cost := output_unit_cost t; t_label := t_label t; cache_mode := Some mode;
         extra_costs := if bool_decide (mode = CACHE_MODE_GENERIC)
                        then om_set FIELD_1H (Zero false) (extra_costs t) else extra_costs t |}
  end.

Definition updateTier (config : option vconfig) (index : Z) (p : patch) : vconfig :=
  mapi (fun i t => if i =? index then normalizeVisualTier (apply_patch p t) else t)
    (normalizeVisualConfig config).

(** What typing into a price input sends: [None] when it sends nothing. *)
Definition price_change (val : jsstr) : option num :=
  if bool_decide (val = []) then Some (Zero false)
  else let n := string_to_num val in if is_nan n then None else Some (priceToUnitCost n).

Definition DEFAULT_COND (v : jsstr) : cond := {| c_var := v; c_op := u "<"; c_value := Some (of_Z 200000) |}.

Definition updateCondition (conditions : list cond) (ci : Z) (newCond : cond) : patch :=
  PConditions (mapi (fun i c => if i =? ci then newCond else c) conditions).

(** [xs.filter((_, i) => i !== k)] *)
Definition remove_at {A} (k : Z) (l : list A) : list A :=
  concat (mapi (fun i x => if i =? k then [] else [x]) l).

Definition removeCondition (conditions : list cond) (ci : Z) : patch := PConditions (remove_at ci conditions).

(** Nothing happens when there are two conditions already. *)
Definition addCondition (conditions : list cond) : option patch :=
  if (2 <=? length conditions)%nat then None
  else
    let nextVar := if bool_decide (u "len" ∈ c_var <$> conditions) then u "c" else u "len" in
    Some (PConditions (conditions ++ [DEFAULT_COND nextVar])).

(** Apply a function to the last element. *)
Fixpoint on_last {A} (f : A -> A) (l : list A) : list A :=
  match l with
  | [] => []
  | [x] => [f x]
  | x :: l' => x :: on_last f l'
  end.

Definition addTier (config : option vconfig) : vconfig :=
  let ts := normalizeVisualConfig config in
  let ts' := on_last (fun t => match t_conditions t with
                               | [] => with_conditions [DEFAULT_COND (u "len")] t
                               | _ => t
                               end) ts in
  ts' ++ [{| t_conditions := []; input_unit_cost := Zero false; output_unit_cost := Zero false;
             t_label := u "第" ++ str_of_Z (Z.of_nat (length ts') + 1) ++ u "档";
             cache_mode := Some CACHE_MODE_GENERIC; extra_costs := [] |}].

(** The tiers after a removal; [None] when the last tier would go. *)
Definition removeTier (config : option vconfig) (index : Z) : option vconfig :=
  let ts := normalizeVisualConfig config in
  if (length ts <=? 1)%nat then None
  else Some (on_last (with_conditions []) (remove_at index ts)).

(** ** The component *)

Inductive editor_mode := EVisual | ERaw.

#[export] Instance editor_mode_eq_dec : EqDecision editor_mode.
Proof. solve_decision. Defined.

(** The state of the component, and what it reports to its parent. *)
Record tp_editor := {
  editorMode : editor_mode; visualConfig : option vconfig; rawExpr : jsstr;
  requestRuleGroups : list group
}.
Record tp_parent := { currentExpr : jsstr; currentRequestRuleExpr : jsstr }.

Definition set_groups (gs : list group) (s : tp_editor) : tp_editor :=
  {| editorMode := editorMode s; visualConfig := visualConfig s; rawExpr := rawExpr s;
     requestRuleGroups := gs |}.
Definition onRequestRuleExprChange (e : jsstr) (p : tp_parent) : tp_parent :=
  {| currentExpr := currentExpr p; currentRequestRuleExpr := e |}.
Definition onExprChange (e : jsstr) (p : tp_parent) : tp_parent :=
  {| currentExpr := e; currentRequestRuleExpr := currentRequestRuleExpr p |}.

Definition rules_text_of (gs : list group) : exc jsstr := buildRequestRuleExpr (JArr (group_obj <$> gs)).

(** The state of the first render. *)
Definition initial_tier_editor (p : tp_parent) : exc tp_editor :=
  gs ← tryParseRequestRuleExpr (currentRequestRuleExpr p);
  Ret {| editorMode := EVisual; visualConfig := None; rawExpr := [];
         requestRuleGroups := match gs with Some l => l | None => [] end |}.

(** The effect on the rule expression of the parent. *)
Definition load_rules (p : tp_parent) (s : tp_editor) : exc tp_editor :=
  gs ← tryParseRequestRuleExpr (currentRequestRuleExpr p);
  Ret (set_groups (match gs with Some l => l | None => [] end) s).

(** The effect on the name of the model. *)
Definition load_model (p : tp_parent) (s : tp_editor) : tp_editor :=
  let e := currentExpr p in
  match tryParseVisualConfig e with
  | Some cfg => {| editorMode := EVisual; visualConfig := Some cfg; rawExpr := e;
                   requestRuleGroups := requestRuleGroups s |}
  | None =>
      if bool_decide (e = []) then
        {| editorMode := EVisual; visualConfig := Some createDefaultVisualConfig; rawExpr := [];
           requestRuleGroups := requestRuleGroups s |}
      else {| editorMode := ERaw; visualConfig := None; rawExpr := e;
              requestRuleGroups := requestRuleGroups s |}
  end.

Definition effectiveExpr (s : tp_editor) : exc jsstr :=
  match editorMode s with
  | EVisual => Ret (generateExprFromVisualConfig (visualConfig s))
  | ERaw => r ← splitBillingExprAndRequestRules (rawExpr s); Ret (billingExpr r)
  end.

(** The effect on the effective expression. *)
Definition report_expr (s : tp_editor) (p : tp_parent) : exc tp_parent :=
  e ← effectiveExpr s;
  Ret (if bool_decide (e = currentExpr p) then p else onExprChange e p).

(** Opening a model: the effects of the first render report the zero
    expression, those of the second what was loaded. *)
Definition open_model (p : tp_parent) : exc (tp_editor * tp_parent) :=
  s0 ← initial_tier_editor p;
  s1 ← load_rules p s0;
  let s2 := load_model p s1 in
  p1 ← report_expr s0 p;
  p2 ← report_expr s2 p1;
  Ret (s2, p2).

Definition handleRequestRuleGroupsChange (nextGroups : list group) (s : tp_editor) (p : tp_parent)
  : exc (tp_editor * tp_parent) :=
  e ← rules_text_of nextGroups;
  Ret (set_groups nextGroups s, onRequestRuleExprChange e p).

Definition handleVisualChange (newConfig : vconfig) (s : tp_editor) : tp_editor :=
  {| editorMode := editorMode s; visualConfig := Some newConfig; rawExpr := rawExpr s;
     requestRuleGroups := requestRuleGroups s |}.

Definition handleRawChange (val : jsstr) (s : tp_editor) (p : tp_parent) : exc (tp_editor * tp_parent) :=
  r ← splitBillingExprAndRequestRules val;
  Ret ({| editorMode := editorMode s; visualConfig := visualConfig s; rawExpr := val;
          requestRuleGroups := requestRuleGroups s |},
       onRequestRuleExprChange (requestRuleExpr r) p).

Definition handleModeSwitch (newMode : editor_mode) (s : tp_editor) (p : tp_parent)
  : exc (tp_editor * tp_parent) :=
  match newMode with
  | EVisual =>
      r ← splitBillingExprAndRequestRules (rawExpr s);
      gs ← tryParseRequestRuleExpr (requestRuleExpr r);
      Ret ({| editorMode := EVisual;
              visualConfig := Some (match tryParseVisualConfig (billingExpr r) with
                                    | Some cfg => cfg
                                    | None => createDefaultVisualConfig
                                    end);
              rawExpr := rawExpr s;
              requestRuleGroups := match gs with Some l => l | None => [] end |},
           onRequestRuleExprChange (requestRuleExpr r) p)
  | ERaw =>
      let expr := generateExprFromVisualConfig (visualConfig s) in
      ruleExpr ← rules_text_of (requestRuleGroups s);
      let combined := combineBillingExpr expr ruleExpr in
      Ret ({| editorMode := ERaw; visualConfig := visualConfig s;
              rawExpr := if nonempty combined then combined else expr;
              requestRuleGroups := requestRuleGroups s |}, p)
  end.

Definition applyPreset (preset_expr : jsstr) (presetGroups : list group) (s : tp_editor) (p : tp_parent)
  : exc (tp_editor * tp_parent) :=
  ruleExpr ← rules_text_of presetGroups;
  let c := combineBillingExpr preset_expr ruleExpr in
  let combined := if nonempty c then c else preset_expr in
  Ret (match tryParseVisualConfig preset_expr with
       | Some cfg => {| editorMode := editorMode s; visualConfig := Some cfg; rawExpr := combined;
                        requestRuleGroups := presetGroups |}
       | None => {| editorMode := ERaw; visualConfig := None; rawExpr := combined;
                    requestRuleGroups := presetGroups |}
       end, onRequestRuleExprChange ruleExpr p).

(** ** Presets *)

Record preset := { pr_key : jsstr; pr_label : jsstr; pr_expr : jsstr; pr_requestRules : list group }.

(** A text of the source in which a bar stands for a double quote. *)
Definition quoted (s : string) : jsstr := (fun c => if c =? 124 then 34 else c) <$> u s.

Definition flat_preset (key label expr : string) : preset :=
  {| pr_key := u key; pr_label := u label; pr_expr := quoted expr; pr_requestRules := [] |}.

Definition rule_preset (key label expr : string) (rules : list (list condition * string)) : preset :=
  {| pr_key := u key; pr_label := u label; pr_expr := quoted expr;
     pr_requestRules := (fun r => {| g_conditions := r.1; g_multiplier := u r.2 |}) <$> rules |}.

(** A field that a rule of a preset lacks reads as the empty text. *)
Definition time_is (func value : string) : condition :=
  TimeCond (u func) (JStr (u "Asia/Shanghai")) MATCH_EQ (u value) [] [].

Definition PRESET_GROUPS : list (jsstr * list preset) :=
  [(u "固定价格",
    [flat_preset "flat" "Flat" "tier(|base|, p * 2 + c * 4)";
     flat_preset "claude-opus" "Claude Opus 4.6"
       "tier(|base|, p * 5 + c * 25 + cr * 0.5 + cc * 6.25 + cc1h * 10)";
     flat_preset "gpt-5.4" "GPT-5.4"
       "len <= 272000 ? tier(|standard|, p * 2.5 + c * 15 + cr * 0.25) : tier(|long_context|, p * 5 + c * 22.5 + cr * 0.5)"]);
   (u "阶梯计费",
    [flat_preset "claude-sonnet" "Claude Sonnet 4.5"
       "len <= 200000 ? tier(|standard|, p * 3 + c * 15 + cr * 0.3 + cc * 3.75 + cc1h * 6) : tier(|long_context|, p * 6 + c * 22.5 + cr * 0.6 + cc * 7.5 + cc1h * 12)";
     flat_preset "qwen3-max" "Qwen3 Max"
       "len <= 32000 ? tier(|short|, p * 1.2 + c * 6 + cr * 0.24 + cc * 1.5) : len <= 128000 ? tier(|mid|, p * 2.4 + c * 12 + cr * 0.48 + cc * 3) : tier(|long|, p * 3 + c * 15 + cr * 0.6 + cc * 3.75)";
     flat_preset "glm-4.5-air" "GLM-4.5 Air"
       "len < 32000 && c < 200 ? tier(|short_output|, p * 0.8 + c * 2 + cr * 0.16) : len < 32000 && c >= 200 ? tier(|long_output|, p * 0.8 + c * 6 + cr * 0.16) : tier(|mid_context|, p * 1.2 + c * 8 + cr * 0.24)";
     flat_preset "doubao-seed-1.8" "Doubao Seed 1.8"
       "len <= 32000 && c <= 200 ? tier(|discount|, p * 0.8 + c * 2 + cr * 0.16 + cc * 0.17) : len <= 32000 ? tier(|short|, p * 0.8 + c * 8 + cr * 0.16 + cc * 0.17) : len <= 128000 ? tier(|mid|, p * 1.2 + c * 16 + cr * 0.16 + cc * 0.17) : tier(|long|, p * 2.4 + c * 24 + cr * 0.16 + cc * 0.17)"]);
   (u "多模态",
    [flat_preset "gpt-image-1-mini" "GPT Image 1 Mini" "tier(|base|, p * 2 + c * 8 + img * 2.5)";
     flat_preset "gemini-2.5-flash" "Gemini 2.5 Flash"
       "tier(|base|, p * 0.3 + c * 2.5 + cr * 0.03 + ai * 1.0)";
     flat_preset "gemini-3-pro-image" "Gemini 3 Pro Image" "tier(|base|, p * 2 + c * 12 + img_o * 120)";
     flat_preset "qwen3-omni-flash" "Qwen3 Omni Flash"
       "tier(|base|, p * 0.43 + c * 3.06 + img * 0.78 + ai * 3.81 + ao * 15.11)"]);
   (u "请求条件",
    [rule_preset "claude-opus-fast" "Claude Opus 4.6 Fast"
       "tier(|base|, p * 5 + c * 25 + cr * 0.5 + cc * 6.25 + cc1h * 10)"
       [([ReqCond SOURCE_HEADER (JStr (u "anthropic-beta")) MATCH_CONTAINS (u "fast-mode-2026-02-01")],
         "6"%string)];
     rule_preset "gpt-5.4-tiers" "GPT-5.4 Priority/Flex"
       "len <= 272000 ? tier(|standard|, p * 2.5 + c * 15 + cr * 0.25) : tier(|long_context|, p * 5 + c * 22.5 + cr * 0.5)"
       [([ReqCond SOURCE_PARAM (JStr (u "service_tier")) MATCH_EQ (u "priority")], "2"%string);
        ([ReqCond SOURCE_PARAM (JStr (u "service_tier")) MATCH_EQ (u "flex")], "0.5"%string)]]);
   (u "时间促销",
    [rule_preset "night-discount" "夜间半价" "tier(|base|, p * 3 + c * 15)"
       [([TimeCond (u "hour") (JStr (u "Asia/Shanghai")) MATCH_RANGE [] (u "21") (u "6")], "0.5"%string)];
     rule_preset "weekend-discount" "周末8折" "tier(|base|, p * 3 + c * 15)"
       [([time_is "weekday" "0"], "0.8"%string); ([time_is "weekday" "6"], "0.8"%string)];
     rule_preset "new-year-promo" "新年促销" "tier(|base|, p * 3 + c * 15)"
       [([time_is "month" "1"; time_is "day" "1"], "0.5"%string)]])].

(** ** Edits of the tiers, as the cards allow them *)

(** The condition rows are shown on every card but the last of several. *)
Definition conditions_shown (ts : vconfig) (index : Z) : bool :=
  negb (index =? Z.of_nat (length ts) - 1) || (length ts =? 1)%nat.

Definition card_conditions (ts : vconfig) (index : Z) : list cond :=
  match ts !! Z.to_nat index with Some t => t_conditions t | None => [] end.

(** The price inputs of a card. *)
Inductive price_name := InputPrice | OutputPrice | ExtraPrice (field : jsstr).

Definition price_patch (name : price_name) (n : num) : patch :=
  match name with
  | InputPrice => PInput n
  | OutputPrice => POutput n
  | ExtraPrice field => PExtra field n
  end.

(** The controls of the visual editor, by the card they are on. *)
Inductive control :=
  | Retype (index : Z) (name : price_name) (val : jsstr)
  | Relabel (index : Z) (val : jsstr)
  | SwitchCache (index : Z) (timed : bool)
  | EditCondition (index ci : Z) (newCond : cond)
  | RemoveCondition (index ci : Z)
  | AddCondition (index : Z)
  | AddTier
  | RemoveTier (index : Z).

(** The configuration that a control reports; [None] when it reports nothing. *)
Definition operate (config : option vconfig) (a : control) : option vconfig :=
  let ts := normalizeVisualConfig config in
  match a with
  | Retype i name val => updateTier config i ∘ price_patch name <$> price_change val
  | Relabel i val => Some (updateTier config i (PLabel val))
  | SwitchCache i timed =>
      Some (updateTier config i (PCacheMode (if timed then CACHE_MODE_TIMED else CACHE_MODE_GENERIC)))
  | EditCondition i ci c =>
      if conditions_shown ts i
      then Some (updateTier config i (updateCondition (card_conditions ts i) ci c)) else None
  | RemoveCondition i ci =>
      if conditions_shown ts i
      then Some (updateTier config i (removeCondition (card_conditions ts i) ci)) else None
  | AddCondition i =>
      if conditions_shown ts i
      then updateTier config i <$> addCondition (card_conditions ts i) else None
  | AddTier => Some (addTier config)
  | RemoveTier i => removeTier config i
  end.

(** The configurations the editor reaches from the one it was given. *)
Inductive tiers_edited (start : option vconfig) : option vconfig -> Prop :=
  | edited_start : tiers_edited start start
  | edited_step config a ts :
      tiers_edited start config -> operate config a = Some ts -> tiers_edited start (Some ts).
