(* ===== verification/TieredPricingThms.v ===== *)
(** * Tiered pricing: theorems

    The round trip between visual configurations and billing expressions, the
    round trip of the mode switch, the shape of generated expressions, and the
    edits of the visual editor. *)

From S2P Require Import Prelude JsString JsNumber JsNumText JsValue JsJson JsRegex RequestRule RequestRuleThms RequestRuleRound TieredPricing.

#[local] Open Scope Z_scope.

(** ** Configurations that an expression can carry *)

(** A price whose text the parser reads back.  ECMAScript promises this of every
    finite number; integers are covered by [cost_ok_int]. *)
Record cost_ok (n : num) : Prop := {
  cost_chars : forallb is_numch (num_to_string n) = true;
  cost_text : num_to_string n <> [];
  cost_reads : string_to_num (num_to_string n) = n;
  cost_stable : or_zero n = n
}.

Definition threshold_ok (n : num) : Prop :=
  forallb is_condch (num_to_string n) = true /\ num_to_string n <> [] /\ string_to_num (num_to_string n) = n.

Record cond_ok (c : cond) : Prop := {
  cond_var_ok : c_var c ∈ [u "p"; u "c"; u "len"];
  cond_op_ok : c_op c ∈ OPS;
  cond_value_ok : exists v, c_value c = Some v /\ threshold_ok v
}.

(** No quote, which would end the label, and no parenthesis. *)
Definition label_char (c : Z) : bool := negb (c =? 34) && negb (c =? 40) && negb (c =? 41).

(** The costs of the variables a tier has, in the order of the variables. *)
Definition costs_of (t : tier) : list (jsstr * num) :=
  concat ((fun fv => match om_get fv.1 (extra_costs t) with Some v => [(fv.1, v)] | None => [] end)
            <$> CACHE_VAR_MAP).

Definition unset_mode (t : tier) : tier :=
  {| t_conditions := t_conditions t; input_unit_cost := input_unit_cost t;
     output_unit_cost := output_unit_cost t; t_label := t_label t; cache_mode := None;
     extra_costs := extra_costs t |}.

Record tier_ok (t : tier) : Prop := {
  tier_input : cost_ok (input_unit_cost t);
  tier_output : cost_ok (output_unit_cost t);
  tier_extra : Forall (fun fn => cost_ok fn.2 /\ num_eq fn.2 (Zero false) = false) (extra_costs t);
  tier_extra_order : costs_of t = extra_costs t;
  tier_label_ok : t_label t <> [] /\ forallb label_char (t_label t) = true;
  tier_conds : Forall cond_ok (t_conditions t);
  tier_mode : normalizeVisualTier (unset_mode t) = t
}.

(** The last tier is the fallback; every other tier has a condition.  A single
    tier may have conditions or not. *)
Fixpoint tiers_ok (ts : vconfig) : Prop :=
  match ts with
  | [] => False
  | [t] => tier_ok t /\ t_conditions t = []
  | t :: ts' => tier_ok t /\ t_conditions t <> [] /\ tiers_ok ts'
  end.

Definition config_ok (ts : vconfig) : Prop :=
  match ts with [t] => tier_ok t | _ => tiers_ok ts end.

(** ** The body of a tier *)

Lemma join_concat sep a l : join sep (a :: l) = a ++ concat ((fun w => sep ++ w) <$> l).
Proof.
  revert a. induction l as [|b l IH]; intros a; [by rewrite app_nil_r|].
  change (join sep (a :: b :: l)) with (a ++ sep ++ join sep (b :: l)). rewrite IH. csimpl.
  by rewrite <- !app_assoc.
Qed.

(** The texts of the optional terms: the variable, and its number when it has one. *)
Definition term_text (vo : jsstr * option jsstr) : jsstr :=
  match vo.2 with Some w => u " + " ++ vo.1 ++ u " * " ++ w | None => [] end.

Definition extra_numbers (t : tier) : list (option jsstr) :=
  (fun fv => num_to_string <$> om_get fv.1 (extra_costs t)) <$> CACHE_VAR_MAP.

Definition terms_text (t : tier) : jsstr :=
  concat ((fun fv => term_text (fv.2, num_to_string <$> om_get fv.1 (extra_costs t))) <$> CACHE_VAR_MAP).

Lemma body_text t :
  tier_ok t ->
  buildTierBodyExpr t
  = u "p * " ++ num_to_string (input_unit_cost t) ++ u " + c * " ++ num_to_string (output_unit_cost t)
    ++ terms_text t.
Proof.
  intros Ht. unfold buildTierBodyExpr.
  rewrite (cost_stable _ (tier_input t Ht)), (cost_stable _ (tier_output t Ht)).
  change (u " + c * ") with (u " + " ++ u "c * ").
  rewrite <- app_comm_cons, join_concat, <- app_comm_cons, fmap_cons, app_nil_l. cbn [concat].
  rewrite <- !app_assoc. do 5 f_equal. unfold terms_text. induction CACHE_VAR_MAP as [|[f v] l IH]; [done|]. rewrite !fmap_cons. cbn [concat].
  rewrite fmap_app, concat_app, IH. f_equal. unfold extra_text, term_text, field_cost. cbn [fst snd].
  destruct (om_get f (extra_costs t)) as [n|] eqn:E; [|done].
  pose proof (tier_extra t Ht) as He. rewrite Forall_forall in He.
  destruct (He (f, n) (om_get_Some_in _ _ _ E)) as [Hc Hz]. simpl in Hc, Hz.
  rewrite (cost_stable _ Hc), Hz. rewrite fmap_cons. cbn [concat fst snd]. by rewrite app_nil_r.
Qed.

(** ** Matching the body *)

Lemma condch_not_space c : is_condch c = true -> is_space c = false.
Proof.
  intros H. unfold is_condch, is_e in H. rewrite !orb_true_iff, !Z.eqb_eq in H.
  destruct H as [[[H|H]|[H|H]]|H]; [by apply digit_not_space | subst c; done..].
Qed.

Lemma stops_class (p q : Z -> bool) w rest :
  (forall c, p c = true -> q c = false) -> forallb p w = true -> w <> [] -> stops q (w ++ rest).
Proof. intros H Hw Hne. destruct w; [done|]. simpl in *. bool_simp. by apply H. Qed.

(** White space of one blank, or none. *)
Lemma eats_blank : eats ws [32] id (stops is_space).
Proof. by apply eats_star. Qed.

Lemma eats_term v i w :
  forallb is_numch w = true -> w <> [] ->
  eats (r_term v i) (v ++ u " * " ++ w) (om_set i w) (stops is_numch).
Proof.
  intros Hw Hne. unfold r_term.
  assert (eats (r_numch i) w (om_set i w) (stops is_numch)) as Hn.
  { apply (eats_group i _ w id). by apply eats_plus. }
  pose proof (eats_seq _ _ _ _ _ _ _ (stops is_space) (eats_units v) eats_blank (fun _ _ => I)) as H1.
  pose proof (eats_seq _ _ _ _ _ _ _ anything H1 (eats_units (u "*")) (fun _ _ => eq_refl)) as H2.
  pose proof (eats_seq _ _ _ _ _ _ _ (stops is_space) H2 eats_blank (fun _ _ => I)) as H3.
  pose proof (eats_seq _ _ _ _ _ _ _ (stops is_numch) H3 Hn
    (fun rest _ => stops_class is_numch is_space w rest numch_not_space Hw Hne)) as H4.
  rewrite <- !app_assoc in H4. exact H4.
Qed.

(** [ + v * w] *)
Lemma eats_plus_term v i w :
  v <> [] -> forallb (fun c => negb (is_space c)) v = true ->
  forallb is_numch w = true -> w <> [] ->
  eats (ws · rlit "+" · ws · r_term v i)%re (u " + " ++ v ++ u " * " ++ w) (om_set i w) (stops is_numch).
Proof.
  intros Hv Hvs Hw Hne.
  pose proof (eats_seq _ _ _ _ _ _ _ anything eats_blank (eats_units (u "+")) (fun _ _ => eq_refl)) as H1.
  pose proof (eats_seq _ _ _ _ _ _ _ (stops is_space) H1 eats_blank (fun _ _ => I)) as H2.
  assert (forall rest, stops is_numch rest -> stops is_space ((v ++ u " * " ++ w) ++ rest)) as Hs.
  { intros rest _. destruct v as [|x v]; [done|]. simpl in *. bool_simp. done. }
  pose proof (eats_seq _ _ _ _ _ _ _ (stops is_numch) H2 (eats_term v i w Hw Hne) Hs) as H3.
  exact H3.
Qed.

(** The captures of the optional terms. *)
Fixpoint capture_terms (i : nat) (l : list (option jsstr)) (c : list (nat * jsstr)) : list (nat * jsstr) :=
  match l with
  | [] => c
  | None :: l' => capture_terms (S i) l' c
  | Some w :: l' => capture_terms (S i) l' (om_set i w c)
  end.

Lemma capture_terms_get l i k c :
  (forall j, (i <= j)%nat -> om_get j c = None) ->
  om_get k (capture_terms i l c)
  = if (k <? i)%nat then om_get k c else match l !! (k - i)%nat with Some o => o | None => None end.
Proof.
  revert i c. induction l as [|o l IH]; intros i c Hc; simpl.
  - destruct (Nat.ltb_spec k i); [done | by apply Hc].
  - assert (forall o', (forall j, (S i <= j)%nat -> om_get j (match o' with Some w => om_set i w c | None => c end) = None)) as Hc'.
    { intros [w|] j Hj; [rewrite om_get_set_ne by lia|]; apply Hc; lia. }
    assert (om_get k (capture_terms (S i) l (match o with Some w => om_set i w c | None => c end))
      = if (k <? i)%nat then om_get k c else match (o :: l) !! (k - i)%nat with Some o => o | None => None end) as H.
    { rewrite IH by apply Hc'. destruct (Nat.ltb_spec k (S i)), (Nat.ltb_spec k i); try lia.
      - destruct o; [by rewrite om_get_set_ne by lia | done].
      - assert (k = i) as -> by lia. rewrite Nat.sub_diag. simpl.
        destruct o; [apply om_get_set_eq | by apply Hc].
      - replace (k - i)%nat with (S (k - S i)) by lia. done. }
    by destruct o.
Qed.

(** A variable is not read where a later one stands. *)
Lemma refuses_ws r s :
  (forall x s', is_space x = true -> refuses r (x :: s')) -> refuses r (dropWhile is_space s) ->
  refuses (RSeq ws r) s.
Proof.
  intros Hs Hr R c k. rewrite rmatch_seq. unfold ws. rewrite rmatch_star_span; [apply Hr|].
  intros x s' Hx. by apply Hs.
Qed.

Lemma refuses_units w r s : startsWith w s = false -> refuses (RSeq (runits w) r) s.
Proof. intros H R c k. by rewrite rmatch_seq, rmatch_units, H. Qed.

Lemma refuses_after_units w r s : refuses r s -> refuses (RSeq (runits w) r) (w ++ s).
Proof. intros H R c k. rewrite rmatch_seq, rmatch_units_app. apply H. Qed.

Lemma startsWith_other v v' r :
  startsWith v v' = false -> startsWith v' v = false -> startsWith v (v' ++ r) = false.
Proof.
  revert v'. induction v as [|x v IH]; intros [|y v'] H1 H2; simpl in *; try done.
  rewrite (Z.eqb_sym y x) in H2. destruct (x =? y); simpl in *; [by apply IH | done].
Qed.

Lemma refuses_char c r x s : x <> c -> refuses (RSeq (runits [c]) r) (x :: s).
Proof. intros H. apply refuses_units. simpl. destruct (Z.eqb_spec c x); [congruence | done]. Qed.

(** [v] is not read where [v'] stands. *)
Definition apart (v v' : jsstr) : bool :=
  if startsWith v v' then match drop (length v) v' with
                          | x :: _ => negb (is_space x) && negb (x =? 42)
                          | [] => false
                          end
  else negb (startsWith v' v).

Lemma dropWhile_stop s : stops is_space s -> dropWhile is_space s = s.
Proof. apply dropWhile_none. Qed.

Lemma term_refused v v' i rest :
  apart v v' = true -> stops is_space v -> v <> [] -> stops is_space v' -> v' <> [] ->
  refuses (ws · rlit "+" · ws · r_term v i)%re (u " + " ++ v' ++ u " * " ++ rest).
Proof.
  intros Ha Hv Hvn Hv' Hvn'.
  change (ws · rlit "+" · ws · r_term v i)%re with (ws · rlit "+" · ws · (runits v · ws · rlit "*" · ws · r_numch i))%re.
  assert (refuses (ws · (rlit "+" · (ws · (runits v · (ws · (rlit "*" · (ws · r_numch i)))))))%re
    (u " + " ++ v' ++ u " * " ++ rest)) as H; [|exact H].
  assert (forall x s', is_space x = true ->
    refuses (runits v · (ws · (rlit "*" · (ws · r_numch i))))%re (x :: s')) as Hsp.
  { intros x s' Hx. apply refuses_units. destruct v as [|y v]; [done|]. simpl in *.
    destruct (Z.eqb_spec y x); [by subst; congruence | done]. }
  apply refuses_ws.
  { intros x s' Hx. apply (refuses_char 43). intros ->. done. }
  change (dropWhile is_space (u " + " ++ v' ++ u " * " ++ rest)) with (u "+" ++ [32] ++ v' ++ u " * " ++ rest).
  apply refuses_after_units, refuses_ws; [done|].
  replace (dropWhile is_space ([32] ++ v' ++ u " * " ++ rest)) with (v' ++ u " * " ++ rest).
  2:{ change (dropWhile is_space ([32] ++ ?x)) with (dropWhile is_space x). symmetry. apply dropWhile_none.
      destruct v'; [done | exact Hv']. }
  unfold apart in Ha. destruct (startsWith v v') eqn:E.
  - apply startsWith_iff in E as [z ->]. rewrite drop_app_length in Ha. rewrite <- app_assoc.
    apply refuses_after_units. destruct z as [|x z]; [done|]. bool_simp.
    apply refuses_ws.
    { intros y s' Hy. apply (refuses_char 42). intros ->. done. }
    rewrite dropWhile_stop by done. by apply (refuses_char 42).
  - apply refuses_units, startsWith_other; [done|]. by apply negb_true_iff.
Qed.

Lemma end_refused v i rest :
  refuses (ws · rlit "+" · ws · r_term v i)%re (41 :: rest).
Proof.
  assert (refuses (ws · (rlit "+" · (ws · r_term v i)))%re (41 :: rest)) as H; [|exact H].
  apply refuses_ws.
  - intros x s' Hx. apply (refuses_char 43). intros ->. done.
  - rewrite dropWhile_stop by done. by apply (refuses_char 43).
Qed.

(** Lists of variables each of which is apart from the later ones. *)
Fixpoint vars_ok (vars : list jsstr) : bool :=
  match vars with
  | [] => true
  | v :: vars' =>
      nonempty v && forallb (fun c => negb (is_space c)) v && forallb (apart v) vars' && vars_ok vars'
  end.

Lemma cache_vars_ok : vars_ok (CACHE_VAR_MAP.*2) = true.
Proof. vm_compute. reflexivity. Qed.

Definition closes (s : jsstr) : Prop := exists rest, s = 41 :: rest.

Lemma vars_ok_head v : nonempty v = true -> forallb (fun c => negb (is_space c)) v = true ->
  v <> [] /\ stops is_space v.
Proof. destruct v; [done|]. simpl. intros _ H. bool_simp. done. Qed.

(** The text of some terms closes at once or starts with a term. *)
Lemma terms_start (l : list (jsstr * option jsstr)) rest :
  closes rest ->
  closes (concat (term_text <$> l) ++ rest)
  \/ exists v w s, v ∈ l.*1 /\ concat (term_text <$> l) ++ rest = u " + " ++ v ++ u " * " ++ w ++ s.
Proof.
  intros Hr. induction l as [|[v [w|]] l IH]; [by left| |].
  - right. exists v, w, (concat (term_text <$> l) ++ rest). split; [csimpl; set_solver|].
    rewrite fmap_cons. cbn [concat]. unfold term_text at 1. cbn [fst snd]. by rewrite <- !app_assoc.
  - destruct IH as [IH|(v' & w & s & Hv & IH)]; [by left|]. right. exists v', w, s.
    split; [csimpl; set_solver | exact IH].
Qed.

Lemma eats_extras l i :
  vars_ok (l.*1) = true ->
  Forall (fun vo => match vo.2 with Some w => forallb is_numch w = true /\ w <> [] | None => True end) l ->
  eats (r_extras i (l.*1)) (concat (term_text <$> l)) (capture_terms i (l.*2)) closes.
Proof.
  revert i. induction l as [|[v o] l IH]; intros i Hv Hl; [apply eats_eps|].
  apply Forall_cons in Hl as [Ho Hl]. rewrite fmap_cons in Hv. cbn [vars_ok fst] in Hv.
  rewrite !andb_true_iff in Hv. destruct Hv as [[[Hn Hns] Hap] Hok].
  destruct (vars_ok_head v) as [Hvn Hvs]; [done..|].
  specialize (IH (S i) Hok Hl). rewrite !fmap_cons. cbn [r_extras concat fst snd capture_terms].
  assert (forall rest, closes rest -> stops is_numch (concat (term_text <$> l) ++ rest)) as Hst.
  { intros rest Hr. destruct (terms_start l rest Hr) as [[s ->]|(v' & w & s & _ & ->)]; done. }
  destruct o as [w|]; cbn [term_text snd fst] in *.
  - destruct Ho as [Hw Hwn].
    pose proof (eats_opt _ _ _ _ (eats_plus_term v i w Hvn Hns Hw Hwn)) as H1.
    exact (eats_seq _ _ _ _ _ _ _ _ H1 IH Hst).
  - pose (ok := fun s => exists rest, closes rest /\ s = concat (term_text <$> l) ++ rest).
    assert (eats (ropt (ws · rlit "+" · ws · r_term v i)%re) [] id ok) as H1.
    { apply eats_opt_none. intros s (rest & Hr & ->).
      destruct (terms_start l rest Hr) as [[s ->]|(v' & w & s & Hin & ->)]; [apply end_refused|].
      assert (apart v v' = true) as Ha. { rewrite forallb_forall in Hap. by apply Hap, list_elem_of_In. }
      assert (v' <> [] /\ stops is_space v') as [? ?].
      { clear -Hin Hok. induction (l.*1) as [|x xs IH]; [by apply not_elem_of_nil in Hin|].
        cbn [vars_ok] in Hok. bool_simp. apply elem_of_cons in Hin as [->|Hin]; [by apply vars_ok_head | by apply IH]. }
      by apply term_refused. }
    refine (eats_seq _ _ [] _ _ _ ok _ H1 IH _). intros rest Hr. by exists rest.
Qed.

(** ** Matching a tier *)

Definition capture_tier (i : nat) (t : tier) (c : list (nat * jsstr)) : list (nat * jsstr) :=
  capture_terms (S (S (S i))) (extra_numbers t)
    (om_set (S (S i)) (num_to_string (output_unit_cost t))
       (om_set (S i) (num_to_string (input_unit_cost t)) (om_set i (t_label t) c))).

Lemma terms_list t :
  let l := (fun fv => (fv.2, num_to_string <$> om_get fv.1 (extra_costs t))) <$> CACHE_VAR_MAP in
  l.*1 = CACHE_VAR_MAP.*2 /\ l.*2 = extra_numbers t /\ concat (term_text <$> l) = terms_text t.
Proof.
  intros l. unfold l, extra_numbers, terms_text. by rewrite <- !list_fmap_compose.
Qed.

Lemma eats_terms t i :
  tier_ok t -> eats (r_extras i (CACHE_VAR_MAP.*2)) (terms_text t) (capture_terms i (extra_numbers t)) closes.
Proof.
  intros Ht. destruct (terms_list t) as (E1 & E2 & E3). rewrite <- E1, <- E2, <- E3.
  apply eats_extras; [rewrite E1; apply cache_vars_ok|].
  apply Forall_forall. intros vo ((f & v) & -> & _)%list_elem_of_fmap. cbn [fst snd].
  destruct (om_get f (extra_costs t)) as [n|] eqn:E; [|done]. simpl.
  pose proof (tier_extra t Ht) as He. rewrite Forall_forall in He.
  destruct (He _ (om_get_Some_in _ _ _ E)) as [Hc _]. split; apply Hc.
Qed.

Lemma eats_body t i :
  tier_ok t ->
  eats (r_body i) (buildTierBodyExpr t)
    (fun c => capture_terms (S (S i)) (extra_numbers t)
       (om_set (S i) (num_to_string (output_unit_cost t))
          (om_set i (num_to_string (input_unit_cost t)) c))) closes.
Proof.
  intros Ht. rewrite body_text by done.
  destruct (tier_input t Ht) as [Hi Hin _ _]. destruct (tier_output t Ht) as [Ho Hon _ _].
  pose proof (eats_term (u "p") i _ Hi Hin) as H1.
  pose proof (eats_plus_term (u "c") (S i) _ ltac:(done) eq_refl Ho Hon) as H2.
  assert (forall rest, closes rest -> stops is_numch (terms_text t ++ rest)) as Hst.
  { destruct (terms_list t) as (_ & _ & <-). intros rest Hr.
    edestruct terms_start as [[s ->]|(v' & w & s & _ & ->)]; [exact Hr | done..]. }
  pose proof (eats_seq _ _ _ _ _ _ _ _ H2 (eats_terms t (S (S i)) Ht) Hst) as H3.
  assert (forall rest, closes rest -> stops is_numch (((u " + " ++ u "c" ++ u " * "
    ++ num_to_string (output_unit_cost t)) ++ terms_text t) ++ rest)) as Hst2 by done.
  pose proof (eats_seq _ _ _ _ _ _ _ _ H1 H3 Hst2) as H4.
  rewrite <- !app_assoc in H4. exact H4.
Qed.

Lemma label_not_quote s : forallb label_char s = true -> forallb not_quote s = true.
Proof. apply forallb_imp. intros c H. unfold label_char in H. bool_simp. unfold not_quote. by apply negb_true_iff, Z.eqb_neq. Qed.

Lemma body_stops t rest : tier_ok t -> stops is_space (buildTierBodyExpr t ++ rest).
Proof. intros Ht. by rewrite body_text. Qed.

(** The call around a body. *)
Lemma eats_call i label body f :
  forallb not_quote label = true -> (forall rest, stops is_space (body ++ rest)) ->
  eats (r_body (S i)) body f closes ->
  eats (r_tier i) (u "tier(" ++ [34] ++ label ++ [34] ++ u ", " ++ body ++ u ")")
    (fun c => f (om_set i label c)) anything.
Proof.
  intros Hl Hs Hb. pose proof (eats_group i _ _ _ _ (eats_star not_quote label Hl)) as H1.
  assert (forall rest, anything rest -> stops not_quote (([34] ++ u ",") ++ rest)) as Hq by done.
  pose proof (eats_seq _ _ _ _ _ _ _ _ (eats_units (u "tier(" ++ [34])) H1 (fun _ _ => I)) as H2.
  pose proof (eats_seq _ _ _ _ _ _ _ _ H2 (eats_units ([34] ++ u ",")) Hq) as H3.
  pose proof (eats_seq _ _ _ _ _ _ _ _ H3 eats_blank (fun _ _ => I)) as H4.
  pose proof (eats_seq _ _ _ _ _ _ _ _ H4 Hb (fun rest _ => Hs rest)) as H5.
  assert (forall rest, anything rest -> closes (u ")" ++ rest)) as Hc by (intros rest _; by exists rest).
  pose proof (eats_seq _ _ _ _ _ _ _ _ H5 (eats_units (u ")")) Hc) as H6.
  rewrite <- !app_assoc in H6. exact H6.
Qed.

Lemma eats_tier t i :
  tier_ok t -> eats (r_tier i) (tier_call (t_label t) t) (capture_tier i t) anything.
Proof.
  intros Ht. destruct (tier_label_ok t Ht) as [_ Hl]. apply label_not_quote in Hl.
  apply (eats_call i (t_label t) _ _ Hl (fun rest => body_stops t rest Ht) (eats_body t (S i) Ht)).
Qed.

(** What the parser reads from the captures of a tier. *)
Lemma capture_tier_get t i c k :
  (forall j, (i <= j)%nat -> om_get j c = None) ->
  om_get k (capture_tier i t c)
  = if (k <? i)%nat then om_get k c
    else if (k =? i)%nat then Some (t_label t)
    else if (k =? S i)%nat then Some (num_to_string (input_unit_cost t))
    else if (k =? S (S i))%nat then Some (num_to_string (output_unit_cost t))
    else match extra_numbers t !! (k - S (S (S i)))%nat with Some o => o | None => None end.
Proof.
  intros Hc. unfold capture_tier. rewrite capture_terms_get.
  2:{ intros j Hj. rewrite !om_get_set_ne by lia. apply Hc. lia. }
  destruct (Nat.ltb_spec k (S (S (S i)))).
  - destruct (Nat.ltb_spec k i); [by rewrite !om_get_set_ne by lia|].
    destruct (Nat.eqb_spec k i) as [->|]; [by rewrite !om_get_set_ne, om_get_set_eq by lia|].
    destruct (Nat.eqb_spec k (S i)) as [->|]; [by rewrite om_get_set_ne, om_get_set_eq by lia|].
    destruct (Nat.eqb_spec k (S (S i))) as [->|]; [by rewrite om_get_set_eq | lia].
  - destruct (Nat.ltb_spec k i); [lia|]. destruct (Nat.eqb_spec k i); [lia|].
    destruct (Nat.eqb_spec k (S i)); [lia|]. destruct (Nat.eqb_spec k (S (S i))); [lia|]. done.
Qed.

Lemma parse_extras_costs t m i :
  tier_ok t ->
  (forall k, (i <= k)%nat -> om_get k m = match extra_numbers t !! (k - i)%nat with Some o => o | None => None end) ->
  parse_extras i m = extra_costs t.
Proof.
  intros Ht Hm. rewrite <- (tier_extra_order t Ht). unfold parse_extras, costs_of. f_equal.
  apply list_eq. intros j. rewrite list_lookup_imap, list_lookup_fmap.
  destruct (CACHE_VAR_MAP !! j) as [[f v]|] eqn:E; [|done]. simpl. f_equal.
  rewrite Hm by lia. replace (i + j - i)%nat with j by lia. unfold extra_numbers.
  rewrite list_lookup_fmap, E. simpl. destruct (om_get f (extra_costs t)) as [n|] eqn:En; [|done]. simpl.
  pose proof (tier_extra t Ht) as He. rewrite Forall_forall in He.
  destruct (He _ (om_get_Some_in _ _ _ En)) as [Hc _]. simpl in Hc. by rewrite (cost_reads _ Hc).
Qed.

Lemma parse_capture_tier t i c conds :
  tier_ok t -> (forall j, (i <= j)%nat -> om_get j c = None) -> conds = t_conditions t ->
  normalizeVisualTier (parse_tier i conds (capture_tier i t c)) = t.
Proof.
  intros Ht Hc ->. rewrite <- (tier_mode t Ht) at 3. f_equal. unfold parse_tier, unset_mode, cap.
  rewrite !capture_tier_get by done.
  replace (i <? i)%nat with false by (symmetry; apply Nat.ltb_ge; lia).
  replace (S i <? i)%nat with false by (symmetry; apply Nat.ltb_ge; lia).
  replace (S (S i) <? i)%nat with false by (symmetry; apply Nat.ltb_ge; lia).
  rewrite !Nat.eqb_refl.
  replace (S i =? i)%nat with false by (symmetry; apply Nat.eqb_neq; lia).
  replace (S (S i) =? i)%nat with false by (symmetry; apply Nat.eqb_neq; lia).
  replace (S (S i) =? S i)%nat with false by (symmetry; apply Nat.eqb_neq; lia).
  rewrite (cost_reads _ (tier_input t Ht)), (cost_reads _ (tier_output t Ht)).
  rewrite (parse_extras_costs t); [done..|]. intros k Hk. rewrite capture_tier_get by done.
  destruct (Nat.ltb_spec k i); [lia|]. destruct (Nat.eqb_spec k i); [lia|].
  destruct (Nat.eqb_spec k (S i)); [lia|]. destruct (Nat.eqb_spec k (S (S i))); [lia|]. done.
Qed.

(** ** Matching conditions *)

Lemma eats_var v : v ∈ [u "p"; u "c"; u "len"] -> eats r_var v id anything.
Proof.
  intros Hv R rest c k x _ Hk. unfold id in Hk. repeat (apply elem_of_cons in Hv as [->|Hv]; [simpl; by rewrite Hk|]).
  by apply not_elem_of_nil in Hv.
Qed.

(** An operator followed by a pattern that refuses an equals sign. *)
Lemma eats_op op r f w ok :
  op ∈ OPS -> (forall s, refuses r (61 :: s)) -> eats r w f ok -> eats (RSeq r_op r) (op ++ w) f ok.
Proof.
  intros Hop Hr H R rest c k x Hok Hk.
  assert (rmatch r (w ++ rest) c k = Some x) as E by (by apply H).
  rewrite <- app_assoc, rmatch_seq.
  repeat (apply elem_of_cons in Hop as [->|Hop]; [simpl; rewrite ?(Hr _ R); by rewrite E|]).
  by apply not_elem_of_nil in Hop.
Qed.

Lemma eats_op_group i op r f w ok :
  op ∈ OPS -> (forall s, refuses r (61 :: s)) -> eats r w f ok ->
  eats (RSeq (RGroup i r_op) r) (op ++ w) (fun c => f (om_set i op c)) ok.
Proof.
  intros Hop Hr H R rest c k x Hok Hk.
  assert (forall op', rmatch r (w ++ rest) (om_set i op c) k = Some x) as E by (intros; by apply H).
  rewrite <- app_assoc, rmatch_seq. cbn [rmatch].
  repeat (apply elem_of_cons in Hop as [->|Hop]).
  5: by apply not_elem_of_nil in Hop.
  all: match goal with |- rmatch _ (?o ++ ?s) _ ?k' = _ =>
    assert (k' s c = Some x) as E' by (cbv beta; rewrite group_capture; by apply E);
    assert (forall s', k' (61 :: s') c = None) as En by (intros s'; apply Hr) end.
  all: simpl in *; rewrite ?En, E'; done.
Qed.

Lemma refuses_plus p s : stops p s -> refuses (rplus (RChr p)) s.
Proof. intros H R c k. unfold rplus. rewrite rmatch_seq. destruct s as [|x s]; [done|]. simpl in *. by rewrite H. Qed.

Lemma refuses_group i r s : refuses r s -> refuses (RGroup i r) s.
Proof. intros H R c k. cbn [rmatch]. apply H. Qed.

Lemma refuses_seq r1 r2 s : refuses r1 s -> refuses (RSeq r1 r2) s.
Proof. intros H R c k. rewrite rmatch_seq. apply H. Qed.

(** The number of a condition, after its operator. *)
Lemma refuses_number (r : regex) s :
  (forall s', stops is_condch s' -> refuses r s') -> refuses (RSeq ws r) (61 :: s).
Proof.
  intros H. apply refuses_ws.
  - intros x s' Hx. apply H. simpl. destruct (is_condch x) eqn:E; [|done].
    apply condch_not_space in E. congruence.
  - rewrite dropWhile_stop by done. by apply H.
Qed.

(** The parts of the text of a condition. *)
Lemma cond_ok_text c :
  cond_ok c -> exists v w, c_value c = Some v /\ w = num_to_string v /\ threshold_ok v
    /\ tier_cond_text c = c_var c ++ [32] ++ c_op c ++ [32] ++ w.
Proof.
  intros [_ _ (v & Hv & Ht)]. exists v, (num_to_string v). split_and!; [done..|].
  unfold tier_cond_text. by rewrite Hv.
Qed.

Lemma eats_cond c : cond_ok c -> eats r_cond (tier_cond_text c) id (stops is_condch).
Proof.
  intros Hc. destruct (cond_ok_text c Hc) as (v & w & _ & -> & (Hw & Hwn & _) & ->).
  pose proof (eats_seq _ _ _ _ _ _ _ _ eats_blank (eats_plus is_condch _ Hw Hwn)
    (fun rest _ => stops_class is_condch is_space _ rest condch_not_space Hw Hwn)) as H1.
  pose proof (eats_op (c_op c) _ _ _ _ (cond_op_ok c Hc)
    (fun s => refuses_number _ s (refuses_plus is_condch)) H1) as H2.
  assert (forall rest, stops is_condch rest -> stops is_space ((c_op c ++ [32] ++ num_to_string v) ++ rest)) as Hs.
  { intros rest _. pose proof (cond_op_ok c Hc) as Ho. revert Ho. generalize (c_op c) as o. intros o Ho.
    repeat (apply elem_of_cons in Ho as [->|Ho]; [done|]). by apply not_elem_of_nil in Ho. }
  pose proof (eats_seq _ _ _ _ _ _ _ _ eats_blank H2 Hs) as H3.
  pose proof (eats_seq _ _ _ _ _ _ _ _ (eats_var (c_var c) (cond_var_ok c Hc)) H3 (fun _ _ => I)) as H4.
  exact H4.
Qed.

Lemma cond_text_start c rest : cond_ok c -> stops is_space (tier_cond_text c ++ rest) /\ tier_cond_text c <> [].
Proof.
  intros Hc. destruct (cond_ok_text c Hc) as (v & w & _ & _ & _ & ->).
  pose proof (cond_var_ok c Hc) as Ho. revert Ho. generalize (c_var c) as o. intros o Ho.
  repeat (apply elem_of_cons in Ho as [->|Ho]; [done|]). by apply not_elem_of_nil in Ho.
Qed.

(** [ && cond] *)
Lemma eats_and_cond c : cond_ok c -> eats (r_and · r_cond)%re (u " && " ++ tier_cond_text c) id (stops is_condch).
Proof.
  intros Hc.
  pose proof (eats_seq _ _ _ _ _ _ _ _ eats_blank (eats_units (u "&&")) (fun _ _ => eq_refl)) as H1.
  pose proof (eats_seq _ _ _ _ _ _ _ _ H1 eats_blank (fun _ _ => I)) as H2.
  pose proof (eats_seq _ _ _ _ _ _ _ _ H2 (eats_cond c Hc)
    (fun rest _ => proj1 (cond_text_start c rest Hc))) as H3.
  exact H3.
Qed.

Definition asks (s : jsstr) : Prop := exists rest, s = u " ? " ++ rest.

Lemma and_refused rest : asks rest -> refuses (r_and · r_cond)%re rest.
Proof.
  intros [s ->]. assert (refuses (ws · (rlit "&&" · (ws · r_cond)))%re (u " ? " ++ s)) as H; [|exact H].
  apply refuses_ws.
  - intros x s' Hx. apply refuses_units. change (u "&&") with [38; 38]. cbn [startsWith].
    destruct (Z.eqb_spec 38 x); [by subst x | done].
  - by apply refuses_units.
Qed.

(** The conditions of a tier that has some, as text. *)
Lemma conds_text cs :
  Forall cond_ok cs -> buildConditionStr cs = join (u " && ") (tier_cond_text <$> cs).
Proof.
  intros H. unfold buildConditionStr. do 2 f_equal. induction H as [|c cs Hc _ IH]; simpl; [done|].
  assert (complete_cond c = true) as ->; [|by rewrite IH].
  destruct (cond_ok_text c Hc) as (v & _ & Hv & _). unfold complete_cond. rewrite Hv.
  pose proof (cond_var_ok c Hc) as H1. pose proof (cond_op_ok c Hc) as H2. revert H1 H2.
  generalize (c_var c) as a. generalize (c_op c) as b. intros b a H1 H2.
  repeat (apply elem_of_cons in H1 as [->|H1]); [..|by apply not_elem_of_nil in H1];
    (repeat (apply elem_of_cons in H2 as [->|H2]); [..|by apply not_elem_of_nil in H2]); done.
Qed.

Lemma eats_cond_group cs :
  Forall cond_ok cs -> cs <> [] ->
  eats COND_GROUP (buildConditionStr cs) (om_set 1%nat (buildConditionStr cs)) asks.
Proof.
  intros Hcs Hne. rewrite conds_text by done. destruct cs as [|c cs]; [done|].
  apply Forall_cons in Hcs as [Hc Hcs]. rewrite fmap_cons, join_concat.
  apply (eats_group 1%nat _ _ id).
  assert (eats (RStar (r_and · r_cond)%re) (concat ((fun w => u " && " ++ w) <$> (tier_cond_text <$> cs))) id asks) as Hst.
  { apply (eats_star_items _ _ (stops is_condch)).
    - apply Forall_forall. intros w (w' & -> & (c' & -> & Hc')%list_elem_of_fmap)%list_elem_of_fmap.
      rewrite Forall_forall in Hcs. split_and!; [done | apply eats_and_cond; auto | done].
    - intros rest Hr. split; [by apply and_refused|]. by destruct Hr as [s ->]. }
  refine (eats_seq _ _ _ _ id id _ _ (eats_cond c Hc) Hst _).
  intros rest [s ->]. destruct cs; [done|]. done.
Qed.

(** ** Splitting conditions *)

Definition plain (c : Z) : bool := negb (is_space c) && negb (c =? 38).

Lemma and_refuses_plain x s : plain x = true -> refuses r_and (x :: s).
Proof.
  intros Hx. unfold plain in Hx. bool_simp.
  assert (refuses (ws · (rlit "&&" · ws))%re (x :: s)) as Hr; [|exact Hr]. apply refuses_ws.
  - intros y s' Hy. apply refuses_units. change (u "&&") with [38; 38]. cbn [startsWith].
    destruct (Z.eqb_spec 38 y); [by subst y | done].
  - rewrite dropWhile_stop by done. apply refuses_units. change (u "&&") with [38; 38]. cbn [startsWith].
    destruct (Z.eqb_spec 38 x); [congruence | done].
Qed.

Lemma and_refuses_blank y s : plain y = true -> refuses r_and (32 :: y :: s).
Proof.
  intros Hy. unfold plain in Hy. bool_simp.
  assert (refuses (ws · (rlit "&&" · ws))%re (32 :: y :: s)) as Hr; [|exact Hr]. apply refuses_ws.
  - intros z s' Hz. apply refuses_units. change (u "&&") with [38; 38]. cbn [startsWith].
    destruct (Z.eqb_spec 38 z); [by subst z | done].
  - change (dropWhile is_space (32 :: y :: s)) with (dropWhile is_space (y :: s)).
    rewrite dropWhile_stop by done. apply refuses_units. change (u "&&") with [38; 38]. cbn [startsWith].
    destruct (Z.eqb_spec 38 y); [congruence | done].
Qed.

Lemma split_step f x s cur :
  refuses r_and (x :: s) -> re_split (S f) r_and (x :: s) cur = re_split f r_and s (cur ++ [x]).
Proof. intros H. cbn [re_split]. unfold re_at. by rewrite H. Qed.

Lemma split_plain a f rest cur :
  forallb plain a = true -> re_split (length a + f) r_and (a ++ rest) cur = re_split f r_and rest (cur ++ a).
Proof.
  revert cur. induction a as [|x a IH]; intros cur H; [by rewrite app_nil_r|].
  cbn [forallb] in H. bool_simp. cbn [length Nat.add app].
  rewrite split_step by (by apply and_refuses_plain). rewrite IH by done. by rewrite <- app_assoc.
Qed.

Lemma split_sep f rest cur :
  stops is_space rest -> re_split (S f) r_and (u " && " ++ rest) cur = cur :: re_split f r_and rest [].
Proof.
  intros Hr. change (u " && " ++ rest) with (32 :: 38 :: 38 :: 32 :: rest). cbn [re_split].
  assert (re_at r_and (32 :: 38 :: 38 :: 32 :: rest) = Some ([], rest)) as ->; [|done].
  pose proof (eats_seq _ _ _ _ _ _ _ _ eats_blank (eats_units (u "&&")) (fun _ _ => eq_refl)) as H1.
  pose proof (eats_seq _ _ _ _ _ _ _ _ H1 eats_blank (fun _ _ => I)) as H2.
  by apply (H2 _ rest []).
Qed.

Lemma cond_parts_plain c v :
  cond_ok c -> threshold_ok v ->
  forallb plain (c_var c) = true /\ forallb plain (c_op c) = true /\ c_op c <> []
  /\ forallb plain (num_to_string v) = true.
Proof.
  intros Hc (Hw & _ & _). split_and!.
  - pose proof (cond_var_ok c Hc) as H. revert H. generalize (c_var c) as a. intros a H.
    repeat (apply elem_of_cons in H as [->|H]; [done|]). by apply not_elem_of_nil in H.
  - pose proof (cond_op_ok c Hc) as H. revert H. generalize (c_op c) as a. intros a H.
    repeat (apply elem_of_cons in H as [->|H]; [done|]). by apply not_elem_of_nil in H.
  - pose proof (cond_op_ok c Hc) as H. revert H. generalize (c_op c) as a. intros a H.
    repeat (apply elem_of_cons in H as [->|H]; [done|]). by apply not_elem_of_nil in H.
  - revert Hw. apply forallb_imp. intros x Hx. unfold plain. rewrite (condch_not_space x Hx). simpl.
    destruct (Z.eqb_spec x 38); [by subst x | done].
Qed.

Lemma split_blank f a s cur :
  forallb plain a = true -> a <> [] ->
  re_split (S f) r_and (32 :: a ++ s) cur = re_split f r_and (a ++ s) (cur ++ [32]).
Proof.
  intros Ha Hne. destruct a as [|y a]; [done|]. cbn [forallb] in Ha. bool_simp.
  apply split_step. by apply and_refuses_blank.
Qed.

Lemma split_cond c f rest :
  cond_ok c -> re_split (length (tier_cond_text c) + f) r_and (tier_cond_text c ++ rest) [] = re_split f r_and rest (tier_cond_text c).
Proof.
  intros Hc. destruct (cond_ok_text c Hc) as (v & w & _ & -> & Ht & ->).
  destruct (cond_parts_plain c v Hc Ht) as (H1 & H2 & H2n & H3). destruct Ht as (_ & H3n & _).
  rewrite !length_app. cbn [length]. rewrite <- !app_assoc, <- !Nat.add_assoc.
  rewrite split_plain by done. cbn [Nat.add app]. rewrite split_blank by done.
  rewrite split_plain by done. cbn [app]. rewrite split_blank by done.
  rewrite split_plain by done. by rewrite <- !app_assoc.
Qed.

Lemma split_conds cs c f :
  Forall cond_ok (c :: cs) -> (length (join (u " && ") (tier_cond_text <$> (c :: cs))) <= f)%nat ->
  re_split f r_and (join (u " && ") (tier_cond_text <$> (c :: cs))) [] = tier_cond_text <$> (c :: cs).
Proof.
  revert c f. induction cs as [|c' cs IH]; intros c f Hcs Hf; apply Forall_cons in Hcs as [Hc Hcs].
  - change (join (u " && ") (tier_cond_text <$> [c])) with (tier_cond_text c) in *.
    replace f with (length (tier_cond_text c) + (f - length (tier_cond_text c)))%nat by lia.
    rewrite <- (app_nil_r (tier_cond_text c)) at 3. rewrite split_cond by done.
    destruct (f - length (tier_cond_text c))%nat; csimpl; by rewrite ?app_nil_r.
  - rewrite !fmap_cons in *. change (join (u " && ") (tier_cond_text c :: tier_cond_text c' :: (tier_cond_text <$> cs)))
      with (tier_cond_text c ++ u " && " ++ join (u " && ") (tier_cond_text c' :: (tier_cond_text <$> cs))) in *.
    rewrite !length_app in Hf. change (length (u " && ")) with 4%nat in Hf.
    replace f with (length (tier_cond_text c) + S (f - length (tier_cond_text c) - 1))%nat by lia.
    rewrite split_cond by done. rewrite split_sep.
    + f_equal. apply IH; [done|]. rewrite fmap_cons. lia.
    + rewrite join_concat. apply Forall_cons in Hcs as [Hc' _]. apply (proj1 (cond_text_start c' _ Hc')).
Qed.

Lemma trimmed_class (p : Z -> bool) s :
  (forall c, p c = true -> is_space c = false) -> forallb p s = true -> trimmed s = true.
Proof.
  intros Hp Hs. rewrite forallb_forall in Hs. unfold trimmed. apply andb_true_iff. split.
  - destruct s as [|x s]; [done|]. rewrite Hp; [done|]. apply Hs. by left.
  - destruct (reverse s) as [|x r] eqn:E; [done|]. rewrite Hp; [done|]. apply Hs.
    apply list_elem_of_In. rewrite <- (reverse_involutive s), E. apply elem_of_reverse. apply list_elem_of_here.
Qed.

Lemma cond_text_trimmed c : cond_ok c -> trimmed (tier_cond_text c) = true.
Proof.
  intros Hc. destruct (cond_ok_text c Hc) as (v & w & _ & -> & (Hw & Hwn & _) & ->).
  pose proof (cond_var_ok c Hc) as Hv.
  assert (trimmed (c_var c) = true /\ c_var c <> []) as [H1 H2].
  { revert Hv. generalize (c_var c) as a. intros a H.
    repeat (apply elem_of_cons in H as [->|H]; [done|]). by apply not_elem_of_nil in H. }
  apply (trimmed_ends _ (c_var c) ([32] ++ c_op c ++ [32]) (num_to_string v)); [by rewrite <- !app_assoc | done..|].
  by apply (trimmed_class is_condch); [apply condch_not_space|].
Qed.

Lemma parse_cond_text c : cond_ok c -> parse_cond (tier_cond_text c) = [c].
Proof.
  intros Hc. unfold parse_cond. rewrite trim_trimmed_id by (by apply cond_text_trimmed).
  destruct (cond_ok_text c Hc) as (v & w & Hv & -> & (Hw & Hwn & Hr) & ->).
  pose proof (eats_seq _ _ _ _ _ _ _ _ eats_blank
    (eats_group 3%nat _ _ _ _ (eats_plus is_condch _ Hw Hwn))
    (fun rest _ => stops_class is_condch is_space _ rest condch_not_space Hw Hwn)) as H1.
  pose proof (eats_op_group 2%nat (c_op c) _ _ _ _ (cond_op_ok c Hc)
    (fun s => refuses_number _ s (fun s' H => refuses_group 3%nat _ s' (refuses_plus is_condch s' H))) H1) as H2.
  assert (forall rest, stops is_condch rest -> stops is_space ((c_op c ++ [32] ++ num_to_string v) ++ rest)) as Hs.
  { intros rest _. pose proof (cond_op_ok c Hc) as Ho. revert Ho. generalize (c_op c) as o. intros o Ho.
    repeat (apply elem_of_cons in Ho as [->|Ho]; [done|]). by apply not_elem_of_nil in Ho. }
  pose proof (eats_seq _ _ _ _ _ _ _ _ eats_blank H2 Hs) as H3.
  pose proof (eats_seq _ _ _ _ _ _ _ _ (eats_group 1%nat _ _ _ _ (eats_var (c_var c) (cond_var_ok c Hc))) H3
    (fun _ _ => I)) as H4.
  pose proof (eats_rexec _ _ _ _ H4 I) as H5.
  change (rexec COND_RE (c_var c ++ [32] ++ c_op c ++ [32] ++ num_to_string v) = Some
    (om_set 3%nat (num_to_string v) (om_set 2%nat (c_op c) (om_set 1%nat (c_var c) [])))) in H5.
  rewrite H5. unfold cap.
  rewrite om_get_set_eq, !(om_get_set_ne 3%nat), om_get_set_eq, (om_get_set_ne 2%nat), om_get_set_eq by done.
  rewrite Hr. destruct c as [a o x]. simpl in *. by subst x.
Qed.

Lemma parse_conds_text cs : Forall cond_ok cs -> parse_conds (buildConditionStr cs) = cs.
Proof.
  intros Hcs. rewrite conds_text by done. unfold parse_conds. destruct cs as [|c cs]; [done|].
  rewrite bool_decide_false.
  2:{ apply Forall_cons in Hcs as [Hc _]. destruct (cond_text_start c [] Hc) as [_ Hn].
      rewrite fmap_cons, join_concat. by destruct (tier_cond_text c). }
  rewrite split_conds by done. clear -Hcs. induction Hcs as [|c' cs' Hc _ IH]; [done|].
  rewrite !fmap_cons. cbn [concat]. rewrite IH, parse_cond_text by done. done.
Qed.

(** ** Matching the parts of an expression *)

Definition part_of (t : tier) : jsstr :=
  match t_conditions t with
  | [] => tier_call (t_label t) t
  | cs => buildConditionStr cs ++ u " ? " ++ tier_call (t_label t) t
  end.

Definition capture_part (t : tier) : list (nat * jsstr) :=
  capture_tier 2 t (match t_conditions t with [] => [] | cs => om_set 1%nat (buildConditionStr cs) [] end).

Lemma eats_question : eats (ws · rlit "?" · ws)%re (u " ? ") id (stops is_space).
Proof.
  pose proof (eats_seq _ _ _ _ _ _ _ _ eats_blank (eats_units (u "?")) (fun _ _ => eq_refl)) as H1.
  exact (eats_seq _ _ _ _ _ _ _ _ H1 eats_blank (fun _ _ => I)).
Qed.

Lemma find_part t rest :
  tier_ok t -> re_at TIER_RE (part_of t ++ rest) = Some (capture_part t, rest).
Proof.
  intros Ht. unfold part_of, capture_part. pose proof (tier_conds t Ht) as Hcs.
  destruct (t_conditions t) as [|c cs] eqn:E.
  - unfold re_at, TIER_RE. rewrite rmatch_seq. unfold ropt. rewrite rmatch_alt.
    assert (refuses (COND_GROUP · ws · rlit "?" · ws)%re (tier_call (t_label t) t ++ rest)) as Hr
      by (intros R c k; reflexivity).
    rewrite Hr. apply (eats_tier t 2 Ht); done.
  - rewrite <- E in *. assert (t_conditions t <> []) as Hne by congruence.
    assert (forall r, stops is_space r -> asks (u " ? " ++ r)) as Ha by (intros r _; by exists r).
    pose proof (eats_seq _ _ _ _ _ _ _ _ (eats_cond_group _ Hcs Hne) eats_question Ha) as H1.
    pose proof (eats_seq _ _ _ _ _ _ _ _ (eats_opt _ _ _ _ H1) (eats_tier t 2 Ht) (fun _ _ => eq_refl)) as H2.
    rewrite <- app_assoc in H2. rewrite E in *. apply (H2 _ rest []); done.
Qed.

Lemma re_find_here r s x : re_at r s = Some x -> re_find r s = Some x.
Proof. intros H. destruct s; cbn [re_find]; by rewrite H. Qed.

Lemma re_find_skip r x s : refuses r (x :: s) -> re_find r (x :: s) = re_find r s.
Proof. intros H. cbn [re_find]. unfold re_at. by rewrite H. Qed.

Lemma find_separator s : re_find TIER_RE (u " : " ++ s) = re_find TIER_RE s.
Proof.
  change (u " : " ++ s) with (32 :: 58 :: 32 :: s).
  by rewrite !re_find_skip by (intros R c k; reflexivity).
Qed.

Lemma find_all_parts ts fuel :
  Forall tier_ok ts -> ts <> [] -> (length ts < fuel)%nat ->
  re_find_all fuel TIER_RE (join (u " : ") (part_of <$> ts)) = capture_part <$> ts.
Proof.
  revert fuel. induction ts as [|t ts IH]; intros fuel Hts Hne Hf; [done|].
  apply Forall_cons in Hts as [Ht Hts]. destruct fuel as [|fuel]; [lia|]. simpl in Hf.
  destruct ts as [|t' ts].
  - change (join (u " : ") (part_of <$> [t])) with (part_of t). rewrite <- (app_nil_r (part_of t)).
    cbn [re_find_all]. rewrite (re_find_here _ _ _ (find_part t [] Ht)).
    destruct fuel; reflexivity.
  - rewrite !fmap_cons. set (more := join (u " : ") (part_of t' :: (part_of <$> ts))).
    change (join (u " : ") (part_of t :: part_of t' :: (part_of <$> ts))) with (part_of t ++ u " : " ++ more).
    cbn [re_find_all]. rewrite (re_find_here _ _ _ (find_part t _ Ht)). f_equal.
    specialize (IH fuel Hts ltac:(done) ltac:(simpl in *; lia)).
    destruct fuel as [|fuel]; [simpl in *; lia|]. cbn [re_find_all] in *. rewrite find_separator. exact IH.
Qed.

(** ** What is read is what was written *)

Lemma normalize_ok t : tier_ok t -> normalizeVisualTier t = t.
Proof.
  intros Ht. pose proof (tier_mode t Ht) as H. destruct t as [cs i o l m e]. unfold normalizeVisualTier in *.
  simpl in *. injection H as H. f_equal. unfold getTierCacheMode in *. simpl in *.
  destruct (match om_get FIELD_1H e with Some v => _ | None => _ end); subst m; reflexivity.
Qed.

Lemma normalize_config ts : Forall tier_ok ts -> ts <> [] -> normalizeVisualConfig (Some ts) = ts.
Proof.
  intros H Hne. unfold normalizeVisualConfig. destruct ts as [|t ts]; [done|]. clear Hne.
  induction H as [|x l Hx _ IH]; [done|]. rewrite fmap_cons, IH. by rewrite normalize_ok.
Qed.

Lemma parse_part t :
  tier_ok t ->
  normalizeVisualTier (parse_tier 2 (parse_conds (cap 1%nat (capture_part t))) (capture_part t)) = t.
Proof.
  intros Ht. set (c0 := match t_conditions t with [] => [] | cs => om_set 1%nat (buildConditionStr cs) [] end).
  assert (forall j, (2 <= j)%nat -> om_get j c0 = None) as Hc0.
  { intros j Hj. unfold c0. destruct (t_conditions t); [done|]. by rewrite om_get_set_ne by lia. }
  apply parse_capture_tier; [done..|].
  unfold cap, capture_part. fold c0. rewrite capture_tier_get by done. simpl. unfold c0.
  pose proof (tier_conds t Ht) as Hcs. destruct (t_conditions t) as [|c cs]; [done|].
  rewrite om_get_set_eq. by apply parse_conds_text.
Qed.

Lemma parse_parts ts :
  Forall tier_ok ts ->
  (fun m => normalizeVisualTier (parse_tier 2 (parse_conds (cap 1%nat m)) m)) <$> (capture_part <$> ts) = ts.
Proof.
  induction 1 as [|t ts Ht _ IH]; [done|]. rewrite !fmap_cons, IH. by rewrite parse_part.
Qed.

Lemma conds_nonempty cs : Forall cond_ok cs -> cs <> [] -> nonempty (buildConditionStr cs) = true.
Proof.
  intros Hcs Hne. rewrite conds_text by done. destruct cs as [|c cs]; [done|].
  apply Forall_cons in Hcs as [Hc _]. destruct (cond_text_start c [] Hc) as [_ Hn].
  rewrite fmap_cons, join_concat. unfold nonempty. rewrite bool_decide_false; [done|]. by destruct (tier_cond_text c).
Qed.

Lemma tiers_ok_forall ts : tiers_ok ts -> Forall tier_ok ts.
Proof.
  induction ts as [|t [|t' ts] IH]; [done| |].
  - intros [Ht _]. by constructor.
  - intros (Ht & _ & Hts). constructor; [done | by apply IH].
Qed.

Lemma generated_parts ts n i :
  tiers_ok ts -> n = i + Z.of_nat (length ts) -> mapi_from i (tier_part n) ts = part_of <$> ts.
Proof.
  revert i. induction ts as [|t ts IH]; intros i Hts Hn; [done|].
  assert (tier_ok t) as Ht by (destruct ts; apply Hts).
  rewrite fmap_cons. cbn [mapi_from]. f_equal.
  - unfold tier_part, part_of. destruct (tier_label_ok t Ht) as [Hl _].
    assert (nonempty (t_label t) = true) as -> by (unfold nonempty; by rewrite bool_decide_false).
    destruct ts as [|t' ts].
    + destruct Hts as [_ ->]. replace (i <? n - 1) with false by (symmetry; apply Z.ltb_ge; simpl in Hn; lia).
      done.
    + destruct Hts as (_ & Hne & _). replace (i <? n - 1) with true by (symmetry; apply Z.ltb_lt; simpl in Hn; lia).
      rewrite conds_nonempty by (done || apply Ht). simpl. by destruct (t_conditions t).
  - destruct ts as [|t' ts]; [done|]. apply IH; [apply Hts|]. simpl in *. lia.
Qed.

(** A text that starts with a condition has no version and is no single call. *)
Lemma starts_with_cond cs rest :
  Forall cond_ok cs -> cs <> [] ->
  rexec VERSION_RE (buildConditionStr cs ++ rest) = None /\ rexec SINGLE_RE (buildConditionStr cs ++ rest) = None
  /\ buildConditionStr cs ++ rest <> [].
Proof.
  intros Hcs Hne. rewrite conds_text by done. destruct cs as [|c cs]; [done|].
  apply Forall_cons in Hcs as [Hc _]. rewrite fmap_cons, join_concat.
  destruct (cond_ok_text c Hc) as (v & w & _ & _ & _ & ->).
  pose proof (cond_var_ok c Hc) as H. revert H. generalize (c_var c) as a. intros a H. rewrite <- !app_assoc.
  repeat (apply elem_of_cons in H as [->|H]; [split_and!; reflexivity || done|]). by apply not_elem_of_nil in H.
Qed.

Lemma length_parts ts :
  Forall tier_ok ts -> (length ts <= length (join (u " : ") (part_of <$> ts)))%nat.
Proof.
  induction 1 as [|t [|t' ts] Ht Hts IH]; [done| |].
  - change (join (u " : ") (part_of <$> [t])) with (part_of t).
    assert (part_of t <> []) as Hp by (unfold part_of; destruct (t_conditions t); [done | by destruct (buildConditionStr _)]).
    destruct (part_of t); [done | simpl; lia].
  - rewrite !fmap_cons in *.
    change (join (u " : ") (part_of t :: part_of t' :: (part_of <$> ts)))
      with (part_of t ++ u " : " ++ join (u " : ") (part_of t' :: (part_of <$> ts))).
    rewrite !length_app. change (length (u " : ")) with 3%nat. simpl in *. lia.
Qed.

(** The search for tiers, when it finds those of a configuration. *)
Lemma parse_search ts e :
  Forall tier_ok ts -> ts <> [] -> e <> [] -> rexec VERSION_RE e = None -> rexec SINGLE_RE e = None ->
  re_find_all (S (length e)) TIER_RE e = capture_part <$> ts ->
  generateExprFromVisualConfig (Some ts) = e -> tryParseVisualConfig e = Some ts.
Proof.
  intros Hts Hne He Hv Hs Hf Hg. unfold tryParseVisualConfig.
  rewrite bool_decide_false by done. rewrite Hv, Hs, Hf, parse_parts by done.
  cbv zeta. rewrite normalize_config by done. subst e. destruct ts; [done|]. by rewrite bool_decide_true.
Qed.

Lemma tier_label_nonempty t : tier_ok t -> nonempty (t_label t) = true.
Proof. intros Ht. unfold nonempty. rewrite bool_decide_false; [done|]. apply (tier_label_ok t Ht). Qed.

Lemma parse_generated ts :
  config_ok ts -> tryParseVisualConfig (generateExprFromVisualConfig (Some ts)) = Some ts.
Proof.
  intros Hok. destruct ts as [|t [|t' ts]]; [done| |].
  - simpl in Hok. pose proof (tier_conds t Hok) as Hcs. cbn [generateExprFromVisualConfig].
    rewrite tier_label_nonempty by done. destruct (t_conditions t) as [|c cs] eqn:E.
    + cbn [buildConditionStr List.filter fmap list_fmap join nonempty]. cbv zeta.
      change (nonempty []) with false. cbv iota. unfold tryParseVisualConfig.
      rewrite bool_decide_false by done. change (rexec VERSION_RE (tier_call (t_label t) t)) with (@None (list (nat * jsstr))).
      cbv zeta iota. unfold SINGLE_RE. rewrite (eats_rexec _ _ _ _ (eats_tier t 1 Hok) I).
      rewrite parse_capture_tier by done. by rewrite normalize_config by (done || by constructor).
    + rewrite <- E in *. assert (t_conditions t <> []) as Hne by congruence.
      rewrite conds_nonempty by done.
      destruct (starts_with_cond (t_conditions t) (u " ? " ++ tier_call (t_label t) t ++ u " : " ++ ZERO_EXPR) Hcs Hne)
        as (Hv & Hs & Hn).
      apply parse_search; [by constructor | done..| |].
      * assert (buildConditionStr (t_conditions t) ++ u " ? " ++ tier_call (t_label t) t ++ u " : " ++ ZERO_EXPR
          = part_of t ++ u " : " ++ ZERO_EXPR) as ->.
        { unfold part_of. rewrite E. by rewrite <- !app_assoc. }
        generalize (length (part_of t ++ u " : " ++ ZERO_EXPR)) as fuel. intros fuel.
        cbn [re_find_all]. rewrite (re_find_here _ _ _ (find_part t _ Hok)).
        assert (re_find_all fuel TIER_RE (u " : " ++ ZERO_EXPR) = []) as ->; [by destruct fuel | done].
      * cbn [generateExprFromVisualConfig]. rewrite tier_label_nonempty by done. by rewrite conds_nonempty.
  - change (tiers_ok (t :: t' :: ts)) in Hok. pose proof (tiers_ok_forall _ Hok) as Hall.
    assert (generateExprFromVisualConfig (Some (t :: t' :: ts)) = join (u " : ") (part_of <$> t :: t' :: ts)) as Hg.
    { cbn [generateExprFromVisualConfig]. unfold mapi. f_equal. by apply generated_parts. }
    rewrite Hg. destruct Hok as (Ht & Hne & _).
    assert (exists rest, join (u " : ") (part_of <$> t :: t' :: ts) = buildConditionStr (t_conditions t) ++ rest) as [rest Er].
    { rewrite fmap_cons, join_concat. unfold part_of at 1. destruct (t_conditions t); [done|].
      eexists. rewrite <- !app_assoc. reflexivity. }
    destruct (starts_with_cond (t_conditions t) rest (tier_conds t Ht) Hne) as (Hv & Hs & Hn).
    rewrite <- Er in Hv, Hs, Hn. apply parse_search; [done..| |done].
    apply find_all_parts; [done..|]. pose proof (length_parts _ Hall). lia.
Qed.

(** C8. A visual configuration survives the billing expression: for every nonempty list
    of tiers that satisfies [config_ok], parsing the generated expression gives the
    configuration back.  The labels are nonempty and without quotes or parentheses, prices
    and thresholds print as plain numbers that read back, the extra costs are not zero and in
    the order of the variables, the cache mode is the one the prices imply, conditions are
    complete, and of several tiers every one but the last has a condition and the last has
    none (a single tier may have conditions or not). *)
Theorem visual_roundtrip ts :
  config_ok ts -> tryParseVisualConfig (generateExprFromVisualConfig (Some ts)) = Some ts.
Proof. apply parse_generated. Qed.

(** ** Generated expressions as base expressions *)

(** No parenthesis and no asterisk. *)
Definition flat_char (c : Z) : bool := negb (c =? 40) && negb (c =? 41) && negb (c =? 42).

Lemma flat_free w : forallb flat_char w = true -> free 42 w = true.
Proof.
  intros H. apply no_parens_free.
  - unfold no_parens. revert H. apply forallb_imp. intros c Hc. unfold flat_char in Hc. bool_simp.
    destruct (Z.eqb_spec c 40), (Z.eqb_spec c 41); done.
  - revert H. apply forallb_imp. intros c Hc. unfold flat_char in Hc. bool_simp. by apply negb_true_iff, Z.eqb_neq.
Qed.

Lemma numch_flat w : forallb is_numch w = true -> forallb flat_char w = true.
Proof.
  apply forallb_imp. intros c H. unfold is_numch, is_e, is_sign in H. rewrite !orb_true_iff, !Z.eqb_eq in H.
  destruct H as [[[H|H]|[H|H]]|[H|H]]; [|by subst c..]. unfold is_digit in H. bool_simp.
  unfold flat_char. destruct (Z.eqb_spec c 40), (Z.eqb_spec c 41), (Z.eqb_spec c 42); done || lia.
Qed.

Lemma condch_numch c : is_condch c = true -> is_numch c = true.
Proof. unfold is_condch, is_numch, is_sign. rewrite !orb_true_iff. tauto. Qed.

(** A class of units holds of a text over an alphabet it holds of. *)
Lemma class_of_alphabet (p : Z -> bool) alphabet w :
  forallb p alphabet = true -> forallb (fun c => existsb (Z.eqb c) alphabet) w = true -> forallb p w = true.
Proof.
  intros Ha. apply forallb_imp. intros c (x & Hx & ->%Z.eqb_eq)%existsb_exists.
  rewrite forallb_forall in Ha. by apply Ha.
Qed.

(** A class of units that holds of the numbers and of the other units of a
    condition holds of a condition. *)
Lemma cond_text_class (p : Z -> bool) c :
  (forall x, is_numch x = true -> p x = true) -> forallb p (u "pclen <>=") = true ->
  cond_ok c -> forallb p (tier_cond_text c) = true.
Proof.
  intros Hp Ha Hc. destruct (cond_ok_text c Hc) as (v & w & _ & -> & (Hw & _ & _) & ->).
  rewrite !forallb_app.
  assert (forallb p (num_to_string v) = true) as ->.
  { revert Hw. apply forallb_imp. intros x Hx. by apply Hp, condch_numch. }
  pose proof (cond_var_ok c Hc) as H1. pose proof (cond_op_ok c Hc) as H2. revert H1 H2.
  generalize (c_var c) as a. generalize (c_op c) as b. intros b a H1 H2.
  rewrite (class_of_alphabet p _ [32] Ha eq_refl).
  rewrite (class_of_alphabet p _ a Ha), (class_of_alphabet p _ b Ha); [done|..].
  - by repeat (apply elem_of_cons in H2 as [->|H2]); [..|apply not_elem_of_nil in H2].
  - by repeat (apply elem_of_cons in H1 as [->|H1]); [..|apply not_elem_of_nil in H1].
Qed.

Lemma cond_text_flat c : cond_ok c -> forallb flat_char (tier_cond_text c) = true.
Proof.
  apply cond_text_class; [|done]. intros x Hx. apply (forallb_forall flat_char [x]); [|by left].
  apply numch_flat. simpl. by rewrite Hx.
Qed.

Lemma forallb_join (p : Z -> bool) sep ws :
  forallb p sep = true -> Forall (fun w => forallb p w = true) ws -> forallb p (join sep ws) = true.
Proof.
  intros Hs. induction 1 as [|w ws Hw Hall IH]; [done|]. destruct ws as [|w' ws]; [done|].
  change (join sep (w :: w' :: ws)) with (w ++ sep ++ join sep (w' :: ws)).
  by rewrite !forallb_app, Hw, Hs, IH.
Qed.

Lemma conds_flat cs : Forall cond_ok cs -> forallb flat_char (buildConditionStr cs) = true.
Proof.
  intros Hcs. rewrite conds_text by done. apply forallb_join; [done|]. apply Forall_fmap.
  eapply Forall_impl; [exact Hcs|]. apply cond_text_flat.
Qed.

(** The same of the terms of a tier, and of its body. *)
Lemma terms_class (p : Z -> bool) t :
  (forall x, is_numch x = true -> p x = true) -> forallb p (u " +*" ++ concat (CACHE_VAR_MAP.*2)) = true ->
  tier_ok t -> forallb p (terms_text t) = true.
Proof.
  intros Hp Ha Ht. rewrite forallb_app in Ha. apply andb_true_iff in Ha as [Ha Hv]. unfold terms_text.
  revert Hv. induction CACHE_VAR_MAP as [|[f v] l IH]; [done|]. rewrite !fmap_cons. cbn [concat fst snd].
  rewrite !forallb_app. intros [Hv Hl]%andb_true_iff. rewrite IH, andb_true_r by done.
  unfold term_text. cbn [fst snd]. destruct (om_get f (extra_costs t)) as [n|] eqn:E; [|done].
  change (num_to_string <$> Some n) with (Some (num_to_string n)). cbv iota. rewrite !forallb_app, Hv.
  rewrite (class_of_alphabet p _ (u " + ") Ha), (class_of_alphabet p _ (u " * ") Ha) by done.
  pose proof (tier_extra t Ht) as He. rewrite Forall_forall in He.
  destruct (He _ (om_get_Some_in _ _ _ E)) as [[Hn _ _ _] _]. simpl in Hn.
  by rewrite (forallb_imp is_numch p).
Qed.

Lemma body_class (p : Z -> bool) t :
  (forall x, is_numch x = true -> p x = true) ->
  forallb p (u " +*" ++ concat (CACHE_VAR_MAP.*2)) = true -> forallb p (u "pc") = true ->
  tier_ok t -> forallb p (buildTierBodyExpr t) = true.
Proof.
  intros Hp Ha Hpc Ht. rewrite body_text by done. rewrite !forallb_app, terms_class by done.
  rewrite (forallb_imp is_numch p (num_to_string (input_unit_cost t))) by (done || apply Ht).
  rewrite (forallb_imp is_numch p (num_to_string (output_unit_cost t))) by (done || apply Ht).
  assert (forallb p (u " +*pc") = true) as Hb.
  { rewrite forallb_app in Ha. apply andb_true_iff in Ha as [Ha _].
    change (u " +*pc") with (u " +*" ++ u "pc"). by rewrite forallb_app, Ha. }
  by rewrite (class_of_alphabet p _ (u "p * ") Hb), (class_of_alphabet p _ (u " + c * ") Hb).
Qed.

Lemma numch_paren x : is_numch x = true -> negb (x =? 40) && negb (x =? 41) = true.
Proof.
  intros H. assert (forallb flat_char [x] = true) as Hf by (apply numch_flat; simpl; by rewrite H).
  simpl in Hf. unfold flat_char in Hf. bool_simp. destruct (Z.eqb_spec x 40), (Z.eqb_spec x 41); done.
Qed.

Lemma call_delimited t :
  tier_ok t -> free 42 (tier_call (t_label t) t) = true /\ trimmed (tier_call (t_label t) t) = true
    /\ tier_call (t_label t) t <> [].
Proof.
  intros Ht.
  assert (tier_call (t_label t) t
    = u "tier" ++ 40 :: ([34] ++ t_label t ++ [34] ++ u ", " ++ buildTierBodyExpr t) ++ [41]) as E.
  { unfold tier_call. change (u "tier(") with (u "tier" ++ [40]). rewrite <- !app_assoc. reflexivity. }
  split_and!; [|by apply (trimmed_ends _ (u "tier") (40 :: ([34] ++ t_label t ++ [34] ++ u ", " ++ buildTierBodyExpr t)) [41])|done].
  rewrite E. apply free_app; [done|]. apply free_parens; [done..|]. apply no_parens_balanced.
  unfold no_parens. rewrite !forallb_app, body_class by (done || apply numch_paren).
  destruct (tier_label_ok t Ht) as [_ Hl].
  apply (forallb_imp _ (fun c => negb (c =? 40) && negb (c =? 41))) in Hl; [by rewrite Hl|].
  intros c Hc. unfold label_char in Hc. bool_simp. destruct (Z.eqb_spec c 40), (Z.eqb_spec c 41); done.
Qed.

Lemma conds_delimited cs :
  Forall cond_ok cs -> cs <> [] ->
  free 42 (buildConditionStr cs) = true /\ trimmed (buildConditionStr cs) = true /\ buildConditionStr cs <> [].
Proof.
  intros Hcs Hne. split; [by apply flat_free, conds_flat|]. rewrite conds_text by done.
  destruct (trimmed_join (u " && ") (tier_cond_text <$> cs)) as [H1 H2].
  { apply Forall_fmap. eapply Forall_impl; [exact Hcs|]. intros c Hc. simpl.
    split; [by apply cond_text_trimmed|]. apply (cond_text_start c [] Hc). }
  split; [done|]. apply H2. by destruct cs.
Qed.

Lemma part_delimited t :
  tier_ok t -> free 42 (part_of t) = true /\ trimmed (part_of t) = true /\ part_of t <> [].
Proof.
  intros Ht. destruct (call_delimited t Ht) as (H1 & H2 & H3). unfold part_of.
  pose proof (tier_conds t Ht) as Hcs. destruct (t_conditions t) as [|c cs] eqn:E; [done|].
  rewrite <- E in *. destruct (conds_delimited (t_conditions t)) as (G1 & G2 & G3); [done | congruence|].
  split_and!.
  - apply free_app; [done|]. by apply free_app.
  - by apply trimmed_wrap.
  - by destruct (buildConditionStr (t_conditions t)).
Qed.

Lemma free_join x sep ws :
  free x sep = true -> Forall (fun w => free x w = true) ws -> free x (join sep ws) = true.
Proof.
  intros Hs. induction 1 as [|w ws Hw Hall IH]; [done|]. destruct ws as [|w' ws]; [done|].
  change (join sep (w :: w' :: ws)) with (w ++ sep ++ join sep (w' :: ws)).
  apply free_app; [done|]. by apply free_app.
Qed.

(** Expressions that end with a call. *)
Lemma ends_with_call t : exists w, part_of t = w ++ [41].
Proof.
  unfold part_of, tier_call. destruct (t_conditions t) as [|c cs].
  - eexists (u "tier(" ++ [34] ++ t_label t ++ [34] ++ u ", " ++ buildTierBodyExpr t). by rewrite <- !app_assoc.
  - eexists (buildConditionStr (c :: cs) ++ u " ? " ++ u "tier(" ++ [34] ++ t_label t ++ [34] ++ u ", " ++ buildTierBodyExpr t).
    by rewrite <- !app_assoc.
Qed.

Lemma ends_join ts : ts <> [] -> exists w, join (u " : ") (part_of <$> ts) = w ++ [41].
Proof.
  induction ts as [|t [|t' ts] IH]; intros Hne; [done|apply ends_with_call|].
  destruct (IH ltac:(done)) as [w Hw]. rewrite !fmap_cons in *.
  exists (part_of t ++ u " : " ++ w). 
  change (join (u " : ") (part_of t :: part_of t' :: (part_of <$> ts)))
    with (part_of t ++ u " : " ++ join (u " : ") (part_of t' :: (part_of <$> ts))).
  rewrite Hw. by rewrite <- !app_assoc.
Qed.

Lemma ends_paren_ok w : endsWith (u " : 1") (w ++ [41]) = false.
Proof.
  destruct (endsWith _ _) eqn:E; [|done]. apply endsWith_iff in E as [r E].
  change (u " : 1") with (u " : " ++ [49]) in E. rewrite app_assoc in E. by apply app_inj_2 in E as [_ E].
Qed.

Lemma no_factor w x : x <> 41 -> tryParseRuleGroupFactor (w ++ [x]) = Ret None.
Proof.
  intros Hx. unfold tryParseRuleGroupFactor. destruct (rexec FACTOR_REGEX (w ++ [x])) as [m|] eqn:E; [|done].
  exfalso. apply factor_ends in E as [w' E]. change (u " : 1)") with (u " : 1" ++ [41]) in E.
  rewrite app_assoc in E. apply app_inj_2 in E as [_ E]; [|done]. congruence.
Qed.

Lemma split_single e :
  free 42 e = true -> trimmed e = true -> e <> [] ->
  splitBillingExprAndRequestRules e = Ret {| billingExpr := e; requestRuleExpr := [] |}.
Proof.
  intros Hf Ht Hne. unfold splitBillingExprAndRequestRules. rewrite trim_trimmed_id by done.
  rewrite bool_decide_false by done.
  assert (splitTopLevelMultiply e = [e]) as ->; [|done].
  apply (splitTopLevelMultiply_join [e]); [done|]. by repeat constructor.
Qed.

(** A conditional single tier has top-level products, none of them a rule. *)
Lemma split_conditional x :
  free 42 x = true -> trimmed x = true -> x <> [] ->
  let e := (x ++ u " : p") ++ u " * " ++ u "0 + c" ++ u " * " ++ u "0" in
  splitBillingExprAndRequestRules e = Ret {| billingExpr := e; requestRuleExpr := [] |}.
Proof.
  intros Hf Ht Hne e.
  assert (e = join (u " * ") [x ++ u " : p"; u "0 + c"; u "0"]) as Ej by reflexivity.
  assert (Forall (fun w => free 42 w = true /\ trimmed w = true /\ w <> []) [x ++ u " : p"; u "0 + c"; u "0"]) as Hall.
  { repeat constructor; try done.
    - by apply free_app.
    - apply (trimmed_ends _ x (u " : ") (u "p")); done.
    - by destruct x. }
  unfold splitBillingExprAndRequestRules.
  destruct (trimmed_join (u " * ") [x ++ u " : p"; u "0 + c"; u "0"]) as [Hj1 Hj2].
  { eapply Forall_impl; [exact Hall|]. by intros w (_ & ? & ?). }
  rewrite Ej, trim_trimmed_id, bool_decide_false by auto.
  rewrite splitTopLevelMultiply_join by done.
  apply Forall_cons in Hall as [(A1 & A2 & A3) _].
  cbn [length Nat.leb partition_parts]. cbv iota.
  rewrite (not_rule_part (x ++ u " : p")); [|done..|].
  2:{ replace (x ++ u " : p") with ((x ++ u " : ") ++ [112]) by (by rewrite <- app_assoc). by apply no_factor. }
  cbn [mbind exc_bind]. rewrite (not_rule_part (u "0 + c")); [|done..|by apply (no_factor (u "0 + ") 99)].
  cbn [mbind exc_bind]. rewrite (not_rule_part (u "0")); [|done..|by apply (no_factor [] 48)].
  reflexivity.
Qed.

Record as_base (e : jsstr) : Prop := {
  as_base_ok : base_ok e = true;
  as_base_unwrapped : unwrapOuterParens e = e;
  as_base_split : splitBillingExprAndRequestRules e = Ret {| billingExpr := e; requestRuleExpr := [] |}
}.

Lemma unwrap_none e : trimmed e = true -> startsWith (u "(") e = false -> unwrapOuterParens e = e.
Proof.
  intros Ht Hp. unfold unwrapOuterParens. rewrite trim_trimmed_id by done.
  destruct e as [|x e]; [done|]. cbn [length unwrap_loop].
  unfold hasFullOuterParens. by rewrite Hp.
Qed.

Lemma base_ok_intro e :
  balanced e = true -> trimmed e = true -> e <> [] -> endsWith (u " : 1") e = false -> base_ok e = true.
Proof.
  intros H1 H2 H3 H4. unfold base_ok, nonempty. by rewrite H1, H2, H4, bool_decide_false.
Qed.

Lemma conds_no_paren cs rest :
  Forall cond_ok cs -> cs <> [] -> startsWith (u "(") (buildConditionStr cs ++ rest) = false.
Proof.
  intros Hcs Hne. rewrite conds_text by done. destruct cs as [|c cs]; [done|].
  apply Forall_cons in Hcs as [Hc _]. rewrite fmap_cons, join_concat.
  destruct (cond_ok_text c Hc) as (v & w & _ & _ & _ & ->).
  pose proof (cond_var_ok c Hc) as H. revert H. generalize (c_var c) as a. intros a H. rewrite <- !app_assoc.
  repeat (apply elem_of_cons in H as [->|H]; [done|]). by apply not_elem_of_nil in H.
Qed.

Lemma part_no_paren t rest : tier_ok t -> startsWith (u "(") (part_of t ++ rest) = false.
Proof.
  intros Ht. unfold part_of. pose proof (tier_conds t Ht) as Hcs.
  destruct (t_conditions t) as [|c cs] eqn:E; [done|]. rewrite <- app_assoc. by apply conds_no_paren.
Qed.

(** Joined parts are a base expression of one factor. *)
Lemma parts_as_base ts : Forall tier_ok ts -> ts <> [] -> as_base (join (u " : ") (part_of <$> ts)).
Proof.
  intros Hts Hne. set (e := join _ _).
  assert (free 42 e = true) as Hf.
  { apply free_join; [done|]. apply Forall_fmap. eapply Forall_impl; [exact Hts|]. intros t Ht. by apply part_delimited. }
  destruct (trimmed_join (u " : ") (part_of <$> ts)) as [Ht Hn].
  { apply Forall_fmap. eapply Forall_impl; [exact Hts|]. intros t Ht. simpl. split; by apply part_delimited. }
  assert (e <> []) as Hne' by (apply Hn; by destruct ts). fold e in Ht.
  split.
  - apply base_ok_intro; [by apply (free_balanced 42) | done..|]. unfold e.
    destruct (ends_join ts Hne) as [w ->]. apply ends_paren_ok.
  - apply unwrap_none; [done|]. unfold e. destruct ts as [|t ts]; [done|].
    rewrite fmap_cons, join_concat. apply part_no_paren. by apply Forall_cons in Hts as [? _].
  - by apply split_single.
Qed.

Lemma generated_as_base ts : config_ok ts -> as_base (generateExprFromVisualConfig (Some ts)).
Proof.
  intros Hok. destruct ts as [|t [|t' ts]]; [done| |].
  - simpl in Hok. pose proof (tier_conds t Hok) as Hcs. cbn [generateExprFromVisualConfig].
    rewrite tier_label_nonempty by done. destruct (t_conditions t) as [|c cs] eqn:E.
    + change (nonempty (buildConditionStr [])) with false. cbv zeta iota.
      assert (part_of t = tier_call (t_label t) t) as <- by (unfold part_of; by rewrite E).
      apply (parts_as_base [t]); [by constructor | done].
    + rewrite <- E in *. assert (t_conditions t <> []) as Hne by congruence. rewrite conds_nonempty by done.
      cbv zeta iota.
      assert (buildConditionStr (t_conditions t) ++ u " ? " ++ tier_call (t_label t) t ++ u " : " ++ ZERO_EXPR
        = (part_of t ++ u " : p") ++ u " * " ++ u "0 + c" ++ u " * " ++ u "0") as ->.
      { unfold part_of. rewrite E. rewrite <- !app_assoc. reflexivity. }
      destruct (part_delimited t Hok) as (P1 & P2 & P3).
      split; [|apply unwrap_none; [|rewrite <- app_assoc; by apply part_no_paren]|by apply split_conditional].
      * apply base_ok_intro; [|by apply (trimmed_ends _ (part_of t) (u " : p * 0 + c * ") (u "0")); [by rewrite <- !app_assoc|..]| by destruct (part_of t) |].
        -- apply balanced_app; [|done]. apply balanced_app; [by apply (free_balanced 42) | done].
        -- destruct (endsWith _ _) eqn:Ee; [|done]. apply endsWith_iff in Ee as [r Ee].
           change (u " : 1") with (u " : " ++ [49]) in Ee. rewrite (app_assoc r), !app_assoc in Ee. by apply app_inj_2 in Ee as [_ Ee].
      * by apply (trimmed_ends _ (part_of t) (u " : p * 0 + c * ") (u "0")); [by rewrite <- !app_assoc|..].
  - change (tiers_ok (t :: t' :: ts)) in Hok. pose proof (tiers_ok_forall _ Hok) as Hall.
    assert (generateExprFromVisualConfig (Some (t :: t' :: ts)) = join (u " : ") (part_of <$> t :: t' :: ts)) as ->.
    { cbn [generateExprFromVisualConfig]. unfold mapi. f_equal. by apply generated_parts. }
    by apply parts_as_base.
Qed.

(** ** Switching between the editors *)

(** The text of the raw editor, a base expression with its rules, splits again. *)
Lemma split_base_or e gs :
  as_base e -> forallb group_ok gs = true ->
  let c := combineBillingExpr e (rules_text gs) in
  splitBillingExprAndRequestRules (if nonempty c then c else e)
  = Ret {| billingExpr := e; requestRuleExpr := rules_text gs |}.
Proof.
  intros [Hb Hu Hs] Hgs c. pose proof (base_ok_inv e Hb) as (Ht & Hne & _).
  assert (c <> []) as Hc.
  { unfold c, combineBillingExpr. rewrite trim_trimmed_id, bool_decide_false by done. by case_bool_decide. }
  unfold nonempty. rewrite bool_decide_false by done. cbn [negb].
  destruct gs as [|g gs].
  - unfold c, combineBillingExpr. rewrite trim_trimmed_id, bool_decide_false by done. exact Hs.
  - unfold c. rewrite (split_combined e (g :: gs)); [|done..|by apply build_rules]. by rewrite Hu.
Qed.

(** C9. Switching from the visual editor to the raw one and back changes
    nothing, for tiers and rule groups that their texts carry ([config_ok] as
    in C8, and [group_ok]): the tiers, the rule groups and the effective
    expression are those of before, the effective expression of the raw editor
    is the same too, and the parent is told the rule expression of the groups.
    Tiers without a condition before the last and guarded comparisons of a
    parameter are not of this kind. *)
Theorem mode_switch_roundtrip ts gs s p :
  config_ok ts -> forallb group_ok gs = true ->
  editorMode s = EVisual -> visualConfig s = Some ts -> requestRuleGroups s = gs ->
  exists s1 s2,
    handleModeSwitch ERaw s p = Ret (s1, p)
    /\ effectiveExpr s1 = effectiveExpr s
    /\ handleModeSwitch EVisual s1 p = Ret (s2, onRequestRuleExprChange (rules_text gs) p)
    /\ editorMode s2 = EVisual /\ visualConfig s2 = Some ts /\ requestRuleGroups s2 = gs
    /\ effectiveExpr s2 = effectiveExpr s
    /\ rules_text_of gs = Ret (rules_text gs).
Proof.
  intros Hts Hgs Hm Hv Hg. pose proof (build_rules gs Hgs) as Hbr. pose proof (split_base_or _ gs (generated_as_base ts Hts) Hgs) as Hs.
  cbv zeta in Hs. unfold handleModeSwitch, effectiveExpr, rules_text_of. rewrite Hm, Hv, Hg, Hbr.
  cbn [mbind exc_bind]. do 2 eexists. split; [reflexivity|]. cbn [editorMode rawExpr].
  rewrite Hs. cbn [mbind exc_bind billingExpr requestRuleExpr]. rewrite parse_rules by exact Hgs.
  cbn [mbind exc_bind]. rewrite parse_generated by exact Hts.
  split; [reflexivity|]. split; [reflexivity|]. repeat (split; [reflexivity|]). reflexivity.
Qed.

(** ** A sample configuration *)

(** Two conditional tiers and a fallback, with cache and media prices. *)
Definition sample_config : list tier :=
  [{| t_conditions := [{| c_var := u "len"; c_op := u "<="; c_value := Some (of_Z 32000) |};
                       {| c_var := u "c"; c_op := u "<"; c_value := Some (of_Z 200) |}];
      input_unit_cost := string_to_num (u "2.5"); output_unit_cost := of_Z 15; t_label := u "short";
      cache_mode := Some CACHE_MODE_TIMED;
      extra_costs := [(u "cache_read_unit_cost", string_to_num (u "0.25"));
                      (FIELD_1H, string_to_num (u "6.5"))] |};
   {| t_conditions := [{| c_var := u "p"; c_op := u ">"; c_value := Some (of_Z 272000) |}];
      input_unit_cost := of_Z 5; output_unit_cost := string_to_num (u "22.5"); t_label := u "第2档";
      cache_mode := Some CACHE_MODE_GENERIC; extra_costs := [(u "audio_output_unit_cost", of_Z 40)] |};
   {| t_conditions := []; input_unit_cost := Zero false; output_unit_cost := Zero false;
      t_label := u "base"; cache_mode := Some CACHE_MODE_GENERIC; extra_costs := [] |}].

Ltac concrete_cost := split; vm_compute; congruence.

Lemma sample_cond v (o : jsstr) n :
  v ∈ [u "p"; u "c"; u "len"] -> o ∈ OPS -> threshold_ok n ->
  cond_ok {| c_var := v; c_op := o; c_value := Some n |}.
Proof. intros. split; [done..|]. by exists n. Qed.

Ltac concrete_cond :=
  apply sample_cond; [set_solver | unfold OPS; set_solver
                     | split; [vm_compute; reflexivity | split; [vm_compute; congruence | vm_compute; reflexivity]]].

Lemma sample_config_ok : config_ok sample_config.
Proof.
  unfold config_ok, sample_config, tiers_ok.
  split; [|split; [vm_compute; congruence|split; [|split; [vm_compute; congruence|split; [|reflexivity]]]]].
  all: split; cbn [t_conditions input_unit_cost output_unit_cost t_label cache_mode extra_costs];
    [concrete_cost | concrete_cost | | vm_compute; reflexivity | vm_compute; split; congruence
     | | vm_compute; reflexivity].
  all: repeat (apply Forall_cons; split); try apply Forall_nil; cbn [fst snd].
  all: try (split; [concrete_cost | vm_compute; reflexivity]); try exact I.
  all: concrete_cond.
Qed.

Lemma visual_roundtrip_witness :
  tryParseVisualConfig (generateExprFromVisualConfig (Some sample_config)) = Some sample_config.
Proof. apply (visual_roundtrip sample_config), sample_config_ok. Defined.

Lemma mode_switch_roundtrip_witness :
  let s := {| editorMode := EVisual; visualConfig := Some sample_config; rawExpr := [];
              requestRuleGroups := sample_groups |} in
  let p := {| currentExpr := []; currentRequestRuleExpr := [] |} in
  exists s1 s2, handleModeSwitch ERaw s p = Ret (s1, p)
    /\ handleModeSwitch EVisual s1 p = Ret (s2, onRequestRuleExprChange (rules_text sample_groups) p)
    /\ visualConfig s2 = Some sample_config.
Proof.
  intros s p.
  destruct (mode_switch_roundtrip sample_config sample_groups s p) as (s1 & s2 & H1 & _ & H2 & _ & H3 & _);
    [exact sample_config_ok | vm_compute; reflexivity | reflexivity | reflexivity | reflexivity |].
  exists s1, s2. split; [exact H1|]. split; [exact H2 | exact H3].
Defined.
