(* ===== verification/TieredPricingEdits.v ===== *)
(** * Tiered pricing: the edits and the presets

    What holds of every configuration the visual editor can reach, when its
    expression is well formed, what the presets do, and what becomes of an
    expression whose numbers do not read as numbers. *)

From S2P Require Import Prelude JsString JsNumber JsNumText JsValue JsJson JsRegex RequestRule RequestRuleThms RequestRuleRound TieredPricing TieredPricingThms.

#[local] Open Scope regex_scope.
#[local] Open Scope Z_scope.

(** ** The invariant of the visual editor *)

(** At least one tier, at most two conditions each, and none on the fallback,
    the last of several tiers. *)
Record well_edited (ts : list tier) : Prop := {
  we_nonempty : ts <> [];
  we_two : Forall (fun t => (length (t_conditions t) <= 2)%nat) ts;
  we_fallback : forall t, last ts = Some t -> (2 <= length ts)%nat -> t_conditions t = []
}.

Lemma normalize_well_edited ts : well_edited ts -> well_edited (normalizeVisualConfig (Some ts)).
Proof.
  intros [Hn H2 Hf]. destruct ts as [|t ts]; [done|]. unfold normalizeVisualConfig. split.
  - done.
  - apply Forall_fmap. eapply Forall_impl; [exact H2|]. done.
  - intros t' Hl Hlen. rewrite fmap_last in Hl. rewrite length_fmap in Hlen.
    apply fmap_Some in Hl as (t0 & Hl & ->). exact (Hf t0 Hl Hlen).
Qed.

Lemma default_well_edited : well_edited createDefaultVisualConfig.
Proof. split; [done | by repeat constructor|]. simpl. lia. Qed.

(** What a patch does to the conditions of a tier. *)
Definition patched_conditions (p : patch) (t : tier) : list cond :=
  match p with PConditions cs => cs | _ => t_conditions t end.

Lemma apply_patch_conditions p t : t_conditions (apply_patch p t) = patched_conditions p t.
Proof. by destruct p. Qed.

Lemma updateTier_spec ts i p :
  well_edited ts ->
  (forall t, (length (t_conditions t) <= 2)%nat -> (length (patched_conditions p t) <= 2)%nat) ->
  (conditions_shown ts i = true \/ forall t, patched_conditions p t = t_conditions t) ->
  well_edited (updateTier (Some ts) i p).
Proof.
  intros Hw Hp2 Hp. pose proof (normalize_well_edited ts Hw) as [Hn H2 Hf]. unfold updateTier.
  assert (length (normalizeVisualConfig (Some ts)) = length ts) as Hlen.
  { destruct ts; [by destruct (we_nonempty _ Hw)|]. apply length_fmap. }
  revert Hn H2 Hf Hlen. generalize (normalizeVisualConfig (Some ts)) as l. intros l Hn H2 Hf Hlen.
  split.
  - intros E. by destruct l.
  - apply Forall_forall. intros t (j & x & Hx & -> & _)%elem_of_mapi_from.
    rewrite Forall_forall in H2. specialize (H2 x Hx). destruct (j =? i); [|done].
    cbn [normalizeVisualTier t_conditions]. rewrite apply_patch_conditions. by apply Hp2.
  - intros t Ht Hlen2. unfold mapi in Hlen2. rewrite length_mapi_from in Hlen2. rewrite last_mapi in Ht.
    apply fmap_Some in Ht as (x & Hx & ->). specialize (Hf x Hx Hlen2).
    destruct (Z.eqb_spec (Z.of_nat (length l) - 1) i) as [Ei|]; [|done].
    cbn [normalizeVisualTier t_conditions]. rewrite apply_patch_conditions.
    destruct Hp as [Hs|Hs]; [|by rewrite Hs].
    unfold conditions_shown in Hs. rewrite <- Hlen, <- Ei, Z.eqb_refl in Hs. simpl in Hs.
    apply Nat.eqb_eq in Hs. lia.
Qed.

Lemma last_on_last {A} (f : A -> A) l : last (on_last f l) = f <$> last l.
Proof.
  induction l as [|x [|y l] IH]; [done..|].
  change (on_last f (x :: y :: l)) with (x :: on_last f (y :: l)).
  rewrite last_cons, IH, last_cons_cons. destruct (last (y :: l)) eqn:E; [done|].
  apply last_None in E. done.
Qed.

Lemma length_on_last {A} (f : A -> A) l : length (on_last f l) = length l.
Proof. induction l as [|x [|y l] IH]; [done..|]. simpl in *. by rewrite IH. Qed.

Lemma Forall_on_last {A} (P : A -> Prop) f l :
  Forall P l -> (forall x, P x -> P (f x)) -> Forall P (on_last f l).
Proof.
  intros H Hf. induction H as [|x l Hx Hl IH]; [done|]. destruct l as [|y l].
  - constructor; auto.
  - by constructor.
Qed.

Lemma addTier_spec ts : well_edited ts -> well_edited (addTier (Some ts)).
Proof.
  intros Hw. pose proof (normalize_well_edited ts Hw) as [Hn H2 Hf]. unfold addTier. split.
  - by intros [_ ?]%app_nil.
  - apply Forall_app. split; [|by repeat constructor]. apply Forall_on_last; [done|].
    intros t Ht. destruct (t_conditions t) eqn:E; simpl; [lia | by rewrite E].
  - intros t Ht _. rewrite last_snoc in Ht. by injection Ht as <-.
Qed.

Lemma remove_at_spec {A} k (l : list A) :
  Forall (fun x => x ∈ l) (remove_at k l) /\ (length l <= S (length (remove_at k l)))%nat.
Proof.
  unfold remove_at, mapi. split.
  - generalize 0 as i. induction l as [|x l IH]; intros i; [constructor|]. cbn [mapi_from concat].
    apply Forall_app. split.
    + destruct (i =? k); repeat constructor.
    + eapply Forall_impl; [apply IH|]. intros y Hy. by constructor.
  - assert (forall l i, k < i -> concat (mapi_from i (fun i x => if i =? k then [] else [x : A]) l) = l) as Hid.
    { clear l. induction l as [|x l IH]; intros i Hi; [done|]. cbn [mapi_from concat].
      destruct (Z.eqb_spec i k); [lia|]. rewrite IH by lia. done. }
    generalize 0 as i. induction l as [|x l IH]; intros i; cbn [mapi_from concat length]; [lia|].
    rewrite length_app. destruct (Z.eqb_spec i k) as [->|]; [rewrite Hid by lia; simpl; lia|].
    specialize (IH (i + 1)). simpl. lia.
Qed.

Lemma removeTier_spec ts i ts' : well_edited ts -> removeTier (Some ts) i = Some ts' -> well_edited ts'.
Proof.
  intros Hw. pose proof (normalize_well_edited ts Hw) as [_ H2 _]. unfold removeTier. cbv zeta.
  revert H2. generalize (normalizeVisualConfig (Some ts)) as l. intros l H2.
  destruct (Nat.leb_spec (length l) 1) as [|Hlen]; [done|]. intros [= <-].
  destruct (remove_at_spec i l) as [Hin Hl]. split.
  - intros E. apply (f_equal length) in E. rewrite length_on_last in E. simpl in E. lia.
  - apply Forall_on_last; [|intros x _; simpl; lia]. rewrite Forall_forall in H2, Hin |- *. auto.
  - intros t Ht _. rewrite last_on_last in Ht. by apply fmap_Some in Ht as (x & _ & ->).
Qed.

(** The configuration that is shown, which is the default when there is none. *)
Definition shown_ok (config : option (list tier)) : Prop :=
  match config with None => True | Some ts => well_edited ts end.

Lemma updateTier_none i p : updateTier None i p = updateTier (Some createDefaultVisualConfig) i p.
Proof. reflexivity. Qed.

(** An operation on no configuration is one on the default. *)
Lemma operate_none a : operate None a = operate (Some createDefaultVisualConfig) a.
Proof. by destruct a. Qed.

Lemma card_two ts i : well_edited ts -> (length (card_conditions (normalizeVisualConfig (Some ts)) i) <= 2)%nat.
Proof.
  intros Hw. destruct (normalize_well_edited ts Hw) as [_ H2 _]. unfold card_conditions.
  destruct (normalizeVisualConfig (Some ts) !! Z.to_nat i) as [t|] eqn:E; [|simpl; lia].
  rewrite Forall_forall in H2. apply H2. by apply list_elem_of_lookup_2 in E.
Qed.

Lemma shown_normalized ts i :
  well_edited ts -> conditions_shown (normalizeVisualConfig (Some ts)) i = conditions_shown ts i.
Proof.
  intros [Hn _ _]. destruct ts; [done|]. unfold conditions_shown, normalizeVisualConfig. by rewrite length_fmap.
Qed.

Lemma remove_at_le {A} k (l : list A) : (length (remove_at k l) <= length l)%nat.
Proof.
  unfold remove_at, mapi. generalize 0 as i. induction l as [|x l IH]; intros i; simpl; [lia|].
  rewrite length_app. specialize (IH (i + 1)). destruct (i =? k); simpl; lia.
Qed.

Lemma operate_ok ts a ts' : well_edited ts -> operate (Some ts) a = Some ts' -> well_edited ts'.
Proof.
  intros Hw. pose proof (card_two ts) as H2. destruct a; cbn [operate]; rewrite ?shown_normalized by done.
  - destruct (price_change val) as [n|]; [|done]. intros [= <-]. apply updateTier_spec; [done|..]; destruct name; auto.
  - intros [= <-]. apply updateTier_spec; auto.
  - intros [= <-]. apply updateTier_spec; auto.
  - destruct (conditions_shown ts index) eqn:E; [|done]. intros [= <-]. apply updateTier_spec; [done| |by left].
    intros t _. simpl. unfold mapi. rewrite length_mapi_from. by apply H2.
  - destruct (conditions_shown ts index) eqn:E; [|done]. intros [= <-]. apply updateTier_spec; [done| |by left].
    intros t _. simpl. etrans; [apply remove_at_le | by apply H2].
  - destruct (conditions_shown ts index) eqn:E; [|done]. unfold addCondition.
    generalize (card_conditions (normalizeVisualConfig (Some ts)) index) as cs. intros cs.
    destruct (Nat.leb_spec 2 (length cs)); [done|].
    intros [= <-]. apply updateTier_spec; [done| |by left].
    intros t _. cbn [patched_conditions]. rewrite length_app. cbn [length]. lia.
  - intros [= <-]. by apply addTier_spec.
  - by apply removeTier_spec.
Qed.

(** The visual editor keeps its rules: whatever sequence of price, label,
    cache-mode, condition and tier edits its cards allow, starting from a
    configuration with at least one tier, at most two conditions per tier and
    an unconditional fallback, the configuration still has them. *)
Theorem edits_keep_fallback start config :
  shown_ok start -> tiers_edited start config -> shown_ok config.
Proof.
  intros Hs H. induction H as [|config a ts _ IH Ho]; [done|]. cbn [shown_ok]. destruct config as [ts0|].
  - by apply (operate_ok ts0 a).
  - rewrite operate_none in Ho. by apply (operate_ok _ a _ default_well_edited).
Qed.

Lemma edits_keep_fallback_witness :
  let start : option (list tier) := None in
  exists config, tiers_edited start config /\ shown_ok config
    /\ match config with Some ts => length ts = 2%nat | None => False end.
Proof.
  intros start.
  assert (tiers_edited start (Some (addTier start))) as H.
  { apply (edited_step start start AddTier); [constructor | reflexivity]. }
  exists (Some (addTier start)). split; [exact H|].
  split; [exact (edits_keep_fallback start (Some (addTier start)) I H) | reflexivity].
Defined.

(** ** Question marks and colons *)

Definition count_unit (c : Z) (s : jsstr) : nat := length (List.filter (Z.eqb c) s).

Lemma count_app c s1 s2 : count_unit c (s1 ++ s2) = (count_unit c s1 + count_unit c s2)%nat.
Proof. unfold count_unit. by rewrite List.filter_app, length_app. Qed.

Lemma count_none c p s : (forall x, p x = true -> (c =? x) = false) -> forallb p s = true -> count_unit c s = 0%nat.
Proof.
  intros Hp. unfold count_unit. induction s as [|x s IH]; [done|]. simpl. intros H. bool_simp. rewrite Hp by done. by apply IH.
Qed.

(** Neither a question mark nor a colon. *)
Definition quiet (c : Z) : bool := negb (c =? 63) && negb (c =? 58).

Lemma count_quiet c s : c = 63 \/ c = 58 -> forallb quiet s = true -> count_unit c s = 0%nat.
Proof.
  intros Hc. apply count_none. intros x Hx. unfold quiet in Hx. bool_simp.
  destruct (Z.eqb_spec c x); [|done]. subst. destruct Hc; congruence.
Qed.

Lemma numch_quiet c : is_numch c = true -> quiet c = true.
Proof.
  intros H. unfold is_numch, is_e, is_sign, is_digit in H. unfold quiet.
  destruct (Z.eqb_spec c 63) as [->|]; [done|]. destruct (Z.eqb_spec c 58) as [->|]; done.
Qed.

Lemma conds_quiet cs : Forall cond_ok cs -> forallb quiet (buildConditionStr cs) = true.
Proof.
  intros Hcs. rewrite conds_text by done. apply forallb_join; [done|]. apply Forall_fmap.
  eapply Forall_impl; [exact Hcs|]. intros c. apply cond_text_class; [exact numch_quiet | done].
Qed.

Lemma call_quiet t : tier_ok t -> forallb quiet (t_label t) = true -> forallb quiet (tier_call (t_label t) t) = true.
Proof.
  intros Ht Hl. unfold tier_call. rewrite !forallb_app, Hl.
  by rewrite body_class by (done || apply numch_quiet).
Qed.

Definition conditional (t : tier) : bool := match t_conditions t with [] => false | _ => true end.

Lemma nonempty_conds t : tier_ok t -> nonempty (buildConditionStr (t_conditions t)) = conditional t.
Proof.
  intros Hcs%tier_conds. unfold conditional. destruct (t_conditions t) as [|c cs]; [done|]. by rewrite conds_nonempty by done.
Qed.

(** The marks of a tier: one question mark when it is not the last and has
    conditions, no colon. *)
Lemma part_marks n i t :
  tier_ok t -> forallb quiet (t_label t) = true ->
  count_unit 63 (tier_part n i t) = (if (i <? n - 1) && conditional t then 1%nat else 0%nat)
  /\ count_unit 58 (tier_part n i t) = 0%nat.
Proof.
  intros Ht Hl. unfold tier_part. rewrite tier_label_nonempty by done. cbv zeta.
  rewrite nonempty_conds by done.
  pose proof (call_quiet t Ht Hl) as Hc. pose proof (conds_quiet _ (tier_conds t Ht)) as Hd.
  destruct (_ && _); rewrite ?count_app, !(count_quiet _ (tier_call (t_label t) t)), ?(count_quiet _ (buildConditionStr _)) by auto; done.
Qed.

Lemma join_marks n i ts :
  Forall tier_ok ts -> Forall (fun t => forallb quiet (t_label t) = true) ts -> ts <> [] ->
  n = i + Z.of_nat (length ts) ->
  count_unit 63 (join (u " : ") (mapi_from i (tier_part n) ts))
  = length (List.filter conditional (removelast ts))
  /\ count_unit 58 (join (u " : ") (mapi_from i (tier_part n) ts)) = pred (length ts).
Proof.
  revert i. induction ts as [|t ts IH]; intros i Hts Hls Hne Hn; [done|].
  apply Forall_cons in Hts as [Ht Hts]. apply Forall_cons in Hls as [Hl Hls].
  destruct (part_marks n i t Ht Hl) as [Hq Hc]. cbn [length] in Hn. destruct ts as [|t' ts].
  - cbn [mapi_from join removelast List.filter length]. rewrite Hq, Hc.
    by replace (i <? n - 1) with false by (symmetry; apply Z.ltb_ge; simpl in Hn; lia).
  - destruct (IH (i + 1)) as [IHq IHc]; [done..|cbn [length] in *; lia|].
    change (join (u " : ") (mapi_from i (tier_part n) (t :: t' :: ts)))
      with (tier_part n i t ++ u " : " ++ join (u " : ") (mapi_from (i + 1) (tier_part n) (t' :: ts))).
    rewrite !count_app, IHq, IHc, Hq, Hc.
    replace (i <? n - 1) with true by (symmetry; apply Z.ltb_lt; cbn [length] in Hn; lia).
    change (removelast (t :: t' :: ts)) with (t :: removelast (t' :: ts)). cbn [List.filter].
    by destruct (conditional t).
Qed.

Lemma filter_all {A} (p : A -> bool) l : length (List.filter p l) = length l <-> Forall (fun x => p x = true) l.
Proof.
  induction l as [|x l IH]; [done|]. rewrite Forall_cons, <- IH. cbn [List.filter].
  pose proof (List.filter_length_le p l). destruct (p x); cbn [length]; [split; [|lia]; intros; split; [done|lia]|].
  split; [lia | by intros [? _]].
Qed.

Lemma length_removelast {A} (l : list A) : length (removelast l) = pred (length l).
Proof. induction l as [|x [|y l] IH]; [done..|]. change (removelast (x :: y :: l)) with (x :: removelast (y :: l)). cbn [length]. by rewrite IH. Qed.

Lemma lookup_removelast {A} (l : list A) i x :
  removelast l !! i = Some x <-> l !! i = Some x /\ (S i < length l)%nat.
Proof.
  revert i. induction l as [|y [|z l] IH]; intros i.
  - split; [done | by intros [? _]].
  - split; [done|]. intros [_ H]. simpl in H. lia.
  - change (removelast (y :: z :: l)) with (y :: removelast (z :: l)). destruct i as [|i].
    + cbn [lookup list_lookup length]. split; [intros; split; [done|lia] | by intros [? _]].
    + change ((y :: removelast (z :: l)) !! S i) with (removelast (z :: l) !! i).
      change ((y :: z :: l) !! S i) with ((z :: l) !! i). rewrite IH. cbn [length]. split; intros [? ?]; split; (done || lia).
Qed.

(** The expression of several tiers has one colon less than tiers, and a
    question mark per tier before the last that has a condition: it is a
    well-formed chain of conditionals exactly when every tier before the last
    has one.  The editor lets the last condition of such a tier be removed. *)
Theorem generated_marks ts :
  (2 <= length ts)%nat -> Forall tier_ok ts -> Forall (fun t => forallb quiet (t_label t) = true) ts ->
  let e := generateExprFromVisualConfig (Some ts) in
  count_unit 58 e = pred (length ts)
  /\ (count_unit 63 e = count_unit 58 e
      <-> forall i t, ts !! i = Some t -> (S i < length ts)%nat -> t_conditions t <> []).
Proof.
  intros Hlen Hts Hls e.
  assert (e = join (u " : ") (mapi (tier_part (Z.of_nat (length ts))) ts)) as ->.
  { by destruct ts as [|t [|t' ts]]; [simpl in Hlen; lia..|]. }
  destruct (join_marks (Z.of_nat (length ts)) 0 ts) as [Hq Hc]; [done..|by destruct ts; simpl in Hlen; [lia|]|lia|].
  unfold mapi. rewrite Hq, Hc. split; [done|]. rewrite <- length_removelast, filter_all, Forall_lookup.
  assert (forall t, conditional t = true <-> t_conditions t <> []) as Hcd.
  { intros t. unfold conditional. by destruct (t_conditions t). }
  setoid_rewrite lookup_removelast. setoid_rewrite Hcd. naive_solver.
Qed.

(** Three tiers of which the second has lost its condition. *)
Definition gap_config : list tier :=
  match sample_config with
  | [t1; t2; t3] => [t1; with_conditions [] t2; t3]
  | ts => ts
  end.

Lemma gap_tiers_ok : Forall tier_ok gap_config.
Proof.
  destruct sample_config_ok as ([] & _ & [] & _ & [] & _).
  repeat (apply Forall_cons; split); try apply Forall_nil; split; try assumption.
  all: apply Forall_nil || (vm_compute; reflexivity).
Qed.

Lemma generated_marks_witness :
  let e := generateExprFromVisualConfig (Some gap_config) in
  count_unit 58 e = 2%nat /\ count_unit 63 e <> count_unit 58 e.
Proof.
  assert (Forall (fun t => forallb quiet (t_label t) = true) gap_config) as Hl.
  { repeat (apply Forall_cons; split); try apply Forall_nil; vm_compute; reflexivity. }
  destruct (generated_marks gap_config ltac:(vm_compute; lia) gap_tiers_ok Hl) as [H1 H2].
  split; [exact H1|]. intros E.
  eapply (proj1 H2 E 1%nat); [reflexivity | vm_compute; lia | reflexivity].
Defined.

(** ** Presets *)

Definition all_presets : list preset := concat (PRESET_GROUPS.*2).

(** What is computed of a preset, and what it has to be. *)
Definition preset_reads (pr : preset) :=
  (bool_decide (is_Some (tryParseVisualConfig (pr_expr pr))),
   c ← tryParseVisualConfig (pr_expr pr); tryParseVisualConfig (generateExprFromVisualConfig (Some c)),
   (forallb group_ok (pr_requestRules pr), base_ok (pr_expr pr)), unwrapOuterParens (pr_expr pr),
   splitBillingExprAndRequestRules (pr_expr pr)).
Definition preset_means (pr : preset) :=
  (true, tryParseVisualConfig (pr_expr pr), (true, true), pr_expr pr,
   Ret {| billingExpr := pr_expr pr; requestRuleExpr := [] |}).

Lemma presets_checked : map preset_reads all_presets = map preset_means all_presets.
Proof. vm_compute. reflexivity. Qed.

Lemma map_eq_in {A B} (f g : A -> B) l x : map f l = map g l -> x ∈ l -> f x = g x.
Proof. induction l as [|y l IH]; intros H Hx; [by apply not_elem_of_nil in Hx|]. simpl in H. injection H as H1 H2.
  apply elem_of_cons in Hx as [->|Hx]; auto. Qed.

Lemma preset_reads_ok pr :
  pr ∈ all_presets -> exists cfg, tryParseVisualConfig (pr_expr pr) = Some cfg
    /\ tryParseVisualConfig (generateExprFromVisualConfig (Some cfg)) = Some cfg
    /\ forallb group_ok (pr_requestRules pr) = true
    /\ base_ok (pr_expr pr) = true /\ unwrapOuterParens (pr_expr pr) = pr_expr pr
    /\ splitBillingExprAndRequestRules (pr_expr pr)
       = Ret {| billingExpr := pr_expr pr; requestRuleExpr := [] |}.
Proof.
  intros H. pose proof (map_eq_in _ _ _ _ presets_checked H) as E. unfold preset_reads, preset_means in E.
  destruct (tryParseVisualConfig (pr_expr pr)) as [cfg|]; [|discriminate (f_equal (fun x => x.1.1.1.1) E)].
  exists cfg. split; [reflexivity|].
  split; [exact (f_equal (fun x => x.1.1.1.2) E)|]. split; [exact (f_equal (fun x => x.1.1.2.1) E)|].
  split; [exact (f_equal (fun x => x.1.1.2.2) E)|].
  split; [exact (f_equal (fun x => x.1.2) E) | exact (f_equal snd E)].
Qed.

(** Every preset opens in the visual editor: applying it keeps the mode,
    shows the tiers its expression reads as, which are the tiers the generated
    expression reads as again, puts in the raw editor a text that splits into
    the preset's own expression and its rules, and reports rules that read back
    as the preset's. *)
Theorem preset_applied pr s p :
  pr ∈ all_presets ->
  exists s' cfg e,
    applyPreset (pr_expr pr) (pr_requestRules pr) s p = Ret (s', onRequestRuleExprChange e p)
    /\ editorMode s' = editorMode s /\ visualConfig s' = Some cfg
    /\ requestRuleGroups s' = pr_requestRules pr
    /\ tryParseVisualConfig (pr_expr pr) = Some cfg
    /\ tryParseVisualConfig (generateExprFromVisualConfig (Some cfg)) = Some cfg
    /\ splitBillingExprAndRequestRules (rawExpr s')
       = Ret {| billingExpr := pr_expr pr; requestRuleExpr := e |}
    /\ tryParseRequestRuleExpr e = Ret (Some (pr_requestRules pr)).
Proof.
  intros H. destruct (preset_reads_ok pr H) as (cfg & H1 & H2 & Hg & Hb & Hu & Hs).
  pose proof (split_base_or _ _ (Build_as_base _ Hb Hu Hs) Hg) as Hsp. cbv zeta in Hsp.
  eexists _, cfg, (rules_text (pr_requestRules pr)).
  unfold applyPreset, rules_text_of. rewrite build_rules by exact Hg. cbn [mbind exc_bind]. rewrite H1.
  split; [reflexivity|]. split; [reflexivity|]. split; [reflexivity|]. split; [reflexivity|].
  split; [reflexivity|]. split; [exact H2|]. split; [exact Hsp | exact (parse_rules _ Hg)].
Qed.

Lemma preset_applied_witness :
  let pr := nth 12 all_presets (flat_preset "" "" "") in
  let s := {| editorMode := EVisual; visualConfig := None; rawExpr := []; requestRuleGroups := [] |} in
  let p := {| currentExpr := []; currentRequestRuleExpr := [] |} in
  pr_key pr = u "gpt-5.4-tiers"
  /\ exists s' e, applyPreset (pr_expr pr) (pr_requestRules pr) s p = Ret (s', onRequestRuleExprChange e p)
     /\ editorMode s' = EVisual.
Proof.
  intros pr s p. split; [reflexivity|].
  assert (pr ∈ all_presets) as H by (apply (list_elem_of_lookup_2 _ 12); reflexivity).
  destruct (preset_applied pr s p H) as (s' & cfg & e & H1 & H2 & _).
  exists s', e. split; [exact H1 | exact H2].
Defined.

(** ** Expressions whose numbers are no numbers *)

(** A call of two terms, whatever the texts of its numbers. *)
Definition plain_call (label w v : jsstr) : jsstr :=
  u "tier(" ++ [34] ++ label ++ [34] ++ u ", " ++ u "p * " ++ w ++ u " + c * " ++ v ++ u ")".

Definition no_terms : list (jsstr * option jsstr) := (fun v => (v, None)) <$> CACHE_VAR_MAP.*2.

Lemma eats_plain_body i w v :
  forallb is_numch w = true -> w <> [] -> forallb is_numch v = true -> v <> [] ->
  eats (r_body i) (u "p * " ++ w ++ u " + c * " ++ v) (fun c => om_set (S i) v (om_set i w c)) closes.
Proof.
  intros Hw Hwn Hv Hvn.
  pose proof (eats_term (u "p") i _ Hw Hwn) as H1.
  pose proof (eats_plus_term (u "c") (S i) _ ltac:(done) eq_refl Hv Hvn) as H2.
  assert (eats (r_extras (S (S i)) (CACHE_VAR_MAP.*2)) [] id closes) as H3.
  { apply (eats_extras no_terms (S (S i))); [apply cache_vars_ok|]. by repeat constructor. }
  assert (forall rest, closes rest -> stops is_numch ([] ++ rest)) as Hst by (by intros rest [s ->]).
  pose proof (eats_seq _ _ _ _ _ _ _ _ H2 H3 Hst) as H4.
  assert (forall rest, closes rest -> stops is_numch (((u " + " ++ u "c" ++ u " * " ++ v) ++ []) ++ rest)) as Hst2 by done.
  pose proof (eats_seq _ _ _ _ _ _ _ _ H1 H4 Hst2) as H5.
  rewrite <- !app_assoc, app_nil_r in H5. exact H5.
Qed.

Lemma eats_plain_call i label w v :
  forallb not_quote label = true ->
  forallb is_numch w = true -> w <> [] -> forallb is_numch v = true -> v <> [] ->
  eats (r_tier i) (plain_call label w v)
    (fun c => om_set (S (S i)) v (om_set (S i) w (om_set i label c))) anything.
Proof.
  intros Hl Hw Hwn Hv Hvn.
  pose proof (eats_plain_body (S i) w v Hw Hwn Hv Hvn) as Hb.
  assert (forall rest, stops is_space ((u "p * " ++ w ++ u " + c * " ++ v) ++ rest)) as Hs by done.
  pose proof (eats_call i label _ _ Hl Hs Hb) as H. rewrite <- !app_assoc in H. exact H.
Qed.

Lemma parse_plain_call label w v :
  forallb not_quote label = true ->
  forallb is_numch w = true -> w <> [] -> forallb is_numch v = true -> v <> [] ->
  tryParseVisualConfig (plain_call label w v)
  = Some [{| t_conditions := []; input_unit_cost := string_to_num w; output_unit_cost := string_to_num v;
             t_label := label; cache_mode := Some CACHE_MODE_GENERIC; extra_costs := [] |}].
Proof.
  intros Hl Hw Hwn Hv Hvn. unfold tryParseVisualConfig. rewrite bool_decide_false by done.
  change (rexec VERSION_RE (plain_call label w v)) with (@None (list (nat * jsstr))). cbv zeta iota.
  unfold SINGLE_RE. rewrite (eats_rexec _ _ _ _ (eats_plain_call 1 label w v Hl Hw Hwn Hv Hvn) I). reflexivity.
Qed.

Lemma call_reset label n m :
  tier_call label {| t_conditions := []; input_unit_cost := NaN; output_unit_cost := n; t_label := label;
                     cache_mode := m; extra_costs := [] |}
  = plain_call label (u "0") (num_to_string (or_zero n)).
Proof.
  unfold tier_call, plain_call, buildTierBodyExpr. cbn [input_unit_cost output_unit_cost].
  match goal with |- context [concat ?l] => change (concat l) with (@nil jsstr) end.
  rewrite app_nil_r. cbn [join]. rewrite <- !app_assoc. reflexivity.
Qed.

(** A single tier is not checked against the expression it came from:
    merely opening a model whose input price is written with digits, signs,
    dots and exponents that do not read as a number ([1+2], [1e], [1.2.3])
    reports an expression in which that price is zero. *)
Theorem open_resets_price label w v :
  label <> [] -> forallb not_quote label = true ->
  forallb is_numch w = true -> w <> [] -> string_to_num w = NaN ->
  forallb is_numch v = true -> v <> [] ->
  exists s, open_model {| currentExpr := plain_call label w v; currentRequestRuleExpr := [] |}
    = Ret (s, {| currentExpr := plain_call label (u "0") (num_to_string (or_zero (string_to_num v)));
                 currentRequestRuleExpr := [] |}).
Proof.
  intros Hln Hl Hw Hwn Hnan Hv Hvn. set (p := {| currentExpr := _; currentRequestRuleExpr := _ |}).
  assert (tryParseRequestRuleExpr (currentRequestRuleExpr p) = Ret (Some [])) as Hr by reflexivity.
  unfold open_model, initial_tier_editor, load_rules. rewrite Hr. cbn [mbind exc_bind].
  unfold load_model. cbn [p currentExpr]. rewrite parse_plain_call, Hnan by assumption.
  unfold report_expr, effectiveExpr. cbn [editorMode visualConfig mbind exc_bind set_groups requestRuleGroups].
  cbn [generateExprFromVisualConfig t_conditions t_label].
  assert (nonempty label = true) as -> by (unfold nonempty; by rewrite bool_decide_false).
  change (nonempty (buildConditionStr [])) with false. cbv zeta iota. rewrite call_reset.
  rewrite (bool_decide_false (ZERO_EXPR = _)) by done. cbn [onExprChange currentExpr].
  rewrite bool_decide_false by done. eexists. reflexivity.
Qed.

Lemma open_resets_price_witness :
  exists s, open_model {| currentExpr := plain_call (u "base") (u "1.2.3") (u "15"); currentRequestRuleExpr := [] |}
    = Ret (s, {| currentExpr := plain_call (u "base") (u "0") (u "15"); currentRequestRuleExpr := [] |}).
Proof.
  destruct (open_resets_price (u "base") (u "1.2.3") (u "15")) as [s H]; [done..|].
  exists s. exact H.
Defined.
