(* ===== verification/StatusCodes.v ===== *)
(** * HTTP status code rules

    Models of web/classic/src/helpers/statusCodeRules.js (lists of status codes
    and ranges) and of
    web/classic/src/components/table/channels/modals/statusCodeRiskGuard.js
    (the guard on status code redirects of a channel). *)

From S2P Require Import Prelude JsString JsNumber JsNumText JsValue JsJson JsRegex.

#[local] Open Scope regex_scope.

(** ** Ranges of status codes *)

(** The bounds of an accepted range are integers from 100 to 599, which doubles
    hold exactly. *)
Record range := { r_start : Z; r_end : Z }.

(** [/^\d+$/.test(s)] *)
Definition isNumber (s : jsstr) : bool := rtest (rplus (RChr is_digit) · REnd) s.

(** [s.replaceAll(' ', '')] *)
Definition drop_spaces (s : jsstr) : jsstr := List.filter (fun c => negb (c =? 32)) s.

Definition parseToken (token : jsstr) : option range :=
  let cleaned := drop_spaces (trim token) in
  if bool_decide (cleaned = []) then None
  else if includes (u "-") cleaned then
    match split_char 45 cleaned with
    | [a; b] =>
        if negb (isNumber a) || negb (isNumber b) then None
        else
          let s := parse_int a in
          let e := parse_int b in
          if negb (is_finite s) || negb (is_finite e) then None
          else if num_gt s e then None
          else if num_lt s (of_Z 100) || num_gt e (of_Z 599) then None
          else Some {| r_start := num_Z s; r_end := num_Z e |}
    | _ => None
    end
  else if negb (isNumber cleaned) then None
  else
    let code := parse_int cleaned in
    if negb (is_finite code) then None
    else if num_lt code (of_Z 100) || num_gt code (of_Z 599) then None
    else Some {| r_start := num_Z code; r_end := num_Z code |}.

Definition range_cmp (a b : range) : Z :=
  if negb (r_start a =? r_start b) then r_start a - r_start b else r_end a - r_end b.

(** The loop over the sorted ranges; [last] is the element being extended. *)
Fixpoint merge_loop (last : range) (l : list range) : list range :=
  match l with
  | [] => [last]
  | current :: l' =>
      if r_start current <=? r_end last + 1
      then merge_loop {| r_start := r_start last; r_end := Z.max (r_end last) (r_end current) |} l'
      else last :: merge_loop current l'
  end.

Definition mergeRanges (ranges : list range) : list range :=
  match sort_by range_cmp ranges with
  | [] => []
  | first :: rest => merge_loop first rest
  end.

Record parse_result := {
  ok : bool;
  ranges : list range;
  tokens : list jsstr;
  normalized : jsstr;
  invalidTokens : list jsstr
}.

Definition token_of (r : range) : jsstr :=
  if r_start r =? r_end r then str_of_Z (r_start r)
  else str_of_Z (r_start r) ++ u "-" ++ str_of_Z (r_end r).

(** The loop over the segments: the ranges and the invalid tokens, in order. *)
Fixpoint parse_segments (segments : list jsstr) : list range * list jsstr :=
  match segments with
  | [] => ([], [])
  | segment :: rest =>
      let trimmed := trim segment in
      let (rs, bad) := parse_segments rest in
      if bool_decide (trimmed = []) then (rs, bad)
      else match parseToken trimmed with
           | None => (rs, trimmed :: bad)
           | Some r => (r :: rs, bad)
           end
  end.

(** [raw.replace(/[，]/g, ',')] *)
Definition ascii_commas (s : jsstr) : jsstr := (fun c => if c =? 65292 then 44 else c) <$> s.

Definition parseHttpStatusCodeRules (input : jsv) : parse_result :=
  let raw := trim (to_string (js_nullish input (JStr []))) in
  if bool_decide (raw = []) then
    {| ok := true; ranges := []; tokens := []; normalized := []; invalidTokens := [] |}
  else
    let (rs, bad) := parse_segments (split_char 44 (ascii_commas raw)) in
    match bad with
    | _ :: _ => {| ok := false; ranges := []; tokens := []; normalized := raw; invalidTokens := bad |}
    | [] =>
        let merged := mergeRanges rs in
        let toks := token_of <$> merged in
        {| ok := true; ranges := merged; tokens := toks; normalized := join (u ",") toks;
           invalidTokens := [] |}
    end.

(** ** Well-formed ranges *)

Definition range_ok (r : range) : Prop := 100 <= r_start r <= r_end r /\ r_end r <= 599.

Definition covers (l : list range) (c : Z) : Prop :=
  exists r, r ∈ l /\ r_start r <= c <= r_end r.

(** Ascending ranges with at least one code between neighbours. *)
Fixpoint separated (l : list range) : Prop :=
  match l with
  | a :: ((b :: _) as l') => r_end a + 1 < r_start b /\ separated l'
  | _ => True
  end.

#[export] Instance range_cmp_comparator : Comparator range_cmp.
Proof.
  split; unfold range_cmp; intros; repeat match goal with
  | H : context [Z.eqb ?a ?b] |- _ => destruct (Z.eqb_spec a b)
  | |- context [Z.eqb ?a ?b] => destruct (Z.eqb_spec a b) end; simpl in *; lia.
Qed.

Lemma range_cmp_le a b : range_cmp a b <= 0 -> r_start a <= r_start b.
Proof. unfold range_cmp. destruct (Z.eqb_spec (r_start a) (r_start b)); simpl; lia. Qed.

Lemma covers_cons r l c : covers (r :: l) c <-> r_start r <= c <= r_end r \/ covers l c.
Proof.
  unfold covers. split.
  - intros (x & [->|Hx]%elem_of_cons & H); [by left | right; eauto].
  - intros [H|(x & Hx & H)]; [exists r | exists x]; set_solver.
Qed.

(** ** Merging *)

Definition start_le (a b : range) : Prop := r_start a <= r_start b.

Lemma merge_loop_spec last l :
  range_ok last -> Forall range_ok l -> StronglySorted start_le (last :: l) ->
  separated (merge_loop last l) /\ Forall range_ok (merge_loop last l)
  /\ (exists r rest, merge_loop last l = r :: rest /\ r_start r = r_start last)
  /\ (forall c, covers (merge_loop last l) c <-> covers (last :: l) c).
Proof.
  revert last. induction l as [|cur l IH]; intros last Hl Hall Hs; cbn [merge_loop].
  { split_and!; [done | by constructor | eauto | done]. }
  apply StronglySorted_inv in Hs as [Hs Hle]. inversion Hle as [|? ? H1 Hle']; subst.
  inversion Hall as [|? ? Hcur Hall']; subst.
  unfold range_ok, start_le in H1, Hl, Hcur. destruct (Z.leb_spec (r_start cur) (r_end last + 1)).
  - set (x := {| r_start := r_start last; r_end := Z.max (r_end last) (r_end cur) |}).
    destruct (IH x) as (I1 & I2 & (r & rest & E & Hr) & I4).
    + unfold range_ok. simpl. lia.
    + done.
    + constructor; [by apply StronglySorted_inv in Hs as [? _] | done].
    + split_and!; [done | done | eauto |]. intros c. rewrite I4, !covers_cons. simpl.
      assert (r_start last <= c <= Z.max (r_end last) (r_end cur)
        <-> r_start last <= c <= r_end last \/ r_start cur <= c <= r_end cur) by lia. tauto.
  - destruct (IH cur Hcur Hall' Hs) as (I1 & I2 & (r & rest & E & Hr) & I4).
    split_and!.
    + rewrite E in *. simpl. split; [lia | done].
    + by constructor.
    + eauto.
    + intros c. rewrite !covers_cons, I4, covers_cons. done.
Qed.

Lemma start_sorted l : StronglySorted start_le (sort_by range_cmp l).
Proof.
  eapply StronglySorted_weaken; [|apply sort_by_sorted, _]. intros a b. apply range_cmp_le.
Qed.

Lemma covers_perm l l' c : l ≡ₚ l' -> covers l c <-> covers l' c.
Proof. intros H. unfold covers. by setoid_rewrite H. Qed.

Lemma merge_spec l :
  Forall range_ok l ->
  separated (mergeRanges l) /\ Forall range_ok (mergeRanges l)
  /\ (forall c, covers (mergeRanges l) c <-> covers l c).
Proof.
  intros Hall. pose proof (start_sorted l) as Hs. pose proof (sort_by_perm range_cmp l) as Hp.
  rewrite <- Hp in Hall. setoid_rewrite <- (covers_perm _ _ _ Hp). unfold mergeRanges.
  destruct (sort_by range_cmp l) as [|x rest]; [done|].
  inversion Hall; subst. destruct (merge_loop_spec x rest) as (? & ? & _ & ?); done.
Qed.

(** ** Tokens *)

Lemma isNumber_iff s : isNumber s = true <-> s <> [] /\ forallb is_digit s = true.
Proof.
  unfold isNumber, rtest, rexec. rewrite rmatch_seq, rmatch_plus_span.
  2: { intros x s' _. done. }
  pose proof (span_app is_digit s) as E. pose proof (takeWhile_all is_digit s) as Ha. split.
  - destruct (takeWhile is_digit s) as [|c w]; [done|]. rewrite rmatch_end.
    destruct (dropWhile is_digit s); [|done]. intros _. rewrite app_nil_r in E. by subst.
  - intros [Hne Hd]. unfold takeWhile, dropWhile. rewrite <- (app_nil_r s), span_prefix by done.
    simpl. by destruct s.
Qed.

Lemma number_value s :
  isNumber s = true -> parse_int s = of_Z (digits_value s) /\ 0 <= digits_value s.
Proof.
  intros [Hne Hd]%isNumber_iff. split; [by apply parse_int_digits | by apply digits_value_nonneg].
Qed.

(** The comparisons of [parseToken] on the values of digit strings. *)
Lemma token_bounds n m :
  0 <= n -> 0 <= m -> num_gt (of_Z n) (of_Z m) = false ->
  num_lt (of_Z n) (of_Z 100) || num_gt (of_Z m) (of_Z 599) = false ->
  100 <= n <= m /\ m <= 599.
Proof.
  intros Hn Hm H1 H2. apply orb_false_iff in H2 as [H2 H3].
  unfold num_gt, num_lt in *. rewrite num_compare_nonneg in H2 by lia.
  rewrite num_compare_antisym, num_compare_nonneg in H3 by lia. simpl in H3.
  rewrite <- Z.compare_antisym in H3.
  destruct (Z.compare_spec n 100), (Z.compare_spec 599 m); try done;
    (rewrite num_compare_antisym, num_compare_nonneg in H1 by lia; simpl in H1;
     rewrite <- Z.compare_antisym in H1; destruct (Z.compare_spec m n); try done; lia).
Qed.

Lemma parseToken_ok t r : parseToken t = Some r -> range_ok r.
Proof.
  unfold parseToken, range_ok. destruct (bool_decide _); [done|]. destruct (includes _ _).
  - destruct (split_char _ _) as [|a [|b [|]]]; try done.
    destruct (negb (isNumber a) || negb (isNumber b)) eqn:E; [done|]. bool_simp.
    destruct (number_value a) as [-> Ha]; [done|]. destruct (number_value b) as [-> Hb]; [done|].
    destruct (_ || _); [done|]. destruct (num_gt _ _) eqn:E1; [done|].
    destruct (num_lt _ _ || _) eqn:E2; [done|]. intros [= <-]. simpl.
    pose proof (token_bounds _ _ Ha Hb E1 E2). rewrite !num_Z_of_Z by lia. lia.
  - destruct (isNumber _) eqn:E; [|done]. simpl.
    destruct (number_value _ E) as [-> Ha].
    destruct (is_finite _); [|done]. destruct (num_lt _ _ || _) eqn:E2; [done|]. intros [= <-]. simpl.
    assert (num_gt (of_Z (digits_value (drop_spaces (trim t)))) (of_Z (digits_value (drop_spaces (trim t)))) = false) as E1.
    { unfold num_gt, num_lt, num_compare. destruct (of_Z _); try done; [by rewrite eqb_reflx|].
      unfold val0. simpl. destruct (QArith_base.Qcompare _ _) eqn:E1; try done.
      apply QArith_base.Qlt_alt in E1. by apply QArith_base.Qlt_irrefl in E1. }
    pose proof (token_bounds _ _ Ha Ha E1 E2). rewrite !num_Z_of_Z by lia. lia.
Qed.

Lemma parse_segments_ok segs rs bad :
  parse_segments segs = (rs, bad) -> Forall range_ok rs.
Proof.
  revert rs bad. induction segs as [|s segs IH]; intros rs bad; cbn [parse_segments].
  { intros [= <- _]. constructor. }
  destruct (parse_segments segs) as [rs' bad'].
  destruct (bool_decide _); [intros [= <- <-]; by eapply IH|].
  destruct (parseToken _) as [r|] eqn:E; intros [= <- <-]; [|by eapply IH].
  constructor; [by eapply parseToken_ok | by eapply IH].
Qed.

(** *** Printed tokens read back *)

Definition is_token_char (c : Z) : bool := is_digit c || (c =? 45).

Lemma token_char_cases c : is_token_char c = true -> 45 <= c <= 57.
Proof. unfold is_token_char, is_digit. rewrite orb_true_iff, andb_true_iff, !Z.leb_le, Z.eqb_eq. lia. Qed.

Lemma small_digits n :
  100 <= n <= 599 -> str_of_Z n = digits_of n /\ digits_of n <> []
  /\ forallb is_digit (digits_of n) = true /\ digits_value (digits_of n) = n.
Proof.
  intros H. destruct (digits_of_spec n) as (? & ? & ?); [lia|].
  unfold str_of_Z. destruct (Z.ltb_spec n 0); [lia | done].
Qed.

Lemma digits_token_char s : forallb is_digit s = true -> forallb is_token_char s = true.
Proof. rewrite !forallb_forall. intros H x Hx. unfold is_token_char. by rewrite H. Qed.

Lemma token_chars r :
  range_ok r -> forallb is_token_char (token_of r) = true /\ token_of r <> [].
Proof.
  intros H. unfold range_ok in H. unfold token_of.
  destruct (small_digits (r_start r)) as (-> & ? & Hs & _); [lia|].
  destruct (small_digits (r_end r)) as (-> & ? & He & _); [lia|].
  destruct (_ =? _); [by split; [apply digits_token_char|]|]. split.
  - by rewrite !forallb_app, (digits_token_char _ Hs), (digits_token_char _ He).
  - by destruct (digits_of (r_start r)).
Qed.

Lemma token_char_not_space c : is_token_char c = true -> is_space c = false.
Proof.
  intros H%token_char_cases. unfold is_space.
  repeat match goal with |- context [Z.leb ?a ?b] => destruct (Z.leb_spec a b); try lia end;
  repeat match goal with |- context [Z.eqb ?a ?b] => destruct (Z.eqb_spec a b); try lia end; done.
Qed.

Lemma token_clean s :
  forallb is_token_char s = true -> trim s = s /\ drop_spaces s = s.
Proof.
  intros H. split.
  - apply trim_trimmed_id. by apply (forallb_trimmed is_token_char); [apply token_char_not_space|].
  - unfold drop_spaces. induction s as [|c s IH]; simpl in *; [done|]. bool_simp.
    apply token_char_cases in H. destruct (Z.eqb_spec c 32); [lia|]. simpl. by rewrite IH.
Qed.

Lemma digits_no_dash s : forallb is_digit s = true -> 45 ∉ s.
Proof. intros H Hin. eapply forallb_elem in Hin; [|done]. done. Qed.

Lemma includes_single c s : includes [c] s = bool_decide (c ∈ s).
Proof.
  apply eq_true_iff_eq. rewrite includes_iff, bool_decide_eq_true. split.
  - intros (a & b & ->). set_solver.
  - intros (a & b & ->)%list_elem_of_split. by exists a, b.
Qed.

Lemma accept_bounds n m :
  100 <= n <= m -> m <= 599 ->
  num_gt (of_Z n) (of_Z m) = false
  /\ num_lt (of_Z n) (of_Z 100) || num_gt (of_Z m) (of_Z 599) = false
  /\ is_finite (of_Z n) = true /\ is_finite (of_Z m) = true.
Proof.
  intros H1 H2. unfold num_gt. rewrite !num_lt_of_Z, !is_finite_of_Z by lia.
  split_and!; try done; [lia|]. apply orb_false_iff. split; apply Z.ltb_ge; lia.
Qed.

Lemma parse_token_of r : range_ok r -> parseToken (token_of r) = Some r.
Proof.
  intros H. pose proof (token_chars r H) as [Hc Hne]. destruct (token_clean _ Hc) as [Ht Hd].
  unfold parseToken. rewrite Ht, Hd, bool_decide_false by done.
  unfold range_ok in H. destruct r as [s e]. simpl in *. unfold token_of in *. simpl in *.
  destruct (small_digits s) as (Es & Hs1 & Hs2 & Hs3); [lia|].
  destruct (small_digits e) as (Ee & He1 & He2 & He3); [lia|].
  destruct (accept_bounds s e) as (B1 & B2 & B3 & B4); [lia..|].
  change (u "-") with [45] in *. rewrite includes_single.
  assert (isNumber (digits_of s) = true) as Ns by (by apply isNumber_iff).
  assert (isNumber (digits_of e) = true) as Ne by (by apply isNumber_iff).
  rewrite Es, Ee. destruct (Z.eqb_spec s e) as [->|].
  - rewrite bool_decide_false by by apply digits_no_dash. rewrite Ne. simpl.
    rewrite parse_int_digits, He3 by done. rewrite B4, B2. simpl. by rewrite num_Z_of_Z by lia.
  - rewrite bool_decide_true by set_solver.
    change ([45] ++ digits_of e) with (45 :: digits_of e).
    rewrite split_char_app, split_char_none by by apply digits_no_dash.
    rewrite Ns, Ne. simpl. rewrite !parse_int_digits, Hs3, He3 by done.
    rewrite B3, B4, B1, B2. simpl. by rewrite !num_Z_of_Z by lia.
Qed.

(** ** The normal form *)

Lemma parse_segments_tokens l :
  Forall range_ok l -> parse_segments (token_of <$> l) = (l, []).
Proof.
  induction 1 as [|r l Hr _ IH]; [done|].
  rewrite fmap_cons. cbn [parse_segments]. rewrite IH.
  destruct (token_chars r Hr) as [Hc Hne]. destruct (token_clean _ Hc) as [-> _].
  by rewrite bool_decide_false, parse_token_of.
Qed.

Lemma merge_separated l : Forall range_ok l -> separated l -> mergeRanges l = l.
Proof.
  intros Hok Hsep.
  assert (StronglySorted start_le l /\ StronglySorted (le_by range_cmp) l
          /\ match l with [] => True | x :: l' => merge_loop x l' = l end) as (_ & Hs & Hm).
  { induction Hok as [|r l Hr Hok IH]; [repeat constructor|].
    assert (separated l) as Hsl by (destruct l; [done | apply Hsep]).
    destruct (IH Hsl) as (I1 & I2 & I3). destruct l as [|x l]; [by repeat constructor|].
    destruct Hsep as [Hgap _]. unfold range_ok in Hr.
    assert (Forall (fun y => r_start r < r_start y) (x :: l)) as Hlt.
    { apply StronglySorted_inv in I1 as [_ I1]. constructor; [lia|].
      eapply Forall_impl; [exact I1|]. unfold start_le. intros y Hy. lia. }
    split_and!; [constructor; [done|]..|].
    - eapply Forall_impl; [exact Hlt|]. unfold start_le. intros y Hy. lia.
    - eapply Forall_impl; [exact Hlt|]. unfold le_by, range_cmp. intros y Hy. simpl in Hy.
      destruct (Z.eqb_spec (r_start r) (r_start y)); simpl; lia.
    - cbn [merge_loop]. destruct (Z.leb_spec (r_start x) (r_end r + 1)); [lia | by rewrite I3]. }
  unfold mergeRanges. rewrite sort_by_id by done. by destruct l.
Qed.

Lemma join_token_chars l :
  Forall range_ok l ->
  forallb (fun c => is_token_char c || (c =? 44)) (join (u ",") (token_of <$> l)) = true
  /\ trimmed (join (u ",") (token_of <$> l)) = true.
Proof.
  assert (forall s, forallb (fun c => is_token_char c || (c =? 44)) s = true -> trimmed s = true) as Ht.
  { intros s. apply forallb_trimmed. intros c. rewrite orb_true_iff, Z.eqb_eq.
    intros [Hc| ->]; [by apply token_char_not_space | done]. }
  intros Hl. assert (forallb (fun c => is_token_char c || (c =? 44)) (join (u ",") (token_of <$> l)) = true)
    as H; [|auto].
  induction Hl as [|r l Hr Hl IH]; [done|]. rewrite fmap_cons.
  assert (forallb (fun c => is_token_char c || (c =? 44)) (token_of r) = true) as Hc.
  { destruct (token_chars r Hr) as [Hc _]. rewrite forallb_forall in *. intros x Hx.
    by rewrite (Hc x Hx). }
  destruct l as [|r' l]; [done|].
  change (join (u ",") (token_of r :: (token_of <$> r' :: l)))
    with (token_of r ++ u "," ++ join (u ",") (token_of <$> r' :: l)).
  by rewrite !forallb_app, Hc, IH.
Qed.

Lemma join_tokens_commas l :
  Forall range_ok l ->
  ascii_commas (join (u ",") (token_of <$> l)) = join (u ",") (token_of <$> l).
Proof.
  intros [H _]%join_token_chars. unfold ascii_commas. set (s := join _ _) in *. clearbody s.
  induction s as [|c s IH]; [done|]. cbn [forallb] in H. apply andb_true_iff in H as [Hc H].
  rewrite fmap_cons, IH by done. destruct (Z.eqb_spec c 65292) as [->|]; [done | done].
Qed.

(** Parsing the printed form of separated ranges. *)
Lemma parse_normal_form l :
  Forall range_ok l -> separated l ->
  parseHttpStatusCodeRules (JStr (join (u ",") (token_of <$> l)))
  = {| ok := true; ranges := l; tokens := token_of <$> l;
       normalized := join (u ",") (token_of <$> l); invalidTokens := [] |}.
Proof.
  intros Hok Hsep. unfold parseHttpStatusCodeRules. cbn [js_nullish is_nullish to_string].
  destruct (join_token_chars l Hok) as [_ Ht]. rewrite trim_trimmed_id by done.
  destruct l as [|r l]; [done|].
  assert (join (u ",") (token_of <$> r :: l) <> []) as Hne.
  { destruct (token_chars r) as [_ Hr]; [by inversion Hok|].
    rewrite fmap_cons. destruct (token_of <$> l); [done|].
    cbn [join]. intros E. by apply app_eq_nil in E as [E _]. }
  rewrite bool_decide_false by done. rewrite join_tokens_commas by done.
  change (u ",") with [44] at 1. rewrite split_join; [|done|].
  - by rewrite parse_segments_tokens, merge_separated.
  - rewrite Forall_fmap. eapply Forall_impl; [exact Hok|]. intros x Hx Hin. simpl in Hin.
    destruct (token_chars x Hx) as [Hc _]. by eapply forallb_elem in Hin; [|exact Hc].
Qed.

(** C7. The merged ranges cover exactly the codes the parsed ranges cover, are
    in ascending order, do not touch, and stay within 100 to 599. *)
Theorem mergeRanges_correct l :
  Forall range_ok l ->
  separated (mergeRanges l) /\ Forall range_ok (mergeRanges l)
  /\ (forall c, covers (mergeRanges l) c <-> covers l c).
Proof. apply merge_spec. Qed.

Lemma mergeRanges_correct_witness :
  let l := [{| r_start := 500; r_end := 504 |}; {| r_start := 429; r_end := 429 |};
            {| r_start := 503; r_end := 510 |}; {| r_start := 430; r_end := 431 |}] in
  separated (mergeRanges l) /\ Forall range_ok (mergeRanges l)
  /\ (forall c, covers (mergeRanges l) c <-> covers l c).
Proof. apply mergeRanges_correct. repeat constructor; unfold range_ok; simpl; lia. Defined.

(** A successful parse is in normal form: its ranges are separated and
    valid, and parsing its normalized text succeeds with the same result. *)
Theorem parse_normalized_idempotent input :
  let p := parseHttpStatusCodeRules input in
  ok p = true ->
  separated (ranges p) /\ Forall range_ok (ranges p)
  /\ parseHttpStatusCodeRules (JStr (normalized p)) = p.
Proof.
  intros p Hok. subst p. unfold parseHttpStatusCodeRules in *.
  destruct (bool_decide _); [done|].
  destruct (parse_segments _) as [rs bad] eqn:E. apply parse_segments_ok in E.
  destruct bad; [|done]. simpl. destruct (merge_spec rs E) as (H1 & H2 & _).
  split_and!; [done | done | by apply parse_normal_form].
Qed.

Lemma parse_normalized_idempotent_witness :
  let p := parseHttpStatusCodeRules (JStr (u " 500 - 599， 404,401-404 ")) in
  parseHttpStatusCodeRules (JStr (normalized p)) = p.
Proof.
  apply (parse_normalized_idempotent (JStr (u " 500 - 599， 404,401-404 "))).
  vm_compute. reflexivity.
Defined.

(** ** Redirects of protected status codes *)

Definition NON_REDIRECTABLE_STATUS_CODES : list Z := [504; 524].

Definition is_1_to_5 (c : Z) : bool := (49 <=? c) && (c <=? 53).
(** [/^[1-5]\d{2}$/] *)
Definition STATUS_REGEX : regex := RChr is_1_to_5 · RChr is_digit · RChr is_digit · REnd.

(** The keys of an object are strings. *)
Definition parseStatusCodeKey (rawKey : jsstr) : option Z :=
  let normalized := trim rawKey in
  if negb (rtest STATUS_REGEX normalized) then None else Some (num_Z (parse_int normalized)).

Definition in_status_range (n : num) : bool := num_ge n (of_Z 100) && num_le n (of_Z 599).

Definition parseStatusCodeMappingTarget (rawValue : jsv) : option Z :=
  match rawValue with
  | JNum n =>
      if is_integer n then (if in_status_range n then Some (num_Z n) else None) else None
  | JStr s =>
      let normalized := trim s in
      if negb (rtest STATUS_REGEX normalized) then None
      else
        let code := parse_int normalized in
        if in_status_range code then Some (num_Z code) else None
  | _ => None
  end.

(** The checks both collectors start with: [None] where they return early. *)
Definition mapping_entries (statusCodeMappingStr : jsv) : option (list (jsstr * jsv)) :=
  match statusCodeMappingStr with
  | JStr s =>
      if bool_decide (trim s = []) then None
      else match json_parse s with
           | Some (JObj o) => Some o
           | _ => None
           end
  | _ => None
  end.

Definition collectInvalidStatusCodeEntries (statusCodeMappingStr : jsv) : list jsstr :=
  match mapping_entries statusCodeMappingStr with
  | None => []
  | Some o =>
      concat ((fun kv =>
        match parseStatusCodeKey kv.1, parseStatusCodeMappingTarget kv.2 with
        | Some _, Some _ => []
        | _, _ => [kv.1 ++ u " → " ++ to_string kv.2]
        end) <$> o)
  end.

Definition redirect_text (from to : Z) : jsstr := str_of_Z from ++ u " -> " ++ str_of_Z to.

(** One turn of the loop over the entries. *)
Definition risky_entry (kv : jsstr * jsv) : list jsstr :=
  match parseStatusCodeKey kv.1, parseStatusCodeMappingTarget kv.2 with
  | Some from, Some to =>
      if negb (bool_decide (from ∈ NON_REDIRECTABLE_STATUS_CODES)) then []
      else if from =? to then []
      else [redirect_text from to]
  | _, _ => []
  end.

Definition collectDisallowedStatusCodeRedirects (statusCodeMappingStr : jsv) : list jsstr :=
  match mapping_entries statusCodeMappingStr with
  | None => []
  | Some o => sort_by str_cmp (uniq (concat (risky_entry <$> o)))
  end.

Definition collectNewDisallowedStatusCodeRedirects (original current : jsv) : list jsstr :=
  let currentRisky := collectDisallowedStatusCodeRedirects current in
  match currentRisky with
  | [] => []
  | _ =>
      let originalRiskySet := collectDisallowedStatusCodeRedirects original in
      List.filter (fun m => negb (bool_decide (m ∈ originalRiskySet))) currentRisky
  end.

(** ** The guard reports exactly the risky redirects *)

(** What the mapping says about one protected code. *)
Definition redirects (mapping : jsv) (from to : Z) : Prop :=
  exists o k v, mapping_entries mapping = Some o /\ (k, v) ∈ o
    /\ parseStatusCodeKey k = Some from /\ parseStatusCodeMappingTarget v = Some to.

Definition risky (mapping : jsv) (m : jsstr) : Prop :=
  exists from to, redirects mapping from to /\ from ∈ NON_REDIRECTABLE_STATUS_CODES
    /\ from <> to /\ m = redirect_text from to.

Lemma elem_of_risky_entry kv m :
  m ∈ risky_entry kv <->
  exists from to, parseStatusCodeKey kv.1 = Some from /\ parseStatusCodeMappingTarget kv.2 = Some to
    /\ from ∈ NON_REDIRECTABLE_STATUS_CODES /\ from <> to /\ m = redirect_text from to.
Proof.
  unfold risky_entry. split.
  - destruct (parseStatusCodeKey _) as [from|]; [|set_solver].
    destruct (parseStatusCodeMappingTarget _) as [to|]; [|set_solver].
    destruct (bool_decide _) eqn:E; simpl; [|set_solver]. bool_simp.
    destruct (Z.eqb_spec from to); [set_solver|]. intros ->%list_elem_of_singleton. eauto 8.
  - intros (from & to & -> & -> & H1 & H2 & ->). rewrite bool_decide_true by done. simpl.
    apply Z.eqb_neq in H2. rewrite H2. set_solver.
Qed.

Lemma elem_of_disallowed mapping m :
  m ∈ collectDisallowedStatusCodeRedirects mapping <-> risky mapping m.
Proof.
  unfold collectDisallowedStatusCodeRedirects, risky, redirects.
  destruct (mapping_entries mapping) as [o|]; [|set_solver].
  rewrite elem_of_sort_by, elem_of_uniq, elem_of_concat_fmap. split.
  - intros ([k v] & Hin & (from & to & ?&?&?&?&?)%elem_of_risky_entry).
    exists from, to. split_and!; try done. exists o, k, v. done.
  - intros (from & to & (o' & k & v & [= <-] & Hin & ?&?) & ?&?&?). exists (k, v).
    split; [done | apply elem_of_risky_entry; eauto 8].
Qed.

(** The guard reports exactly the redirects of 504 and 524 to another
    valid code, once each and in order; the new ones are those of the current
    mapping that the original mapping does not have. *)
Theorem risk_guard_correct original current :
  (forall m, m ∈ collectDisallowedStatusCodeRedirects current <-> risky current m)
  /\ NoDup (collectDisallowedStatusCodeRedirects current)
  /\ StronglySorted (le_by str_cmp) (collectDisallowedStatusCodeRedirects current)
  /\ (forall m, m ∈ collectNewDisallowedStatusCodeRedirects original current
                <-> risky current m /\ ~ risky original m).
Proof.
  split_and!.
  - apply elem_of_disallowed.
  - unfold collectDisallowedStatusCodeRedirects. destruct (mapping_entries _); [|constructor].
    rewrite sort_by_perm. apply NoDup_uniq.
  - unfold collectDisallowedStatusCodeRedirects. destruct (mapping_entries _); [|constructor].
    apply sort_by_sorted, _.
  - intros m. rewrite <- !elem_of_disallowed. unfold collectNewDisallowedStatusCodeRedirects.
    destruct (collectDisallowedStatusCodeRedirects current) as [|x l]; [set_solver|].
    by rewrite elem_of_lfilter, negb_true_iff, bool_decide_eq_false.
Qed.
