(* ===== verification/Sidebar.v ===== *)
(** * Sidebar visibility and user permissions

    Models of web/classic/src/hooks/common/useSidebar.js (the sidebar modules the
    administrator and the user allow) and of
    web/classic/src/hooks/common/useUserPermissions.js.  A hook is its state, the
    handlers that change it, and the queries it returns; a request to the server
    is an argument: [Some data] is the body of the response, [None] a failure. *)

From S2P Require Import Prelude JsString JsNumber JsNumText JsValue JsJson.

(** ** The administrator's configuration *)

Definition flags (l : list string) : jsv := JObj ((fun s => (u s, JBool true)) <$> l).

Definition DEFAULT_ADMIN_CONFIG : list (jsstr * jsv) :=
  [(u "chat", flags ["enabled"; "playground"; "chat"]%string);
   (u "console", flags ["enabled"; "detail"; "token"; "log"; "midjourney"; "task"]%string);
   (u "personal", flags ["enabled"; "topup"; "billing"; "personal"]%string);
   (u "admin", flags ["enabled"; "channel"; "models"; "redemption"; "user"; "referral";
                      "subscription"; "setting"]%string)].

(** One turn of the loop over the saved sections. *)
Definition merge_section (merged : list (jsstr * jsv)) (kv : jsstr * jsv) : list (jsstr * jsv) :=
  let (sectionKey, sectionConfig) := kv in
  if negb (is_object sectionConfig) then merged
  else
    let current := match om_get sectionKey merged with Some v => v | None => JUndef end in
    if negb (truthy current) then
      obj_set sectionKey (JObj (obj_merge [] (entries sectionConfig))) merged
    else
      obj_set sectionKey
        (JObj (obj_merge (obj_merge [] (entries current)) (entries sectionConfig))) merged.

Definition mergeAdminConfig (savedConfig : jsv) : list (jsstr * jsv) :=
  if negb (is_object savedConfig) then DEFAULT_ADMIN_CONFIG
  else fold_left merge_section (entries savedConfig) DEFAULT_ADMIN_CONFIG.

(** [adminConfig]: the value of [status.SidebarModulesAdmin], parsed and merged. *)
Definition admin_config (SidebarModulesAdmin : jsv) : list (jsstr * jsv) :=
  if truthy SidebarModulesAdmin then
    match json_parse (to_string SidebarModulesAdmin) with
    | Some config => mergeAdminConfig config
    | None => mergeAdminConfig JNull
    end
  else mergeAdminConfig JNull.

(** ** The user's configuration *)

Definition default_modules (section : jsv) : list (jsstr * jsv) :=
  fold_left (fun acc kv =>
    if negb (bool_decide (kv.1 = u "enabled")) && truthy kv.2
    then obj_set kv.1 (JBool true) acc else acc)
    (entries section) [(u "enabled", JBool true)].

Definition default_user_config (adminConfig : list (jsstr * jsv)) : jsv :=
  JObj (fold_left (fun acc kv =>
    if truthy (kv.2?."enabled") then obj_set kv.1 (JObj (default_modules kv.2)) acc else acc)
    adminConfig []).

Record sidebar := {
  userConfig : jsv;
  loading : bool;
  hasLoadedOnce : bool
}.

Definition initial_sidebar : sidebar :=
  {| userConfig := JNull; loading := true; hasLoadedOnce := false |}.

(** [v.k], which throws when [v] is null or undefined. *)
Definition get_exc (v : jsv) (k : jsstr) : exc jsv :=
  if is_nullish v then Throw (u "TypeError") else Ret (oget v k).

(** The body of the [try] block: the configuration to store. *)
Definition received_config (adminConfig : list (jsstr * jsv)) (data : jsv) : exc jsv :=
  success ← get_exc data (u "success");
  if truthy success then
    inner ← get_exc data (u "data");
    modules ← get_exc inner (u "sidebar_modules");
    if truthy modules then
      match modules with
      | JStr s => match json_parse s with Some c => Ret c | None => Throw (u "SyntaxError") end
      | _ => Ret modules
      end
    else Ret (default_user_config adminConfig)
  else Ret (default_user_config adminConfig).

(** The state when the call starts, and when the response has arrived. *)
Definition shouldShowLoader (st : sidebar) (withLoading : option bool) : bool :=
  match withLoading with Some b => b | None => negb (hasLoadedOnce st) end.

Definition load_start (st : sidebar) (withLoading : option bool) : sidebar :=
  if shouldShowLoader st withLoading
  then {| userConfig := userConfig st; loading := true; hasLoadedOnce := hasLoadedOnce st |}
  else st.

Definition loadUserConfig (adminConfig : list (jsstr * jsv)) (withLoading : option bool)
    (response : option jsv) (st : sidebar) : sidebar :=
  let show := shouldShowLoader st withLoading in
  let st1 := load_start st withLoading in
  let config :=
    match response with
    | None => default_user_config adminConfig
    | Some data =>
        match received_config adminConfig data with
        | Ret c => c
        | Throw _ => default_user_config adminConfig
        end
    end in
  {| userConfig := config;
     loading := if show then false else loading st1;
     hasLoadedOnce := true |}.

(** ** Several mounted instances

    Instances listen to a global event: the one that refreshes reloads itself
    and the event makes the others reload, without the loading indicator. *)

Record instance := {
  inst_id : Z;
  inst_admin : list (jsstr * jsv);
  inst_state : sidebar
}.

Definition with_state (i : instance) (st : sidebar) : instance :=
  {| inst_id := inst_id i; inst_admin := inst_admin i; inst_state := st |}.

Definition reload (response : option jsv) (i : instance) : instance :=
  if (0 <? length (inst_admin i))%nat
  then with_state i (loadUserConfig (inst_admin i) (Some false) response (inst_state i))
  else i.

(** The listener of an instance. *)
Definition handleRefresh (sourceId : Z) (response : option jsv) (i : instance) : instance :=
  if inst_id i =? sourceId then i else reload response i.

Definition refreshUserConfig (sourceId : Z) (response : Z -> option jsv) (insts : list instance)
  : list instance :=
  let after_own := (fun i => if inst_id i =? sourceId then reload (response (inst_id i)) i else i) <$> insts in
  (fun i => handleRefresh sourceId (response (inst_id i)) i) <$> after_own.

(** ** What is shown *)

Definition section_enabled (userSection : jsv) : bool :=
  if truthy userSection then negb (is_false (userSection?."enabled")) else true.

Definition user_allows (userSection : jsv) (moduleKey : jsstr) : bool :=
  if truthy userSection then negb (is_false (oget userSection moduleKey)) else true.

(** [a && b && c] with boolean [b] and [c] *)
Definition js_and3 (a : jsv) (b c : bool) : jsv :=
  if truthy a then (if b then JBool c else JBool false) else a.

Definition final_section (adminSection userSection : jsv) : list (jsstr * jsv) :=
  if negb (truthy (adminSection?."enabled")) then [(u "enabled", JBool false)]
  else
    let sectionEnabled := section_enabled userSection in
    fold_left (fun acc kv =>
      if bool_decide (kv.1 = u "enabled") then acc
      else obj_set kv.1 (js_and3 kv.2 (user_allows userSection kv.1) sectionEnabled) acc)
      (entries adminSection) [(u "enabled", JBool sectionEnabled)].

Definition finalConfig (adminConfig : list (jsstr * jsv)) (userConfig : jsv) : list (jsstr * jsv) :=
  if bool_decide (adminConfig = []) then []
  else if negb (truthy userConfig) then []
  else
    fold_left (fun acc kv => obj_set kv.1 (JObj (final_section kv.2 (oget userConfig kv.1))) acc)
      adminConfig [].

(** A module key of null or the empty string asks for the section. *)
Definition isModuleVisible (final : list (jsstr * jsv)) (sectionKey : jsstr)
    (moduleKey : option jsstr) : bool :=
  let section := match om_get sectionKey final with Some v => v | None => JUndef end in
  match moduleKey with
  | Some ((_ :: _) as m) => is_true (oget section m)
  | _ => is_true (section?."enabled")
  end.

Definition visible_entry (kv : jsstr * jsv) : bool :=
  negb (bool_decide (kv.1 = u "enabled")) && is_true kv.2.

Definition hasSectionVisibleModules (final : list (jsstr * jsv)) (sectionKey : jsstr) : bool :=
  let section := match om_get sectionKey final with Some v => v | None => JUndef end in
  if negb (truthy (section?."enabled")) then false
  else existsb visible_entry (entries section).

Definition getVisibleModules (final : list (jsstr * jsv)) (sectionKey : jsstr) : list jsstr :=
  let section := match om_get sectionKey final with Some v => v | None => JUndef end in
  if negb (truthy (section?."enabled")) then []
  else (List.filter visible_entry (entries section)).*1.

(** ** Well-formed configurations *)

Definition wf_section (v : jsv) : Prop := exists o, v = JObj o /\ NoDup (o.*1).
Definition wf_config (c : list (jsstr * jsv)) : Prop :=
  NoDup (c.*1) /\ forall k v, om_get k c = Some v -> wf_section v.

Lemma default_wf : wf_config DEFAULT_ADMIN_CONFIG.
Proof.
  split; [apply (bool_decide_unpack _); vm_compute; exact I|].
  intros k v H%om_get_Some_in. unfold DEFAULT_ADMIN_CONFIG in H.
  rewrite !elem_of_cons in H. destruct_or! H; [..|set_solver]; injection H as _ ->;
    eexists; (split; [reflexivity|]); apply (bool_decide_unpack _); vm_compute; exact I.
Qed.

Lemma merge_section_wf c kv : wf_config c -> wf_config (merge_section c kv).
Proof.
  intros [Hnd Hwf]. destruct kv as [k v]. unfold merge_section.
  destruct (negb _); [done|].
  assert (forall o, NoDup (o.*1) -> wf_config (obj_set k (JObj o) c)) as Hset.
  { intros o Ho. split; [by apply obj_set_NoDup|]. intros k' v'. rewrite obj_get_set.
    destruct (decide (k' = k)); [intros [= <-]; by exists o | by apply Hwf]. }
  destruct (negb _); apply Hset; repeat apply obj_merge_NoDup; constructor.
Qed.

Lemma mergeAdminConfig_wf v : wf_config (mergeAdminConfig v).
Proof.
  unfold mergeAdminConfig. destruct (negb _); [apply default_wf|].
  generalize default_wf. generalize DEFAULT_ADMIN_CONFIG.
  induction (entries v) as [|kv l IH]; intros c Hc; simpl; [done|]. by apply IH, merge_section_wf.
Qed.

Lemma admin_config_wf x : wf_config (admin_config x).
Proof. unfold admin_config. destruct (truthy x); [destruct (json_parse _)|]; apply mergeAdminConfig_wf. Qed.

(** Every default section survives the merge. *)
Lemma merge_section_keys c kv k : k ∈ c.*1 -> k ∈ (merge_section c kv).*1.
Proof.
  intros H. destruct kv as [k' v]. unfold merge_section. destruct (negb _); [done|].
  destruct (negb _); apply elem_of_obj_set_keys; by right.
Qed.

Lemma mergeAdminConfig_nonempty v : mergeAdminConfig v <> [].
Proof.
  assert (u "chat" ∈ (mergeAdminConfig v).*1) as H.
  { unfold mergeAdminConfig. destruct (negb _); [set_solver|].
    assert (u "chat" ∈ DEFAULT_ADMIN_CONFIG.*1) as H0 by set_solver. revert H0.
    generalize DEFAULT_ADMIN_CONFIG. induction (entries v) as [|kv l IH]; intros c Hc; simpl; [done|].
    by apply IH, merge_section_keys. }
  intros E. rewrite E in H. set_solver.
Qed.

Lemma admin_config_nonempty x : admin_config x <> [].
Proof.
  unfold admin_config. destruct (truthy x); [destruct (json_parse _)|]; apply mergeAdminConfig_nonempty.
Qed.

(** ** The final configuration *)

Lemma final_section_get o userSection m :
  NoDup (o.*1) -> truthy ((JObj o)?."enabled") = true ->
  om_get m (final_section (JObj o) userSection)
  = if decide (m = u "enabled") then Some (JBool (section_enabled userSection))
    else (fun v => js_and3 v (user_allows userSection m) (section_enabled userSection))
         <$> om_get m o.
Proof.
  intros Hnd Hen. unfold final_section. rewrite Hen. cbn [negb entries].
  set (f := fun acc kv => _).
  assert (forall acc, om_get m (fold_left f o acc)
    = if decide (m = u "enabled") then om_get m acc
      else match om_get m o with
           | Some v => Some (js_and3 v (user_allows userSection m) (section_enabled userSection))
           | None => om_get m acc
           end) as H.
  { clear Hen. induction o as [|[k v] o IH]; intros acc; csimpl; [by destruct (decide _)|].
    apply NoDup_cons in Hnd as [Hk Hnd]. rewrite IH by done. unfold f at 1 2. csimpl.
    case_bool_decide as Ek.
    - subst k. destruct (decide (m = u "enabled")); done.
    - rewrite !obj_get_set. destruct (decide (m = u "enabled")) as [->|].
      + by rewrite decide_False by done.
      + destruct (decide (m = k)) as [->|]; [|done].
        assert (om_get k o = None) as -> by by apply om_get_None. done. }
  rewrite H. simpl. destruct (decide (m = u "enabled")) as [->|]; [done|].
  by destruct (om_get m o).
Qed.

Lemma finalConfig_get c uc s :
  wf_config c -> c <> [] -> truthy uc = true ->
  om_get s (finalConfig c uc)
  = (fun sec => JObj (final_section sec (oget uc s))) <$> om_get s c.
Proof.
  intros [Hnd _] Hne Hu. unfold finalConfig. rewrite bool_decide_false, Hu by done. simpl.
  by rewrite (obj_get_rebuild (fun k sec => JObj (final_section sec (oget uc k)))).
Qed.

(** ** Visibility *)

(** What the administrator and the user say about a module. *)
Definition admin_allows (c : list (jsstr * jsv)) (s m : jsstr) : Prop :=
  exists sec, om_get s c = Some sec /\ truthy (sec?."enabled") = true /\ truthy (oget sec m) = true.

Definition user_shows (uc : jsv) (s m : jsstr) : Prop :=
  section_enabled (oget uc s) = true /\ user_allows (oget uc s) m = true.

Lemma is_true_and3 a b c : is_true (js_and3 a b c) = true <-> truthy a = true /\ b = true /\ c = true.
Proof.
  unfold js_and3. destruct (truthy a) eqn:E; [destruct b, c; simpl; naive_solver|].
  split; [|by intros [? _]]. destruct a as [| |[]| | | |]; done.
Qed.

Lemma visible_iff c uc s m :
  wf_config c -> c <> [] -> m <> [] -> m <> u "enabled" ->
  isModuleVisible (finalConfig c uc) s (Some m) = true
  <-> truthy uc = true /\ admin_allows c s m /\ user_shows uc s m.
Proof.
  intros Hwf Hne Hm Hen. unfold isModuleVisible, admin_allows, user_shows.
  destruct m as [|x m0] eqn:Em; [done|]. rewrite <- Em in *. clear Hm.
  destruct (truthy uc) eqn:Hu.
  2: { unfold finalConfig. rewrite Hu, bool_decide_false by done. simpl. split; [done | by intros [? _]]. }
  rewrite finalConfig_get by done. destruct (om_get s c) as [sec|] eqn:Es; simpl.
  2: { split; [done|]. by intros (_ & (? & ? & _) & _). }
  destruct Hwf as [_ Hwf]. destruct (Hwf s sec Es) as (o & -> & Hnd).
  destruct (truthy ((JObj o)?."enabled")) eqn:Ee.
  - rewrite final_section_get by done. rewrite decide_False by done. simpl.
    destruct (om_get m o) as [v|] eqn:Ev; simpl.
    + rewrite is_true_and3. split.
      * intros (?&?&?). split_and!; try done. eexists. split_and!; [done..|]. by simpl; rewrite Ev.
      * intros (_ & (? & [= <-] & _ & Ht) & ? & ?). simpl in Ht. rewrite Ev in Ht. done.
    + split; [done|]. intros (_ & (? & [= <-] & _ & Ht) & _). simpl in Ht. by rewrite Ev in Ht.
  - unfold final_section. rewrite Ee. simpl. rewrite decide_False by done. split; [done|].
    intros (_ & (? & [= <-] & Ht & _) & _). congruence.
Qed.

(** C6. A module is visible exactly when the user's configuration has been
    loaded, the administrator enables its section and the module, and the user
    hides neither: no user setting shows what the administrator disables. *)
Theorem module_visible_iff SidebarModulesAdmin uc s m :
  m <> [] -> m <> u "enabled" ->
  isModuleVisible (finalConfig (admin_config SidebarModulesAdmin) uc) s (Some m) = true
  <-> truthy uc = true /\ admin_allows (admin_config SidebarModulesAdmin) s m /\ user_shows uc s m.
Proof. apply visible_iff; [apply admin_config_wf | apply admin_config_nonempty]. Qed.

Lemma module_visible_iff_witness :
  let admin := JStr (u "{}") in
  let uc := JObj [(u "console", JObj [(u "token", JBool false)])] in
  isModuleVisible (finalConfig (admin_config admin) uc) (u "console") (Some (u "token")) = true
  <-> truthy uc = true /\ admin_allows (admin_config admin) (u "console") (u "token")
      /\ user_shows uc (u "console") (u "token").
Proof. intros admin uc. apply (module_visible_iff admin uc (u "console") (u "token")); discriminate. Defined.

(** *** The configuration of a user without one *)

Lemma default_modules_get o m :
  NoDup (o.*1) -> m <> u "enabled" ->
  om_get m (default_modules (JObj o))
  = match om_get m o with Some v => if truthy v then Some (JBool true) else None | None => None end.
Proof.
  intros Hnd Hm. unfold default_modules. cbn [entries]. set (f := fun acc kv => _).
  assert (forall acc, om_get m (fold_left f o acc)
    = match om_get m o with
      | Some v => if truthy v then Some (JBool true) else om_get m acc
      | None => om_get m acc
      end) as H.
  { induction o as [|[k v] o IH]; intros acc; csimpl; [done|].
    apply NoDup_cons in Hnd as [Hk Hnd]. rewrite IH by done. unfold f. csimpl.
    destruct (decide (m = k)) as [->|].
    - assert (om_get k o = None) as -> by by apply om_get_None.
      rewrite bool_decide_false by done. simpl. destruct (truthy v); [|done].
      by rewrite obj_get_set, decide_True.
    - destruct (negb _ && _); [|done]. by rewrite obj_get_set, decide_False. }
  rewrite H. simpl. rewrite decide_False by done. by destruct (om_get m o).
Qed.

Lemma default_user_get c s :
  NoDup (c.*1) ->
  oget (default_user_config c) s
  = match om_get s c with
    | Some sec => if truthy (sec?."enabled") then JObj (default_modules sec) else JUndef
    | None => JUndef
    end.
Proof.
  intros Hnd. unfold default_user_config. cbn [oget]. set (f := fun acc kv => _).
  assert (forall acc, om_get s (fold_left f c acc)
    = match om_get s c with
      | Some sec => if truthy (sec?."enabled") then Some (JObj (default_modules sec)) else om_get s acc
      | None => om_get s acc
      end) as H.
  { induction c as [|[k v] c IH]; intros acc; csimpl; [done|].
    apply NoDup_cons in Hnd as [Hk Hnd]. rewrite IH by done. unfold f. csimpl.
    destruct (decide (s = k)) as [->|].
    - assert (om_get k c = None) as -> by by apply om_get_None.
      destruct (truthy (v?."enabled")); [|done]. by rewrite obj_get_set, decide_True.
    - destruct (truthy (v?."enabled")); [|done]. by rewrite obj_get_set, decide_False. }
  rewrite H. simpl. destruct (om_get s c) as [sec|]; [|done]. by destruct (truthy _).
Qed.

Lemma section_enabled_default sec : section_enabled (JObj (default_modules sec)) = true.
Proof.
  unfold section_enabled, default_modules. cbn [truthy]. set (f := fun acc kv => _).
  assert (forall l acc, om_get (u "enabled") acc = Some (JBool true) ->
    om_get (u "enabled") (fold_left f l acc) = Some (JBool true)) as H.
  { induction l as [|[k v] l IH]; intros acc Ha; csimpl; [done|]. apply IH. unfold f. csimpl.
    destruct (negb _ && _) eqn:E; [|done]. bool_simp. by rewrite obj_get_set, decide_False by congruence. }
  cbn [oget]. by rewrite H.
Qed.

(** The default configuration hides nothing the administrator allows. *)
Lemma default_shows c s m :
  wf_config c -> m <> u "enabled" -> admin_allows c s m -> user_shows (default_user_config c) s m.
Proof.
  intros [Hnd Hwf] Hm (sec & Es & Ee & Ht). destruct (Hwf s sec Es) as (o & -> & Ho).
  unfold user_shows. rewrite default_user_get, Es, Ee by done. split; [apply section_enabled_default|].
  unfold user_allows. simpl. rewrite default_modules_get by done.
  simpl in Ht. destruct (om_get m o) as [v|]; [|done]. by rewrite Ht.
Qed.

(** When the request for the user's settings fails, or the user has none,
    the sidebar shows exactly what the administrator allows. *)
Theorem default_config_shows_admin SidebarModulesAdmin withLoading response st s m :
  m <> [] -> m <> u "enabled" ->
  (forall data, response = Some data ->
     truthy (data?."success") = false \/ truthy (data?."data"?."sidebar_modules") = false) ->
  let c := admin_config SidebarModulesAdmin in
  let st' := loadUserConfig c withLoading response st in
  isModuleVisible (finalConfig c (userConfig st')) s (Some m) = true <-> admin_allows c s m.
Proof.
  intros Hm Hen Hr c st'. pose proof (admin_config_wf SidebarModulesAdmin) as Hwf. fold c in Hwf.
  assert (userConfig st' = default_user_config c) as ->.
  { subst st'. simpl. destruct response as [data|]; [|done]. specialize (Hr data eq_refl).
    unfold received_config, get_exc. destruct (is_nullish data); [done|]. simpl.
    destruct (truthy (oget data (u "success"))) eqn:E; [|done]. simpl.
    destruct Hr as [Hr|Hr]; [congruence|].
    destruct (is_nullish (oget data (u "data"))); [done|]. simpl. by rewrite Hr. }
  rewrite visible_iff by (done || apply admin_config_nonempty). split; [tauto|].
  intros Ha. split_and!; [done | done | by apply default_shows].
Qed.

Lemma default_config_shows_admin_witness :
  let c := admin_config (JStr (u "not json")) in
  isModuleVisible (finalConfig c (userConfig (loadUserConfig c None None initial_sidebar)))
    (u "admin") (Some (u "channel")) = true
  <-> admin_allows c (u "admin") (u "channel").
Proof.
  apply (default_config_shows_admin (JStr (u "not json")) None None initial_sidebar (u "admin") (u "channel"));
    [discriminate.. | intros data H; discriminate H].
Defined.

(** ** Lists of visible modules *)

Lemma section_NoDup c uc s o :
  wf_config c -> c <> [] -> om_get s (finalConfig c uc) = Some (JObj o) -> NoDup (o.*1).
Proof.
  intros Hwf Hne. destruct (truthy uc) eqn:Hu.
  2: { unfold finalConfig. by rewrite Hu, bool_decide_false. }
  rewrite finalConfig_get by done. destruct (om_get s c) as [sec|]; [|done].
  simpl. intros [= <-]. unfold final_section. destruct (negb _); [apply NoDup_singleton|].
  set (f := fun acc kv => _).
  assert (forall l acc, NoDup (acc.*1) -> NoDup ((fold_left f l acc).*1)) as H.
  { induction l as [|[k v] l IH]; intros acc Ha; csimpl; [done|]. apply IH. unfold f. csimpl.
    destruct (bool_decide _); [done | by apply obj_set_NoDup]. }
  apply H, NoDup_singleton.
Qed.

Lemma final_is_object c uc s v :
  wf_config c -> c <> [] -> om_get s (finalConfig c uc) = Some v -> exists o, v = JObj o.
Proof.
  intros Hwf Hne. destruct (truthy uc) eqn:Hu.
  2: { unfold finalConfig. by rewrite Hu, bool_decide_false. }
  rewrite finalConfig_get by done. destruct (om_get s c); simpl; [|done]. intros [= <-]. eauto.
Qed.

(** A visible module makes its section visible. *)
Lemma visible_section c uc s m :
  wf_config c -> c <> [] -> m <> [] -> m <> u "enabled" ->
  isModuleVisible (finalConfig c uc) s (Some m) = true ->
  isModuleVisible (finalConfig c uc) s None = true.
Proof.
  intros Hwf Hne Hm Hen Hv. pose proof Hv as Hi.
  apply visible_iff in Hi as (Hu & (sec & Es & Ee & _) & Hse & _); [|done..].
  unfold isModuleVisible. rewrite finalConfig_get, Es by done.
  destruct Hwf as [_ Hwf]. destruct (Hwf s sec Es) as (o & -> & Hnd). cbn [fmap option_fmap option_map oget].
  rewrite final_section_get, decide_True by done. by rewrite Hse.
Qed.

(** The list of visible modules of a section holds exactly the modules that
    are visible one by one, and the section counts as having visible modules
    exactly when that list is not empty. *)
Theorem visible_modules_agree SidebarModulesAdmin uc s m :
  let final := finalConfig (admin_config SidebarModulesAdmin) uc in
  m <> [] ->
  (m ∈ getVisibleModules final s
   <-> m <> u "enabled" /\ isModuleVisible final s (Some m) = true)
  /\ (hasSectionVisibleModules final s = true <-> getVisibleModules final s <> []).
Proof.
  intros final Hm. pose proof (admin_config_wf SidebarModulesAdmin) as Hwf.
  pose proof (admin_config_nonempty SidebarModulesAdmin) as Hne. subst final.
  set (c := admin_config SidebarModulesAdmin) in *. split.
  - split.
    + unfold getVisibleModules, isModuleVisible.
      destruct (om_get s (finalConfig c uc)) as [v|] eqn:Ev; [|set_solver].
      destruct (final_is_object c uc s v) as [o ->]; [done..|].
      destruct (negb _); [set_solver|]. cbn [entries oget].
      rewrite list_elem_of_fmap. intros ([k w] & E & [Hin Hvis]%elem_of_lfilter).
      simpl in E. subst k. unfold visible_entry in Hvis. cbn [fst snd] in Hvis. bool_simp.
      split; [done|]. destruct m as [|x m]; [done|].
      by rewrite (om_in_get (x :: m) w) by (done || by eapply section_NoDup).
    + intros [Hen Hv]. pose proof (visible_section c uc s m Hwf Hne Hm Hen Hv) as Hs.
      unfold getVisibleModules, isModuleVisible in *.
      destruct (om_get s (finalConfig c uc)) as [v|] eqn:Ev; [|by destruct m].
      destruct (final_is_object c uc s v) as [o ->]; [done..|].
      assert (truthy ((JObj o)?."enabled") = true) as ->
        by (destruct ((JObj o)?."enabled") as [| |[]| | | |]; done).
      cbn [negb entries]. destruct m as [|x m]; [done|]. cbn [oget] in Hv.
      destruct (om_get (x :: m) o) as [w|] eqn:Ew; [|done].
      apply list_elem_of_fmap. exists (x :: m, w). split; [done|]. apply elem_of_lfilter.
      split; [by apply om_get_Some_in|]. unfold visible_entry. cbn [fst snd].
      by rewrite bool_decide_false.
  - unfold hasSectionVisibleModules, getVisibleModules.
    destruct (negb _); [split; done|]. rewrite existsb_exists.
    set (l := entries _). clearbody l. split.
    + intros (kv & Hin & Hk) E. assert (kv ∈ List.filter visible_entry l) as H
        by (apply elem_of_lfilter; split; [by apply list_elem_of_In | done]).
      destruct (List.filter visible_entry l); [set_solver | done].
    + intros H. destruct (List.filter visible_entry l) as [|kv r] eqn:E; [done|].
      exists kv. apply filter_In. rewrite E. by left.
Qed.

Lemma visible_modules_agree_witness :
  let final := finalConfig (admin_config JUndef) (JObj []) in
  u "token" ∈ getVisibleModules final (u "console")
  <-> u "token" <> u "enabled" /\ isModuleVisible final (u "console") (Some (u "token")) = true.
Proof. apply (visible_modules_agree JUndef (JObj []) (u "console") (u "token")). discriminate. Defined.

(** ** Refreshing all instances *)

Definition same_view (i : instance) (st : sidebar) : Prop :=
  userConfig (inst_state i) = userConfig st.

(** A refresh reloads every mounted instance exactly once (the one that
    asked by its own call, the others through the event), never touches a
    loading indicator, and leaves instances with the same administrator
    configuration and the same response with the same user configuration. *)
Theorem refresh_reloads_all sourceId response insts :
  refreshUserConfig sourceId response insts
  = (fun i => reload (response (inst_id i)) i) <$> insts
  /\ (forall i, loading (inst_state (reload (response (inst_id i)) i)) = loading (inst_state i))
  /\ (forall i j, inst_admin i = inst_admin j -> inst_admin i <> [] ->
        response (inst_id i) = response (inst_id j) ->
        same_view (reload (response (inst_id i)) i)
          (inst_state (reload (response (inst_id j)) j))).
Proof.
  split_and!.
  - unfold refreshUserConfig. rewrite <- list_fmap_compose. apply list_fmap_ext.
    intros _ i _. unfold compose, handleRefresh.
    destruct (Z.eqb_spec (inst_id i) sourceId) as [E|E].
    + unfold reload. destruct (_ <? _)%nat; simpl; by rewrite E, Z.eqb_refl.
    + apply Z.eqb_neq in E. by rewrite E.
  - intros i. unfold reload. by destruct (_ <? _)%nat.
  - intros i j Ha Hne Hr. unfold same_view, reload. rewrite <- Ha, Hr.
    destruct (inst_admin i) as [|x l] eqn:E; [done|]. reflexivity.
Qed.

Lemma refresh_reloads_all_witness :
  let i := {| inst_id := 1; inst_admin := admin_config JUndef; inst_state := initial_sidebar |} in
  let j := {| inst_id := 2; inst_admin := admin_config JUndef; inst_state := initial_sidebar |} in
  same_view (reload None i) (inst_state (reload None j)).
Proof.
  intros i j. apply (proj2 (proj2 (refresh_reloads_all 1 (fun _ => None) [i; j])) i j);
    [reflexivity | discriminate | reflexivity].
Defined.

(** ** User permissions *)

Module Permissions.

Record state := {
  permissions : jsv;
  loading : bool;
  error : jsv
}.

Definition initial : state := {| permissions := JNull; loading := true; error := JNull |}.

(** [loadPermissions]: the outcome of the [try] block, then [finally]. *)
Definition loadPermissions (response : option jsv) (st : state) : state :=
  let failed := {| permissions := permissions st; loading := false;
                   error := JStr (u "网络错误，请重试") |} in
  match response with
  | None => failed
  | Some data =>
      match get_exc data (u "success") with
      | Throw _ => failed
      | Ret success =>
          if truthy success then
            match get_exc (data?."data") (u "permissions") with
            | Throw _ => failed
            | Ret p => {| permissions := p; loading := false; error := JNull |}
            end
          else {| permissions := permissions st; loading := false;
                  error := js_or (data?."message") (JStr (u "获取权限失败")) |}
      end
  end.

Definition hasSidebarSettingsPermission (p : jsv) : bool := is_true (p?."sidebar_settings").

Definition isSidebarSectionAllowed (p : jsv) (sectionKey : jsstr) : bool :=
  if negb (truthy (p?."sidebar_modules")) then true
  else negb (is_false (oget (p?."sidebar_modules") sectionKey)).

Definition isSidebarModuleAllowed (p : jsv) (sectionKey moduleKey : jsstr) : bool :=
  if negb (truthy (p?."sidebar_modules")) then true
  else
    let sectionPerms := oget (p?."sidebar_modules") sectionKey in
    if is_false sectionPerms then false
    else if truthy sectionPerms && is_false (oget sectionPerms moduleKey) then false
    else true.

Definition getAllowedSidebarSections (p : jsv) : list jsstr :=
  if negb (truthy (p?."sidebar_modules")) then []
  else List.filter (isSidebarSectionAllowed p) (keys (p?."sidebar_modules")).

Definition getAllowedSidebarModules (p : jsv) (sectionKey : jsstr) : list jsstr :=
  if negb (truthy (p?."sidebar_modules")) then []
  else
    let sectionPerms := oget (p?."sidebar_modules") sectionKey in
    if is_false sectionPerms then []
    else if negb (is_object sectionPerms) then []
    else List.filter (fun moduleKey => negb (bool_decide (moduleKey = u "enabled"))
                                       && is_true (oget sectionPerms moduleKey))
           (keys sectionPerms).

(** The permission queries agree with each other: an allowed module lies in
    an allowed section, every listed section and module is allowed, and a
    request that does not succeed keeps the permissions and sets an error. *)
Theorem permission_queries_agree p s m :
  (isSidebarModuleAllowed p s m = true -> isSidebarSectionAllowed p s = true)
  /\ (s ∈ getAllowedSidebarSections p -> isSidebarSectionAllowed p s = true)
  /\ (m ∈ getAllowedSidebarModules p s ->
        isSidebarModuleAllowed p s m = true /\ isSidebarSectionAllowed p s = true)
  /\ (forall response st,
        (forall data, response = Some data -> truthy (data?."success") = false) ->
        let st' := loadPermissions response st in
        permissions st' = permissions st /\ loading st' = false /\ truthy (error st') = true).
Proof.
  split_and!.
  - unfold isSidebarModuleAllowed, isSidebarSectionAllowed.
    destruct (truthy (p?."sidebar_modules")); [|done]. simpl. by destruct (is_false _).
  - unfold getAllowedSidebarSections. destruct (truthy _); simpl; [|set_solver].
    rewrite elem_of_lfilter. by intros [_ ?].
  - unfold getAllowedSidebarModules, isSidebarModuleAllowed, isSidebarSectionAllowed.
    destruct (truthy (p?."sidebar_modules")); simpl; [|set_solver].
    destruct (is_false _); [set_solver|].
    destruct (negb (is_object _)); [set_solver|]. rewrite elem_of_lfilter. intros [_ H]. bool_simp.
    destruct (oget (oget (p?."sidebar_modules") s) m) as [| |[]| | | |]; try done.
    by rewrite andb_false_r.
  - intros [data|] st Hr st'; subst st'; [|done]. specialize (Hr data eq_refl).
    unfold loadPermissions, get_exc. destruct (is_nullish data); [done|]. rewrite Hr. simpl.
    by rewrite truthy_or, orb_true_r.
Qed.

Lemma permission_queries_agree_witness :
  let p := JObj [(u "sidebar_modules", JObj [(u "console", JObj [(u "token", JBool true)])])] in
  isSidebarModuleAllowed p (u "console") (u "token") = true
  /\ isSidebarSectionAllowed p (u "console") = true.
Proof.
  intros p. apply (proj1 (proj2 (proj2 (permission_queries_agree p (u "console") (u "token"))))).
  vm_compute. left.
Defined.

End Permissions.
