(* ===== verification/PricingModel.v ===== *)
(** * Model pricing: numbers, model state and serialization

    The pure part of
    web/classic/src/pages/Setting/Ratio/hooks/useModelPricingEditorState.js: how
    the ratios stored by the server become the prices the editor shows, and how
    the edited prices become ratios again.  The translation function [t] is an
    argument; the parameters of a message are a list. *)

From Stdlib Require Import QArith.
From S2P Require Import Prelude JsString JsNumber JsNumText JsValue JsJson JsRegex RequestRule.

#[local] Open Scope Z_scope.
#[local] Open Scope regex_scope.

Definition PAGE_SIZE : nat := 10.

(** ** Data *)

Record ratios := {
  modelRatio : jsstr;
  completionRatio : jsstr;
  cacheRatio : jsstr;
  createCacheRatio : jsstr;
  imageRatio : jsstr;
  audioRatio : jsstr;
  audioCompletionRatio : jsstr
}.

(** The price fields of a model that the editor changes. *)
Inductive field :=
  | fixedPrice
  | inputPrice
  | completionPrice
  | cachePrice
  | createCachePrice
  | imagePrice
  | audioInputPrice
  | audioOutputPrice.

#[export] Instance field_eq_dec : EqDecision field.
Proof. solve_decision. Defined.

Definition field_name (f : field) : jsstr :=
  match f with
  | fixedPrice => u "fixedPrice"
  | inputPrice => u "inputPrice"
  | completionPrice => u "completionPrice"
  | cachePrice => u "cachePrice"
  | createCachePrice => u "createCachePrice"
  | imagePrice => u "imagePrice"
  | audioInputPrice => u "audioInputPrice"
  | audioOutputPrice => u "audioOutputPrice"
  end.

Record model := {
  name : jsstr;
  billingMode : jsstr;
  price : field -> jsstr;
  lockedCompletionRatio : jsstr;
  completionRatioLocked : bool;
  m_billingExpr : jsstr;
  m_requestRuleExpr : jsstr;
  rawRatios : ratios;
  hasConflict : bool
}.

Definition EMPTY_RATIOS : ratios :=
  {| modelRatio := []; completionRatio := []; cacheRatio := []; createCacheRatio := [];
     imageRatio := []; audioRatio := []; audioCompletionRatio := [] |}.

Definition EMPTY_MODEL : model :=
  {| name := []; billingMode := u "per-token"; price := fun _ => []; lockedCompletionRatio := [];
     completionRatioLocked := false; m_billingExpr := []; m_requestRuleExpr := [];
     rawRatios := EMPTY_RATIOS; hasConflict := false |}.

(** [{ ...m, [f]: v }] *)
Definition set_price (f : field) (v : jsstr) (m : model) : model :=
  {| name := name m; billingMode := billingMode m;
     price := fun g => if decide (g = f) then v else price m g;
     lockedCompletionRatio := lockedCompletionRatio m;
     completionRatioLocked := completionRatioLocked m;
     m_billingExpr := m_billingExpr m; m_requestRuleExpr := m_requestRuleExpr m;
     rawRatios := rawRatios m; hasConflict := hasConflict m |}.

(** ** Numbers *)

(** Digits with an optional fraction, a fraction alone, or nothing. *)
Definition NUMERIC_INPUT_REGEX : regex :=
  ropt (RAlt (rplus (RChr is_digit) · ropt (rlit "." · RStar (RChr is_digit)))
             (rlit "." · RStar (RChr is_digit)))
  · REnd.

Definition PRICING_DISPLAY_DECIMALS : Z := 12.
Definition PRICING_SNAP_DECIMALS : nat := 8.
Definition PRICING_SNAP_EPSILON : num := to_num false (1 # 1000000000000).
Definition EPSILON : num := to_num false (p2 (-52)).

Definition hasValue (value : jsv) : bool :=
  negb (is_str value [] || is_nullish value || is_false value).

(** [value === 0] *)
Definition is_zero (value : jsv) : bool :=
  match value with JNum n => num_eq n (Zero false) | _ => false end.

Definition toNumericString (value : jsv) : jsstr :=
  if negb (hasValue value) && negb (is_zero value) then []
  else
    let n := to_number value in
    if is_finite n then num_to_string n else [].

Definition toNumberOrNull (value : jsv) : option num :=
  if negb (hasValue value) && negb (is_zero value) then None
  else
    let n := to_number value in
    if is_finite n then Some n else None.

Definition roundToDecimals (value : num) (decimals : nat) : num :=
  let factor := of_Z (10 ^ Z.of_nat decimals) in
  num_div (num_round (num_mul value factor)) factor.

(** The loop from [decimals] on, [fuel] turns at most. *)
Fixpoint snap_loop (value tolerance : num) (decimals fuel : nat) : num :=
  match fuel with
  | O => value
  | S fuel' =>
      let rounded := roundToDecimals value decimals in
      if num_le (num_abs (num_sub value rounded)) tolerance then rounded
      else snap_loop value tolerance (S decimals) fuel'
  end.

Definition snapFloatDrift (value : num) : num :=
  let tolerance :=
    num_max PRICING_SNAP_EPSILON (num_mul (num_mul (num_abs value) EPSILON) (of_Z 8)) in
  snap_loop value tolerance 0 (S PRICING_SNAP_DECIMALS).

Definition formatNumber (value : jsv) : jsstr :=
  match toNumberOrNull value with
  | None => []
  | Some n => num_to_string (parse_float (to_fixed PRICING_DISPLAY_DECIMALS (snapFloatDrift n)))
  end.

Definition toNormalizedNumber (value : jsv) : option num :=
  let formatted := formatNumber value in
  if bool_decide (formatted = []) then None else Some (string_to_num formatted).

(** An option of the server: text, or missing. *)
Definition parseOptionJSON (rawValue : option jsstr) : jsv :=
  match rawValue with
  | None => JObj []
  | Some s =>
      if bool_decide (s = []) || bool_decide (trim s = []) then JObj []
      else match json_parse s with
           | Some v => if is_object v then v else JObj []
           | None => JObj []
           end
  end.

Definition ratioToBasePrice (ratio : jsv) : jsstr :=
  match toNumberOrNull ratio with
  | None => []
  | Some n => formatNumber (JNum (num_mul n (of_Z 2)))
  end.

Record ratio_meta := { locked : bool; meta_ratio : jsstr }.

Definition normalizeCompletionRatioMeta (rawMeta : jsv) : ratio_meta :=
  match rawMeta with
  | JObj _ => {| locked := truthy (rawMeta?."locked"); meta_ratio := toNumericString (rawMeta?."ratio") |}
  | _ => {| locked := false; meta_ratio := [] |}
  end.

(** ** From the options to the editor *)

Record source_maps := {
  ModelPrice : jsv;
  ModelRatio : jsv;
  CompletionRatio : jsv;
  CompletionRatioMeta : jsv;
  CacheRatio : jsv;
  CreateCacheRatio : jsv;
  ImageRatio : jsv;
  AudioRatio : jsv;
  AudioCompletionRatio : jsv;
  ModelBillingMode : jsv;
  ModelBillingExpr : jsv
}.

Definition has_text (s : jsstr) : bool := hasValue (JStr s).

(** [base !== null && hasValue(ratio) ? formatNumber(base * Number(ratio)) : ''] *)
Definition derived_price (base : option num) (ratio : jsstr) : jsstr :=
  match base with
  | Some b => if has_text ratio then formatNumber (JNum (num_mul b (string_to_num ratio))) else []
  | None => []
  end.

Definition all_ratios (r : ratios) : list jsstr :=
  [modelRatio r; completionRatio r; cacheRatio r; createCacheRatio r; imageRatio r; audioRatio r;
   audioCompletionRatio r].

Definition buildModelState (nm : jsstr) (sm : source_maps) : exc model :=
  if is_str (oget (ModelBillingMode sm) nm) (u "tiered_expr") then
    full ← as_string (js_or (oget (ModelBillingExpr sm) nm) (JStr []));
    sp ← splitBillingExprAndRequestRules full;
    Ret {| name := nm; billingMode := u "tiered_expr"; price := fun _ => [];
           lockedCompletionRatio := []; completionRatioLocked := false;
           m_billingExpr := billingExpr sp; m_requestRuleExpr := requestRuleExpr sp;
           rawRatios := EMPTY_RATIOS; hasConflict := false |}
  else
    let r := {| modelRatio := toNumericString (oget (ModelRatio sm) nm);
                completionRatio := toNumericString (oget (CompletionRatio sm) nm);
                cacheRatio := toNumericString (oget (CacheRatio sm) nm);
                createCacheRatio := toNumericString (oget (CreateCacheRatio sm) nm);
                imageRatio := toNumericString (oget (ImageRatio sm) nm);
                audioRatio := toNumericString (oget (AudioRatio sm) nm);
                audioCompletionRatio := toNumericString (oget (AudioCompletionRatio sm) nm) |} in
    let meta := normalizeCompletionRatioMeta (oget (CompletionRatioMeta sm) nm) in
    let fixed := toNumericString (oget (ModelPrice sm) nm) in
    let input := ratioToBasePrice (JStr (modelRatio r)) in
    let inputNumber := toNumberOrNull (JStr input) in
    let audioInput := derived_price inputNumber (audioRatio r) in
    let completion := if locked meta then meta_ratio meta else completionRatio r in
    Ret {| name := nm;
           billingMode := if has_text fixed then u "per-request" else u "per-token";
           price := fun f => match f with
             | fixedPrice => fixed
             | inputPrice => input
             | completionPrice => derived_price inputNumber completion
             | cachePrice => derived_price inputNumber (cacheRatio r)
             | createCachePrice => derived_price inputNumber (createCacheRatio r)
             | imagePrice => derived_price inputNumber (imageRatio r)
             | audioInputPrice => audioInput
             | audioOutputPrice =>
                 derived_price (toNumberOrNull (JStr audioInput)) (audioCompletionRatio r)
             end;
           lockedCompletionRatio := meta_ratio meta;
           completionRatioLocked := locked meta;
           m_billingExpr := []; m_requestRuleExpr := [];
           rawRatios := r;
           hasConflict := has_text fixed && existsb has_text (all_ratios r) |}.

Definition isBasePricingUnset (m : model) : bool :=
  negb (bool_decide (billingMode m = u "tiered_expr"))
  && negb (has_text (price m fixedPrice)) && negb (has_text (price m inputPrice)).

(** ** From the editor to the options *)

(** A table of the eight ratio options. *)
Inductive ratio_key :=
  | KModelPrice
  | KModelRatio
  | KCompletionRatio
  | KCacheRatio
  | KCreateCacheRatio
  | KImageRatio
  | KAudioRatio
  | KAudioCompletionRatio.

#[export] Instance ratio_key_eq_dec : EqDecision ratio_key.
Proof. solve_decision. Defined.

Definition RATIO_KEYS : list ratio_key :=
  [KModelPrice; KModelRatio; KCompletionRatio; KCacheRatio; KCreateCacheRatio; KImageRatio;
   KAudioRatio; KAudioCompletionRatio].

Definition key_name (k : ratio_key) : jsstr :=
  match k with
  | KModelPrice => u "ModelPrice"
  | KModelRatio => u "ModelRatio"
  | KCompletionRatio => u "CompletionRatio"
  | KCacheRatio => u "CacheRatio"
  | KCreateCacheRatio => u "CreateCacheRatio"
  | KImageRatio => u "ImageRatio"
  | KAudioRatio => u "AudioRatio"
  | KAudioCompletionRatio => u "AudioCompletionRatio"
  end.

Definition raw_ratio (r : ratios) (k : ratio_key) : jsstr :=
  match k with
  | KModelPrice => []
  | KModelRatio => modelRatio r
  | KCompletionRatio => completionRatio r
  | KCacheRatio => cacheRatio r
  | KCreateCacheRatio => createCacheRatio r
  | KImageRatio => imageRatio r
  | KAudioRatio => audioRatio r
  | KAudioCompletionRatio => audioCompletionRatio r
  end.

(** [hasValue(s) ? toNormalizedNumber(s) : null] *)
Definition normalized_or_null (s : jsstr) : option num :=
  if has_text s then toNormalizedNumber (JStr s) else None.

(** [p !== null ? toNormalizedNumber(p / base) : null] *)
Definition ratio_to (p : option num) (base : num) : option num :=
  match p with Some x => toNormalizedNumber (JNum (num_div x base)) | None => None end.

Definition price_number (m : model) (f : field) : option num := toNumberOrNull (JStr (price m f)).

Definition DEPENDENT_FIELDS : list field :=
  [completionPrice; cachePrice; createCachePrice; imagePrice; audioInputPrice; audioOutputPrice].

Definition hasDependentPrice (m : model) : bool :=
  existsb (fun f => bool_decide (is_Some (price_number m f))) DEPENDENT_FIELDS.

Section Serialize.
Context (t : jsstr -> list (jsstr * jsstr) -> jsstr).

Definition missing_input_message (m : model) : jsstr :=
  t (u "模型 {{name}} 缺少输入价格，无法计算补全/缓存/图片/音频价格对应的倍率") [(u "name", name m)].
Definition missing_audio_message (m : model) : jsstr :=
  t (u "模型 {{name}} 缺少音频输入价格，无法计算音频补全倍率") [(u "name", name m)].

(** The result object: what each key holds, [None] for null. *)
Definition serializeModel (m : model) : exc (ratio_key -> option num) :=
  if bool_decide (billingMode m = u "per-request") then
    Ret (fun k => match k with KModelPrice => normalized_or_null (price m fixedPrice) | _ => None end)
  else
    match price_number m inputPrice with
    | None =>
        if hasDependentPrice m then Throw (missing_input_message m)
        else Ret (fun k => normalized_or_null (raw_ratio (rawRatios m) k))
    | Some base =>
        let audioIn := price_number m audioInputPrice in
        let result k := match k with
          | KModelPrice => None
          | KModelRatio => toNormalizedNumber (JNum (num_div base (of_Z 2)))
          | KCompletionRatio =>
              if completionRatioLocked m then normalized_or_null (completionRatio (rawRatios m))
              else ratio_to (price_number m completionPrice) base
          | KCacheRatio => ratio_to (price_number m cachePrice) base
          | KCreateCacheRatio => ratio_to (price_number m createCachePrice) base
          | KImageRatio => ratio_to (price_number m imagePrice) base
          | KAudioRatio => ratio_to audioIn base
          | KAudioCompletionRatio =>
              match audioIn with
              | Some a => ratio_to (price_number m audioOutputPrice) a
              | None => None
              end
          end in
        match price_number m audioOutputPrice with
        | None => Ret result
        | Some _ =>
            match audioIn with
            | None => Throw (missing_audio_message m)
            | Some a => if num_eq a (Zero false) then Throw (missing_audio_message m) else Ret result
            end
        end
    end.
End Serialize.

(** ** What the editor displays *)

(** [(expr.match(/tier\(/g) || []).length]: matches do not overlap. *)
Fixpoint count_tiers (expr : jsstr) : nat :=
  match expr with
  | [] => O
  | _ :: rest => ((if startsWith (u "tier(") expr then 1 else 0) + count_tiers rest)%nat
  end.

Definition nat_text (n : nat) : jsstr := digits_of (Z.of_nat n).

Record row := { row_key : jsstr; row_value : jsstr }.

Section Display.
Context (t : jsstr -> jsstr).

Definition getModelWarnings (om : option model) : list jsstr :=
  match om with
  | None => []
  | Some m =>
      if bool_decide (billingMode m = u "tiered_expr") then []
      else
        let has f := has_text (price m f) in
        let r := rawRatios m in
        let hasDerivedPricing := existsb has
          [inputPrice; completionPrice; cachePrice; createCachePrice; imagePrice; audioInputPrice;
           audioOutputPrice] in
        let per_token := bool_decide (billingMode m = u "per-token") in
        (if hasConflict m
         then [t (u "当前模型同时存在按次价格和倍率配置，保存时会按当前计费方式覆盖。")] else [])
        ++ (if negb (has inputPrice)
               && existsb has_text [completionRatio r; cacheRatio r; createCacheRatio r; imageRatio r;
                                    audioRatio r; audioCompletionRatio r]
            then [t (u "当前模型存在未显式设置输入倍率的扩展倍率；填写输入价格后会自动换算为价格字段。")]
            else [])
        ++ (if per_token && hasDerivedPricing && negb (has inputPrice)
            then [t (u "按量计费下需要先填写输入价格，才能保存其它价格项。")] else [])
        ++ (if per_token && has audioOutputPrice && negb (has audioInputPrice)
            then [t (u "填写音频补全价格前，需要先填写音频输入价格。")] else [])
  end.

Definition buildSummaryText (m : model) : jsstr :=
  let tiered := bool_decide (billingMode m = u "tiered_expr") in
  let suffix :=
    if tiered && negb (bool_decide (m_requestRuleExpr m = [])) then u "，" ++ t (u "请求规则") else [] in
  if tiered then
    if bool_decide (m_billingExpr m = []) then t (u "表达式计费") ++ suffix
    else
      let tierCount := count_tiers (m_billingExpr m) in
      if (tierCount =? 0)%nat then t (u "表达式计费") ++ suffix
      else t (u "阶梯计费") ++ u " (" ++ nat_text tierCount ++ u " " ++ t (u "档") ++ u ")" ++ suffix
  else if bool_decide (billingMode m = u "per-request") && has_text (price m fixedPrice) then
    t (u "按次") ++ u " $" ++ price m fixedPrice ++ u " / " ++ t (u "次") ++ suffix
  else if has_text (price m inputPrice) then
    let extraCount := length (List.filter (fun f => has_text (price m f)) DEPENDENT_FIELDS) in
    let extraLabel :=
      if (0 <? extraCount)%nat then u "，" ++ t (u "额外价格项") ++ u " " ++ nat_text extraCount else [] in
    t (u "输入") ++ u " $" ++ price m inputPrice ++ extraLabel ++ suffix
  else t (u "未设置价格") ++ suffix.

Definition row_of (k : jsstr) (v : jsstr) : row := {| row_key := k; row_value := v |}.

Definition or_empty (s : jsstr) : jsstr := if has_text s then s else t (u "空").

(** [p !== null ? formatNumber(p / base) : t('空')] *)
Definition format_ratio (p : option num) (base : num) : jsstr :=
  match p with Some x => formatNumber (JNum (num_div x base)) | None => t (u "空") end.

Definition clip60 (s : jsstr) : jsstr := if (60 <? length s)%nat then take 60 s ++ u "..." else s.

Definition buildPreviewRows (om : option model) : list row :=
  match om with
  | None => []
  | Some m =>
      let finalBillingExpr := combineBillingExpr (m_billingExpr m) (m_requestRuleExpr m) in
      let r := rawRatios m in
      if bool_decide (billingMode m = u "tiered_expr") then
        row_of (u "BillingMode") (u "tiered_expr")
        :: (if bool_decide (finalBillingExpr = []) then []
            else
              let tierCount := count_tiers (m_billingExpr m) in
              [row_of (u "BillingExpr")
                 (if (0 <? tierCount)%nat
                  then nat_text tierCount ++ u " " ++ t (u "档") ++ u " — " ++ clip60 finalBillingExpr
                  else clip60 finalBillingExpr)])
      else if bool_decide (billingMode m = u "per-request") then
        [row_of (u "ModelPrice") (or_empty (price m fixedPrice))]
      else
        match price_number m inputPrice with
        | None =>
            (fun k => row_of (key_name k) (or_empty (raw_ratio r k)))
              <$> [KModelRatio; KCompletionRatio; KCacheRatio; KCreateCacheRatio; KImageRatio;
                   KAudioRatio; KAudioCompletionRatio]
        | Some base =>
            let audioIn := price_number m audioInputPrice in
            [row_of (u "ModelRatio") (formatNumber (JNum (num_div base (of_Z 2))));
             row_of (u "CompletionRatio")
               (if completionRatioLocked m
                then (if bool_decide (lockedCompletionRatio m = []) then t (u "空")
                      else lockedCompletionRatio m) ++ u " (" ++ t (u "后端固定") ++ u ")"
                else format_ratio (price_number m completionPrice) base);
             row_of (u "CacheRatio") (format_ratio (price_number m cachePrice) base);
             row_of (u "CreateCacheRatio") (format_ratio (price_number m createCachePrice) base);
             row_of (u "ImageRatio") (format_ratio (price_number m imagePrice) base);
             row_of (u "AudioRatio") (format_ratio audioIn base);
             row_of (u "AudioCompletionRatio")
               (match price_number m audioOutputPrice, audioIn with
                | Some o, Some a =>
                    if num_eq a (Zero false) then t (u "空") else formatNumber (JNum (num_div o a))
                | _, _ => t (u "空")
                end)]
        end
  end.
End Display.

(** The switches of the optional fields: a table from field names to booleans. *)
Definition buildOptionalFieldToggles (m : model) : list (jsstr * bool) :=
  [(u "completionPrice", completionRatioLocked m || has_text (price m completionPrice));
   (u "cachePrice", has_text (price m cachePrice));
   (u "createCachePrice", has_text (price m createCachePrice));
   (u "imagePrice", has_text (price m imagePrice));
   (u "audioInputPrice", has_text (price m audioInputPrice));
   (u "audioOutputPrice", has_text (price m audioOutputPrice))].
