(* ===== verification/PricingEditor.v ===== *)
(** * Model pricing: the editor

    The stateful part of
    web/classic/src/pages/Setting/Ratio/hooks/useModelPricingEditorState.js: the
    state of the hook, its effects and its handlers.  [localeCompare], the case
    tables, [t] and the server are arguments. *)

From S2P Require Import Prelude JsString JsNumber JsNumText JsValue JsJson JsRegex RequestRule PricingModel.

(** ** State *)

Notation toggles := (list (jsstr * list (jsstr * bool))) (only parsing).

Record editor := {
  models : list model;
  initialVisibleModelNames : list jsstr;
  selectedModelName : jsstr;
  selectedModelNames : list jsstr;
  searchText : jsstr;
  currentPage : nat;
  loading : bool;
  conflictOnly : bool;
  optionalFieldToggles : toggles
}.

Definition initial_editor : editor :=
  {| models := []; initialVisibleModelNames := []; selectedModelName := []; selectedModelNames := [];
     searchText := []; currentPage := 1; loading := false; conflictOnly := false;
     optionalFieldToggles := [] |}.

Definition set_models (ms : list model) (e : editor) : editor :=
  {| models := ms; initialVisibleModelNames := initialVisibleModelNames e;
     selectedModelName := selectedModelName e; selectedModelNames := selectedModelNames e;
     searchText := searchText e; currentPage := currentPage e; loading := loading e;
     conflictOnly := conflictOnly e; optionalFieldToggles := optionalFieldToggles e |}.
Definition set_selected (n : jsstr) (e : editor) : editor :=
  {| models := models e; initialVisibleModelNames := initialVisibleModelNames e;
     selectedModelName := n; selectedModelNames := selectedModelNames e;
     searchText := searchText e; currentPage := currentPage e; loading := loading e;
     conflictOnly := conflictOnly e; optionalFieldToggles := optionalFieldToggles e |}.
Definition set_selected_names (ns : list jsstr) (e : editor) : editor :=
  {| models := models e; initialVisibleModelNames := initialVisibleModelNames e;
     selectedModelName := selectedModelName e; selectedModelNames := ns;
     searchText := searchText e; currentPage := currentPage e; loading := loading e;
     conflictOnly := conflictOnly e; optionalFieldToggles := optionalFieldToggles e |}.
Definition set_view (txt : jsstr) (page : nat) (conflict : bool) (e : editor) : editor :=
  {| models := models e; initialVisibleModelNames := initialVisibleModelNames e;
     selectedModelName := selectedModelName e; selectedModelNames := selectedModelNames e;
     searchText := txt; currentPage := page; loading := loading e;
     conflictOnly := conflict; optionalFieldToggles := optionalFieldToggles e |}.
Definition set_page (page : nat) (e : editor) : editor :=
  set_view (searchText e) page (conflictOnly e) e.
Definition set_toggles (tg : toggles) (e : editor) : editor :=
  {| models := models e; initialVisibleModelNames := initialVisibleModelNames e;
     selectedModelName := selectedModelName e; selectedModelNames := selectedModelNames e;
     searchText := searchText e; currentPage := currentPage e; loading := loading e;
     conflictOnly := conflictOnly e; optionalFieldToggles := tg |}.

(** The [filterMode] argument of the hook. *)
Inductive filter_mode := FilterAll | FilterUnset.

(** The options of the server, by key. *)
Notation options := (list (jsstr * jsstr)) (only parsing).

Definition option_of (opts : options) (k : string) : jsv := parseOptionJSON (om_get (u k) opts).

Definition sourceMaps (opts : options) : source_maps :=
  {| ModelPrice := option_of opts "ModelPrice";
     ModelRatio := option_of opts "ModelRatio";
     CompletionRatio := option_of opts "CompletionRatio";
     CompletionRatioMeta := option_of opts "CompletionRatioMeta";
     CacheRatio := option_of opts "CacheRatio";
     CreateCacheRatio := option_of opts "CreateCacheRatio";
     ImageRatio := option_of opts "ImageRatio";
     AudioRatio := option_of opts "AudioRatio";
     AudioCompletionRatio := option_of opts "AudioCompletionRatio";
     ModelBillingMode := option_of opts "billing_setting.billing_mode";
     ModelBillingExpr := option_of opts "billing_setting.billing_expr" |}.

Definition model_names (candidates : list jsstr) (sm : source_maps) : list jsstr :=
  uniq (candidates ++ keys (ModelPrice sm) ++ keys (ModelRatio sm) ++ keys (CompletionRatio sm)
        ++ keys (CompletionRatioMeta sm) ++ keys (CacheRatio sm) ++ keys (CreateCacheRatio sm)
        ++ keys (ImageRatio sm) ++ keys (AudioRatio sm) ++ keys (AudioCompletionRatio sm)
        ++ keys (ModelBillingMode sm) ++ keys (ModelBillingExpr sm)).

(** ** What is visible *)

Definition visibleModels (fm : filter_mode) (e : editor) : list model :=
  match fm with
  | FilterUnset =>
      List.filter (fun m => bool_decide (name m ∈ initialVisibleModelNames e)) (models e)
  | FilterAll => models e
  end.

Definition has_name (n : jsstr) (l : list model) : bool :=
  existsb (fun m => bool_decide (name m = n)) l.

Definition selectedModel (fm : filter_mode) (e : editor) : option model :=
  List.find (fun m => bool_decide (name m = selectedModelName e)) (visibleModels fm e).

Section View.
Context `{UnicodeCase} (fm : filter_mode).

Definition filteredModels (e : editor) : list model :=
  List.filter (fun m =>
    let keyword := toLowerCase (trim (searchText e)) in
    let keywordMatch :=
      if bool_decide (keyword = []) then true else includes keyword (toLowerCase (name m)) in
    let conflictMatch := if conflictOnly e then hasConflict m else true in
    keywordMatch && conflictMatch) (visibleModels fm e).

(** Pages count from 1. *)
Definition pagedData (e : editor) : list model :=
  let start := ((currentPage e - 1) * PAGE_SIZE)%nat in
  take PAGE_SIZE (drop start (filteredModels e)).
End View.

Definition head_name (l : list model) : jsstr := match l with m :: _ => name m | [] => [] end.

(** ** Effects *)

(** The effect that loads the options.  [localeCompare] sorts the models. *)
Definition load_options (localeCompare : jsstr -> jsstr -> Z) (fm : filter_mode)
    (candidates : list jsstr) (opts : options) (e : editor) : exc editor :=
  let sm := sourceMaps opts in
  built ← exc_map (fun n => buildModelState n sm) (model_names candidates sm);
  let nextModels := sort_by (fun a b => localeCompare (name a) (name b)) built in
  let nextVisible := match fm with
    | FilterUnset => List.filter isBasePricingUnset nextModels
    | FilterAll => nextModels
    end in
  Ret {| models := nextModels;
         initialVisibleModelNames := name <$> nextVisible;
         selectedModelName :=
           if negb (bool_decide (selectedModelName e = [])) && has_name (selectedModelName e) nextModels
           then selectedModelName e else head_name nextVisible;
         selectedModelNames := selectedModelNames e;
         searchText := searchText e; currentPage := currentPage e; loading := loading e;
         conflictOnly := conflictOnly e;
         optionalFieldToggles :=
           fold_left (fun acc m => obj_set (name m) (buildOptionalFieldToggles m) acc) nextModels [] |}.

(** The effect on [visibleModels] that prunes the checked models. *)
Definition prune_checked (fm : filter_mode) (e : editor) : editor :=
  set_selected_names
    (List.filter (fun n => has_name n (visibleModels fm e)) (selectedModelNames e)) e.

(** The effect that keeps the selection on a visible model. *)
Definition fix_selection (fm : filter_mode) (e : editor) : editor :=
  match visibleModels fm e with
  | [] => set_selected [] e
  | (m :: _) as vis =>
      if has_name (selectedModelName e) vis then e else set_selected (name m) e
  end.

(** What runs after a change of the models or of the selection. *)
Definition settle (fm : filter_mode) (e : editor) : editor := fix_selection fm (prune_checked fm e).

(** ** Handlers *)

Definition upsertModel (n : jsstr) (updater : model -> model) (e : editor) : editor :=
  set_models ((fun m => if negb (bool_decide (name m = n)) then m else updater m) <$> models e) e.

(** [optionalFieldToggles[n] || {}] *)
Definition toggles_of (tg : toggles) (n : jsstr) : list (jsstr * bool) :=
  match om_get n tg with Some l => l | None => [] end.

Definition isOptionalFieldEnabled (e : editor) (om : option model) (f : field) : bool :=
  match om with
  | None => false
  | Some m =>
      match om_get (field_name f) (toggles_of (optionalFieldToggles e) (name m)) with
      | Some b => b
      | None =>
          match om_get (field_name f) (buildOptionalFieldToggles m) with Some b => b | None => false end
      end
  end.

Definition updateOptionalFieldToggle (n : jsstr) (f : field) (checked : bool) (e : editor) : editor :=
  let tg := optionalFieldToggles e in
  set_toggles (obj_set n (obj_set (field_name f) checked (toggles_of tg n)) tg) e.

Definition handleOptionalFieldToggle (fm : filter_mode) (f : field) (checked : bool) (e : editor)
  : editor :=
  match selectedModel fm e with
  | None => e
  | Some sel =>
      let e1 := updateOptionalFieldToggle (name sel) f checked e in
      if checked then e1
      else
        let audio := bool_decide (f = audioInputPrice) in
        let e2 := upsertModel (name sel) (fun m =>
          let next := set_price f [] m in
          if audio then set_price audioOutputPrice [] next else next) e1 in
        if audio then
          let tg := optionalFieldToggles e2 in
          set_toggles (obj_set (name sel)
            (obj_set (u "audioOutputPrice") false
               (obj_set (u "audioInputPrice") false (toggles_of tg (name sel)))) tg) e2
        else e2
  end.

(** [!hasValue(price) && hasValue(ratio) ? formatNumber(base * Number(ratio)) : price] *)
Definition fill_price (base : num) (current ratio : jsstr) : jsstr :=
  if negb (has_text current) && has_text ratio
  then formatNumber (JNum (num_mul base (string_to_num ratio))) else current.

Definition fillDerivedPricesFromBase (m : model) (nextInputPrice : jsstr) : model :=
  match toNumberOrNull (JStr nextInputPrice) with
  | None => m
  | Some base =>
      let r := rawRatios m in
      {| name := name m; billingMode := billingMode m;
         price := fun f => match f with
           | fixedPrice | inputPrice => price m f
           | completionPrice =>
               if completionRatioLocked m && has_text (lockedCompletionRatio m)
               then formatNumber (JNum (num_mul base (string_to_num (lockedCompletionRatio m))))
               else fill_price base (price m completionPrice) (completionRatio r)
           | cachePrice => fill_price base (price m cachePrice) (cacheRatio r)
           | createCachePrice => fill_price base (price m createCachePrice) (createCacheRatio r)
           | imagePrice => fill_price base (price m imagePrice) (imageRatio r)
           | audioInputPrice => fill_price base (price m audioInputPrice) (audioRatio r)
           | audioOutputPrice =>
               if negb (has_text (price m audioOutputPrice)) && has_text (audioRatio r)
                  && has_text (audioCompletionRatio r)
               then formatNumber (JNum (num_mul (num_mul base (string_to_num (audioRatio r)))
                                                (string_to_num (audioCompletionRatio r))))
               else price m audioOutputPrice
           end;
         lockedCompletionRatio := lockedCompletionRatio m;
         completionRatioLocked := completionRatioLocked m;
         m_billingExpr := m_billingExpr m; m_requestRuleExpr := m_requestRuleExpr m;
         rawRatios := r; hasConflict := hasConflict m |}
  end.

Definition handleNumericFieldChange (fm : filter_mode) (f : field) (value : jsstr) (e : editor)
  : editor :=
  match selectedModel fm e with
  | None => e
  | Some sel =>
      if negb (rtest NUMERIC_INPUT_REGEX value) then e
      else upsertModel (name sel) (fun m =>
        let updated := set_price f value m in
        if bool_decide (f = inputPrice) then fillDerivedPricesFromBase updated value else updated) e
  end.

Definition set_mode (value expr rules : jsstr) (m : model) : model :=
  {| name := name m; billingMode := value; price := price m;
     lockedCompletionRatio := lockedCompletionRatio m;
     completionRatioLocked := completionRatioLocked m;
     m_billingExpr := expr; m_requestRuleExpr := rules;
     rawRatios := rawRatios m; hasConflict := hasConflict m |}.

(** [tier("base", p * 0 + c * 0)] *)
Definition DEFAULT_TIER_EXPR : jsstr :=
  u "tier(" ++ [34] ++ u "base" ++ [34] ++ u ", p * 0 + c * 0)".

Definition handleBillingModeChange (fm : filter_mode) (value : jsstr) (e : editor) : editor :=
  match selectedModel fm e with
  | None => e
  | Some sel =>
      upsertModel (name sel) (fun m =>
        set_mode value
          (if bool_decide (value = u "tiered_expr") && bool_decide (m_billingExpr m = [])
           then DEFAULT_TIER_EXPR else m_billingExpr m)
          (m_requestRuleExpr m) m) e
  end.

Definition handleBillingExprChange (fm : filter_mode) (newExpr : jsstr) (e : editor) : editor :=
  match selectedModel fm e with
  | None => e
  | Some sel =>
      upsertModel (name sel) (fun m => set_mode (billingMode m) newExpr (m_requestRuleExpr m) m) e
  end.

Definition handleRequestRuleExprChange (fm : filter_mode) (newExpr : jsstr) (e : editor) : editor :=
  match selectedModel fm e with
  | None => e
  | Some sel =>
      upsertModel (name sel) (fun m => set_mode (billingMode m) (m_billingExpr m) newExpr m) e
  end.

(** A new model with default prices. *)
Definition new_model (n : jsstr) : model :=
  {| name := n; billingMode := u "per-token"; price := fun _ => []; lockedCompletionRatio := [];
     completionRatioLocked := false; m_billingExpr := []; m_requestRuleExpr := [];
     rawRatios := EMPTY_RATIOS; hasConflict := false |}.

(** The result is the state, whether the model was added, and the error shown. *)
Definition addModel (modelName : jsstr) (e : editor) : editor * bool * option jsstr :=
  let trimmedName := trim modelName in
  if bool_decide (trimmedName = []) then (e, false, Some (u "请输入模型名称"))
  else if has_name trimmedName (models e) then (e, false, Some (u "模型名称已存在"))
  else
    let m := new_model trimmedName in
    let e1 := set_models (m :: models e) e in
    let e2 := set_toggles (obj_set trimmedName (buildOptionalFieldToggles m) (optionalFieldToggles e)) e1 in
    (set_page 1 (set_selected trimmedName e2), true, None).

Definition deleteModel (n : jsstr) (e : editor) : editor :=
  let nextModels := List.filter (fun m => negb (bool_decide (name m = n))) (models e) in
  let e1 := set_models nextModels e in
  let e2 := set_toggles (om_del n (optionalFieldToggles e)) e1 in
  let e3 := set_selected_names
    (List.filter (fun i => negb (bool_decide (i = n))) (selectedModelNames e)) e2 in
  if bool_decide (selectedModelName e = n) then set_selected (head_name nextModels) e3 else e3.

(** The prices of the template, with the target's own locked completion ratio. *)
Definition apply_template (sel m : model) : model :=
  let relock := bool_decide (billingMode sel = u "per-token") && completionRatioLocked m
    && has_text (price sel inputPrice) && has_text (lockedCompletionRatio m) in
  {| name := name m; billingMode := billingMode sel;
     price := fun f =>
       if bool_decide (f = completionPrice) && relock
       then formatNumber (JNum (num_mul (string_to_num (price sel inputPrice))
                                        (string_to_num (lockedCompletionRatio m))))
       else price sel f;
     lockedCompletionRatio := lockedCompletionRatio m;
     completionRatioLocked := completionRatioLocked m;
     m_billingExpr := m_billingExpr sel; m_requestRuleExpr := m_requestRuleExpr sel;
     rawRatios := rawRatios m; hasConflict := hasConflict m |}.

Definition template_toggles (source : list (jsstr * bool)) (target : option model)
  : list (jsstr * bool) :=
  let on k := match om_get (u k) source with Some b => b | None => false end in
  [(u "completionPrice",
     if match target with Some m => completionRatioLocked m | None => false end then true
     else on "completionPrice"%string);
   (u "cachePrice", on "cachePrice"%string);
   (u "createCachePrice", on "createCachePrice"%string);
   (u "imagePrice", on "imagePrice"%string);
   (u "audioInputPrice", on "audioInputPrice"%string);
   (u "audioOutputPrice", on "audioInputPrice"%string && on "audioOutputPrice"%string)].

Definition applySelectedModelPricing (fm : filter_mode) (e : editor) : editor * bool * option jsstr :=
  match selectedModel fm e with
  | None => (e, false, Some (u "请先选择一个作为模板的模型"))
  | Some sel =>
      match selectedModelNames e with
      | [] => (e, false, Some (u "请先勾选需要批量设置的模型"))
      | names =>
          let source := toggles_of (optionalFieldToggles e) (name sel) in
          let e1 := set_models
            ((fun m => if bool_decide (name m ∈ names) then apply_template sel m else m) <$> models e) e in
          let tg := fold_left (fun acc n =>
            obj_set n (template_toggles source
                         (List.find (fun m => bool_decide (name m = n)) (models e))) acc)
            names (optionalFieldToggles e) in
          (set_toggles tg e1, true, None)
      end
  end.

(** ** Saving *)

(** The ten tables, by option key. *)
Record output := {
  ratio_table : ratio_key -> list (jsstr * jsv);
  mode_table : list (jsstr * jsv);
  expr_table : list (jsstr * jsv)
}.

Definition empty_output : output :=
  {| ratio_table := fun _ => []; mode_table := []; expr_table := [] |}.

Section Submit.
Context (t : jsstr -> list (jsstr * jsstr) -> jsstr).

(** One turn of the loop over the models. *)
Definition submit_model (out : output) (m : model) : exc output :=
  let tiered := bool_decide (billingMode m = u "tiered_expr") in
  let finalBillingExpr := combineBillingExpr (m_billingExpr m) (m_requestRuleExpr m) in
  let out1 :=
    if tiered && negb (bool_decide (finalBillingExpr = [])) then
      {| ratio_table := ratio_table out;
         mode_table := obj_set (name m) (JStr (u "tiered_expr")) (mode_table out);
         expr_table := obj_set (name m) (JStr finalBillingExpr) (expr_table out) |}
    else out in
  match serializeModel t m with
  | Throw msg => if tiered then Ret out1 else Throw msg
  | Ret s =>
      Ret {| ratio_table := fun k =>
               match s k with
               | Some n => obj_set (name m) (JNum n) (ratio_table out1 k)
               | None => ratio_table out1 k
               end;
             mode_table := mode_table out1; expr_table := expr_table out1 |}
  end.

Fixpoint submit_models (out : output) (ms : list model) : exc output :=
  match ms with
  | [] => Ret out
  | m :: ms' => out' ← submit_model out m; submit_models out' ms'
  end.

Definition table_text (o : list (jsstr * jsv)) : jsstr :=
  match stringify2 0 (JObj o) with Some s => s | None => [] end.

(** The [PUT /api/option/] requests: key and value. *)
Definition requestQueue (out : output) : list (jsstr * jsstr) :=
  ((fun k => (key_name k, table_text (ratio_table out k))) <$> RATIO_KEYS)
  ++ [(u "billing_setting.billing_mode", table_text (mode_table out));
      (u "billing_setting.billing_expr", table_text (expr_table out))].

(** What a submission does: the requests it sends, whether it reports success,
    and the error it shows. *)
Record submission := {
  sent : list (jsstr * jsstr);
  succeeded : bool;
  shown_error : option jsstr
}.

Definition failed_text : jsstr := t (u "保存失败，请重试") [].

(** [error.message || t(...)] *)
Definition error_text (msg : jsstr) : jsstr := if bool_decide (msg = []) then failed_text else msg.

(** The first response without success. *)
Fixpoint check_results (results : list jsv) : option jsstr :=
  match results with
  | [] => None
  | res :: rest =>
      if truthy (res?."data"?."success") then check_results rest
      else Some (to_string (js_or (res?."data"?."message") (JStr failed_text)))
  end.

(** [server] answers the queue, or fails with a message; [refresh] may fail.  The loading
    flag of the page, set before and cleared in every case after, is not part of the editor. *)
Definition handleSubmit (server : list (jsstr * jsstr) -> exc (list jsv)) (refresh : exc unit)
    (e : editor) : submission :=
  match submit_models empty_output (models e) with
  | Throw msg => {| sent := []; succeeded := false; shown_error := Some (error_text msg) |}
  | Ret out =>
      let q := requestQueue out in
      match server q with
      | Throw msg => {| sent := q; succeeded := false; shown_error := Some (error_text msg) |}
      | Ret results =>
          match check_results results with
          | Some msg => {| sent := q; succeeded := false; shown_error := Some (error_text msg) |}
          | None =>
              match refresh with
              | Ret _ => {| sent := q; succeeded := true; shown_error := None |}
              | Throw msg => {| sent := q; succeeded := true; shown_error := Some (error_text msg) |}
              end
          end
      end
  end.
End Submit.
