(* ===== verification/PricingThms.v ===== *)
(** * Model pricing: theorems

    Invariants of the editor, what saving sends, and the cases in which ratios
    survive or do not survive loading and saving. *)

From Stdlib Require Import QArith Qabs Qround Lqa.
From S2P Require Import Prelude JsString JsNumber JsNumText JsValue JsJson JsRegex RequestRule PricingModel PricingEditor.

#[local] Open Scope Z_scope.

(** ** Events *)

Inductive event :=
  | EToggle (f : field) (checked : bool)
  | ENumeric (f : field) (value : jsstr)
  | EMode (value : jsstr)
  | EExpr (value : jsstr)
  | ERules (value : jsstr)
  | EAdd (modelName : jsstr)
  | EDelete (n : jsstr)
  | EApply
  | ESelect (n : jsstr)
  | ECheck (ns : list jsstr)
  | ESearch (txt : jsstr)
  | EConflict (b : bool)
  | EPage (p : nat).

(** The handler of an event and whether it replaces the list of models, which
    is when the effects on the visible models run. *)
Definition handle (fm : filter_mode) (ev : event) (e : editor) : editor * bool :=
  match ev with
  | EToggle f checked =>
      (handleOptionalFieldToggle fm f checked e,
       negb checked && bool_decide (is_Some (selectedModel fm e)))
  | ENumeric f v =>
      (handleNumericFieldChange fm f v e,
       bool_decide (is_Some (selectedModel fm e)) && rtest NUMERIC_INPUT_REGEX v)
  | EMode v => (handleBillingModeChange fm v e, bool_decide (is_Some (selectedModel fm e)))
  | EExpr v => (handleBillingExprChange fm v e, bool_decide (is_Some (selectedModel fm e)))
  | ERules v => (handleRequestRuleExprChange fm v e, bool_decide (is_Some (selectedModel fm e)))
  | EAdd n => ((addModel n e).1.1, (addModel n e).1.2)
  | EDelete n => (deleteModel n e, true)
  | EApply => ((applySelectedModelPricing fm e).1.1, (applySelectedModelPricing fm e).1.2)
  | ESelect n => (set_selected n e, false)
  | ECheck ns => (set_selected_names ns e, false)
  | ESearch txt => (set_view txt 1 (conflictOnly e) e, false)
  | EConflict b => (set_view (searchText e) 1 b e, false)
  | EPage p => (set_page p e, false)
  end.

(** A handler, then the effects it triggers.  The effect on the selection also
    runs when only the selected name changed. *)
Definition step (fm : filter_mode) (ev : event) (e : editor) : editor :=
  let (e', changed) := handle fm ev e in
  if (changed : bool) then settle fm e' else fix_selection fm e'.

Section Reach.
Context (localeCompare : jsstr -> jsstr -> Z) (fm : filter_mode).

(** Loading the options, at first and after every change of them. *)
Inductive reachable : editor -> Prop :=
  | reach_initial : reachable initial_editor
  | reach_load candidates opts e e' :
      reachable e -> load_options localeCompare fm candidates opts e = Ret e' ->
      reachable (settle fm e')
  | reach_step ev e : reachable e -> reachable (step fm ev e).

(** ** Invariant *)

Record editor_inv (e : editor) : Prop := {
  inv_names : NoDup (name <$> models e);
  inv_selected : match visibleModels fm e with
                 | [] => selectedModelName e = []
                 | vis => has_name (selectedModelName e) vis = true
                 end
}.

Lemma has_name_iff n l : has_name n l = true <-> n ∈ name <$> l.
Proof.
  unfold has_name. rewrite existsb_exists, list_elem_of_fmap. split.
  - intros (m & Hin & Hm). bool_simp. exists m. split; [done | by apply list_elem_of_In].
  - intros (m & -> & Hin). exists m. split; [by apply list_elem_of_In | by apply bool_decide_eq_true].
Qed.

Lemma fix_selection_inv e : NoDup (name <$> models e) -> editor_inv (fix_selection fm e).
Proof.
  intros Hnd. unfold fix_selection. destruct (visibleModels fm e) as [|m vis] eqn:Ev.
  - split; [done|]. by destruct fm; simpl in *; rewrite Ev.
  - destruct (has_name (selectedModelName e) (m :: vis)) eqn:Eh.
    + split; [done | by rewrite Ev].
    + split; [done|]. assert (visibleModels fm (set_selected (name m) e) = m :: vis) as ->
        by (by destruct fm). cbn [selectedModelName set_selected].
      apply has_name_iff. set_solver.
Qed.

Lemma settle_inv e : NoDup (name <$> models e) -> editor_inv (settle fm e).
Proof. intros H. by apply fix_selection_inv. Qed.

Lemma upsert_names n f e :
  (forall m, name (f m) = name m) -> name <$> models (upsertModel n f e) = name <$> models e.
Proof.
  intros Hf. simpl. rewrite <- list_fmap_compose. apply list_fmap_ext. intros _ m _.
  unfold compose. destruct (negb _); [done | apply Hf].
Qed.

Lemma toggle_names f checked e :
  name <$> models (handleOptionalFieldToggle fm f checked e) = name <$> models e.
Proof.
  unfold handleOptionalFieldToggle. destruct (selectedModel fm e) as [sel|]; [|done].
  destruct checked; [done|]. destruct (bool_decide (f = audioInputPrice));
    by apply (upsert_names _ _ (updateOptionalFieldToggle (name sel) f false e)).
Qed.

Lemma numeric_names f v e :
  name <$> models (handleNumericFieldChange fm f v e) = name <$> models e.
Proof.
  unfold handleNumericFieldChange. destruct (selectedModel fm e); [|done].
  destruct (negb _); [done|]. apply upsert_names. intros m'.
  destruct (bool_decide _); [|done]. unfold fillDerivedPricesFromBase. by destruct (toNumberOrNull _).
Qed.

Lemma apply_names e :
  name <$> models (applySelectedModelPricing fm e).1.1 = name <$> models e.
Proof.
  unfold applySelectedModelPricing. destruct (selectedModel fm e) as [sel|]; [|done].
  destruct (selectedModelNames e) as [|n ns]; [done|]. simpl.
  rewrite <- list_fmap_compose. apply list_fmap_ext. intros _ m _. unfold compose.
  by destruct (bool_decide _).
Qed.

Lemma filter_fmap_NoDup {A B} (f : A -> B) (p : A -> bool) (l : list A) :
  NoDup (f <$> l) -> NoDup (f <$> List.filter p l).
Proof.
  induction l as [|x l IH]; csimpl; [done|]. intros [Hx Hl]%NoDup_cons.
  destruct (p x); csimpl; [|by apply IH]. constructor; [|by apply IH].
  rewrite list_elem_of_fmap in *. intros (y & E & [Hy _]%elem_of_lfilter). eauto.
Qed.

Lemma handle_NoDup ev e : NoDup (name <$> models e) -> NoDup (name <$> models (handle fm ev e).1).
Proof.
  intros H. destruct ev; simpl; try done.
  - by rewrite toggle_names.
  - by rewrite numeric_names.
  - unfold handleBillingModeChange. destruct (selectedModel fm e); [by rewrite upsert_names | done].
  - unfold handleBillingExprChange. destruct (selectedModel fm e); [by rewrite upsert_names | done].
  - unfold handleRequestRuleExprChange. destruct (selectedModel fm e); [by rewrite upsert_names | done].
  - unfold addModel. destruct (bool_decide _); [done|].
    destruct (has_name _ _) eqn:E; [done|]. simpl. constructor; [|done].
    intros Hin%has_name_iff. congruence.
  - unfold deleteModel. destruct (bool_decide _); simpl;
      by apply filter_fmap_NoDup.
  - by rewrite apply_names.
Qed.

Lemma step_inv ev e : editor_inv e -> editor_inv (step fm ev e).
Proof.
  intros [Hnd _]. pose proof (handle_NoDup ev e Hnd) as H. unfold step.
  destruct (handle fm ev e) as [e' []]; [by apply settle_inv | by apply fix_selection_inv].
Qed.

Lemma buildModelState_name n sm m : buildModelState n sm = Ret m -> name m = n.
Proof.
  unfold buildModelState. destruct (is_str _ _).
  - destruct (as_string _); [|done]. simpl. destruct (splitBillingExprAndRequestRules a); [|done].
    simpl. intros H%Ret_inj. by rewrite <- H.
  - intros H%Ret_inj. by rewrite <- H.
Qed.

Lemma exc_map_names sm ns ms :
  exc_map (fun n => buildModelState n sm) ns = Ret ms -> name <$> ms = ns.
Proof.
  revert ms. induction ns as [|n ns IH]; intros ms; simpl; [by intros [= <-]|].
  destruct (buildModelState n sm) as [m|] eqn:E; [|done]. simpl.
  destruct (exc_map _ ns) as [ms'|]; [|done]. simpl. intros [= <-]. csimpl.
  by rewrite (buildModelState_name n sm m), (IH ms').
Qed.

Lemma load_NoDup candidates opts e e' :
  load_options localeCompare fm candidates opts e = Ret e' -> NoDup (name <$> models e').
Proof.
  unfold load_options. destruct (exc_map _ _) as [built|] eqn:E; [|done]. simpl. intros [= <-]. simpl.
  rewrite sort_by_perm, (exc_map_names _ _ _ E). apply NoDup_uniq.
Qed.

Lemma reachable_inv e : reachable e -> editor_inv e.
Proof.
  induction 1 as [|candidates opts e e' _ _ Hl|ev e _ IH].
  - split; [constructor | by destruct fm].
  - apply settle_inv. by eapply load_NoDup.
  - by apply step_inv.
Qed.
End Reach.

(** ** The editor's invariant *)

(** C5. In every state the editor can reach by loading options and handling
    events, model names are unique, and a model is selected exactly when some
    model is visible. *)
Theorem editor_invariant localeCompare fm e :
  reachable localeCompare fm e ->
  NoDup (name <$> models e)
  /\ (visibleModels fm e = [] -> selectedModelName e = [] /\ selectedModel fm e = None)
  /\ (visibleModels fm e <> [] ->
      exists m, selectedModel fm e = Some m /\ name m = selectedModelName e /\ m ∈ models e).
Proof.
  intros [Hnd Hsel]%reachable_inv. unfold selectedModel. split_and!; [done|..].
  - intros E. rewrite E in *. done.
  - intros Hne. destruct (visibleModels fm e) as [|m0 vis] eqn:Ev; [done|]. rewrite <- Ev in *.
    apply has_name_iff, list_elem_of_fmap in Hsel as (m & Hn & Hin).
    destruct (List.find _ (visibleModels fm e)) as [m'|] eqn:Ef.
    + apply find_some in Ef as [Hin' Hm']. bool_simp. exists m'. split_and!; [done..|].
      destruct fm; simpl in Hin'; [by apply list_elem_of_In|].
      by apply filter_In in Hin' as [?%list_elem_of_In _].
    + exfalso. eapply find_none in Ef; [|by apply list_elem_of_In]. bool_simp. congruence.
Qed.

Lemma editor_invariant_witness :
  let e := step FilterAll (EAdd (u " gpt-5 ")) initial_editor in
  exists m, selectedModel FilterAll e = Some m /\ name m = selectedModelName e /\ m ∈ models e.
Proof.
  intros e.
  apply (proj2 (proj2 (editor_invariant str_cmp FilterAll e
           (reach_step str_cmp FilterAll (EAdd (u " gpt-5 ")) initial_editor
              (reach_initial str_cmp FilterAll))))).
  discriminate.
Defined.

(** Adding a model is refused, and changes nothing, exactly for a blank
    name or a name in use; otherwise the trimmed name heads the list and is
    selected on the first page.  Deleting a model removes it and only it. *)
Theorem add_delete_model n e :
  ((addModel n e).1.2 = false
   <-> trim n = [] \/ trim n ∈ name <$> models e)
  /\ ((addModel n e).1.2 = false -> (addModel n e).1.1 = e)
  /\ ((addModel n e).1.2 = true ->
        name <$> models (addModel n e).1.1 = trim n :: (name <$> models e)
        /\ selectedModelName (addModel n e).1.1 = trim n /\ currentPage (addModel n e).1.1 = 1%nat)
  /\ (forall m, m ∈ models (deleteModel n e) <-> m ∈ models e /\ name m <> n)
  /\ (n ∉ selectedModelNames (deleteModel n e))
  /\ om_get n (optionalFieldToggles (deleteModel n e)) = None.
Proof.
  assert (models (deleteModel n e) = List.filter (fun m => negb (bool_decide (name m = n))) (models e)
    /\ selectedModelNames (deleteModel n e)
       = List.filter (fun i => negb (bool_decide (i = n))) (selectedModelNames e)
    /\ optionalFieldToggles (deleteModel n e) = om_del n (optionalFieldToggles e)) as (E1 & E2 & E3).
  { unfold deleteModel. by destruct (bool_decide _). }
  rewrite E1, E2, E3. unfold addModel. split_and!.
  - case_bool_decide as Hb; [naive_solver|]. destruct (has_name _ _) eqn:Eh; simpl.
    + apply has_name_iff in Eh. naive_solver.
    + split; [done|]. intros [?|H%has_name_iff]; [done | congruence].
  - case_bool_decide; [done|]. by destruct (has_name _ _).
  - case_bool_decide; [done|]. by destruct (has_name _ _).
  - intros m. rewrite elem_of_lfilter, negb_true_iff, bool_decide_eq_false. done.
  - rewrite elem_of_lfilter, negb_true_iff, bool_decide_eq_false. tauto.
  - apply om_get_del_eq.
Qed.

Lemma add_delete_model_witness :
  name <$> models (addModel (u " a ") initial_editor).1.1 = [u "a"].
Proof. apply (proj1 (proj2 (proj2 (add_delete_model (u " a ") initial_editor)))). reflexivity. Defined.

(** ** Serialization *)

(** The conditions under which a model cannot be saved. *)
Definition unsaveable (m : model) : Prop :=
  billingMode m <> u "per-request"
  /\ ((price_number m inputPrice = None /\ exists f, f ∈ DEPENDENT_FIELDS /\ is_Some (price_number m f))
      \/ (is_Some (price_number m inputPrice) /\ is_Some (price_number m audioOutputPrice)
          /\ (price_number m audioInputPrice = None
              \/ exists a, price_number m audioInputPrice = Some a /\ num_eq a (Zero false) = true))).

Lemma hasDependentPrice_iff m :
  hasDependentPrice m = true <-> exists f, f ∈ DEPENDENT_FIELDS /\ is_Some (price_number m f).
Proof.
  unfold hasDependentPrice. rewrite existsb_exists. setoid_rewrite <- list_elem_of_In.
  by setoid_rewrite bool_decide_eq_true.
Qed.

(** Serialization fails exactly for a model billed by tokens that has a
    derived price without an input price, or an audio completion price without
    a non-zero audio input price. *)
Theorem serializeModel_throws_iff t m :
  (exists msg, serializeModel t m = Throw msg) <-> unsaveable m.
Proof.
  unfold serializeModel, unsaveable. case_bool_decide as Hm.
  { split; [by intros [? ?] | tauto]. }
  destruct (price_number m inputPrice) as [base|] eqn:Ei.
  - destruct (price_number m audioOutputPrice) as [o|] eqn:Eo.
    + destruct (price_number m audioInputPrice) as [a|] eqn:Ea.
      * destruct (num_eq a (Zero false)) eqn:E0.
        { split; [|by eauto]. intros _. split; [done|]. right. split_and!; eauto. }
        split; [by intros [? ?]|]. intros (_ & [[? _]|(_ & _ & [?|(a' & [= <-] & ?)])]); congruence.
      * split; [|by eauto]. intros _. split; [done|]. right. eauto.
    + split; [by intros [? ?]|]. intros (_ & [[? _]|(_ & [? ?] & _)]); congruence.
  - destruct (hasDependentPrice m) eqn:Eh.
    + split; [|by eauto]. intros _. split; [done|]. left. split; [done|]. by apply hasDependentPrice_iff.
    + split; [by intros [? ?]|]. intros (_ & [[_ H%hasDependentPrice_iff]|([? ?] & _)]); congruence.
Qed.

(** ** Saving *)

Section Saving.
Context (t : jsstr -> list (jsstr * jsstr) -> jsstr).

Definition tiered (m : model) : bool := bool_decide (billingMode m = u "tiered_expr").

(** What a model contributes to a ratio table and to the tables of billing modes and
    expressions. *)
Definition saved_ratio (m : model) (k : ratio_key) : option jsv :=
  match serializeModel t m with Ret s => JNum <$> s k | Throw _ => None end.
Definition final_expr (m : model) : jsstr := combineBillingExpr (m_billingExpr m) (m_requestRuleExpr m).
Definition by_expression (m : model) : bool := tiered m && negb (bool_decide (final_expr m = [])).
Definition saved_mode (m : model) : option jsv :=
  if by_expression m then Some (JStr (u "tiered_expr")) else None.
Definition saved_expr (m : model) : option jsv := if by_expression m then Some (JStr (final_expr m)) else None.

(** The ten tables. *)
Inductive slot := SRatio (k : ratio_key) | SMode | SExpr.
Definition table_of (out : output) (s : slot) : list (jsstr * jsv) :=
  match s with SRatio k => ratio_table out k | SMode => mode_table out | SExpr => expr_table out end.
Definition saved (m : model) (s : slot) : option jsv :=
  match s with SRatio k => saved_ratio m k | SMode => saved_mode m | SExpr => saved_expr m end.

Definition or_else {A} (a b : option A) : option A := match a with Some _ => a | None => b end.

(** One model changes the entries of its own name only. *)
Lemma submit_model_get out m out' n s :
  submit_model t out m = Ret out' ->
  om_get n (table_of out' s)
  = if decide (n = name m) then or_else (saved m s) (om_get n (table_of out s)) else om_get n (table_of out s).
Proof.
  unfold submit_model, saved, saved_ratio, saved_mode, saved_expr, by_expression, final_expr, tiered, or_else.
  destruct (serializeModel t m) as [r|msg].
  - intros <-%Ret_inj. destruct s as [k| |]; cbn [table_of ratio_table mode_table expr_table].
    + destruct (_ && _); cbn [ratio_table];
        (destruct (r k); simpl; [rewrite obj_get_set|]; by destruct (decide (n = name m))).
    + destruct (_ && _); cbn [mode_table]; [rewrite obj_get_set|]; by destruct (decide (n = name m)).
    + destruct (_ && _); cbn [expr_table]; [rewrite obj_get_set|]; by destruct (decide (n = name m)).
  - destruct (bool_decide _); [|done]. intros <-%Ret_inj.
    destruct s as [k| |]; cbn [table_of]; destruct (_ && _); cbn [ratio_table mode_table expr_table];
      rewrite ?obj_get_set; by destruct (decide (n = name m)).
Qed.

Definition fails (m : model) : bool :=
  negb (tiered m) && match serializeModel t m with Throw _ => true | Ret _ => false end.

Lemma submit_model_fails out m :
  (exists msg, submit_model t out m = Throw msg) <-> fails m = true.
Proof.
  unfold submit_model, fails, tiered. destruct (serializeModel t m) as [s|msg].
  - rewrite andb_false_r. split; [by intros [? ?] | done].
  - destruct (bool_decide _); simpl; split; try done; [by intros [? ?] | eauto].
Qed.

Lemma submit_models_fails out ms :
  (exists msg, submit_models t out ms = Throw msg) <-> existsb fails ms = true.
Proof.
  revert out. induction ms as [|m ms IH]; intros out; simpl; [split; [by intros [? ?] | done]|].
  destruct (submit_model t out m) as [out'|msg] eqn:E; simpl.
  - destruct (fails m) eqn:Ef; [|apply IH]. apply submit_model_fails with (out := out) in Ef as [? ?].
    congruence.
  - assert (fails m = true) as -> by (apply (submit_model_fails out); eauto). simpl. split; eauto.
Qed.

(** The tables after all models: each model decides the entry of its name. *)
Lemma submit_models_get ms out out' :
  NoDup (name <$> ms) -> submit_models t out ms = Ret out' ->
  (forall m s, m ∈ ms -> om_get (name m) (table_of out' s) = or_else (saved m s) (om_get (name m) (table_of out s)))
  /\ (forall n s, n ∉ name <$> ms -> om_get n (table_of out' s) = om_get n (table_of out s)).
Proof.
  revert out. induction ms as [|m ms IH]; intros out; csimpl.
  { intros _ <-%Ret_inj. split; [set_solver|done]. }
  intros [Hm Hnd]%NoDup_cons. destruct (submit_model t out m) as [out1|] eqn:E; [|done]. simpl.
  intros H. destruct (IH out1 Hnd H) as (I1 & I2).
  pose proof (fun n s => submit_model_get out m out1 n s E) as Hone. split.
  - intros m' s [->|Hin]%elem_of_cons.
    + rewrite I2, Hone by done. by rewrite decide_True.
    + rewrite I1, Hone by done. rewrite decide_False; [done|].
      intros En. apply Hm. rewrite <- En. apply list_elem_of_fmap. eauto.
  - intros n s Hn. apply not_elem_of_cons in Hn as [Hne Hn]. rewrite I2, Hone by done. by rewrite decide_False.
Qed.
End Saving.

(** C4. Saving, for models with distinct names: if a model that is not billed by expression
    cannot be serialized, no request is sent and an error is shown.  Otherwise ten requests
    are sent, and under the name of each model each ratio table holds exactly the value the
    model serializes to, the table of billing modes [tiered_expr] and that of expressions the
    combined expression when the model is billed by one that is not empty; nothing is in the
    tables under any other name.  A model billed by expression that cannot be serialized does
    not stop the save: it is sent without ratios. *)
Theorem submit_all_or_nothing t server refresh e :
  NoDup (name <$> models e) ->
  let s := handleSubmit t server refresh e in
  (existsb (fails t) (models e) = true ->
     sent s = [] /\ succeeded s = false /\ is_Some (shown_error s))
  /\ (existsb (fails t) (models e) = false ->
     exists out, sent s = requestQueue out
       /\ (sent s).*1 = (key_name <$> RATIO_KEYS)
                        ++ [u "billing_setting.billing_mode"; u "billing_setting.billing_expr"]
       /\ (forall m k, m ∈ models e -> om_get (name m) (ratio_table out k) = saved_ratio t m k)
       /\ (forall m, m ∈ models e -> om_get (name m) (mode_table out) = saved_mode m)
       /\ (forall m, m ∈ models e -> om_get (name m) (expr_table out) = saved_expr m)
       /\ (forall n s', n ∉ name <$> models e -> om_get n (table_of out s') = None)).
Proof.
  intros Hnd s. subst s. unfold handleSubmit. split.
  - intros H. apply (submit_models_fails t empty_output) in H as [msg ->]. simpl. eauto.
  - intros H. destruct (submit_models t empty_output (models e)) as [out|msg] eqn:E.
    2: { assert (existsb (fails t) (models e) = true)
           by (apply (submit_models_fails t empty_output); eauto). congruence. }
    exists out. destruct (submit_models_get t (models e) empty_output out Hnd E) as (H1 & H2).
    assert (Hempty : forall n s', om_get n (table_of empty_output s') = None) by (by intros ? []).
    assert (Hsaved : forall m s', m ∈ models e -> om_get (name m) (table_of out s') = saved t m s').
    { intros m s' Hm. rewrite H1, Hempty by done. by destruct (saved t m s'). }
    match goal with |- sent ?x = _ /\ _ => assert (Hs : sent x = requestQueue out) end.
    { destruct (server _) as [results|]; [|done]. destruct (check_results _ _); [done|]. by destruct refresh. }
    rewrite Hs. split_and!; [done|reflexivity| | | |].
    + intros m k Hm. by apply (Hsaved m (SRatio k)).
    + intros m Hm. by apply (Hsaved m SMode).
    + intros m Hm. by apply (Hsaved m SExpr).
    + intros n s' Hn. by rewrite H2, Hempty.
Qed.

Lemma submit_all_or_nothing_witness :
  let e := step FilterAll (EAdd (u "m")) initial_editor in
  exists out, sent (handleSubmit (fun k _ => k) (fun _ => Ret []) (Ret tt) e) = requestQueue out.
Proof.
  intros e. edestruct (proj2 (submit_all_or_nothing (fun k _ => k) (fun _ => Ret []) (Ret tt) e
    ltac:(apply (bool_decide_unpack _); vm_compute; exact I))) as (out & H & _).
  - vm_compute. reflexivity.
  - exists out. exact H.
Defined.

(** ** Ratios that are not kept *)

(** A model stored with expression billing loads without any of its stored
    ratios, so saving the loaded model writes no entry for it in any of the
    eight ratio tables, whatever ratios the options had. *)
Theorem tiered_ratios_lost t n sm m :
  is_str (oget (ModelBillingMode sm) n) (u "tiered_expr") = true ->
  buildModelState n sm = Ret m ->
  name m = n /\ (forall k, saved_ratio t m k = None).
Proof.
  intros Hm H. split; [by eapply buildModelState_name|]. intros k.
  unfold buildModelState in H. rewrite Hm in H.
  destruct (as_string _) as [full|]; [|done]. cbn [mbind exc_bind] in H.
  destruct (splitBillingExprAndRequestRules full) as [sp|]; [|done]. cbn [mbind exc_bind] in H.
  apply Ret_inj in H. subst m. unfold saved_ratio, serializeModel.
  rewrite bool_decide_false by done. simpl. by destruct k.
Qed.

Definition tiered_source : source_maps :=
  {| ModelPrice := JObj []; ModelRatio := JObj [(u "m", JNum (of_Z 5))]; CompletionRatio := JObj [];
     CompletionRatioMeta := JObj []; CacheRatio := JObj []; CreateCacheRatio := JObj [];
     ImageRatio := JObj []; AudioRatio := JObj []; AudioCompletionRatio := JObj [];
     ModelBillingMode := JObj [(u "m", JStr (u "tiered_expr"))];
     ModelBillingExpr := JObj [(u "m", JStr (u "p * 2"))] |}.

Lemma tiered_ratios_lost_witness :
  exists m, buildModelState (u "m") tiered_source = Ret m
    /\ forall k, saved_ratio (fun k _ => k) m k = None.
Proof.
  eexists. split; [vm_compute; reflexivity|]. intros k.
  refine (proj2 (tiered_ratios_lost (fun k _ => k) (u "m") tiered_source _ _ _) k);
    vm_compute; reflexivity.
Defined.

Lemma normalized_infinite x : is_finite x = false -> toNormalizedNumber (JNum x) = None.
Proof.
  intros H. unfold toNormalizedNumber, formatNumber, toNumberOrNull. cbn [to_number hasValue].
  rewrite H. destruct (_ && _); done.
Qed.

Lemma div_zero_infinite x s : is_finite (num_div x (Zero s)) = false.
Proof. by destruct x. Qed.

(** With an input price of zero every dependent price is dropped on saving:
    the stored ratio of cache, cache creation, image and audio input, and of
    completion unless it is locked, is null whatever price was entered. *)
Theorem zero_input_price_drops t m k s :
  billingMode m <> u "per-request" ->
  price_number m inputPrice = Some (Zero false) -> completionRatioLocked m = false ->
  serializeModel t m = Ret s ->
  k ∈ [KCompletionRatio; KCacheRatio; KCreateCacheRatio; KImageRatio; KAudioRatio] ->
  s k = None.
Proof.
  intros Hm Hp Hl H Hk. unfold serializeModel in H. rewrite bool_decide_false, Hp, Hl in H by done.
  assert (forall p, ratio_to p (Zero false) = None) as Hr.
  { intros [x|]; [|done]. apply normalized_infinite, div_zero_infinite. }
  rewrite !elem_of_cons in Hk.
  destruct (price_number m audioOutputPrice) as [o|].
  - destruct (price_number m audioInputPrice) as [a|] eqn:Ea; [|done].
    destruct (num_eq a (Zero false)); [done|]. apply Ret_inj in H. subst s.
    destruct_or! Hk; subst; try apply Hr. set_solver.
  - apply Ret_inj in H. subst s. destruct_or! Hk; subst; try apply Hr. set_solver.
Qed.

Definition free_input : model :=
  set_price cachePrice (u "3") (set_price inputPrice (u "0") (new_model (u "m"))).

Lemma zero_input_price_drops_witness :
  exists s, serializeModel (fun k _ => k) free_input = Ret s /\ s KCacheRatio = None.
Proof.
  eexists. split; [vm_compute; reflexivity|].
  refine (zero_input_price_drops (fun k _ => k) free_input KCacheRatio _ _ _ _ _ _);
    [discriminate | vm_compute; reflexivity | reflexivity | vm_compute; reflexivity |].
  right; left.
Defined.

(** ** Ratios that are kept *)

(** Natural numbers that print and read back exactly. *)
Definition safe (n : Z) : Prop := 0 <= n < 2 ^ 53.

Section Integers.
Context (n : Z) (Hn : safe n).

Lemma safe_str : str_of_Z n = digits_of n.
Proof using Hn. unfold safe in Hn. unfold str_of_Z. destruct (Z.ltb_spec n 0); [lia | done]. Qed.

Lemma hasValue_num x : hasValue (JNum x) = true.
Proof using. done. Qed.

Lemma number_of_int : toNumberOrNull (JNum (of_Z n)) = Some (of_Z n).
Proof using Hn.
  unfold toNumberOrNull. rewrite hasValue_num. cbn [negb andb to_number].
  unfold safe in Hn. by rewrite is_finite_of_Z by lia.
Qed.

Lemma snap_int : snapFloatDrift (of_Z n) = of_Z n.
Proof using Hn.
  unfold safe in Hn. unfold snapFloatDrift. cbn [snap_loop].
  assert (roundToDecimals (of_Z n) 0 = of_Z n) as ->.
  { unfold roundToDecimals. change (10 ^ Z.of_nat 0) with 1.
    rewrite num_mul_of_Z, Z.mul_1_r, num_round_of_Z by lia.
    rewrite <- (Z.mul_1_r n) at 1. by rewrite num_div_of_Z by lia. }
  assert (num_le (num_abs (num_sub (of_Z n) (of_Z n)))
    (num_max PRICING_SNAP_EPSILON (num_mul (num_mul (num_abs (of_Z n)) EPSILON) (of_Z 8))) = true) as ->;
    [|done].
  assert (num_abs (num_sub (of_Z n) (of_Z n)) = Zero false) as ->.
  { destruct (num_sub_self (of_Z n)) as [-> | ->]; [apply is_finite_of_Z; lia | done..]. }
  apply nonneg_le, num_max_nonneg; [by vm_compute|].
  unfold num_abs. rewrite is_neg_of_Z by lia.
  assert (is_finite (num_mul (of_Z n) EPSILON) = true) as Hf.
  { rewrite num_mul_finite by (done || (apply is_finite_of_Z; lia)).
    destruct (to_num_val (xorb (is_neg (of_Z n)) (is_neg EPSILON)) (val0 (of_Z n) * val0 EPSILON))
      as (q & Hq & _); [|unfold is_finite; by rewrite Hq].
    rewrite val0_of_Z by lia.
    assert (0 <= rnd (inject_Z n * val0 EPSILON) <= 2)%Q as Hb.
    { split.
      - apply rnd_ge; [apply is_double_0|]. apply Qmult_le_0_compat; [|by vm_compute].
        change 0%Q with (inject_Z 0). rewrite <- Zle_Qle. lia.
      - apply rnd_le; [apply (is_double_int 2); lia|].
        apply (Qle_trans _ (inject_Z (2 ^ 53) * val0 EPSILON)); [|by vm_compute].
        apply Qmult_le_compat_r; [rewrite <- Zle_Qle; lia | by vm_compute]. }
    rewrite Qabs_pos by tauto. apply (Qle_lt_trans _ 2); [tauto | by vm_compute]. }
  assert (nonneg_num (of_Z n)) as Hn0 by (apply nonneg_of_Z; lia).
  assert (is_finite (of_Z n) = true) as Hn1 by (apply is_finite_of_Z; lia).
  assert (nonneg_num EPSILON) as He0 by by vm_compute.
  assert (is_finite EPSILON = true) as He1 by by vm_compute.
  assert (nonneg_num (of_Z 8)) as H80 by by vm_compute.
  assert (is_finite (of_Z 8) = true) as H81 by by vm_compute.
  exact (nonneg_mul _ _ (nonneg_mul _ _ Hn0 He0 Hn1 He1) H80 Hf H81).
Qed.

Lemma format_int : formatNumber (JNum (of_Z n)) = digits_of n.
Proof using Hn.
  unfold formatNumber. rewrite number_of_int, snap_int.
  change PRICING_DISPLAY_DECIMALS with (Z.of_nat 12). unfold safe in Hn.
  rewrite parse_float_fixed_int by lia. rewrite num_to_string_int by lia.
  unfold str_of_Z. destruct (Z.ltb_spec n 0); [lia | done].
Qed.

Lemma number_of_digits : toNumberOrNull (JStr (digits_of n)) = Some (of_Z n).
Proof using Hn.
  unfold safe in Hn. destruct (digits_of_spec n) as (Hne & Hd & Hv); [lia|].
  unfold toNumberOrNull.
  assert (hasValue (JStr (digits_of n)) = true) as ->.
  { unfold hasValue. simpl. by rewrite bool_decide_false. }
  cbn [negb andb to_number]. rewrite string_to_num_digits, Hv by done.
  by rewrite is_finite_of_Z by lia.
Qed.

Lemma has_digits : has_text (digits_of n) = true.
Proof using Hn.
  unfold safe in Hn. destruct (digits_of_spec n) as (Hne & _); [lia|].
  unfold has_text, hasValue. simpl. by rewrite bool_decide_false.
Qed.

Lemma numeric_string_int : toNumericString (JNum (of_Z n)) = digits_of n.
Proof using Hn.
  unfold toNumericString. rewrite hasValue_num. cbn [negb andb to_number].
  unfold safe in Hn. rewrite is_finite_of_Z by lia. rewrite num_to_string_int by lia. apply safe_str.
Qed.

Lemma digits_number : string_to_num (digits_of n) = of_Z n.
Proof using Hn.
  unfold safe in Hn. destruct (digits_of_spec n) as (Hne & Hd & Hv); [lia|].
  by rewrite string_to_num_digits, Hv.
Qed.

Lemma normalized_int : toNormalizedNumber (JNum (of_Z n)) = Some (of_Z n).
Proof using Hn.
  unfold toNormalizedNumber. rewrite format_int.
  destruct (digits_of_spec n) as (Hne & _); [unfold safe in Hn; lia|].
  rewrite bool_decide_false by done. by rewrite digits_number.
Qed.
End Integers.

Lemma derived_int b x :
  safe b -> safe x -> safe (b * x) ->
  derived_price (Some (of_Z b)) (digits_of x) = digits_of (b * x).
Proof.
  intros Hb Hx Hbx. unfold derived_price. rewrite has_digits, digits_number by done.
  unfold safe in Hb, Hx. rewrite num_mul_of_Z by lia. by apply format_int.
Qed.

Lemma ratio_int b x :
  0 < b -> safe x -> safe (b * x) -> ratio_to (Some (of_Z (b * x))) (of_Z b) = Some (of_Z x).
Proof.
  intros Hb Hx Hbx. unfold ratio_to, safe in *. rewrite (Z.mul_comm b x).
  rewrite num_div_of_Z by lia. by apply normalized_int.
Qed.

(** The stored ratios of a model, as natural numbers. *)
Record int_ratios := {
  ir_model : Z; ir_completion : Z; ir_cache : Z; ir_create : Z; ir_image : Z; ir_audio : Z;
  ir_audio_completion : Z
}.

Definition stored (n : jsstr) (sm : source_maps) (r : int_ratios) : Prop :=
  is_str (oget (ModelBillingMode sm) n) (u "tiered_expr") = false
  /\ oget (ModelPrice sm) n = JUndef /\ oget (CompletionRatioMeta sm) n = JUndef
  /\ oget (ModelRatio sm) n = JNum (of_Z (ir_model r))
  /\ oget (CompletionRatio sm) n = JNum (of_Z (ir_completion r))
  /\ oget (CacheRatio sm) n = JNum (of_Z (ir_cache r))
  /\ oget (CreateCacheRatio sm) n = JNum (of_Z (ir_create r))
  /\ oget (ImageRatio sm) n = JNum (of_Z (ir_image r))
  /\ oget (AudioRatio sm) n = JNum (of_Z (ir_audio r))
  /\ oget (AudioCompletionRatio sm) n = JNum (of_Z (ir_audio_completion r)).

(** The input price is twice the ratio; all prices stay below 2^53. *)
Definition in_range (r : int_ratios) : Prop :=
  0 < ir_model r /\ safe (2 * ir_model r)
  /\ safe (ir_completion r) /\ safe (2 * ir_model r * ir_completion r)
  /\ safe (ir_cache r) /\ safe (2 * ir_model r * ir_cache r)
  /\ safe (ir_create r) /\ safe (2 * ir_model r * ir_create r)
  /\ safe (ir_image r) /\ safe (2 * ir_model r * ir_image r)
  /\ 0 < ir_audio r /\ safe (ir_audio r) /\ safe (2 * ir_model r * ir_audio r)
  /\ safe (ir_audio_completion r)
  /\ safe (2 * ir_model r * ir_audio r * ir_audio_completion r).

Definition int_ratio (r : int_ratios) (k : ratio_key) : option Z :=
  match k with
  | KModelPrice => None
  | KModelRatio => Some (ir_model r)
  | KCompletionRatio => Some (ir_completion r)
  | KCacheRatio => Some (ir_cache r)
  | KCreateCacheRatio => Some (ir_create r)
  | KImageRatio => Some (ir_image r)
  | KAudioRatio => Some (ir_audio r)
  | KAudioCompletionRatio => Some (ir_audio_completion r)
  end.

(** The prices of a loaded model. *)
Definition int_price (r : int_ratios) (f : field) : jsstr :=
  match f with
  | fixedPrice => []
  | inputPrice => digits_of (2 * ir_model r)
  | completionPrice => digits_of (2 * ir_model r * ir_completion r)
  | cachePrice => digits_of (2 * ir_model r * ir_cache r)
  | createCachePrice => digits_of (2 * ir_model r * ir_create r)
  | imagePrice => digits_of (2 * ir_model r * ir_image r)
  | audioInputPrice => digits_of (2 * ir_model r * ir_audio r)
  | audioOutputPrice => digits_of (2 * ir_model r * ir_audio r * ir_audio_completion r)
  end.

Lemma load_int_prices n sm r :
  stored n sm r -> in_range r ->
  exists m, buildModelState n sm = Ret m /\ billingMode m = u "per-token"
    /\ completionRatioLocked m = false /\ forall f, price m f = int_price r f.
Proof.
  intros (E0 & E1 & E2 & E3 & E4 & E5 & E6 & E7 & E8 & E9).
  intros (Hr0 & H2r & Hc & Hrc & Hca & Hrca & Hcr & Hrcr & Him & Hrim & Hau0 & Hau & Hrau & Hac & Hrac).
  assert (safe (ir_model r)) as Hr by (unfold safe in *; lia).
  unfold buildModelState. rewrite E0, E1, E2, E3, E4, E5, E6, E7, E8, E9.
  rewrite !numeric_string_int by done.
  assert (ratioToBasePrice (JStr (digits_of (ir_model r))) = digits_of (2 * ir_model r)) as Hbase.
  { unfold ratioToBasePrice. rewrite number_of_digits by done. unfold safe in *.
    rewrite num_mul_of_Z, Z.mul_comm by lia. by apply format_int. }
  eexists. split; [reflexivity|]. cbn [price billingMode completionRatioLocked modelRatio].
  change (toNumericString JUndef) with (@nil Z).
  change (normalizeCompletionRatioMeta JUndef) with {| locked := false; meta_ratio := [] |}.
  split_and!; [done..|].
  cbn [completionRatio cacheRatio createCacheRatio imageRatio audioRatio audioCompletionRatio locked].
  rewrite Hbase, number_of_digits by done. rewrite !derived_int by done.
  rewrite number_of_digits by done.
  intros []; cbn [int_price]; try done. by rewrite derived_int.
Qed.

(** C3. Loading a model and saving it again keeps every ratio: when all seven
    ratios of the model are stored as natural numbers, the model and the audio
    ratio positive, all prices below 2^53, and the model has no fixed price, no
    completion metadata and is not billed by expression, the serialized ratios
    are the stored ones.  (A model ratio of zero loses the others, see
    [zero_input_price_drops].) *)
Theorem integer_ratios_roundtrip t n sm r :
  stored n sm r -> in_range r ->
  exists m s, buildModelState n sm = Ret m /\ serializeModel t m = Ret s
    /\ forall k, s k = of_Z <$> int_ratio r k.
Proof.
  intros Hs Hr. destruct (load_int_prices n sm r Hs Hr) as (m & Hm & Hb & Hl & Hp).
  destruct Hr as (Hr0 & H2r & Hc & Hrc & Hca & Hrca & Hcr & Hrcr & Him & Hrim & Hau0 & Hau & Hrau & Hac & Hrac).
  exists m. unfold serializeModel, price_number. rewrite Hb, Hl, bool_decide_false by done.
  rewrite !Hp. cbn [int_price]. rewrite !number_of_digits by done.
  assert (num_eq (of_Z (2 * ir_model r * ir_audio r)) (Zero false) = false) as Hz.
  { unfold num_eq. change (Zero false) with (of_Z 0). unfold safe in *. rewrite num_compare_of_Z by lia.
    destruct (Z.compare_spec (2 * ir_model r * ir_audio r) 0); try done. nia. }
  rewrite Hz. eexists. split_and!; [done | reflexivity|].
  intros []; cbn [int_ratio fmap option_fmap option_map]; try done.
  - unfold safe in *. rewrite (Z.mul_comm 2), num_div_of_Z by lia. apply normalized_int. unfold safe; lia.
  - apply ratio_int; [lia | done..].
  - apply ratio_int; [lia | done..].
  - apply ratio_int; [lia | done..].
  - apply ratio_int; [lia | done..].
  - apply ratio_int; [lia | done..].
  - apply ratio_int; [nia | done..].
Qed.

Definition sample_ratios : int_ratios :=
  {| ir_model := 3; ir_completion := 4; ir_cache := 0; ir_create := 1; ir_image := 2; ir_audio := 10;
     ir_audio_completion := 2 |}.
Definition sample_source : source_maps :=
  let o z := JObj [(u "m", JNum (of_Z z))] in
  {| ModelPrice := JObj []; ModelRatio := o 3; CompletionRatio := o 4; CompletionRatioMeta := JObj [];
     CacheRatio := o 0; CreateCacheRatio := o 1; ImageRatio := o 2; AudioRatio := o 10;
     AudioCompletionRatio := o 2; ModelBillingMode := JObj []; ModelBillingExpr := JObj [] |}.

Lemma integer_ratios_roundtrip_witness :
  exists m s, buildModelState (u "m") sample_source = Ret m /\ serializeModel (fun k _ => k) m = Ret s
    /\ forall k, s k = of_Z <$> int_ratio sample_ratios k.
Proof.
  apply (integer_ratios_roundtrip (fun k _ => k) (u "m") sample_source sample_ratios).
  - repeat split.
  - unfold in_range, safe. simpl. lia.
Defined.

(** ** Editing prices *)

Lemma upsert_models n f e :
  models (upsertModel n f e) = (fun m => if negb (bool_decide (name m = n)) then m else f m) <$> models e.
Proof. done. Qed.

(** What an edit of one price field may do to a model. *)
Definition edited (f : field) (v : jsstr) (m m' : model) : Prop :=
  price m' f = v
  /\ name m' = name m /\ billingMode m' = billingMode m /\ rawRatios m' = rawRatios m
  /\ (f <> inputPrice -> forall g, g <> f -> price m' g = price m g)
  /\ (f = inputPrice -> forall g, g <> f -> has_text (price m g) = true ->
        ~ (g = completionPrice /\ completionRatioLocked m = true) -> price m' g = price m g).

Lemma fill_keeps m v g :
  has_text (price m g) = true -> ~ (g = completionPrice /\ completionRatioLocked m = true) ->
  price (fillDerivedPricesFromBase m v) g = price m g.
Proof.
  intros Hg Hc. unfold fillDerivedPricesFromBase, fill_price. destruct (toNumberOrNull _); [|done].
  destruct g; cbn [price]; try done; rewrite ?Hg; cbn [negb andb]; try done.
  destruct (completionRatioLocked m) eqn:E; [|done]. by destruct Hc.
Qed.

(** Text that is not a number changes nothing; otherwise the edit sets the
    field of the selected model and nothing in other models.  Editing the input
    price fills in empty derived prices, and never overwrites a price the user
    entered (a locked completion price excepted, which follows the input). *)
Theorem numeric_change_spec fm f v e sel :
  selectedModel fm e = Some sel ->
  let e' := handleNumericFieldChange fm f v e in
  (rtest NUMERIC_INPUT_REGEX v = false -> e' = e)
  /\ (rtest NUMERIC_INPUT_REGEX v = true ->
      Forall2 (fun m m' => (name m <> name sel -> m' = m) /\ (name m = name sel -> edited f v m m'))
        (models e) (models e')).
Proof.
  intros Hs e'. subst e'. unfold handleNumericFieldChange. rewrite Hs. split; intros ->; [done|].
  cbn [negb]. rewrite upsert_models. apply Forall2_fmap_r, Forall_Forall2_diag, Forall_forall.
  intros m _. unfold compose.
  destruct (bool_decide (name m = name sel)) eqn:Hn; bool_simp; cbn [negb]; [|split; [done | by intros ?]]. split; [done|]. intros _.
  case_bool_decide as Hf; unfold edited.
  - subst f. assert (forall x, name (fillDerivedPricesFromBase x v) = name x
      /\ billingMode (fillDerivedPricesFromBase x v) = billingMode x
      /\ rawRatios (fillDerivedPricesFromBase x v) = rawRatios x
      /\ price (fillDerivedPricesFromBase x v) inputPrice = price x inputPrice) as Hfill.
    { intros x. unfold fillDerivedPricesFromBase. by destruct (toNumberOrNull _). }
    destruct (Hfill (set_price inputPrice v m)) as (-> & -> & -> & ->).
    split_and!; [by cbn [price set_price]; rewrite decide_True | done.. | |].
    + done.
    + intros _ g Hg Hh Hc. assert (price (set_price inputPrice v m) g = price m g) as E
        by (cbn [price set_price]; by rewrite decide_False).
      rewrite fill_keeps; rewrite ?E; done.
  - cbn [price set_price name billingMode rawRatios]. rewrite decide_True by done.
    split_and!; try done. intros _ g Hg. by rewrite decide_False.
Qed.

Lemma numeric_change_spec_witness :
  let e := step FilterAll (EAdd (u "m")) initial_editor in
  Forall2 (fun m m' => (name m <> u "m" -> m' = m) /\ (name m = u "m" -> edited inputPrice (u "2.5") m m'))
    (models e) (models (handleNumericFieldChange FilterAll inputPrice (u "2.5") e)).
Proof.
  intros e. apply (proj2 (numeric_change_spec FilterAll inputPrice (u "2.5") e (new_model (u "m")) eq_refl)).
  vm_compute. reflexivity.
Defined.

(** Applying the selected model's prices to the checked models copies its
    billing mode, expressions and prices to exactly the checked models; a
    target keeps its name, its stored ratios and its completion lock, and a
    locked completion price is recomputed from the copied input price. *)
Theorem apply_template_spec fm e sel :
  selectedModel fm e = Some sel -> selectedModelNames e <> [] ->
  let e' := (applySelectedModelPricing fm e).1.1 in
  Forall2 (fun m m' =>
      (name m ∉ selectedModelNames e -> m' = m)
      /\ (name m ∈ selectedModelNames e ->
          name m' = name m /\ rawRatios m' = rawRatios m
          /\ completionRatioLocked m' = completionRatioLocked m
          /\ billingMode m' = billingMode sel /\ m_billingExpr m' = m_billingExpr sel
          /\ m_requestRuleExpr m' = m_requestRuleExpr sel
          /\ (forall g, g <> completionPrice \/ completionRatioLocked m = false ->
                price m' g = price sel g)))
    (models e) (models e').
Proof.
  intros Hs Hne e'. subst e'. unfold applySelectedModelPricing. rewrite Hs.
  destruct (selectedModelNames e) as [|x l] eqn:En; [done|]. rewrite <- En in *. cbn [fst].
  cbn [models set_toggles set_models].
  apply Forall2_fmap_r, Forall_Forall2_diag, Forall_forall. intros m _.
  unfold compose. case_bool_decide as Hm; split; try done. intros _. cbn.
  split_and!; try done. intros g [Hg|Hl].
  - by rewrite bool_decide_false.
  - by rewrite Hl, !andb_false_r.
Qed.

Lemma apply_template_spec_witness :
  let e := step FilterAll (ECheck [u "a"]) (step FilterAll (EAdd (u "m"))
             (step FilterAll (EAdd (u "a")) initial_editor)) in
  length (models (applySelectedModelPricing FilterAll e).1.1) = 2%nat.
Proof.
  intros e.
  pose proof (apply_template_spec FilterAll e (new_model (u "m")) eq_refl ltac:(discriminate)) as H.
  apply Forall2_length in H. rewrite <- H. reflexivity.
Defined.

(** ** Pages *)

Lemma filtered_page `{UnicodeCase} fm p e : filteredModels fm (set_page p e) = filteredModels fm e.
Proof. destruct fm; reflexivity. Qed.

Lemma chunks {A} (k n : nat) (l : list A) :
  (0 < k)%nat -> (length l <= n * k)%nat ->
  concat ((fun i => take k (drop (i * k) l)) <$> seq 0 n) = l.
Proof.
  intros Hk. revert l. induction n as [|n IH]; intros l Hl.
  - destruct l; [done | simpl in Hl; lia].
  - cbn [seq fmap list_fmap concat]. rewrite <- fmap_S_seq, <- list_fmap_compose.
    transitivity (take k l ++ drop k l); [|apply take_drop]. f_equal.
    rewrite <- (IH (drop k l)) by (rewrite length_drop; lia). f_equal. apply list_fmap_ext.
    intros _ i _. unfold compose. rewrite drop_drop. done.
Qed.

(** The pages of ten models, in order, are the filtered list: no model is
    shown on two pages and none is left out. *)
Theorem pages_partition `{UnicodeCase} fm e n :
  (length (filteredModels fm e) <= n * PAGE_SIZE)%nat ->
  concat ((fun p => pagedData fm (set_page (S p) e)) <$> seq 0 n) = filteredModels fm e.
Proof.
  intros Hl. rewrite <- (chunks PAGE_SIZE n (filteredModels fm e)) at 1 by (unfold PAGE_SIZE in *; lia).
  f_equal. apply list_fmap_ext. intros _ p _. unfold pagedData. rewrite filtered_page.
  cbn [currentPage set_page set_view]. by rewrite Nat.sub_succ, Nat.sub_0_r.
Qed.

Lemma pages_partition_witness :
  let e := step FilterAll (EAdd (u "m")) initial_editor in
  concat ((fun p => @pagedData ascii_case FilterAll (set_page (S p) e)) <$> seq 0 1)
  = @filteredModels ascii_case FilterAll e.
Proof. apply (@pages_partition ascii_case FilterAll). vm_compute. repeat constructor. Defined.
