(* ===== verification/Colors.v ===== *)
(** * Colours

    Model of [modelToColor] of web/classic/src/helpers/render.jsx: a stable colour
    for a name, from a table or by a 32-bit hash into a palette. *)

From S2P Require Import Prelude JsString.

Definition baseColors : list jsstr :=
  u <$> [
    "#1664FF"; "#1AC6FF"; "#FF8A00"; "#3CC780"; "#7442D4"; "#FFC400"; "#304D77"; "#B48DEB";
    "#009488"; "#FF7DDA"]%string.

Definition extendedColors : list jsstr :=
  u <$> [
    "#1664FF"; "#B2CFFF"; "#1AC6FF"; "#94EFFF"; "#FF8A00"; "#FFCE7A"; "#3CC780"; "#B9EDCD";
    "#7442D4"; "#DDC5FA"; "#FFC400"; "#FAE878"; "#304D77"; "#8B959E"; "#B48DEB"; "#EFE3FF";
    "#009488"; "#59BAA8"; "#FF7DDA"; "#FFCFEE"]%string.

Definition modelColorMap : list (jsstr * jsstr) :=
  (fun kv : string * string => (u kv.1, u kv.2)) <$> [
    ("dall-e", "rgb(147,112,219)");
    ("dall-e-3", "rgb(153,50,204)");
    ("gpt-3.5-turbo", "rgb(184,227,167)");
    ("gpt-3.5-turbo-0613", "rgb(60,179,113)");
    ("gpt-3.5-turbo-1106", "rgb(32,178,170)");
    ("gpt-3.5-turbo-16k", "rgb(149,252,206)");
    ("gpt-3.5-turbo-16k-0613", "rgb(119,255,214)");
    ("gpt-3.5-turbo-instruct", "rgb(175,238,238)");
    ("gpt-4", "rgb(135,206,235)");
    ("gpt-4-0613", "rgb(100,149,237)");
    ("gpt-4-1106-preview", "rgb(30,144,255)");
    ("gpt-4-0125-preview", "rgb(2,177,236)");
    ("gpt-4-turbo-preview", "rgb(2,177,255)");
    ("gpt-4-32k", "rgb(104,111,238)");
    ("gpt-4-32k-0613", "rgb(61,71,139)");
    ("gpt-4-all", "rgb(65,105,225)");
    ("gpt-4-gizmo-*", "rgb(0,0,255)");
    ("gpt-4-vision-preview", "rgb(25,25,112)");
    ("text-ada-001", "rgb(255,192,203)");
    ("text-babbage-001", "rgb(255,160,122)");
    ("text-curie-001", "rgb(219,112,147)");
    ("text-davinci-003", "rgb(219,112,147)");
    ("text-davinci-edit-001", "rgb(255,105,180)");
    ("text-embedding-ada-002", "rgb(255,182,193)");
    ("text-embedding-v1", "rgb(255,174,185)");
    ("text-moderation-latest", "rgb(255,130,171)");
    ("text-moderation-stable", "rgb(255,160,122)");
    ("tts-1", "rgb(255,140,0)");
    ("tts-1-1106", "rgb(255,165,0)");
    ("tts-1-hd", "rgb(255,215,0)");
    ("tts-1-hd-1106", "rgb(255,223,0)");
    ("whisper-1", "rgb(245,245,220)");
    ("claude-3-opus-20240229", "rgb(255,132,31)");
    ("claude-3-sonnet-20240229", "rgb(253,135,93)");
    ("claude-3-haiku-20240307", "rgb(255,175,146)")]%string.

(** ** The hash *)

(** One turn of the loop: [hash = (hash << 5) - hash + code; hash = hash & hash]. *)
Definition hash_step (hash code : Z) : Z := to_int32 (to_int32 (hash * 32) - hash + code).

Definition name_hash (name : jsstr) : Z := fold_left hash_step name 0.

Definition modelToColor (modelName : jsstr) : option jsstr :=
  match om_get modelName modelColorMap with
  | Some ((_ :: _) as c) => Some c
  | _ =>
      let hash := Z.abs (name_hash modelName) in
      let colorPalette := if (10 <? length modelName)%nat then extendedColors else baseColors in
      colorPalette !! Z.to_nat (hash mod Z.of_nat (length colorPalette))
  end.

(** ** A colour is always found *)

Lemma name_hash_range name : -2147483648 <= name_hash name < 2147483648.
Proof.
  unfold name_hash. induction name as [|c name IH] using rev_ind; [simpl; lia|].
  rewrite fold_left_app. simpl. apply to_int32_range.
Qed.

Lemma palette_lookup (l : list jsstr) h : l <> [] -> is_Some (l !! Z.to_nat (h mod Z.of_nat (length l))).
Proof.
  intros Hl. apply lookup_lt_is_Some. destruct l as [|x l]; [done|].
  pose proof (Z.mod_pos_bound h (Z.of_nat (length (x :: l))) ltac:(simpl; lia)). lia.
Qed.

(** Every name has a colour: the hash stays in the signed 32-bit range and
    its remainder is an index of the palette that the length of the name picks. *)
Theorem modelToColor_total name :
  is_Some (modelToColor name) /\ -2147483648 <= name_hash name < 2147483648.
Proof.
  split; [|apply name_hash_range].
  unfold modelToColor. destruct (om_get name modelColorMap) as [[|c cs]|]; [|eauto|];
    (apply palette_lookup; by destruct (10 <? length name)%nat).
Qed.
