(* ===== verification/DashboardFlow.v ===== *)
(** * The dashboard's flow diagram

    Model of web/classic/src/helpers/dashboardFlow.js: usage rows become paths
    through stages (user, node, token, group, model, channel), paths become the
    nodes and links of a Sankey diagram.  [localeCompare], [t] and the number
    format of the browser are arguments.  A usage row has the string and number
    fields the server sends. *)

From Stdlib Require Import QArith.
From S2P Require Import Prelude JsString JsNumber JsNumText JsValue JsRegex Colors.

#[local] Open Scope Z_scope.

(** ** Constants *)

Definition DEFAULT_COLOR : jsstr := u "#1664ff".
Definition MASK_TEXT : jsstr := u "••••".
Definition MIN_STAGES : nat := 2.

Inductive kind := KUser | KNode | KToken | KGroup | KModel | KChannel.

#[export] Instance kind_eq_dec : EqDecision kind.
Proof. solve_decision. Defined.

Definition kind_str (k : kind) : jsstr :=
  match k with
  | KUser => u "user"
  | KNode => u "node"
  | KToken => u "token"
  | KGroup => u "group"
  | KModel => u "model"
  | KChannel => u "channel"
  end.

Definition FLOW_NODE_KINDS : list kind := [KUser; KNode; KToken; KGroup; KModel; KChannel].

Definition ROLE_STAGES (role : jsstr) : option (list kind) :=
  if bool_decide (role = u "root") then Some [KUser; KNode; KToken; KGroup; KModel; KChannel]
  else if bool_decide (role = u "admin") then Some [KUser; KGroup; KModel; KChannel]
  else if bool_decide (role = u "user") then Some [KToken; KGroup; KModel]
  else None.

(** [ROLE_STAGES[role] || ROLE_STAGES.user] *)
Definition getFlowStages (role : jsstr) : list kind :=
  match ROLE_STAGES role with Some l => l | None => [KToken; KGroup; KModel] end.

Definition SENSITIVE_KINDS : list kind := [KUser; KNode; KToken; KGroup; KChannel].

Definition OTHER_LABEL_KEY (k : kind) : jsstr :=
  match k with
  | KUser => u "其他用户"
  | KNode => u "其他节点"
  | KToken => u "其他令牌"
  | KGroup => u "其他分组"
  | KModel => u "其他模型"
  | KChannel => u "其他渠道"
  end.

(** ** Rows *)

Record flow_row := {
  user_id : jsv; username : jsstr; node_name : jsstr; token_id : jsv; token_name : jsstr;
  use_group : jsstr; channel_id : jsv; channel_name : jsstr; model_name : jsstr;
  r_quota : jsv; r_token_used : jsv; r_count : jsv
}.

Definition numberValue (value : jsv) : num :=
  let n := to_number value in if is_finite n then n else Zero false.

Definition getFlowMetricValue (row : flow_row) (metric : jsstr) : num :=
  if bool_decide (metric = u "tokens") then numberValue (r_token_used row)
  else if bool_decide (metric = u "requests") then numberValue (r_count row)
  else numberValue (r_quota row).

Record metrics := { m_quota : num; m_tokens : num; m_requests : num }.

Definition rowMetrics (row : flow_row) : metrics :=
  {| m_quota := numberValue (r_quota row); m_tokens := numberValue (r_token_used row);
     m_requests := numberValue (r_count row) |}.

(** [metrics[metric] || 0] *)
Definition metric_of (m : metrics) (metric : jsstr) : num :=
  let v :=
    if bool_decide (metric = u "quota") then m_quota m
    else if bool_decide (metric = u "tokens") then m_tokens m
    else if bool_decide (metric = u "requests") then m_requests m
    else Zero false in
  if num_truthy v then v else Zero false.

(** ** Paths *)

Record pnode := { p_id : jsstr; p_label : jsstr; p_kind : kind }.

(** [`${kind}:${value || 'unknown'}`] *)
Definition nodeId (k : kind) (value : jsstr) : jsstr :=
  kind_str k ++ u ":" ++ (if bool_decide (value = []) then u "unknown" else value).

Definition or_text (s d : jsstr) : jsstr := if bool_decide (s = []) then d else s.

Definition positive (n : num) : bool := num_gt n (Zero false).

Section Flow.
Context (localeCompare : jsstr -> jsstr -> Z).
Context (t : jsstr -> list (jsstr * num) -> jsstr).
Context (intlFormat : num -> jsstr).

Definition tr (k : string) : jsstr := t (u k) [].

Definition tokenLabel (row : flow_row) : jsstr :=
  if negb (bool_decide (token_name row = [])) then token_name row
  else
    let tokenId := numberValue (token_id row) in
    if positive tokenId then t (u "已删除令牌 {{id}}") [(u "id", tokenId)] else tr "未知令牌".

Definition buildNode (row : flow_row) (k : kind) : pnode :=
  match k with
  | KUser =>
      let userId := numberValue (user_id row) in
      {| p_id := if positive userId then nodeId KUser (num_to_string userId)
                 else nodeId KUser (username row);
         p_label := or_text (username row)
                      (if positive userId then u "user-" ++ num_to_string userId else tr "未知用户");
         p_kind := KUser |}
  | KNode =>
      {| p_id := nodeId KNode (or_text (node_name row) (u "default"));
         p_label := or_text (node_name row) (tr "默认节点"); p_kind := KNode |}
  | KToken =>
      let tokenId := numberValue (token_id row) in
      {| p_id := if positive tokenId then nodeId KToken (num_to_string tokenId)
                 else nodeId KToken (token_name row);
         p_label := tokenLabel row; p_kind := KToken |}
  | KGroup =>
      {| p_id := nodeId KGroup (use_group row); p_label := or_text (use_group row) (tr "未知分组");
         p_kind := KGroup |}
  | KChannel =>
      let channelId := numberValue (channel_id row) in
      {| p_id := if positive channelId then nodeId KChannel (num_to_string channelId)
                 else nodeId KChannel (channel_name row);
         p_label := or_text (channel_name row)
                      (if positive channelId then u "channel-" ++ num_to_string channelId
                       else tr "未知渠道");
         p_kind := KChannel |}
  | KModel =>
      {| p_id := nodeId KModel (model_name row); p_label := or_text (model_name row) (tr "未知模型");
         p_kind := KModel |}
  end.

Definition buildPath (row : flow_row) (stages : list kind) : list pnode := buildNode row <$> stages.

(** [visibleStages] is missing or a list of kind names. *)
Definition normalizeStages (role : jsstr) (visibleStages : option (list jsstr)) : list kind :=
  let stages := getFlowStages role in
  match visibleStages with
  | None => stages
  | Some vs =>
      if (length vs <? MIN_STAGES)%nat then stages
      else
        let normalized := List.filter (fun s => bool_decide (kind_str s ∈ vs)) stages in
        if (MIN_STAGES <=? length normalized)%nat then normalized else stages
  end.

(** ** The largest nodes of each stage *)

Notation totals := (list (jsstr * (pnode * num))) (only parsing).

Definition add_total (value : num) (tot : totals) (n : pnode) : totals :=
  let current := match om_get (p_id n) tot with Some c => c | None => (n, Zero false) end in
  om_set (p_id n) (current.1, num_add current.2 value) tot.

(** One node of one row; a kind without a table is skipped. *)
Definition add_stage_total (value : num) (m : list (kind * totals)) (n : pnode)
  : list (kind * totals) :=
  match om_get (p_kind n) m with
  | Some tot => om_set (p_kind n) (add_total value tot n) m
  | None => m
  end.

Definition stage_totals (rows : list flow_row) (stages : list kind) (metric : jsstr)
  : list (kind * totals) :=
  fold_left (fun m row =>
      fold_left (add_stage_total (getFlowMetricValue row metric)) (buildPath row stages) m)
    rows (fold_left (fun m s => om_set s [] m) stages []).

Definition total_cmp (a b : pnode * num) : Z :=
  cmp_or (num_sgn (num_sub b.2 a.2))
    (cmp_or (localeCompare (p_label a.1) (p_label b.1)) (localeCompare (p_id a.1) (p_id b.1))).

Definition top_ids (limit : num) (tot : totals) : list jsstr :=
  (fun it : pnode * num => p_id it.1) <$> take (Z.to_nat (num_Z limit)) (sort_by total_cmp (tot.*2)).

Definition topNodeSets (rows : list flow_row) (stages : list kind) (metric : jsstr)
    (topNodeLimit : jsv) : option (list (kind * list jsstr)) :=
  let limit := to_number topNodeLimit in
  if negb (is_finite limit) || num_le limit (Zero false) then None
  else Some ((fun st => (st.1, uniq (top_ids limit st.2))) <$> stage_totals rows stages metric).

Definition in_set (sets : list (kind * list jsstr)) (n : pnode) : bool :=
  match om_get (p_kind n) sets with
  | Some s => bool_decide (p_id n ∈ s)
  | None => true
  end.

Definition other_node (k : kind) : pnode :=
  {| p_id := kind_str k ++ u ":__other__"; p_label := t (OTHER_LABEL_KEY k) []; p_kind := k |}.

Definition applyTopNodeLimit (path : list pnode) (sets : option (list (kind * list jsstr)))
    (overflowMode : jsstr) : option (list pnode) :=
  match sets with
  | None => Some path
  | Some ss =>
      if negb (existsb (fun n => negb (in_set ss n)) path) then Some path
      else if bool_decide (overflowMode = u "hide") then None
      else Some ((fun n => if in_set ss n then n else other_node (p_kind n)) <$> path)
  end.

(** ** Filters *)

Record node_filter := { nf_kind : jsstr; nf_id : jsstr }.

Definition selectedNodeKey (f : node_filter) : jsstr := nf_kind f ++ [0] ++ nf_id f.

Definition normalizeSelectedNodeFilters (selectedNodes : list node_filter) (stages : list kind)
  : list (jsstr * list jsstr) :=
  fold_left (fun filters f =>
      if negb (bool_decide (nf_kind f ∈ kind_str <$> stages)) then filters
      else
        let selected := match om_get (nf_kind f) filters with Some s => s | None => [] end in
        om_set (nf_kind f) (uniq (selected ++ [nf_id f])) filters)
    selectedNodes [].

(** The ids of a kind on a path; [None] when the path has no such node. *)
Definition path_ids (path : list pnode) (k : jsstr) : option (list jsstr) :=
  match List.filter (fun n => bool_decide (kind_str (p_kind n) = k)) path with
  | [] => None
  | l => Some (p_id <$> l)
  end.

Definition pathMatchesNodeFilters (path : list pnode) (filters : list (jsstr * list jsstr)) : bool :=
  forallb (fun kf =>
    match path_ids path kf.1 with
    | None => false
    | Some ids => existsb (fun id => bool_decide (id ∈ ids)) kf.2
    end) filters.

Definition filterRowsByNodes (rows : list flow_row) (selectedNodes : list node_filter)
    (stages : list kind) : list flow_row :=
  match normalizeSelectedNodeFilters selectedNodes stages with
  | [] => rows
  | filters => List.filter (fun row => pathMatchesNodeFilters (buildPath row stages) filters) rows
  end.

Definition selectedNodeFiltersExceptKind (selectedNodes : list node_filter) (k : kind)
  : list node_filter :=
  List.filter (fun f => negb (bool_decide (nf_kind f = kind_str k))) selectedNodes.

(** ** Nodes and links *)

Record fnode := {
  fn_id : jsstr; fn_label : jsstr; fn_kind : kind;
  fn_value : num; fn_quota : num; fn_tokens : num; fn_requests : num;
  fn_color : jsstr; fn_colorKey : jsstr;
  fn_highlighted : option bool; fn_dimmed : option bool
}.

Record flink := {
  fl_source : jsstr; fl_target : jsstr; fl_sourceLabel : jsstr; fl_targetLabel : jsstr;
  fl_value : num; fl_quota : num; fl_tokens : num; fl_requests : num;
  fl_share : num; fl_color : jsstr; fl_linkColor : jsstr; fl_linkAlpha : num;
  fl_hoverColor : jsstr; fl_colorKey : jsstr;
  fl_highlighted : option bool; fl_dimmed : option bool
}.

Definition dec (q : Q) : num := to_num false q.

Definition new_node (n : pnode) (color colorKey : jsstr) : fnode :=
  {| fn_id := p_id n; fn_label := p_label n; fn_kind := p_kind n;
     fn_value := Zero false; fn_quota := Zero false; fn_tokens := Zero false;
     fn_requests := Zero false; fn_color := color; fn_colorKey := colorKey;
     fn_highlighted := None; fn_dimmed := None |}.

Definition grow_node (m : metrics) (metric : jsstr) (c : fnode) : fnode :=
  {| fn_id := fn_id c; fn_label := fn_label c; fn_kind := fn_kind c;
     fn_value := num_add (fn_value c) (metric_of m metric);
     fn_quota := num_add (fn_quota c) (m_quota m);
     fn_tokens := num_add (fn_tokens c) (m_tokens m);
     fn_requests := num_add (fn_requests c) (m_requests m);
     fn_color := fn_color c; fn_colorKey := fn_colorKey c;
     fn_highlighted := fn_highlighted c; fn_dimmed := fn_dimmed c |}.

Definition addNode (map : list (jsstr * fnode)) (n : pnode) (m : metrics) (metric color colorKey : jsstr)
  : list (jsstr * fnode) :=
  let current := match om_get (p_id n) map with Some c => c | None => new_node n color colorKey end in
  om_set (p_id n) (grow_node m metric current) map.

Definition link_key (source target : jsstr) : jsstr := source ++ [0] ++ target.
Definition pathLinkKey (a b : pnode) : jsstr := link_key (p_id a) (p_id b).
Definition linkStableKey (l : flink) : jsstr := link_key (fl_source l) (fl_target l).

Definition new_link (a b : pnode) (color colorKey : jsstr) : flink :=
  {| fl_source := p_id a; fl_target := p_id b; fl_sourceLabel := p_label a; fl_targetLabel := p_label b;
     fl_value := Zero false; fl_quota := Zero false; fl_tokens := Zero false; fl_requests := Zero false;
     fl_share := Zero false; fl_color := color; fl_linkColor := color; fl_linkAlpha := dec (32 # 100);
     fl_hoverColor := color; fl_colorKey := colorKey; fl_highlighted := None; fl_dimmed := None |}.

Definition grow_link (m : metrics) (metric : jsstr) (c : flink) : flink :=
  {| fl_source := fl_source c; fl_target := fl_target c;
     fl_sourceLabel := fl_sourceLabel c; fl_targetLabel := fl_targetLabel c;
     fl_value := num_add (fl_value c) (metric_of m metric);
     fl_quota := num_add (fl_quota c) (m_quota m);
     fl_tokens := num_add (fl_tokens c) (m_tokens m);
     fl_requests := num_add (fl_requests c) (m_requests m);
     fl_share := fl_share c; fl_color := fl_color c; fl_linkColor := fl_linkColor c;
     fl_linkAlpha := fl_linkAlpha c; fl_hoverColor := fl_hoverColor c; fl_colorKey := fl_colorKey c;
     fl_highlighted := fl_highlighted c; fl_dimmed := fl_dimmed c |}.

Definition addLink (map : list (jsstr * flink)) (a b : pnode) (m : metrics)
    (metric color colorKey : jsstr) : list (jsstr * flink) :=
  let key := pathLinkKey a b in
  let current := match om_get key map with Some c => c | None => new_link a b color colorKey end in
  om_set key (grow_link m metric current) map.

(** The consecutive pairs of a path. *)
Fixpoint pairs {A} (l : list A) : list (A * A) :=
  match l with
  | a :: ((b :: _) as l') => (a, b) :: pairs l'
  | _ => []
  end.

Record prepared := { pp_path : list pnode; pp_metrics : metrics }.

(** [modelToColor(root?.id || root?.label || 'flow') || DEFAULT_COLOR] *)
Definition color_of (id label : jsstr) : jsstr :=
  or_text (match modelToColor (or_text id (or_text label (u "flow"))) with Some c => c | None => [] end)
    DEFAULT_COLOR.

(** One prepared path: its nodes, then its links. *)
Definition add_path (metric : jsstr) (acc : list (jsstr * fnode) * list (jsstr * flink)) (pp : prepared)
  : list (jsstr * fnode) * list (jsstr * flink) :=
  match pp_path pp with
  | [] => acc
  | root :: _ =>
      let color := color_of (p_id root) (p_label root) in
      (fold_left (fun ns n => addNode ns n (pp_metrics pp) metric color (p_id root)) (pp_path pp) acc.1,
       fold_left (fun ls ab => addLink ls ab.1 ab.2 (pp_metrics pp) metric color (p_id root))
         (pairs (pp_path pp)) acc.2)
  end.

(** ** Link colours *)

Definition is_hex (c : Z) : bool :=
  is_digit c || ((97 <=? c) && (c <=? 102)) || ((65 <=? c) && (c <=? 70)).

(** Six hexadecimal digits become an [rgba] colour; other colours keep their
    text and pass the opacity on. *)
Definition alphaColor (color : jsstr) (alpha : num) : jsstr * num :=
  let normalized := trim (or_text color DEFAULT_COLOR) in
  let hex := if startsWith (u "#") normalized then drop 1 normalized else normalized in
  if negb ((length hex =? 6)%nat && forallb is_hex hex) then (normalized, alpha)
  else
    let value := match base_value 16 0 hex with Some v => v | None => 0 end in
    let r := Z.land (Z.shiftr value 16) 255 in
    let g := Z.land (Z.shiftr value 8) 255 in
    let b := Z.land value 255 in
    (u "rgba(" ++ digits_of r ++ u ", " ++ digits_of g ++ u ", " ++ digits_of b ++ u ", "
       ++ to_fixed 2 alpha ++ u ")", of_Z 1).

Definition color_cmp (a b : flink) : Z :=
  cmp_or (num_sgn (num_sub (fl_value b) (fl_value a))) (localeCompare (linkStableKey a) (linkStableKey b)).

Definition link_alpha (n index : Z) : num :=
  if n =? 1 then dec (34 # 100)
  else num_add (dec (24 # 100))
         (num_mul (num_div (of_Z index) (of_Z (Z.max (n - 1) 1))) (dec (2 # 10))).

(** The position of a link among the sorted links of its source. *)
Fixpoint index_of (key : jsstr) (i : Z) (l : list flink) : Z :=
  match l with
  | [] => i
  | x :: l' => if bool_decide (linkStableKey x = key) then i else index_of key (i + 1) l'
  end.

Definition set_color (c : jsstr * num) (l : flink) : flink :=
  {| fl_source := fl_source l; fl_target := fl_target l;
     fl_sourceLabel := fl_sourceLabel l; fl_targetLabel := fl_targetLabel l;
     fl_value := fl_value l; fl_quota := fl_quota l; fl_tokens := fl_tokens l;
     fl_requests := fl_requests l; fl_share := fl_share l; fl_color := fl_color l;
     fl_linkColor := c.1; fl_linkAlpha := c.2; fl_hoverColor := fl_color l;
     fl_colorKey := fl_colorKey l; fl_highlighted := fl_highlighted l; fl_dimmed := fl_dimmed l |}.

(** Each link is coloured by its rank among the links of the same source. *)
Definition applyLinkColors (links : list flink) : list flink :=
  (fun l =>
     let sorted := sort_by color_cmp
       (List.filter (fun x => bool_decide (fl_source x = fl_source l)) links) in
     let n := Z.of_nat (length sorted) in
     set_color (alphaColor (fl_color l) (link_alpha n (index_of (linkStableKey l) 0 sorted))) l)
  <$> links.

(** ** Highlights *)

Record active_link := { al_source : jsstr; al_target : jsstr }.

Definition pathContainsNode (path : list pnode) (f : node_filter) : bool :=
  existsb (fun n => bool_decide (kind_str (p_kind n) = nf_kind f) && bool_decide (p_id n = nf_id f)) path.

Definition pathContainsLink (path : list pnode) (l : active_link) : bool :=
  existsb (fun ab : pnode * pnode =>
    bool_decide (p_id ab.1 = al_source l) && bool_decide (p_id ab.2 = al_target l)) (pairs path).

Record highlight_sets := { hs_nodes : list jsstr; hs_links : list jsstr }.

Definition buildHighlightSets (paths : list prepared) (activeNode : option node_filter)
    (activeLink : option active_link) (stages : list kind) : option highlight_sets :=
  let nodeActive := match activeNode with
    | Some f => bool_decide (nf_kind f ∈ kind_str <$> stages)
    | None => false
    end in
  if negb nodeActive && negb (bool_decide (is_Some activeLink)) then None
  else
    let matchesPath path := match activeLink with
      | Some l => pathContainsLink path l
      | None => match activeNode with Some f => pathContainsNode path f | None => false end
      end in
    let matching := List.filter (fun pp => matchesPath (pp_path pp)) paths in
    let nodes := uniq (concat ((fun pp => p_id <$> pp_path pp) <$> matching)) in
    let links := uniq (concat ((fun pp => (fun ab : pnode * pnode => pathLinkKey ab.1 ab.2)
                                            <$> pairs (pp_path pp)) <$> matching)) in
    match nodes with
    | [] => None
    | _ => Some {| hs_nodes := nodes; hs_links := links |}
    end.

Definition mark_node (hs : highlight_sets) (n : fnode) : fnode :=
  let h := bool_decide (fn_id n ∈ hs_nodes hs) in
  {| fn_id := fn_id n; fn_label := fn_label n; fn_kind := fn_kind n; fn_value := fn_value n;
     fn_quota := fn_quota n; fn_tokens := fn_tokens n; fn_requests := fn_requests n;
     fn_color := fn_color n; fn_colorKey := fn_colorKey n;
     fn_highlighted := Some h; fn_dimmed := Some (negb h) |}.

Definition mark_link (hs : highlight_sets) (l : flink) : flink :=
  let h := bool_decide (linkStableKey l ∈ hs_links hs) in
  {| fl_source := fl_source l; fl_target := fl_target l;
     fl_sourceLabel := fl_sourceLabel l; fl_targetLabel := fl_targetLabel l;
     fl_value := fl_value l; fl_quota := fl_quota l; fl_tokens := fl_tokens l;
     fl_requests := fl_requests l; fl_share := fl_share l; fl_color := fl_color l;
     fl_linkColor := fl_linkColor l; fl_linkAlpha := fl_linkAlpha l; fl_hoverColor := fl_hoverColor l;
     fl_colorKey := fl_colorKey l; fl_highlighted := Some h; fl_dimmed := Some (negb h) |}.

Definition applyHighlights (nodes : list fnode) (links : list flink) (hs : option highlight_sets)
  : list fnode * list flink :=
  match hs with
  | None => (nodes, links)
  | Some s => (mark_node s <$> nodes, mark_link s <$> links)
  end.

(** ** Masking *)

Definition masked_node (n : fnode) : bool :=
  bool_decide (fn_kind n ∈ SENSITIVE_KINDS) && negb (endsWith (u ":__other__") (fn_id n)).

Definition mask_node (n : fnode) : fnode :=
  if masked_node n then
    {| fn_id := fn_id n; fn_label := MASK_TEXT; fn_kind := fn_kind n; fn_value := fn_value n;
       fn_quota := fn_quota n; fn_tokens := fn_tokens n; fn_requests := fn_requests n;
       fn_color := fn_color n; fn_colorKey := fn_colorKey n;
       fn_highlighted := fn_highlighted n; fn_dimmed := fn_dimmed n |}
  else n.

Definition mask_link (masked : list jsstr) (l : flink) : flink :=
  {| fl_source := fl_source l; fl_target := fl_target l;
     fl_sourceLabel := if bool_decide (fl_source l ∈ masked) then MASK_TEXT else fl_sourceLabel l;
     fl_targetLabel := if bool_decide (fl_target l ∈ masked) then MASK_TEXT else fl_targetLabel l;
     fl_value := fl_value l; fl_quota := fl_quota l; fl_tokens := fl_tokens l;
     fl_requests := fl_requests l; fl_share := fl_share l; fl_color := fl_color l;
     fl_linkColor := fl_linkColor l; fl_linkAlpha := fl_linkAlpha l; fl_hoverColor := fl_hoverColor l;
     fl_colorKey := fl_colorKey l; fl_highlighted := fl_highlighted l; fl_dimmed := fl_dimmed l |}.

Definition maskSensitiveLabels (nodes : list fnode) (links : list flink) : list fnode * list flink :=
  let masked := fn_id <$> List.filter masked_node nodes in
  (mask_node <$> nodes, mask_link masked <$> links).

(** ** Summary and filter options *)

Definition buildSummary (rows : list flow_row) : metrics :=
  fold_left (fun s row =>
      let m := rowMetrics row in
      {| m_quota := num_add (m_quota s) (m_quota m); m_tokens := num_add (m_tokens s) (m_tokens m);
         m_requests := num_add (m_requests s) (m_requests m) |})
    rows {| m_quota := Zero false; m_tokens := Zero false; m_requests := Zero false |}.

Record filter_option := {
  fo_kind : kind; fo_value : jsstr; fo_label : jsstr; fo_valueLabel : jsstr; fo_valueRaw : num;
  fo_color : jsstr
}.

Definition formatFlowNumber (value : jsv) : jsstr := intlFormat (numberValue value).

Definition stage_options (rows : list flow_row) (stages : list kind) (metric : jsstr)
    (selectedNodes : list node_filter) (stage : kind) : list filter_option :=
  let candidateRows := filterRowsByNodes rows (selectedNodeFiltersExceptKind selectedNodes stage) stages in
  let tots := fold_left (fun tot row =>
      let n := buildNode row stage in
      let key := selectedNodeKey {| nf_kind := kind_str (p_kind n); nf_id := p_id n |} in
      let current := match om_get key tot with Some c => c | None => (n, Zero false) end in
      om_set key (current.1, num_add current.2 (metric_of (rowMetrics row) metric)) tot)
    candidateRows [] in
  (fun it : jsstr * (pnode * num) =>
     {| fo_kind := p_kind it.2.1; fo_value := p_id it.2.1; fo_label := p_label it.2.1;
        fo_valueLabel := formatFlowNumber (JNum it.2.2); fo_valueRaw := it.2.2;
        fo_color := color_of (p_id it.2.1) (p_label it.2.1) |}) <$> tots.

(** [stageOrder.get(kind) || 0] *)
Fixpoint stage_order (stages : list kind) (i : Z) (k : kind) : Z :=
  match stages with
  | [] => 0
  | s :: stages' => if decide (s = k) then i else stage_order stages' (i + 1) k
  end.

Definition option_cmp (stages : list kind) (a b : filter_option) : Z :=
  cmp_or (stage_order stages 0 (fo_kind a) - stage_order stages 0 (fo_kind b))
    (cmp_or (num_sgn (num_sub (fo_valueRaw b) (fo_valueRaw a)))
       (cmp_or (localeCompare (fo_label a) (fo_label b)) (localeCompare (fo_value a) (fo_value b)))).

Definition buildFilterOptions (rows : list flow_row) (stages : list kind) (metric : jsstr)
    (selectedNodes : list node_filter) : list filter_option :=
  sort_by (option_cmp stages)
    (concat (stage_options rows stages metric selectedNodes <$> stages)).

(** ** The diagram *)

Record flow_config := {
  c_role : jsstr; c_metric : jsstr; c_visibleStages : option (list jsstr); c_topNodeLimit : jsv;
  c_overflowMode : jsstr; c_selectedNodes : list node_filter; c_activeNode : option node_filter;
  c_activeLink : option active_link; c_sensitiveVisible : option bool
}.

Record flow_data := {
  fd_summary : metrics; fd_nodes : list fnode; fd_links : list flink;
  fd_filterOptions : list filter_option
}.

(** The paths that are drawn, in the order of the rows. *)
Definition preparedPaths (rows : list flow_row) (stages : list kind)
    (sets : option (list (kind * list jsstr))) (overflowMode : jsstr) : list prepared :=
  concat ((fun row =>
    match applyTopNodeLimit (buildPath row stages) sets overflowMode with
    | None => []
    | Some path =>
        if (length path <? MIN_STAGES)%nat then []
        else [{| pp_path := path; pp_metrics := rowMetrics row |}]
    end) <$> rows).

Definition flow_maps (metric : jsstr) (paths : list prepared)
  : list (jsstr * fnode) * list (jsstr * flink) := fold_left (add_path metric) paths ([], []).

Definition node_cmp (a b : fnode) : Z :=
  cmp_or (num_sgn (num_sub (fn_value b) (fn_value a))) (localeCompare (fn_label a) (fn_label b)).
Definition link_cmp (a b : flink) : Z :=
  cmp_or (localeCompare (fl_source a) (fl_source b)) (localeCompare (fl_target a) (fl_target b)).

Definition set_share (s : num) (l : flink) : flink :=
  {| fl_source := fl_source l; fl_target := fl_target l;
     fl_sourceLabel := fl_sourceLabel l; fl_targetLabel := fl_targetLabel l;
     fl_value := fl_value l; fl_quota := fl_quota l; fl_tokens := fl_tokens l;
     fl_requests := fl_requests l; fl_share := s; fl_color := fl_color l;
     fl_linkColor := fl_linkColor l; fl_linkAlpha := fl_linkAlpha l; fl_hoverColor := fl_hoverColor l;
     fl_colorKey := fl_colorKey l; fl_highlighted := fl_highlighted l; fl_dimmed := fl_dimmed l |}.

(** The ids of the first nodes, and the total of the links that leave them. *)
Definition firstSources (paths : list prepared) : list jsstr :=
  List.filter (fun s => negb (bool_decide (s = [])))
    (concat ((fun pp => match pp_path pp with n :: _ => [p_id n] | [] => [] end) <$> paths)).

Definition first_total (firsts : list jsstr) (links : list flink) : num :=
  fold_left (fun sum l => num_add sum (fl_value l))
    (List.filter (fun l => bool_decide (fl_source l ∈ firsts)) links) (Zero false).

Definition with_shares (total : num) (links : list flink) : list flink :=
  (fun l => set_share (if positive total then num_div (fl_value l) total else Zero false) l) <$> links.

Definition buildDashboardFlowData (rows : list flow_row) (cfg : flow_config) : flow_data :=
  let stages := normalizeStages (c_role cfg) (c_visibleStages cfg) in
  let filteredRows := filterRowsByNodes rows (c_selectedNodes cfg) stages in
  let topSets := topNodeSets filteredRows stages (c_metric cfg) (c_topNodeLimit cfg) in
  let paths := preparedPaths filteredRows stages topSets (c_overflowMode cfg) in
  let maps := flow_maps (c_metric cfg) paths in
  let hs := buildHighlightSets paths (c_activeNode cfg) (c_activeLink cfg) stages in
  let (ns, ls) := applyHighlights (maps.1.*2) (maps.2.*2) hs in
  let nodeList := sort_by node_cmp ns in
  let linkList := sort_by link_cmp ls in
  let total := first_total (firstSources paths) linkList in
  let coloured := applyLinkColors (with_shares total linkList) in
  let (nodes, links) :=
    match c_sensitiveVisible cfg with
    | Some false => maskSensitiveLabels nodeList coloured
    | _ => (nodeList, coloured)
    end in
  {| fd_summary := buildSummary filteredRows; fd_nodes := nodes; fd_links := links;
     fd_filterOptions := buildFilterOptions rows stages (c_metric cfg) (c_selectedNodes cfg) |}.

(** ** The chart specification *)

Definition flag (b : option bool) : Z := match b with Some true => 1 | _ => 0 end.

Definition byLinkDrawPriority (a b : flink) : Z :=
  cmp_or (flag (fl_dimmed a) - flag (fl_dimmed b))
    (cmp_or (flag (fl_highlighted b) - flag (fl_highlighted a))
       (cmp_or (num_sgn (num_sub (fl_value b) (fl_value a)))
          (localeCompare (linkStableKey a) (linkStableKey b)))).

Definition z_index (l : flink) (index : Z) : Z :=
  match fl_highlighted l, fl_dimmed l with
  | Some true, _ => 1000000 + index
  | _, Some true => index
  | _, _ => 100000 + index
  end.

(** The links of the chart, each with its key and drawing layer. *)
Definition sankey_links (links : list flink) : list (flink * jsstr * Z) :=
  mapi (fun i l => (l, linkStableKey l, z_index l i))
    (sort_by byLinkDrawPriority (List.filter (fun l => positive (fl_value l)) links)).
End Flow.

(** ** Data of the chart library *)

(** [datum?.datum] may be the object itself or an array of ancestors. *)
Definition datumSource (datum : jsv) : jsv :=
  if negb (is_object datum) then JObj []
  else
    match datum?."datum" with
    | JArr l =>
        let depth := numberValue (datum?."depth") in
        js_or (oget (JArr l) (num_to_string depth)) (js_or (oget (JArr l) (u "0")) datum)
    | JObj o => JObj o
    | _ => datum
    end.

Definition is_undefined (v : jsv) : bool := match v with JUndef => true | _ => false end.

Definition datumValue (datum : jsv) (key : string) : jsv :=
  if truthy datum && negb (is_undefined (oget datum (u key))) then oget datum (u key)
  else oget (datumSource datum) (u key).

Definition datumFlag (datum : jsv) (key : string) : bool := is_true (datumValue datum key).

Definition flowSankeyDatumValue (datum : jsv) (key : string) : jsv :=
  if is_object datum then datumValue datum key else JUndef.

Definition isSankeyLinkDatum (datum : jsv) : bool :=
  negb (is_undefined (datumValue datum "source")) && negb (is_undefined (datumValue datum "target")).

Definition flowNodeFilterFromSankeyDatum (datum : jsv) : option node_filter :=
  if negb (is_object datum) || isSankeyLinkDatum datum then None
  else
    let id := flowSankeyDatumValue datum "key" in
    let k := flowSankeyDatumValue datum "kind" in
    match id, k with
    | JStr _, JStr ks | JNum _, JStr ks =>
        if bool_decide (ks ∈ kind_str <$> FLOW_NODE_KINDS)
        then Some {| nf_kind := ks; nf_id := to_string id |} else None
    | _, _ => None
    end.

(** The opacity of a node and of a link. *)
Definition node_opacity (datum : jsv) : num :=
  if datumFlag datum "dimmed" then dec (18 # 100)
  else if datumFlag datum "highlighted" then of_Z 1 else dec (92 # 100).

Definition link_opacity (datum : jsv) : num :=
  if datumFlag datum "dimmed" then dec (8 # 100)
  else if datumFlag datum "highlighted" then dec (86 # 100)
  else
    let a := numberValue (datumValue datum "linkAlpha") in
    if num_truthy a then a else of_Z 1.

(** The title of the tooltip. *)
Definition tooltip_title (datum : jsv) : jsstr :=
  let source := datumValue datum "source" in
  let target := datumValue datum "target" in
  if truthy source && truthy target then
    to_string (js_or (datumValue datum "sourceLabel") source) ++ u " -> "
      ++ to_string (js_or (datumValue datum "targetLabel") target)
  else to_string (js_or (datumValue datum "name") (js_or (datumValue datum "rawLabel") (JStr []))).

(** The lines of the tooltip of a datum: label, text, and whether it is shown. *)
Definition tooltipMetricLines (formatMetric : num -> jsstr -> jsstr) (l_quota l_tokens l_requests l_share : jsstr)
    (datum : jsv) : list (jsstr * jsstr * bool) :=
  let v key := numberValue (datumValue datum key) in
  [(l_quota, formatMetric (v "quota"%string) (u "quota"), true);
   (l_tokens, formatMetric (v "tokens"%string) (u "tokens"), true);
   (l_requests, formatMetric (v "requests"%string) (u "requests"), true);
   (l_share, to_fixed 1 (num_mul (v "share"%string) (of_Z 100)) ++ u "%", positive (v "share"%string))].
