(* ===== verification/DashboardFlowThms.v ===== *)
(** * The dashboard's flow diagram: theorems

    The totals of nodes and links, the limit on nodes, masking, highlights and
    filters. *)

From Stdlib Require Import QArith.
From S2P Require Import Prelude JsString JsNumber JsNumText JsValue JsRegex Colors DashboardFlow.

#[local] Open Scope Z_scope.

(** ** Accumulators

    [addNode] and [addLink] both create a cell for a key when it is missing and
    then grow it.  An operation is a key, the cell to create, how it grows, and
    the metrics it grows by. *)

Section Accumulate.
Context {C : Type}.

Record bump := { b_key : jsstr; b_fresh : C; b_grow : C -> C; b_metrics : metrics }.

Definition do_bump (m : list (jsstr * C)) (b : bump) : list (jsstr * C) :=
  om_set (b_key b) (b_grow b (match om_get (b_key b) m with Some c => c | None => b_fresh b end)) m.

Definition bumps_of (k : jsstr) (bs : list bump) : list bump :=
  List.filter (fun b => bool_decide (b_key b = k)) bs.

Lemma bumps_NoDup bs m : NoDup (m.*1) -> NoDup ((fold_left do_bump bs m).*1).
Proof.
  revert m. induction bs as [|b bs IH]; intros m H; simpl; [done|]. apply IH. by apply om_set_NoDup.
Qed.

Lemma bumps_keys bs m k :
  k ∈ (fold_left do_bump bs m).*1 <-> k ∈ m.*1 \/ k ∈ b_key <$> bs.
Proof.
  revert m. induction bs as [|b bs IH]; intros m; csimpl; [set_solver|].
  rewrite IH. unfold do_bump. rewrite elem_of_om_keys_set, elem_of_cons. tauto.
Qed.

(** A property of cells that every operation on the key establishes. *)
Lemma bumps_prop (P : C -> Prop) bs m k c :
  (forall b c', b ∈ bs -> b_key b = k -> (c' = b_fresh b \/ P c') -> P (b_grow b c')) ->
  (forall c', om_get k m = Some c' -> P c') ->
  om_get k (fold_left do_bump bs m) = Some c -> P c.
Proof.
  revert m. induction bs as [|b bs IH]; intros m Hb Hm H; simpl in *; [by apply Hm|].
  eapply IH; [|clear H|exact H].
  - intros b' c' Hin. apply Hb. set_solver.
  - intros c' Hc. unfold do_bump in Hc. destruct (decide (k = b_key b)) as [->|Hne].
    + rewrite om_get_set_eq in Hc. injection Hc as <-. apply Hb; [set_solver | done|].
      destruct (om_get (b_key b) m) eqn:E; [right; by apply Hm | by left].
    + rewrite om_get_set_ne in Hc by done. by apply Hm.
Qed.

(** A field that starts at zero and grows by an amount per operation holds the
    sum of the amounts, added in order. *)
Lemma bumps_sum (sel : C -> num) (amount : bump -> num) bs m k c :
  (forall b c', b ∈ bs -> sel (b_grow b c') = num_add (sel c') (amount b)) ->
  (forall b, b ∈ bs -> sel (b_fresh b) = Zero false) ->
  om_get k (fold_left do_bump bs m) = Some c ->
  sel c = fold_left num_add (amount <$> bumps_of k bs)
            (match om_get k m with Some c0 => sel c0 | None => Zero false end).
Proof.
  intros Hg Hf. revert m. induction bs as [|b bs IH]; intros m H; simpl in *; [by rewrite H|].
  rewrite IH with (m := do_bump m b); [|set_solver..|done]. unfold do_bump, bumps_of. simpl.
  case_bool_decide as E.
  - subst k. rewrite om_get_set_eq. csimpl. rewrite Hg by set_solver.
    destruct (om_get (b_key b) m); [done|]. by rewrite Hf by set_solver.
  - by rewrite om_get_set_ne by congruence.
Qed.
End Accumulate.
Arguments bump C : clear implicits.

(** ** The operations of the diagram *)

Definition node_bump (metric : jsstr) (pp : prepared) (root n : pnode) : bump fnode :=
  {| b_key := p_id n;
     b_fresh := new_node n (color_of (p_id root) (p_label root)) (p_id root);
     b_grow := grow_node (pp_metrics pp) metric; b_metrics := pp_metrics pp |}.

Definition link_bump (metric : jsstr) (pp : prepared) (root : pnode) (ab : pnode * pnode) : bump flink :=
  {| b_key := pathLinkKey ab.1 ab.2;
     b_fresh := new_link ab.1 ab.2 (color_of (p_id root) (p_label root)) (p_id root);
     b_grow := grow_link (pp_metrics pp) metric; b_metrics := pp_metrics pp |}.

Definition path_node_bumps (metric : jsstr) (pp : prepared) : list (bump fnode) :=
  match pp_path pp with [] => [] | root :: _ => node_bump metric pp root <$> pp_path pp end.
Definition path_link_bumps (metric : jsstr) (pp : prepared) : list (bump flink) :=
  match pp_path pp with [] => [] | root :: _ => link_bump metric pp root <$> pairs (pp_path pp) end.

Lemma fold_left_fmap {A B C} (f : A -> B -> A) (g : C -> B) l a :
  fold_left f (g <$> l) a = fold_left (fun a x => f a (g x)) l a.
Proof. revert a. induction l; intros; simpl; auto. Qed.

Lemma flow_maps_bumps metric paths :
  flow_maps metric paths
  = (fold_left do_bump (concat (path_node_bumps metric <$> paths)) [],
     fold_left do_bump (concat (path_link_bumps metric <$> paths)) []).
Proof.
  unfold flow_maps.
  assert (forall ns ls, fold_left (add_path metric) paths (ns, ls)
    = (fold_left do_bump (concat (path_node_bumps metric <$> paths)) ns,
       fold_left do_bump (concat (path_link_bumps metric <$> paths)) ls)) as H; [|apply H].
  induction paths as [|pp paths IH]; intros ns ls; [done|]. csimpl. rewrite !fold_left_app.
  rewrite <- IH. f_equal. unfold add_path, path_node_bumps, path_link_bumps.
  destruct (pp_path pp) as [|root rest]; [done|].
  by rewrite !fold_left_fmap.
Qed.

(** The amounts that reach a node or a link: one per occurrence on a path. *)
Definition node_parts (part : metrics -> num) (id : jsstr) (paths : list prepared) : list num :=
  concat ((fun pp => (fun _ => part (pp_metrics pp))
            <$> List.filter (fun n => bool_decide (p_id n = id)) (pp_path pp)) <$> paths).
Definition link_parts (part : metrics -> num) (key : jsstr) (paths : list prepared) : list num :=
  concat ((fun pp => (fun _ => part (pp_metrics pp))
            <$> List.filter (fun ab : pnode * pnode => bool_decide (pathLinkKey ab.1 ab.2 = key))
                  (pairs (pp_path pp))) <$> paths).

Definition sum (l : list num) : num := fold_left num_add l (Zero false).

Lemma filter_concat {A} (p : A -> bool) (ls : list (list A)) :
  List.filter p (concat ls) = concat (List.filter p <$> ls).
Proof. induction ls as [|l ls IH]; csimpl; [done|]. by rewrite List.filter_app, IH. Qed.

Lemma filter_fmap_comm {A B} (f : A -> B) (p : B -> bool) (l : list A) :
  List.filter p (f <$> l) = f <$> List.filter (fun x => p (f x)) l.
Proof. induction l as [|x l IH]; csimpl; [done|]. rewrite IH. by destruct (p (f x)). Qed.

Lemma fmap_concat {A B} (f : A -> B) (ls : list (list A)) : f <$> concat ls = concat ((fun l : list A => f <$> l) <$> ls).
Proof. induction ls as [|l ls IH]; csimpl; [done|]. by rewrite fmap_app, IH. Qed.

Lemma node_amounts part metric id paths :
  (fun b : bump fnode => part (b_metrics b)) <$> bumps_of id (concat (path_node_bumps metric <$> paths))
  = node_parts part id paths.
Proof.
  unfold bumps_of, node_parts. rewrite filter_concat, fmap_concat, <- !list_fmap_compose. f_equal.
  apply list_fmap_ext. intros _ pp _. unfold compose, path_node_bumps.
  destruct (pp_path pp) as [|root rest]; [done|].
  by rewrite filter_fmap_comm, <- list_fmap_compose.
Qed.

Lemma link_amounts part metric key paths :
  (fun b : bump flink => part (b_metrics b)) <$> bumps_of key (concat (path_link_bumps metric <$> paths))
  = link_parts part key paths.
Proof.
  unfold bumps_of, link_parts. rewrite filter_concat, fmap_concat, <- !list_fmap_compose. f_equal.
  apply list_fmap_ext. intros _ pp _. unfold compose, path_link_bumps.
  destruct (pp_path pp) as [|root rest]; [done|].
  by rewrite filter_fmap_comm, <- list_fmap_compose.
Qed.

Lemma elem_of_node_bumps metric paths b :
  b ∈ concat (path_node_bumps metric <$> paths) ->
  exists pp root n, pp ∈ paths /\ n ∈ pp_path pp /\ b = node_bump metric pp root n.
Proof.
  rewrite elem_of_concat_fmap. intros (pp & Hpp & Hb). unfold path_node_bumps in Hb.
  destruct (pp_path pp) as [|root rest] eqn:E; [set_solver|].
  apply list_elem_of_fmap in Hb as (n & -> & Hn). exists pp, root, n. by rewrite E.
Qed.

Lemma elem_of_link_bumps metric paths b :
  b ∈ concat (path_link_bumps metric <$> paths) ->
  exists pp root ab, pp ∈ paths /\ ab ∈ pairs (pp_path pp) /\ b = link_bump metric pp root ab.
Proof.
  rewrite elem_of_concat_fmap. intros (pp & Hpp & Hb). unfold path_link_bumps in Hb.
  destruct (pp_path pp) as [|root rest] eqn:E; [set_solver|].
  apply list_elem_of_fmap in Hb as (ab & -> & Hn). exists pp, root, ab. by rewrite E.
Qed.

Lemma node_bump_keys metric paths id :
  id ∈ b_key <$> concat (path_node_bumps metric <$> paths)
  <-> exists pp, pp ∈ paths /\ id ∈ p_id <$> pp_path pp.
Proof.
  rewrite fmap_concat, <- list_fmap_compose, elem_of_concat_fmap.
  apply exist_proper. intros pp. unfold compose, path_node_bumps.
  destruct (pp_path pp) as [|root rest]; [set_solver|]. by rewrite <- list_fmap_compose.
Qed.

Lemma link_bump_keys metric paths key :
  key ∈ b_key <$> concat (path_link_bumps metric <$> paths)
  <-> exists pp, pp ∈ paths /\ key ∈ (fun ab : pnode * pnode => pathLinkKey ab.1 ab.2) <$> pairs (pp_path pp).
Proof.
  rewrite fmap_concat, <- list_fmap_compose, elem_of_concat_fmap.
  apply exist_proper. intros pp. unfold compose, path_link_bumps.
  destruct (pp_path pp) as [|root rest]; [set_solver|]. by rewrite <- list_fmap_compose.
Qed.

(** ** The cells of the two maps *)

(** What a node and a link hold: their key and their four totals. *)
Definition node_sums (n : fnode) : jsstr * num * num * num * num :=
  (fn_id n, fn_value n, fn_quota n, fn_tokens n, fn_requests n).
Definition link_sums (l : flink) : jsstr * num * num * num * num :=
  (linkStableKey l, fl_value l, fl_quota l, fl_tokens l, fl_requests l).

Definition node_total (metric : jsstr) (paths : list prepared) (id : jsstr) :=
  (id, sum (node_parts (fun m => metric_of m metric) id paths), sum (node_parts m_quota id paths),
   sum (node_parts m_tokens id paths), sum (node_parts m_requests id paths)).
Definition link_total (metric : jsstr) (paths : list prepared) (key : jsstr) :=
  (key, sum (link_parts (fun m => metric_of m metric) key paths), sum (link_parts m_quota key paths),
   sum (link_parts m_tokens key paths), sum (link_parts m_requests key paths)).

Lemma node_cell metric paths id n :
  om_get id (flow_maps metric paths).1 = Some n -> node_sums n = node_total metric paths id.
Proof.
  rewrite flow_maps_bumps. cbn [fst]. intros H.
  assert (forall sel part,
    (forall m c, sel (grow_node m metric c) = num_add (sel c) (part m)) ->
    (forall p c k, sel (new_node p c k) = Zero false) ->
    sel n = sum (node_parts part id paths)) as Hs.
  { intros sel part Hg Hf. rewrite <- (node_amounts part metric).
    refine (bumps_sum sel (fun b => part (b_metrics b)) _ [] id n _ _ H);
      [intros b c' | intros b]; intros (pp & root & p & _ & _ & ->)%elem_of_node_bumps; [apply Hg|apply Hf]. }
  unfold node_sums, node_total.
  apply f_equal2; [apply f_equal2; [apply f_equal2; [apply f_equal2|]|]|]; [|by apply Hs..].
  revert H. apply (bumps_prop (fun c => fn_id c = id)); [|done].
  intros b c' (pp & root & p & _ & _ & ->)%elem_of_node_bumps Hk [->|Hc]; [exact Hk|exact Hc].
Qed.

Lemma link_cell metric paths key l :
  om_get key (flow_maps metric paths).2 = Some l -> link_sums l = link_total metric paths key.
Proof.
  rewrite flow_maps_bumps. cbn [snd]. intros H.
  assert (forall sel part,
    (forall m c, sel (grow_link m metric c) = num_add (sel c) (part m)) ->
    (forall a b c k, sel (new_link a b c k) = Zero false) ->
    sel l = sum (link_parts part key paths)) as Hs.
  { intros sel part Hg Hf. rewrite <- (link_amounts part metric).
    refine (bumps_sum sel (fun b => part (b_metrics b)) _ [] key l _ _ H);
      [intros b c' | intros b]; intros (pp & root & p & _ & _ & ->)%elem_of_link_bumps; [apply Hg|apply Hf]. }
  unfold link_sums, link_total.
  apply f_equal2; [apply f_equal2; [apply f_equal2; [apply f_equal2|]|]|]; [|by apply Hs..].
  revert H. apply (bumps_prop (fun c => linkStableKey c = key)); [|done].
  intros b c' (pp & root & p & _ & _ & ->)%elem_of_link_bumps Hk [->|Hc]; [exact Hk|exact Hc].
Qed.

(** A map whose cells are a function of their key lists that function of its keys. *)
Lemma cells_of_keys {C D} (f : C -> D) (g : jsstr -> D) (m : list (jsstr * C)) :
  NoDup (m.*1) -> (forall k c, om_get k m = Some c -> f c = g k) -> f <$> m.*2 = g <$> m.*1.
Proof.
  intros Hnd H. rewrite <- !list_fmap_compose. apply list_fmap_ext. intros i [k c] Hin. unfold compose. simpl.
  apply H, om_in_get; [done|]. by eapply list_elem_of_lookup_2.
Qed.

(** The nodes and links drawn for some paths, before order, shares and colours. *)
Lemma flow_nodes_sums metric paths :
  exists ids, NoDup ids
    /\ (forall id, id ∈ ids <-> exists pp, pp ∈ paths /\ id ∈ p_id <$> pp_path pp)
    /\ node_sums <$> (flow_maps metric paths).1.*2 = node_total metric paths <$> ids.
Proof.
  exists ((flow_maps metric paths).1.*1).
  assert (NoDup ((flow_maps metric paths).1.*1)) as Hnd
    by (rewrite flow_maps_bumps; apply bumps_NoDup; constructor).
  split_and!; [done| |by apply cells_of_keys; [|apply node_cell]].
  intros id. rewrite flow_maps_bumps. cbn [fst]. rewrite bumps_keys, node_bump_keys. set_solver.
Qed.

Lemma flow_links_sums metric paths :
  exists keys, NoDup keys
    /\ (forall key, key ∈ keys <-> exists pp, pp ∈ paths
          /\ key ∈ (fun ab : pnode * pnode => pathLinkKey ab.1 ab.2) <$> pairs (pp_path pp))
    /\ link_sums <$> (flow_maps metric paths).2.*2 = link_total metric paths <$> keys.
Proof.
  exists ((flow_maps metric paths).2.*1).
  assert (NoDup ((flow_maps metric paths).2.*1)) as Hnd
    by (rewrite flow_maps_bumps; apply bumps_NoDup; constructor).
  split_and!; [done| |by apply cells_of_keys; [|apply link_cell]].
  intros id. rewrite flow_maps_bumps. cbn [snd]. rewrite bumps_keys, link_bump_keys. set_solver.
Qed.

(** ** The stages that follow keep the totals *)

Section Flow.
Context (localeCompare : jsstr -> jsstr -> Z).
Context (t : jsstr -> list (jsstr * num) -> jsstr).
Context (intlFormat : num -> jsstr).

(** The rows and the paths that the diagram of a configuration draws. *)
Definition flow_rows (rows : list flow_row) (cfg : flow_config) : list flow_row :=
  filterRowsByNodes t rows (c_selectedNodes cfg) (normalizeStages (c_role cfg) (c_visibleStages cfg)).
Definition flow_paths (rows : list flow_row) (cfg : flow_config) : list prepared :=
  let stages := normalizeStages (c_role cfg) (c_visibleStages cfg) in
  let rs := flow_rows rows cfg in
  preparedPaths t rs stages (topNodeSets localeCompare t rs stages (c_metric cfg) (c_topNodeLimit cfg))
    (c_overflowMode cfg).

Let build := buildDashboardFlowData localeCompare t intlFormat.

(** The highlighted nodes and links, as they leave the two maps. *)
Definition flow_marked (rows : list flow_row) (cfg : flow_config) : list fnode * list flink :=
  let paths := flow_paths rows cfg in
  let maps := flow_maps (c_metric cfg) paths in
  applyHighlights (maps.1.*2) (maps.2.*2)
    (buildHighlightSets paths (c_activeNode cfg) (c_activeLink cfg)
       (normalizeStages (c_role cfg) (c_visibleStages cfg))).

(** Whatever the later stages leave alone in a node is in the diagram what it
    was in the map; the same for links. *)
Lemma build_nodes_marked {D} (f : fnode -> D) rows cfg :
  (forall n, f (mask_node n) = f n) ->
  f <$> fd_nodes (build rows cfg) ≡ₚ f <$> (flow_marked rows cfg).1.
Proof.
  intros Hmask. unfold build, buildDashboardFlowData. fold (flow_rows rows cfg). cbv zeta.
  fold (flow_paths rows cfg). fold (flow_marked rows cfg). destruct (flow_marked rows cfg) as [ns ls].
  assert (f <$> (mask_node <$> sort_by (node_cmp localeCompare) ns)
          = f <$> sort_by (node_cmp localeCompare) ns) as H2.
  { rewrite <- list_fmap_compose. apply list_fmap_ext. intros. apply Hmask. }
  destruct (c_sensitiveVisible cfg) as [[]|]; simpl; rewrite ?H2, sort_by_perm; done.
Qed.

Lemma build_nodes_proj {D} (f : fnode -> D) rows cfg :
  (forall hs n, f (mark_node hs n) = f n) -> (forall n, f (mask_node n) = f n) ->
  f <$> fd_nodes (build rows cfg) ≡ₚ f <$> (flow_maps (c_metric cfg) (flow_paths rows cfg)).1.*2.
Proof.
  intros Hmark Hmask. rewrite build_nodes_marked by done. unfold flow_marked, applyHighlights.
  destruct (buildHighlightSets _ _ _ _); [|done]. simpl. rewrite <- list_fmap_compose.
  apply reflexive_eq, list_fmap_ext. intros. apply Hmark.
Qed.

Lemma build_links_marked {D} (f : flink -> D) rows cfg :
  (forall m l, f (mask_link m l) = f l) ->
  (forall s l, f (set_share s l) = f l) -> (forall c l, f (set_color c l) = f l) ->
  f <$> fd_links (build rows cfg) ≡ₚ f <$> (flow_marked rows cfg).2.
Proof.
  intros Hmask Hs Hc. unfold build, buildDashboardFlowData. fold (flow_rows rows cfg). cbv zeta.
  fold (flow_paths rows cfg). fold (flow_marked rows cfg). destruct (flow_marked rows cfg) as [ns ls].
  set (cl := applyLinkColors _ _).
  assert (f <$> cl ≡ₚ f <$> ls) as Hcl.
  { unfold cl, applyLinkColors, with_shares. rewrite <- !list_fmap_compose.
    rewrite <- (sort_by_perm (link_cmp localeCompare) ls) at 2. apply reflexive_eq, list_fmap_ext.
    intros. unfold compose. by rewrite Hc, Hs. }
  assert (forall m, f <$> (mask_link m <$> cl) = f <$> cl) as H2.
  { intros m. rewrite <- list_fmap_compose. apply list_fmap_ext. intros. apply Hmask. }
  destruct (c_sensitiveVisible cfg) as [[]|]; simpl; rewrite ?H2; exact Hcl.
Qed.

Lemma build_links_proj {D} (f : flink -> D) rows cfg :
  (forall hs l, f (mark_link hs l) = f l) -> (forall m l, f (mask_link m l) = f l) ->
  (forall s l, f (set_share s l) = f l) -> (forall c l, f (set_color c l) = f l) ->
  f <$> fd_links (build rows cfg) ≡ₚ f <$> (flow_maps (c_metric cfg) (flow_paths rows cfg)).2.*2.
Proof.
  intros Hmark Hmask Hs Hc. rewrite build_links_marked by done. unfold flow_marked, applyHighlights.
  destruct (buildHighlightSets _ _ _ _); [|done]. simpl. rewrite <- list_fmap_compose.
  apply reflexive_eq, list_fmap_ext. intros. apply Hmark.
Qed.

(** C38. The diagram of a configuration has exactly one node per id that occurs
    on a drawn path and exactly one link per pair of neighbours; the value, the
    quota, the tokens and the requests of each are the sums, in row order, of
    the metrics of the drawn rows that pass through it.  Highlighting, sorting,
    shares, colours and masking change none of this. *)
Theorem flow_totals rows cfg :
  exists ids keys, NoDup ids /\ NoDup keys
  /\ (forall id, id ∈ ids <-> exists pp, pp ∈ flow_paths rows cfg /\ id ∈ p_id <$> pp_path pp)
  /\ (forall key, key ∈ keys <-> exists pp, pp ∈ flow_paths rows cfg
        /\ key ∈ (fun ab : pnode * pnode => pathLinkKey ab.1 ab.2) <$> pairs (pp_path pp))
  /\ node_sums <$> fd_nodes (buildDashboardFlowData localeCompare t intlFormat rows cfg)
       ≡ₚ node_total (c_metric cfg) (flow_paths rows cfg) <$> ids
  /\ link_sums <$> fd_links (buildDashboardFlowData localeCompare t intlFormat rows cfg)
       ≡ₚ link_total (c_metric cfg) (flow_paths rows cfg) <$> keys.
Proof.
  destruct (flow_nodes_sums (c_metric cfg) (flow_paths rows cfg)) as (ids & ? & ? & Hn).
  destruct (flow_links_sums (c_metric cfg) (flow_paths rows cfg)) as (keys & ? & ? & Hl).
  exists ids, keys. rewrite <- Hn, <- Hl. split_and!; try done.
  - apply build_nodes_proj; [done|]. intros n. unfold mask_node. by destruct (masked_node n).
  - by apply build_links_proj.
Qed.

(** ** Stages *)

Lemma normalizeStages_min role vs : (MIN_STAGES <= length (normalizeStages role vs))%nat.
Proof.
  assert (MIN_STAGES <= length (getFlowStages role))%nat as H.
  { unfold getFlowStages, ROLE_STAGES. repeat case_bool_decide; unfold MIN_STAGES; simpl; lia. }
  unfold normalizeStages. destruct vs as [vs|]; [|done]. destruct (_ <? _)%nat; [done|].
  destruct (Nat.leb_spec MIN_STAGES (length (List.filter (fun s => bool_decide (kind_str s ∈ vs)) (getFlowStages role)))); done.
Qed.

Lemma getFlowStages_NoDup role : NoDup (getFlowStages role).
Proof.
  unfold getFlowStages, ROLE_STAGES. repeat case_bool_decide; apply (bool_decide_unpack _); vm_compute; done.
Qed.

Lemma normalizeStages_NoDup role vs : NoDup (normalizeStages role vs).
Proof.
  pose proof (getFlowStages_NoDup role) as H. unfold normalizeStages. destruct vs; [|done].
  repeat case_goal; try done. apply NoDup_ListNoDup, List.NoDup_filter, NoDup_ListNoDup, H.
Qed.

(** ** The limit on nodes *)

Definition shape (pp : prepared) : list kind := p_kind <$> pp_path pp.

Lemma buildPath_kinds row stages : p_kind <$> buildPath t row stages = stages.
Proof.
  unfold buildPath. rewrite <- list_fmap_compose. rewrite <- (list_fmap_id stages) at 2.
  apply list_fmap_ext. intros _ k _. by destruct k.
Qed.

Lemma applyTopNodeLimit_kinds path sets mode path' :
  applyTopNodeLimit t path sets mode = Some path' -> p_kind <$> path' = p_kind <$> path.
Proof.
  unfold applyTopNodeLimit. destruct sets as [ss|]; [|by intros [= <-]].
  destruct (negb (existsb _ _)); [by intros [= <-]|]. case_bool_decide; [done|]. intros [= <-].
  rewrite <- list_fmap_compose. apply list_fmap_ext. intros _ n _. unfold compose. by destruct (in_set _ _).
Qed.

Lemma applyTopNodeLimit_aggregate path sets mode :
  mode <> u "hide" -> is_Some (applyTopNodeLimit t path sets mode).
Proof.
  intros Hm. unfold applyTopNodeLimit. destruct sets as [ss|]; [|by eexists].
  destruct (negb _); [by eexists|]. rewrite bool_decide_false by done. by eexists.
Qed.

(** Every node that stays on a path is in its set or is the stand-in. *)
Lemma applyTopNodeLimit_nodes path ss mode path' n :
  applyTopNodeLimit t path (Some ss) mode = Some path' -> n ∈ path' ->
  in_set ss n = true \/ (mode <> u "hide" /\ n = other_node t (p_kind n)).
Proof.
  unfold applyTopNodeLimit. destruct (existsb _ _) eqn:E; simpl.
  - case_bool_decide; [done|]. intros [= <-]. rewrite list_elem_of_fmap. intros (m & -> & _).
    destruct (in_set ss m) eqn:Em; [by left | right; done].
  - intros [= <-] Hn. left. apply not_true_iff_false in E. destruct (in_set ss n) eqn:Em; [done|].
    destruct E. apply existsb_exists. exists n. rewrite <- list_elem_of_In. by rewrite Em.
Qed.

Lemma preparedPaths_elem rows stages sets mode pp :
  pp ∈ preparedPaths t rows stages sets mode <->
  exists row, row ∈ rows /\ applyTopNodeLimit t (buildPath t row stages) sets mode = Some (pp_path pp)
    /\ (MIN_STAGES <= length (pp_path pp))%nat /\ pp_metrics pp = rowMetrics row.
Proof.
  unfold preparedPaths. rewrite elem_of_concat_fmap. apply exist_proper. intros row.
  destruct (applyTopNodeLimit _ _ _ _) as [path|]; [|set_solver].
  destruct (Nat.ltb_spec (length path) MIN_STAGES).
  - split; [set_solver|]. intros (? & [= <-] & ? & _). lia.
  - rewrite list_elem_of_singleton. destruct pp as [p m]. simpl. naive_solver.
Qed.

Lemma concat_all_single {A B D} (f : B -> D) (g : A -> D) (h : A -> list B) (l : list A) :
  (forall x, exists y, h x = [y] /\ f y = g x) -> f <$> concat (h <$> l) = g <$> l.
Proof.
  intros H. induction l as [|x l IH]; csimpl; [done|]. destruct (H x) as (y & -> & Hy). csimpl.
  by rewrite Hy, IH.
Qed.

(** ** The tables of totals *)

Lemma add_stage_total_keys value m n k :
  k ∈ (add_stage_total value m n).*1 <-> k ∈ m.*1.
Proof.
  unfold add_stage_total. destruct (om_get (p_kind n) m) eqn:E; [|done].
  rewrite elem_of_om_keys_set. split; [|by right]. intros [->|]; [|done].
  apply om_get_Some_in in E. apply list_elem_of_fmap. by eexists (_, _).
Qed.

Lemma fold_keys {A B} (f : list (kind * B) -> A -> list (kind * B)) l m k :
  (forall m x, k ∈ (f m x).*1 <-> k ∈ m.*1) -> k ∈ (fold_left f l m).*1 <-> k ∈ m.*1.
Proof. intros H. revert m. induction l as [|x l IH]; intros m; simpl; [done|]. by rewrite IH, H. Qed.

Lemma stage_totals_keys rows stages metric k :
  k ∈ (stage_totals t rows stages metric).*1 <-> k ∈ stages.
Proof.
  unfold stage_totals. rewrite fold_keys by (intros; apply fold_keys; intros; apply add_stage_total_keys).
  assert (forall m : list (kind * list (jsstr * (pnode * num))),
    k ∈ (fold_left (fun m s => om_set s [] m) stages m).*1 <-> k ∈ m.*1 \/ k ∈ stages) as H.
  { induction stages as [|s stages IH]; intros m; simpl; [set_solver|].
    rewrite IH, elem_of_om_keys_set. set_solver. }
  rewrite H. set_solver.
Qed.

Lemma om_get_fmap {K V W} `{EqDecision K} (f : V -> W) k (m : list (K * V)) :
  om_get k ((fun kv => (kv.1, f kv.2)) <$> m) = f <$> om_get k m.
Proof. induction m as [|[k' v] m IH]; csimpl; [done|]. by destruct (decide (k = k')). Qed.

Lemma topNodeSets_get rows stages metric lim ss k :
  topNodeSets localeCompare t rows stages metric lim = Some ss -> k ∈ stages ->
  exists s, om_get k ss = Some s /\ NoDup s /\ (length s <= Z.to_nat (num_Z (to_number lim)))%nat.
Proof.
  unfold topNodeSets. destruct (_ || _); [done|]. intros [= <-] Hk.
  rewrite (om_get_fmap (fun v => uniq (top_ids localeCompare (to_number lim) v)) k).
  apply (stage_totals_keys rows stages metric) in Hk.
  destruct (om_get k (stage_totals t rows stages metric)) as [tot|] eqn:E; [|by apply om_get_None in E].
  eexists. split_and!; [done | apply NoDup_uniq|].
  etrans; [apply length_uniq_le|]. unfold top_ids. rewrite length_fmap. rewrite length_take. lia.
Qed.

(** With no limit every filtered row is drawn along all the stages.  With a
    positive finite limit each stage shows at most that many nodes of its own;
    a row that leaves them is folded into the stand-in node of the stage in
    aggregate mode, where still every row is drawn, and disappears in hide mode. *)
Theorem top_node_limit rows cfg :
  let stages := normalizeStages (c_role cfg) (c_visibleStages cfg) in
  let limit := to_number (c_topNodeLimit cfg) in
  (forall pp, pp ∈ flow_paths rows cfg -> shape pp = stages)
  /\ (c_overflowMode cfg <> u "hide" \/ is_finite limit = false \/ num_le limit (Zero false) = true ->
      pp_metrics <$> flow_paths rows cfg = rowMetrics <$> flow_rows rows cfg)
  /\ (is_finite limit = true -> num_le limit (Zero false) = false -> forall k, k ∈ stages ->
      exists s, NoDup s /\ (length s <= Z.to_nat (num_Z limit))%nat
        /\ forall pp n, pp ∈ flow_paths rows cfg -> n ∈ pp_path pp -> p_kind n = k ->
           p_id n ∈ s \/ (c_overflowMode cfg <> u "hide" /\ n = other_node t k)).
Proof.
  intros stages limit. unfold flow_paths. fold stages.
  set (rs := flow_rows rows cfg). set (sets := topNodeSets _ _ _ _ _ _).
  assert (MIN_STAGES <= length stages)%nat as Hmin by apply normalizeStages_min.
  split_and!.
  - intros pp (row & _ & H & _)%preparedPaths_elem. apply applyTopNodeLimit_kinds in H.
    by rewrite buildPath_kinds in H.
  - intros Hc. unfold preparedPaths. apply (concat_all_single pp_metrics rowMetrics). intros row.
    assert (is_Some (applyTopNodeLimit t (buildPath t row stages) sets (c_overflowMode cfg))) as [path Hp].
    { destruct Hc as [Hm|Hlim]; [by apply applyTopNodeLimit_aggregate|].
      assert (sets = None) as ->; [|by eexists].
      unfold sets, topNodeSets. fold limit. destruct Hlim as [->| ->]; [done|]. by rewrite orb_true_r. }
    exists {| pp_path := path; pp_metrics := rowMetrics row |}. split; [|done]. rewrite Hp.
    apply applyTopNodeLimit_kinds in Hp. rewrite buildPath_kinds in Hp.
    apply (f_equal length) in Hp. rewrite length_fmap in Hp.
    destruct (Nat.ltb_spec (length path) MIN_STAGES); [lia | done].
  - intros Hfin Hle k Hk. destruct sets as [ss|] eqn:E.
    2:{ unfold sets, topNodeSets in E. fold limit in E. by rewrite Hfin, Hle in E. }
    destruct (topNodeSets_get _ _ _ _ _ k E Hk) as (s & Hs & Hnd & Hlen).
    exists s. split_and!; [done..|]. intros pp n (row & _ & H & _)%preparedPaths_elem Hn <-.
    destruct (applyTopNodeLimit_nodes _ _ _ _ n H Hn) as [Hin|]; [left|by right].
    unfold in_set in Hin. rewrite Hs in Hin. by bool_simp.
Qed.

(** ** Masking *)

(** Both ends of a link are nodes of the diagram. *)
Lemma pairs_elem {A} (a b : A) l : (a, b) ∈ pairs l -> a ∈ l /\ b ∈ l.
Proof.
  induction l as [|x [|y l] IH]; simpl; [set_solver..|]. rewrite elem_of_cons.
  intros [[= -> ->]|H]; [set_solver|]. apply IH in H. set_solver.
Qed.

Lemma link_cell_ends metric paths l :
  l ∈ (flow_maps metric paths).2.*2 ->
  exists pp ab, pp ∈ paths /\ ab ∈ pairs (pp_path pp) /\ fl_source l = p_id ab.1 /\ fl_target l = p_id ab.2.
Proof.
  intros ([k l'] & -> & Hin)%list_elem_of_fmap. simpl.
  assert (om_get k (flow_maps metric paths).2 = Some l') as H.
  { apply om_in_get; [|done]. rewrite flow_maps_bumps. apply bumps_NoDup. constructor. }
  rewrite flow_maps_bumps in H. simpl in H. revert H.
  apply (bumps_prop (fun c => exists pp ab, pp ∈ paths /\ ab ∈ pairs (pp_path pp)
    /\ fl_source c = p_id ab.1 /\ fl_target c = p_id ab.2)); [|done].
  intros b c' (pp & root & ab & Hpp & Hab & ->)%elem_of_link_bumps _ [->|(pp' & ab' & ?)].
  - by exists pp, ab.
  - by exists pp', ab'.
Qed.

Lemma elem_of_perm_fmap {A B C} (f : A -> C) (g : B -> C) l l' x :
  f <$> l ≡ₚ g <$> l' -> x ∈ l -> exists y, y ∈ l' /\ f x = g y.
Proof.
  intros Hp Hx. assert (f x ∈ g <$> l') as (y & ? & ?)%list_elem_of_fmap; [|by exists y].
  rewrite <- Hp. by apply list_elem_of_fmap_2.
Qed.

Lemma build_node_ids rows cfg id :
  id ∈ fn_id <$> fd_nodes (build rows cfg)
  <-> exists pp, pp ∈ flow_paths rows cfg /\ id ∈ p_id <$> pp_path pp.
Proof.
  rewrite (build_nodes_proj fn_id rows cfg); [|done|intros n; unfold mask_node; by destruct (masked_node n)].
  destruct (flow_nodes_sums (c_metric cfg) (flow_paths rows cfg)) as (ids & _ & Hids & Hs).
  rewrite <- Hids. apply (f_equal (fmap (M := list) (fun s => s.1.1.1.1))) in Hs.
  rewrite <- !list_fmap_compose in Hs. unfold compose in Hs. simpl in Hs.
  rewrite <- list_fmap_compose. unfold compose. rewrite Hs. by rewrite list_fmap_id.
Qed.

Lemma build_link_ends rows cfg l :
  l ∈ fd_links (build rows cfg) ->
  fl_source l ∈ fn_id <$> fd_nodes (build rows cfg) /\ fl_target l ∈ fn_id <$> fd_nodes (build rows cfg).
Proof.
  intros Hl. rewrite !build_node_ids.
  pose proof (build_links_proj (fun l => (fl_source l, fl_target l)) rows cfg
    (fun _ _ => eq_refl) (fun _ _ => eq_refl) (fun _ _ => eq_refl) (fun _ _ => eq_refl)) as Hp.
  destruct (elem_of_perm_fmap _ _ _ _ l Hp Hl) as (l' & Hl' & [= -> ->]).
  apply link_cell_ends in Hl' as (pp & [a b] & Hpp & Hab & -> & ->). apply pairs_elem in Hab as [Ha Hb].
  split; exists pp; (split; [done|]); by apply list_elem_of_fmap_2.
Qed.

Lemma mask_node_id n : fn_id (mask_node n) = fn_id n.
Proof. unfold mask_node. by destruct (masked_node n). Qed.
Lemma mask_node_masked n : masked_node (mask_node n) = masked_node n.
Proof. unfold mask_node. destruct (masked_node n) eqn:E; done. Qed.

(** A diagram whose labels are hidden is a masked diagram. *)
Lemma build_masked rows cfg :
  c_sensitiveVisible cfg = Some false ->
  exists ns ls, (fd_nodes (build rows cfg), fd_links (build rows cfg)) = maskSensitiveLabels ns ls.
Proof.
  intros H. unfold build, buildDashboardFlowData. rewrite H. cbv zeta.
  destruct (applyHighlights _ _ _) as [ns ls]. eexists _, _. reflexivity.
Qed.

(** With sensitive information hidden, every user, server node, token,
    group and channel of the diagram shows the mask, apart from the stand-in
    nodes, and so do the two labels of every link that touches such a node;
    the ends of every link are nodes of the diagram, so no label escapes. *)
Theorem sensitive_labels_masked rows cfg :
  c_sensitiveVisible cfg = Some false ->
  let d := buildDashboardFlowData localeCompare t intlFormat rows cfg in
  (forall n, n ∈ fd_nodes d -> fn_kind n ∈ SENSITIVE_KINDS ->
     fn_label n = MASK_TEXT \/ endsWith (u ":__other__") (fn_id n) = true)
  /\ (forall l, l ∈ fd_links d ->
       fl_source l ∈ fn_id <$> fd_nodes d /\ fl_target l ∈ fn_id <$> fd_nodes d)
  /\ (forall l n, l ∈ fd_links d -> n ∈ fd_nodes d -> fn_kind n ∈ SENSITIVE_KINDS ->
       endsWith (u ":__other__") (fn_id n) = false ->
       (fn_id n = fl_source l -> fl_sourceLabel l = MASK_TEXT)
       /\ (fn_id n = fl_target l -> fl_targetLabel l = MASK_TEXT)).
Proof.
  intros H d. pose proof (build_link_ends rows cfg) as Hends. fold build in d. fold d in Hends.
  destruct (build_masked rows cfg H) as (ns & ls & [= Hn Hl]). fold d in Hn, Hl.
  assert (forall n, n ∈ fd_nodes d -> masked_node n = true -> fn_id n ∈ fn_id <$> List.filter masked_node ns) as Hm.
  { rewrite Hn. intros n (n' & -> & Hn')%list_elem_of_fmap Hmn. rewrite mask_node_id.
    apply list_elem_of_fmap_2, elem_of_lfilter. by rewrite <- mask_node_masked. }
  assert (forall n, fn_kind n ∈ SENSITIVE_KINDS -> endsWith (u ":__other__") (fn_id n) = false ->
    masked_node n = true) as Hk by (intros n ? E; unfold masked_node; by rewrite bool_decide_true, E by done).
  split_and!; [|exact Hends|].
  - rewrite Hn. intros n (n' & -> & Hn')%list_elem_of_fmap. rewrite mask_node_id. unfold mask_node.
    destruct (masked_node n') eqn:E; [by left|]. intros Hs. right. revert E. unfold masked_node.
    rewrite bool_decide_true by done. by destruct (endsWith _ _).
  - intros l n Hll Hnn Hs Ho. specialize (Hm n Hnn (Hk n Hs Ho)). rewrite Hl in Hll.
    apply list_elem_of_fmap in Hll as (l' & -> & _). simpl.
    split; intros E; rewrite E in Hm; by rewrite bool_decide_true.
Qed.

(** ** Highlights *)

(** The paths the active link, or else the active node, selects. *)
Definition active_path (cfg : flow_config) (path : list pnode) : bool :=
  match c_activeLink cfg with
  | Some l => pathContainsLink path l
  | None => match c_activeNode cfg with
            | Some f => bool_decide (nf_kind f ∈ kind_str <$> normalizeStages (c_role cfg) (c_visibleStages cfg))
                        && pathContainsNode path f
            | None => false
            end
  end.

Lemma highlight_sets_spec paths cfg :
  let stages := normalizeStages (c_role cfg) (c_visibleStages cfg) in
  Forall (fun pp => pp_path pp <> []) paths ->
  match buildHighlightSets paths (c_activeNode cfg) (c_activeLink cfg) stages with
  | None => forall pp, pp ∈ paths -> active_path cfg (pp_path pp) = false
  | Some hs =>
      (exists pp, pp ∈ paths /\ active_path cfg (pp_path pp) = true)
      /\ (forall id, id ∈ hs_nodes hs <-> exists pp, pp ∈ paths /\ active_path cfg (pp_path pp) = true
           /\ id ∈ p_id <$> pp_path pp)
      /\ (forall key, key ∈ hs_links hs <-> exists pp, pp ∈ paths /\ active_path cfg (pp_path pp) = true
           /\ key ∈ (fun ab : pnode * pnode => pathLinkKey ab.1 ab.2) <$> pairs (pp_path pp))
  end.
Proof.
  intros stages Hne. unfold buildHighlightSets.
  set (nodeActive := match c_activeNode cfg with Some f => _ | None => false end).
  destruct (negb nodeActive && negb _) eqn:Ena.
  - intros pp _. bool_simp. unfold active_path.
    destruct (c_activeLink cfg); [by destruct H0; eexists|]. unfold nodeActive in H. fold stages.
    destruct (c_activeNode cfg); [|done]. by rewrite H.
  - set (matching := List.filter _ paths).
    assert (forall pp, pp ∈ matching <-> pp ∈ paths /\ active_path cfg (pp_path pp) = true) as Hm.
    { intros pp. unfold matching. rewrite elem_of_lfilter. apply and_iff_compat_l. unfold active_path.
      destruct (c_activeLink cfg); [done|]. fold stages. unfold nodeActive in Ena.
      destruct (c_activeNode cfg); [|done]. destruct (bool_decide (nf_kind _ ∈ _)); done. }
    set (nodes := uniq _). set (links := uniq _).
    assert (forall id, id ∈ nodes <-> exists pp, pp ∈ paths /\ active_path cfg (pp_path pp) = true
           /\ id ∈ p_id <$> pp_path pp) as Hn.
    { intros id. unfold nodes. rewrite elem_of_uniq, elem_of_concat_fmap. setoid_rewrite Hm. naive_solver. }
    destruct nodes as [|id0 nodes'] eqn:En.
    + intros pp Hpp. destruct (active_path _ _) eqn:Ea; [|done]. rewrite Forall_forall in Hne.
      specialize (Hne pp Hpp). destruct (pp_path pp) as [|n path] eqn:Ep; [done|].
      assert (p_id n ∈ ([] : list jsstr)) as []%not_elem_of_nil. apply Hn. exists pp. rewrite Ep. set_solver.
    + split_and!.
      * destruct (proj1 (Hn id0)) as (pp & ? & ? & _); [set_solver|]. by exists pp.
      * exact Hn.
      * intros key. simpl. unfold links. rewrite elem_of_uniq, elem_of_concat_fmap.
        setoid_rewrite Hm. naive_solver.
Qed.

Lemma unmarked_cells metric paths :
  Forall (fun n => fn_highlighted n = None /\ fn_dimmed n = None) (flow_maps metric paths).1.*2
  /\ Forall (fun l => fl_highlighted l = None /\ fl_dimmed l = None) (flow_maps metric paths).2.*2.
Proof.
  rewrite flow_maps_bumps. simpl.
  split; apply Forall_forall; intros c ([k c'] & -> & Hin)%list_elem_of_fmap; simpl;
    (apply om_in_get in Hin; [|apply bumps_NoDup; constructor]); revert Hin.
  - apply (bumps_prop (fun n => fn_highlighted n = None /\ fn_dimmed n = None)); [|done].
    intros b n (pp & root & p & _ & _ & ->)%elem_of_node_bumps _ [->|?]; done.
  - apply (bumps_prop (fun l => fl_highlighted l = None /\ fl_dimmed l = None)); [|done].
    intros b n (pp & root & p & _ & _ & ->)%elem_of_link_bumps _ [->|?]; done.
Qed.

Lemma flow_paths_nonempty rows cfg : Forall (fun pp => pp_path pp <> []) (flow_paths rows cfg).
Proof.
  apply Forall_forall. intros pp (row & _ & _ & Hl & _)%preparedPaths_elem E. rewrite E in Hl.
  unfold MIN_STAGES in Hl. simpl in Hl. lia.
Qed.

(** When the active link, or else the active node, lies on a drawn path,
    every node and link of the diagram is either highlighted or dimmed, and it
    is highlighted exactly when an active path passes through it; otherwise
    nothing carries a highlight. *)
Theorem highlight_spec rows cfg :
  let d := buildDashboardFlowData localeCompare t intlFormat rows cfg in
  let active pp := pp ∈ flow_paths rows cfg /\ active_path cfg (pp_path pp) = true in
  ((exists pp, active pp)
   /\ (forall n, n ∈ fd_nodes d -> exists h, fn_highlighted n = Some h /\ fn_dimmed n = Some (negb h)
        /\ (h = true <-> exists pp, active pp /\ fn_id n ∈ p_id <$> pp_path pp))
   /\ (forall l, l ∈ fd_links d -> exists h, fl_highlighted l = Some h /\ fl_dimmed l = Some (negb h)
        /\ (h = true <-> exists pp, active pp
             /\ linkStableKey l ∈ (fun ab : pnode * pnode => pathLinkKey ab.1 ab.2) <$> pairs (pp_path pp))))
  \/ ((forall pp, ~ active pp)
      /\ (forall n, n ∈ fd_nodes d -> fn_highlighted n = None /\ fn_dimmed n = None)
      /\ (forall l, l ∈ fd_links d -> fl_highlighted l = None /\ fl_dimmed l = None)).
Proof.
  intros d active. fold build in d.
  pose proof (build_nodes_marked (fun n => (fn_id n, fn_highlighted n, fn_dimmed n)) rows cfg) as Hn.
  pose proof (build_links_marked (fun l => (linkStableKey l, fl_highlighted l, fl_dimmed l)) rows cfg
    (fun _ _ => eq_refl) (fun _ _ => eq_refl) (fun _ _ => eq_refl)) as Hl. fold d in Hn, Hl.
  specialize (Hn ltac:(intros n; unfold mask_node; by destruct (masked_node n))).
  pose proof (highlight_sets_spec (flow_paths rows cfg) cfg (flow_paths_nonempty rows cfg)) as Hs.
  unfold flow_marked in Hn, Hl. destruct (buildHighlightSets _ _ _ _) as [hs|]; simpl in Hn, Hl.
  - destruct Hs as (Hex & Hsn & Hsl). left. split_and!; [done|..].
    + intros n Hin. destruct (elem_of_perm_fmap _ _ _ _ n Hn Hin) as (n' & (m & -> & _)%list_elem_of_fmap & [= -> -> ->]).
      simpl. eexists. split_and!; [done..|]. rewrite bool_decide_eq_true, Hsn. unfold active. naive_solver.
    + intros l Hin. destruct (elem_of_perm_fmap _ _ _ _ l Hl Hin) as (l' & (m & -> & _)%list_elem_of_fmap & [= -> -> ->]).
      eexists. split_and!; [done..|]. rewrite bool_decide_eq_true, Hsl. unfold active. naive_solver.
  - right. destruct (unmarked_cells (c_metric cfg) (flow_paths rows cfg)) as [Un Ul].
    rewrite Forall_forall in Un. rewrite Forall_forall in Ul. split_and!.
    + intros pp [Hpp Ha]. by rewrite Hs in Ha.
    + intros n Hin. destruct (elem_of_perm_fmap _ _ _ _ n Hn Hin) as (n' & Hn' & [= _ -> ->]). by apply Un.
    + intros l Hin. destruct (elem_of_perm_fmap _ _ _ _ l Hl Hin) as (l' & Hl' & [= _ -> ->]). by apply Ul.
Qed.

(** ** Filters *)

(** A row passes when for every stage that has a selected node its own node of
    the stage is one of them. *)
Definition row_selected (sel : list node_filter) (stages : list kind) (row : flow_row) : bool :=
  forallb (fun k =>
    negb (existsb (fun f => bool_decide (nf_kind f = kind_str k)) sel)
    || existsb (fun f => bool_decide (nf_kind f = kind_str k)
                         && bool_decide (nf_id f = p_id (buildNode t row k))) sel) stages.

Lemma kind_str_inj k k' : kind_str k = kind_str k' -> k = k'.
Proof. destruct k, k'; intros H; done || (by vm_compute in H). Qed.

Definition add_filter (stages : list kind) (filters : list (jsstr * list jsstr)) (f : node_filter) :=
  if negb (bool_decide (nf_kind f ∈ kind_str <$> stages)) then filters
  else om_set (nf_kind f)
         (uniq (match om_get (nf_kind f) filters with Some s => s | None => [] end ++ [nf_id f])) filters.

Lemma filters_keys sel stages k :
  k ∈ (normalizeSelectedNodeFilters sel stages).*1
  <-> k ∈ kind_str <$> stages /\ exists f, f ∈ sel /\ nf_kind f = k.
Proof.
  unfold normalizeSelectedNodeFilters. change (fun filters f => _) with (add_filter stages).
  induction sel as [|f sel IH] using rev_ind; [set_solver|]. rewrite fold_left_app. simpl.
  unfold add_filter at 1. case_bool_decide as Hf; simpl.
  - rewrite elem_of_om_keys_set, IH. set_solver.
  - rewrite IH. set_solver.
Qed.

Lemma filters_NoDup sel stages : NoDup (normalizeSelectedNodeFilters sel stages).*1.
Proof.
  unfold normalizeSelectedNodeFilters. change (fun filters f => _) with (add_filter stages).
  induction sel as [|f sel IH] using rev_ind; [constructor|]. rewrite fold_left_app. simpl.
  unfold add_filter at 1. case_bool_decide; simpl; [by apply om_set_NoDup | done].
Qed.

Lemma filters_get sel stages k s :
  om_get k (normalizeSelectedNodeFilters sel stages) = Some s ->
  k ∈ kind_str <$> stages /\ forall id, id ∈ s <-> {| nf_kind := k; nf_id := id |} ∈ sel.
Proof.
  unfold normalizeSelectedNodeFilters. change (fun filters f => _) with (add_filter stages).
  revert s. induction sel as [|f sel IH] using rev_ind; intros s0; [done|]. rewrite fold_left_app. simpl.
  unfold add_filter at 1. destruct (decide (nf_kind f ∈ kind_str <$> stages)) as [Hf|Hf].
  - rewrite bool_decide_true by done. simpl. destruct (decide (nf_kind f = k)) as [<-|Hne].
    + rewrite om_get_set_eq. intros [= <-]. split; [done|]. intros id.
      rewrite elem_of_uniq, elem_of_app, list_elem_of_singleton, elem_of_app, list_elem_of_singleton.
      assert (id = nf_id f <-> {| nf_kind := nf_kind f; nf_id := id |} = f) as <-
        by (destruct f; simpl; naive_solver).
      destruct (om_get _ _) as [s|] eqn:E; [destruct (IH _ eq_refl) as [_ ->]; done|].
      split; [set_solver|]. intros [Hin|]; [|by right]. exfalso. apply om_get_None in E. apply E, filters_keys.
      split; [done|]. by exists {| nf_kind := nf_kind f; nf_id := id |}.
    + rewrite om_get_set_ne by done. intros [? H]%IH. split; [done|]. intros id. rewrite H.
      destruct f. simpl in *. set_solver.
  - rewrite bool_decide_false by done. simpl. intros [? H]%IH. split; [done|]. intros id. rewrite H.
    destruct f. simpl in *. set_solver.
Qed.

Lemma path_ids_build row stages k :
  k ∈ stages -> exists ids, path_ids (buildPath t row stages) (kind_str k) = Some ids
    /\ forall id, id ∈ ids <-> id = p_id (buildNode t row k).
Proof.
  intros Hk. unfold path_ids.
  assert (forall n, n ∈ List.filter (fun n => bool_decide (kind_str (p_kind n) = kind_str k)) (buildPath t row stages)
    <-> n = buildNode t row k) as H.
  { intros n. rewrite elem_of_lfilter, bool_decide_eq_true. unfold buildPath. split.
    - intros [(k' & -> & _)%list_elem_of_fmap E]. apply kind_str_inj in E. revert E. by destruct k'; intros <-.
    - intros ->. split; [by apply list_elem_of_fmap_2 | by destruct k]. }
  destruct (List.filter _ _) as [|n0 l] eqn:E.
  - exfalso. by apply (not_elem_of_nil (buildNode t row k)), H.
  - eexists. split; [done|]. intros id. rewrite list_elem_of_fmap. setoid_rewrite H. naive_solver.
Qed.

Lemma pathMatches_row_selected sel stages row :
  pathMatchesNodeFilters (buildPath t row stages) (normalizeSelectedNodeFilters sel stages)
  = row_selected sel stages row.
Proof.
  apply eq_bool_prop_intro. unfold pathMatchesNodeFilters, row_selected.
  rewrite !Is_true_true, !forallb_forall. setoid_rewrite <- list_elem_of_In. split.
  - intros H k Hk. apply orb_true_iff. destruct (existsb _ sel) eqn:Eb; [right|by left].
    apply existsb_exists in Eb as (f & Hf & Ek). apply list_elem_of_In in Hf. bool_simp.
    destruct (om_get (kind_str k) (normalizeSelectedNodeFilters sel stages)) as [s|] eqn:E.
    2:{ apply om_get_None in E. destruct E. apply filters_keys. split; [by apply list_elem_of_fmap_2|]. by exists f. }
    specialize (H (kind_str k, s) (om_get_Some_in _ _ _ E)). simpl in H.
    destruct (path_ids_build row stages k Hk) as (ids & Hids & Hin). rewrite Hids in H.
    apply existsb_exists in H as (id & Hs & Hid). bool_simp. apply Hin in Hid as ->.
    apply list_elem_of_In, (filters_get _ _ _ _ E) in Hs. apply existsb_exists. exists {| nf_kind := kind_str k; nf_id := p_id (buildNode t row k) |}.
    split; [by apply list_elem_of_In|]. simpl. rewrite andb_true_iff, !bool_decide_eq_true. done.
  - intros H [ks s] Hks. apply om_in_get in Hks; [|apply filters_NoDup]. simpl.
    destruct (filters_get _ _ _ _ Hks) as [(k & -> & Hk)%list_elem_of_fmap Hs].
    destruct (path_ids_build row stages k Hk) as (ids & -> & Hin).
    specialize (H k Hk). apply orb_true_iff in H as [H|H].
    + exfalso. apply negb_true_iff, not_true_iff_false in H. apply H.
      assert (kind_str k ∈ (normalizeSelectedNodeFilters sel stages).*1) as Hf.
      { apply om_get_Some_in in Hks. apply list_elem_of_fmap. by eexists (_, _). }
      apply filters_keys in Hf as [_ (f & Hf & Ef)]. apply existsb_exists. exists f.
      split; [by apply list_elem_of_In | by rewrite bool_decide_true].
    + apply existsb_exists in H as (f & Hf & Ef). apply list_elem_of_In in Hf. bool_simp.
      apply existsb_exists. exists (nf_id f). split.
      * apply list_elem_of_In, Hs. destruct f. simpl in *. by subst.
      * apply bool_decide_eq_true, Hin. done.
Qed.

(** The node filters keep, in order, exactly the rows that for every stage
    with a selection go through one of the selected nodes: selections of one
    stage are alternatives, selections of different stages all apply, and
    selections of stages that are not shown are ignored. *)
Theorem filterRowsByNodes_spec rows sel stages :
  filterRowsByNodes t rows sel stages = List.filter (row_selected sel stages) rows.
Proof.
  unfold filterRowsByNodes. destruct (normalizeSelectedNodeFilters sel stages) eqn:E.
  - assert (forall row, row_selected sel stages row = true) as H.
    { intros row. by rewrite <- pathMatches_row_selected, E. }
    induction rows as [|row rows IH]; simpl; [done|]. by rewrite H, <- IH.
  - rewrite <- E. apply filter_ext. intros row. apply pathMatches_row_selected.
Qed.
End Flow.

(** ** Drawing layers *)

Lemma mapi_from_lookup {A B} (f : Z -> A -> B) l i j :
  mapi_from i f l !! j = f (i + Z.of_nat j) <$> l !! j.
Proof.
  revert i j. induction l as [|x l IH]; intros i j; simpl; [done|].
  destruct j as [|j]; simpl; [by rewrite Z.add_0_r|]. rewrite IH. do 2 f_equal. lia.
Qed.

(** With fewer than 100000 links, the chart draws dimmed links below plain
    ones and plain ones below highlighted ones, no two links share a layer, and
    only links with a positive value are drawn. *)
Theorem link_layers localeCompare links :
  Z.of_nat (length links) < 100000 ->
  forall i j l1 k1 z1 l2 k2 z2,
  sankey_links localeCompare links !! i = Some (l1, k1, z1) ->
  sankey_links localeCompare links !! j = Some (l2, k2, z2) ->
  positive (fl_value l1) = true /\ k1 = linkStableKey l1
  /\ (z1 = z2 -> i = j)
  /\ (fl_highlighted l1 <> Some true -> fl_highlighted l2 = Some true -> z1 < z2)
  /\ (fl_highlighted l1 <> Some true -> fl_dimmed l1 = Some true -> fl_dimmed l2 <> Some true -> z1 < z2).
Proof.
  intros Hlen i j l1 k1 z1 l2 k2 z2 H1 H2. unfold sankey_links, mapi in H1, H2.
  rewrite mapi_from_lookup in H1, H2. set (ls := sort_by _ _) in *.
  assert (length ls <= length links)%nat as Hls.
  { unfold ls. rewrite length_sort_by. apply List.filter_length_le. }
  destruct (ls !! i) eqn:E1; [|done]. destruct (ls !! j) eqn:E2; [|done].
  injection H1 as <- <- <-. injection H2 as <- <- <-.
  pose proof (lookup_lt_Some _ _ _ E1). pose proof (lookup_lt_Some _ _ _ E2).
  apply list_elem_of_lookup_2 in E1. unfold ls in E1. rewrite elem_of_sort_by, elem_of_lfilter in E1.
  split_and!; [tauto | done|..]; unfold z_index; intros;
    repeat match goal with
    | H : _ = Some true |- _ => rewrite H in *
    | |- context [match ?x with _ => _ end] => destruct x as [[]|] eqn:?
    | H : context [match ?x with _ => _ end] |- _ => destruct x as [[]|] eqn:?
    end; try congruence; try lia.
Qed.

(** ** A concrete diagram *)

Module Demo.
Definition t0 (k : jsstr) (args : list (jsstr * num)) : jsstr := k.
Definition lc0 (a b : jsstr) : Z := Z.of_nat (length a) - Z.of_nat (length b).
Definition row (user model : string) (quota : Z) : flow_row :=
  {| user_id := JNum (of_Z 7); username := u user; node_name := []; token_id := JNum (of_Z 0);
     token_name := u "key"; use_group := u "vip"; channel_id := JNum (of_Z 3); channel_name := u "c";
     model_name := u model; r_quota := JNum (of_Z quota); r_token_used := JNum (of_Z 1);
     r_count := JNum (of_Z 1) |}.
Definition cfg : flow_config :=
  {| c_role := u "admin"; c_metric := u "quota"; c_visibleStages := None; c_topNodeLimit := JUndef;
     c_overflowMode := u "aggregate"; c_selectedNodes := []; c_activeNode := None;
     c_activeLink := None; c_sensitiveVisible := Some false |}.
Definition demo_rows : list flow_row := [row "amy" "gpt-4" 30; row "amy" "gpt-3.5" 12].
End Demo.

Lemma sensitive_labels_masked_witness :
  exists n, n ∈ fd_nodes (buildDashboardFlowData Demo.lc0 Demo.t0 num_to_string Demo.demo_rows Demo.cfg)
    /\ fn_id n = u "channel:3"
    /\ (fn_label n = MASK_TEXT \/ endsWith (u ":__other__") (fn_id n) = true).
Proof.
  destruct (sensitive_labels_masked Demo.lc0 Demo.t0 num_to_string Demo.demo_rows Demo.cfg eq_refl) as [H _].
  eexists. assert (forall n, Some n = head (fd_nodes (buildDashboardFlowData Demo.lc0 Demo.t0 num_to_string Demo.demo_rows Demo.cfg))
    -> n ∈ fd_nodes (buildDashboardFlowData Demo.lc0 Demo.t0 num_to_string Demo.demo_rows Demo.cfg)) as Hh.
  { intros n Hn. destruct (fd_nodes _) as [|m l]; [done|]. injection Hn as ->. apply list_elem_of_here. }
  split; [apply Hh; vm_compute; reflexivity|].
  split; [vm_compute; reflexivity|].
  apply H; [apply Hh; vm_compute; reflexivity|]. apply (bool_decide_unpack _). vm_compute. exact I.
Defined.

Definition demo_links : list flink :=
  fd_links (buildDashboardFlowData Demo.lc0 Demo.t0 num_to_string Demo.demo_rows Demo.cfg).

Lemma link_layers_witness :
  exists a b, sankey_links Demo.lc0 demo_links !! 0%nat = Some a
    /\ sankey_links Demo.lc0 demo_links !! 1%nat = Some b /\ a.2 <> b.2.
Proof.
  assert (Z.of_nat (length demo_links) < 100000) as Hlen by (vm_compute; reflexivity).
  destruct (sankey_links Demo.lc0 demo_links !! 0%nat) as [[[l1 k1] z1]|] eqn:H1; [|by vm_compute in H1].
  destruct (sankey_links Demo.lc0 demo_links !! 1%nat) as [[[l2 k2] z2]|] eqn:H2; [|by vm_compute in H2].
  exists (l1, k1, z1), (l2, k2, z2). split; [reflexivity|]. split; [reflexivity|]. intros E.
  destruct (link_layers Demo.lc0 demo_links Hlen 0%nat 1%nat l1 k1 z1 l2 k2 z2 H1 H2) as (_ & _ & H & _).
  discriminate (H E).
Defined.
