(* ===== verification/Notifications.v ===== *)
(** * Notices and announcements

    Model of web/classic/src/hooks/common/useNotifications.js: the notices of
    the site and the announcements of the status response, the read marks that
    the browser's local storage keeps for them (with the migration of the marks
    of an older version), the queue of unread items, and the handlers that mark
    items as read.

    Items are the values the server sends.  Local storage is an insertion-ordered
    table of texts; a write to it succeeds.  [render] computes what the hook
    returns for the current state; React may reuse the value of an earlier
    render, which [render_idempotent] justifies.  The milliseconds of a date are
    an argument ([Date] parses the date formats of the browser). *)

From S2P Require Import Prelude JsString JsNumber JsNumText JsValue JsJson.

(** ** Local storage *)

Definition storage := list (jsstr * jsstr).

Definition NOTIFICATION_READ_KEYS : jsstr := u "notice_notification_read_keys".
Definition UPDATE_ANNOUNCEMENT_READ_KEYS : jsstr := u "update_announcement_read_keys".
Definition LEGACY_NOTICE_READ_KEYS : jsstr := u "notice_read_keys".
Definition LEGACY_SYSTEM_NOTIFICATION_READ_KEYS : jsstr := u "system_notification_read_keys".

Definition readStoredKeys (st : storage) (storageKey : jsstr) : list jsv :=
  match om_get storageKey st with
  | None => []
  | Some text =>
      match json_parse text with
      | Some (JArr l) => l
      | _ => []
      end
  end.

(** Membership in a [Set]; arrays and objects that were parsed separately are
    different elements. *)
Definition same_value (a b : jsv) : bool :=
  match a, b with
  | JUndef, JUndef | JNull, JNull => true
  | JBool x, JBool y => Bool.eqb x y
  | JNum x, JNum y => num_eq x y || (is_nan x && is_nan y)
  | JStr s, JStr t => bool_decide (s = t)
  | _, _ => false
  end.
Definition set_has (x : jsv) (l : list jsv) : bool := existsb (same_value x) l.
Definition set_add (l : list jsv) (x : jsv) : list jsv := if set_has x l then l else l ++ [x].
Definition new_Set (l : list jsv) : list jsv := fold_left set_add l [].

Definition writeStoredKeys (st : storage) (storageKey : jsstr) (ks : list jsv) : storage :=
  om_set storageKey (match stringify (JArr (new_Set ks)) with Some s => s | None => [] end) st.

(** ** Keys of items *)

Definition base36_digit (n : Z) : Z := if n <? 10 then 48 + n else 87 + n.
Fixpoint base36 (fuel : nat) (n : Z) (acc : jsstr) : jsstr :=
  match fuel with
  | O => acc
  | S fuel' =>
      let acc' := base36_digit (n mod 36) :: acc in
      if n <? 36 then acc' else base36 fuel' (n / 36) acc'
  end.

(** One turn of the loop: [hash ^= code; hash = Math.imul(hash, 16777619)]. *)
Definition fnv_step (hash code : Z) : Z :=
  to_int32 (to_int32 (Z.lxor (to_int32 hash) code) * 16777619).
Definition fnv (text : jsstr) : Z := fold_left fnv_step text 2166136261.

(** Seven digits of base 36 hold 32 bits. *)
Definition hashText (value : jsv) : jsstr :=
  base36 7 (to_uint32 (fnv (to_string (js_or value (JStr []))))) [].

(** [item?.f || d] *)
Definition field (item : jsv) (f d : string) : jsv := js_or (oget item (u f)) (JStr (u d)).

Definition signature (item : jsv) (fields : list string) : jsstr :=
  join (u "|") ((fun f => to_string (field item f "")) <$> fields).

Definition item_key (prefix : string) (fields : list string) (item : jsv) : jsstr :=
  u prefix ++ u ":" ++ to_string (field item "id" "no-id") ++ u ":"
    ++ to_string (field item "publishDate" "no-date") ++ u ":"
    ++ hashText (JStr (signature item fields)).

Definition getNoticeNotificationKey : jsv -> jsstr :=
  item_key "notice-notification" ["id"; "publishDate"; "title"; "content"; "extra"; "type"]%string.
Definition getUpdateAnnouncementKey : jsv -> jsstr :=
  item_key "update-announcement" ["id"; "publishDate"; "title"; "content"; "extra"; "type"]%string.
Definition getLegacySystemAnnouncementKey : jsv -> jsstr :=
  item_key "system-notification" ["id"; "publishDate"; "content"; "extra"; "type"]%string.

(** [slice] exists on strings and arrays only. *)
Definition getLegacyNoticeKey (item : jsv) : exc jsstr :=
  text ← match field item "content" "" with
         | JStr s => Ret (take 30 s)
         | JArr l => Ret (to_string (JArr (take 30 l)))
         | _ => Throw (u "TypeError")
         end;
  Ret (to_string (field item "publishDate" "") ++ u "-" ++ text).

(** ** Normalized notices *)

Definition normalize_notice (index : Z) (item : jsv) : jsv :=
  let source := match item with
    | JObj _ => item
    | _ => JObj [(u "content", JStr (to_string (js_or item (JStr []))))]
    end in
  JObj [(u "id", js_or (source?."id") (JNum (of_Z (index + 1))));
        (u "title", js_or (source?."title") (JStr []));
        (u "content", js_or (source?."content") (JStr []));
        (u "publishDate", js_or (source?."publishDate") (js_or (source?."createdAt") (JStr [])));
        (u "type", js_or (source?."type") (JStr (u "default")));
        (u "extra", js_or (source?."extra") (JStr []))].

Definition has_content (item : jsv) : bool :=
  negb (bool_decide (trim (to_string (js_or (item?."content") (JStr []))) = [])).

Definition normalizeNoticeNotifications (rawNotice : jsv) : list jsv :=
  let raw := trim (to_string (js_or rawNotice (JStr []))) in
  if bool_decide (raw = []) then []
  else
    let parsed := match json_parse raw with Some v => v | None => JStr raw end in
    let items := match parsed with JArr l => l | v => [v] end in
    List.filter has_content (mapi normalize_notice items).

(** ** Read marks *)

(** The read keys of some items: the stored ones, and those of the items that
    the older version marked; new ones are stored. *)
Definition read_key_set (storageKey legacyStorageKey : jsstr) (legacy_key : jsv -> exc jsstr)
    (key : jsv -> jsstr) (st : storage) (items : list jsv) : exc (storage * list jsv) :=
  let readSet := new_Set (readStoredKeys st storageKey) in
  let legacySet := new_Set (readStoredKeys st legacyStorageKey) in
  match readStoredKeys st legacyStorageKey with
  | [] => Ret (st, readSet)
  | _ =>
      lks ← exc_map (fun item => lk ← legacy_key item; Ret (item, lk)) items;
      let migrated := (fun il : jsv * jsstr => JStr (key il.1))
        <$> List.filter (fun il : jsv * jsstr => set_has (JStr il.2) legacySet) lks in
      let readSet' := fold_left set_add migrated readSet in
      Ret (if existsb (fun k => negb (set_has k readSet)) migrated
           then writeStoredKeys st storageKey readSet' else st, readSet')
  end.

Definition getReadKeySet : storage -> list jsv -> exc (storage * list jsv) :=
  read_key_set NOTIFICATION_READ_KEYS LEGACY_NOTICE_READ_KEYS getLegacyNoticeKey
    getNoticeNotificationKey.
Definition getUpdateAnnouncementReadKeySet : storage -> list jsv -> exc (storage * list jsv) :=
  read_key_set UPDATE_ANNOUNCEMENT_READ_KEYS LEGACY_SYSTEM_NOTIFICATION_READ_KEYS
    (fun item => Ret (getLegacySystemAnnouncementKey item)) getUpdateAnnouncementKey.

(** ** The hook *)

Inductive entry_kind := notification | updateAnnouncement.

#[export] Instance entry_kind_eq_dec : EqDecision entry_kind.
Proof. solve_decision. Defined.

Record entry := {
  e_kind : entry_kind; e_key : jsstr; e_item : jsv; e_publishTime : num; e_order : Z
}.

Record notices := {
  noticeVisible : bool; notifications : list jsv; readVersion : Z; store : storage
}.

Record notices_view := {
  promptQueue : list entry; unreadCount : Z; autoPromptItem : option entry;
  autoPromptRemainingCount : Z
}.

Definition set_store (st : storage) (s : notices) : notices :=
  {| noticeVisible := noticeVisible s; notifications := notifications s;
     readVersion := readVersion s; store := st |}.
Definition set_visible (b : bool) (s : notices) : notices :=
  {| noticeVisible := b; notifications := notifications s;
     readVersion := readVersion s; store := store s |}.
Definition set_notifications (l : list jsv) (s : notices) : notices :=
  {| noticeVisible := noticeVisible s; notifications := l;
     readVersion := readVersion s; store := store s |}.
Definition bump_version (s : notices) : notices :=
  {| noticeVisible := noticeVisible s; notifications := notifications s;
     readVersion := readVersion s + 1; store := store s |}.

Definition initial_notices (st : storage) : notices :=
  {| noticeVisible := false; notifications := []; readVersion := 0; store := st |}.

(** The outcome of the request: an exception, or [res.data]. *)
Definition loadNotifications (response : option jsv) (s : notices) : notices :=
  match response with
  | Some data =>
      set_notifications
        (if truthy (data?."success") then normalizeNoticeNotifications (data?."data") else []) s
  | None => set_notifications [] s
  end.

Definition updateAnnouncements (status : jsv) : list jsv :=
  take 20 (arr_or_empty (status?."announcements")).

Section Hook.
Context (date_ms : jsv -> num).

Definition getPublishTime (item : jsv) : num :=
  let time := if truthy (item?."publishDate") then date_ms (item?."publishDate") else Zero false in
  if is_finite time then time else Zero false.

Definition entries_of (kind : entry_kind) (key : jsv -> jsstr) (base : Z) (items : list jsv) : list entry :=
  mapi (fun index item =>
    {| e_kind := kind; e_key := key item; e_item := item;
       e_publishTime := getPublishTime item; e_order := base + index |}) items.

(** The items whose key is not in the set, with the storage after reading it. *)
Definition unread_of (readKeys : storage -> list jsv -> exc (storage * list jsv))
    (kind : entry_kind) (key : jsv -> jsstr) (base : Z) (items : list jsv) (st : storage)
  : exc (storage * list entry) :=
  match items with
  | [] => Ret (st, [])
  | _ =>
      r ← readKeys st items;
      Ret (r.1, List.filter (fun e => negb (set_has (JStr (e_key e)) r.2)) (entries_of kind key base items))
  end.

Definition unreadNotificationItems (s : notices) (st : storage) : exc (storage * list entry) :=
  unread_of getReadKeySet notification getNoticeNotificationKey 0 (notifications s) st.
Definition unreadUpdateAnnouncementItems (s : notices) (anns : list jsv) (st : storage)
  : exc (storage * list entry) :=
  unread_of getUpdateAnnouncementReadKeySet updateAnnouncement getUpdateAnnouncementKey
    (Z.of_nat (length (notifications s))) anns st.

Definition prompt_cmp (a b : entry) : Z :=
  cmp_or (num_sgn (num_sub (e_publishTime a) (e_publishTime b))) (e_order a - e_order b).

Definition render (anns : list jsv) (s : notices) : exc (notices * notices_view) :=
  un ← unreadNotificationItems s (store s);
  ua ← unreadUpdateAnnouncementItems s anns un.1;
  let queue := sort_by prompt_cmp (un.2 ++ ua.2) in
  let n := Z.of_nat (length queue) in
  Ret (set_store ua.1 s,
       {| promptQueue := queue; unreadCount := n;
          autoPromptItem := if noticeVisible s then None else head queue;
          autoPromptRemainingCount := if noticeVisible s then 0 else n |}).
End Hook.

Definition getUnreadKeys (s : notices) : exc (storage * list jsstr) :=
  match notifications s with
  | [] => Ret (store s, [])
  | items =>
      r ← getReadKeySet (store s) items;
      Ret (r.1, getNoticeNotificationKey
                  <$> List.filter (fun i => negb (set_has (JStr (getNoticeNotificationKey i)) r.2)) items)
  end.

Definition handleNoticeOpen (response : option jsv) (s : notices) : notices :=
  loadNotifications response (set_visible true s).

(** [writeStoredKeys(storageKey, [...readKeys, ...keys])] *)
Definition mark_read (storageKey : jsstr) (ks : list jsstr) (st : storage) : storage :=
  writeStoredKeys st storageKey (new_Set (readStoredKeys st storageKey ++ (JStr <$> ks))).

Definition handleNoticeClose (anns : list jsv) (s : notices) : notices :=
  let st := store s in
  let st1 := match notifications s with
    | [] => st
    | items => mark_read NOTIFICATION_READ_KEYS (getNoticeNotificationKey <$> items) st
    end in
  let st2 := match anns with
    | [] => st1
    | _ => mark_read UPDATE_ANNOUNCEMENT_READ_KEYS (getUpdateAnnouncementKey <$> anns) st1
    end in
  bump_version (set_store st2 (set_visible false s)).

Definition handleAutoPromptClose (v : notices_view) (s : notices) : notices :=
  match autoPromptItem v with
  | None => s
  | Some e =>
      let storageKey := match e_kind e with
        | updateAnnouncement => UPDATE_ANNOUNCEMENT_READ_KEYS
        | notification => NOTIFICATION_READ_KEYS
        end in
      let readKeys := readStoredKeys (store s) storageKey in
      bump_version (set_store (writeStoredKeys (store s) storageKey (readKeys ++ [JStr (e_key e)])) s)
  end.
