(* ===== verification/NotificationsThms.v ===== *)
(** * Notices and announcements: theorems

    Read marks survive the local storage, closing marks everything it shows as
    read, prompts drain, and a render repeats. *)

From S2P Require Import Prelude JsString JsNumber JsNumText JsValue JsJson Notifications.

(** ** Sets of strings *)

Definition sadd (acc : list jsstr) (k : jsstr) : list jsstr :=
  if bool_decide (k ∈ acc) then acc else acc ++ [k].

Lemma set_has_str k ks : set_has (JStr k) (JStr <$> ks) = bool_decide (k ∈ ks).
Proof.
  unfold set_has. induction ks as [|k' ks IH]; csimpl; [done|]. rewrite IH.
  repeat case_bool_decide; simpl; try done; set_solver.
Qed.

Lemma set_add_str ks k : set_add (JStr <$> ks) (JStr k) = JStr <$> sadd ks k.
Proof. unfold set_add, sadd. rewrite set_has_str. case_bool_decide; [done|]. by rewrite fmap_app. Qed.

Lemma set_add_all_str ks l : fold_left set_add (JStr <$> l) (JStr <$> ks) = JStr <$> fold_left sadd l ks.
Proof. revert ks. induction l as [|k l IH]; intros ks; csimpl; [done|]. by rewrite set_add_str, IH. Qed.

Lemma new_Set_str l : new_Set (JStr <$> l) = JStr <$> fold_left sadd l [].
Proof. apply (set_add_all_str []). Qed.

Lemma elem_of_sadds k l ks : k ∈ fold_left sadd l ks <-> k ∈ ks \/ k ∈ l.
Proof.
  revert ks. induction l as [|k' l IH]; intros ks; simpl; [set_solver|]. rewrite IH.
  unfold sadd. case_bool_decide; set_solver.
Qed.

Lemma sadds_NoDup l ks : NoDup ks -> NoDup (fold_left sadd l ks).
Proof.
  revert ks. induction l as [|k l IH]; intros ks H; simpl; [done|]. apply IH. unfold sadd.
  case_bool_decide; [done|]. apply NoDup_app. split_and!; [done | set_solver | apply NoDup_singleton].
Qed.

Lemma sadds_id l ks : (forall k, k ∈ l -> k ∈ ks) -> fold_left sadd l ks = ks.
Proof.
  induction l as [|k l IH]; intros H; simpl; [done|]. unfold sadd at 2.
  rewrite bool_decide_true by set_solver. apply IH. set_solver.
Qed.

Lemma sadds_fresh l ks : NoDup (ks ++ l) -> fold_left sadd l ks = ks ++ l.
Proof.
  revert ks. induction l as [|k l IH]; intros ks H; simpl; [by rewrite app_nil_r|].
  assert (k ∉ ks) as Hk. { apply NoDup_app in H as (_ & H & _). set_solver. }
  unfold sadd at 2. rewrite bool_decide_false by done. rewrite IH; rewrite <- app_assoc; done.
Qed.

Lemma new_Set_idemp l : fold_left sadd (fold_left sadd l []) [] = fold_left sadd l [].
Proof. rewrite (sadds_fresh (fold_left sadd l [])); [done|]. apply sadds_NoDup. constructor. Qed.

(** ** The storage *)

Definition units_ok : list jsstr -> Prop := Forall (Forall unit_ok).

Lemma units_ok_sadds l ks : units_ok ks -> units_ok l -> units_ok (fold_left sadd l ks).
Proof.
  unfold units_ok. rewrite !Forall_forall. intros H1 H2 k [?|?]%elem_of_sadds; [by apply H1 | by apply H2].
Qed.

(** What a storage key holds reads as strings. *)
Definition strs_at (st : storage) (storageKey : jsstr) (ks : list jsstr) : Prop :=
  readStoredKeys st storageKey = JStr <$> ks /\ units_ok ks.

Lemma write_read st storageKey ks :
  units_ok ks ->
  strs_at (writeStoredKeys st storageKey (JStr <$> ks)) storageKey (fold_left sadd ks []).
Proof.
  intros H. assert (units_ok (fold_left sadd ks [])) as Hu by (apply units_ok_sadds; [constructor | done]).
  split; [|done]. unfold readStoredKeys, writeStoredKeys. rewrite om_get_set_eq, new_Set_str.
  destruct (json_parse_str_array _ Hu) as (s & E1 & E2). unfold str_array in *. by rewrite E1, E2.
Qed.

Lemma write_read_ne st k k' ks : k <> k' -> readStoredKeys (writeStoredKeys st k ks) k' = readStoredKeys st k'.
Proof. intros H. unfold readStoredKeys, writeStoredKeys. by rewrite om_get_set_ne. Qed.

Lemma mark_read_strs storageKey ks ks' st :
  strs_at st storageKey ks' -> units_ok ks ->
  exists ks1, strs_at (mark_read storageKey ks st) storageKey ks1 /\ forall k, k ∈ ks1 <-> k ∈ ks' \/ k ∈ ks.
Proof.
  intros [H Hu] Hk. unfold mark_read. rewrite H, <- fmap_app, new_Set_str.
  eexists. split.
  - apply write_read, units_ok_sadds; [constructor|]. by apply Forall_app.
  - intros k. rewrite new_Set_idemp, elem_of_sadds. set_solver.
Qed.

Lemma mark_read_ne k k' ks st : k <> k' -> readStoredKeys (mark_read k ks st) k' = readStoredKeys st k'.
Proof. apply write_read_ne. Qed.

(** ** One family of items *)

Section Family.
Context (storageKey legacyStorageKey : jsstr) (legacy_key : jsv -> exc jsstr) (key : jsv -> jsstr).
Hypothesis keys_differ : storageKey <> legacyStorageKey.

Let reads := read_key_set storageKey legacyStorageKey legacy_key key.

(** The keys of the items that the older version marked. *)
Definition migrated_keys (st : storage) (items : list jsv) (lk : jsv -> jsstr) : list jsstr :=
  key <$> List.filter (fun i => set_has (JStr (lk i)) (new_Set (readStoredKeys st legacyStorageKey))) items.

Lemma filter_pairs (p : jsstr -> bool) (lk : jsv -> jsstr) items :
  (fun il : jsv * jsstr => JStr (key il.1)) <$> List.filter (fun il : jsv * jsstr => p il.2) ((fun i => (i, lk i)) <$> items)
  = JStr <$> (key <$> List.filter (fun i => p (lk i)) items).
Proof. induction items as [|i items IH]; csimpl; [done|]. destruct (p (lk i)); csimpl; by rewrite IH. Qed.

Lemma read_key_set_spec st items lk ks :
  strs_at st storageKey ks -> Forall (fun i => legacy_key i = Ret (lk i)) items ->
  reads st items
  = Ret (let m := migrated_keys st items lk in
         let ks' := fold_left sadd ks [] in
         if bool_decide (Forall (fun k => k ∈ ks) m) then (st, JStr <$> ks')
         else (writeStoredKeys st storageKey (JStr <$> fold_left sadd m ks'), JStr <$> fold_left sadd m ks')).
Proof.
  intros [H Hu] Hl. unfold reads, read_key_set. rewrite H, new_Set_str. cbv zeta.
  set (ks' := fold_left sadd ks []).
  assert (forall k, k ∈ ks' <-> k ∈ ks) as Hks' by (intros k; unfold ks'; rewrite elem_of_sadds; set_solver).
  destruct (readStoredKeys st legacyStorageKey) as [|x l] eqn:El.
  - assert (migrated_keys st items lk = []) as ->.
    { unfold migrated_keys. rewrite El. clear. induction items; simpl; done. }
    by rewrite bool_decide_true by constructor.
  - rewrite (exc_map_ret _ (fun i => (i, lk i))).
    2:{ eapply Forall_impl; [exact Hl|]. intros i Hi. simpl. by rewrite Hi. }
    simpl. rewrite <- El. rewrite (filter_pairs (fun s => set_has (JStr s) _)).
    fold (migrated_keys st items lk). set (m := migrated_keys st items lk).
    rewrite set_add_all_str. do 2 f_equal.
    assert (existsb (fun k => negb (set_has k (JStr <$> ks'))) (JStr <$> m)
      = negb (bool_decide (Forall (fun k => k ∈ ks) m))) as ->.
    { clear -Hks'. induction m as [|k m IH]; [done|]. rewrite fmap_cons. cbn [existsb].
      rewrite IH, set_has_str. rewrite (bool_decide_ext _ _ (Hks' k)).
      rewrite (bool_decide_ext _ _ (Forall_cons _ k m)), bool_decide_and. by rewrite negb_andb. }
    case_bool_decide as Hm; simpl; [|done]. rewrite sadds_id; [done|].
    rewrite Forall_forall in Hm. intros k Hk. by apply Hks', Hm.
Qed.

(** The storage holds the marks [ks], and no migration is pending for [items]. *)
Definition settled (lk : jsv -> jsstr) (st : storage) (items : list jsv) (ks : list jsstr) : Prop :=
  strs_at st storageKey ks /\ forall k, k ∈ migrated_keys st items lk -> k ∈ ks.

Lemma settled_ext lk st st' items ks :
  readStoredKeys st' storageKey = readStoredKeys st storageKey ->
  readStoredKeys st' legacyStorageKey = readStoredKeys st legacyStorageKey ->
  settled lk st items ks -> settled lk st' items ks.
Proof. intros H1 H2. unfold settled, strs_at, migrated_keys. by rewrite H1, H2. Qed.

(** Marks that cover all the items are settled. *)
Lemma settled_all lk st items ks :
  strs_at st storageKey ks -> (forall k, k ∈ key <$> items -> k ∈ ks) -> settled lk st items ks.
Proof.
  intros Hs Hall. split; [done|]. intros k (i & -> & [Hi _]%elem_of_lfilter)%list_elem_of_fmap.
  apply Hall. by apply list_elem_of_fmap_2.
Qed.

Lemma reads_settled lk st items ks :
  Forall (fun i => legacy_key i = Ret (lk i)) items -> settled lk st items ks ->
  reads st items = Ret (st, JStr <$> fold_left sadd ks []).
Proof.
  intros Hl [Hs Hm]. rewrite (read_key_set_spec _ _ _ _ Hs Hl). cbv zeta.
  by rewrite bool_decide_true by (by apply Forall_forall).
Qed.

(** Reading the marks settles the storage. *)
Lemma reads_settles lk st items ks :
  strs_at st storageKey ks -> Forall (fun i => legacy_key i = Ret (lk i)) items ->
  units_ok (key <$> items) ->
  exists st' ks', reads st items = Ret (st', JStr <$> fold_left sadd ks' [])
    /\ settled lk st' items ks' /\ (forall k, k ∈ ks -> k ∈ ks')
    /\ (forall k', k' <> storageKey -> readStoredKeys st' k' = readStoredKeys st k').
Proof.
  intros Hs Hl Hu. rewrite (read_key_set_spec _ _ _ _ Hs Hl). cbv zeta.
  set (m := migrated_keys st items lk). set (ks0 := fold_left sadd ks []). case_bool_decide as Hm.
  { exists st, ks. split_and!; try done. split; [done|]. by apply Forall_forall. }
  set (ks1 := fold_left sadd m ks0).
  assert (units_ok m) as Hum.
  { unfold m, migrated_keys. unfold units_ok in *. rewrite Forall_forall in *.
    intros k (i & -> & [Hi _]%elem_of_lfilter)%list_elem_of_fmap. apply Hu. by apply list_elem_of_fmap_2. }
  assert (units_ok ks1) as Hu1.
  { apply units_ok_sadds; [|done]. apply units_ok_sadds; [constructor | apply Hs]. }
  assert (fold_left sadd ks1 [] = ks1) as Hid.
  { rewrite sadds_fresh; [done|]. apply sadds_NoDup, sadds_NoDup. constructor. }
  pose proof (write_read st storageKey ks1 Hu1) as Hw. rewrite Hid in Hw.
  eexists _, ks1. split_and!; [by rewrite Hid | | |intros k' Hne; by apply write_read_ne].
  - split; [done|]. unfold migrated_keys. rewrite write_read_ne by done. fold (migrated_keys st items lk).
    fold m. intros k Hk. apply elem_of_sadds. by right.
  - intros k Hk. unfold ks1, ks0. rewrite !elem_of_sadds. set_solver.
Qed.
End Family.

(** ** The hook *)

(** The storage reads as strings, the keys are well-formed texts, and the older
    key of every notice exists. *)
Record notices_ok (lk : jsv -> jsstr) (anns : list jsv) (s : notices) : Prop := {
  ok_notices : exists ks, strs_at (store s) NOTIFICATION_READ_KEYS ks;
  ok_announcements : exists ks, strs_at (store s) UPDATE_ANNOUNCEMENT_READ_KEYS ks;
  ok_notice_keys : units_ok (getNoticeNotificationKey <$> notifications s);
  ok_announcement_keys : units_ok (getUpdateAnnouncementKey <$> anns);
  ok_legacy : Forall (fun i => getLegacyNoticeKey i = Ret (lk i)) (notifications s)
}.

Section Hook.
Context (date_ms : jsv -> num) (lk : jsv -> jsstr).

Definition n_settled := settled NOTIFICATION_READ_KEYS LEGACY_NOTICE_READ_KEYS getNoticeNotificationKey lk.
Definition a_settled :=
  settled UPDATE_ANNOUNCEMENT_READ_KEYS LEGACY_SYSTEM_NOTIFICATION_READ_KEYS getUpdateAnnouncementKey
    getLegacySystemAnnouncementKey.

Definition hook_settled (anns : list jsv) (s : notices) (kn ka : list jsstr) : Prop :=
  n_settled (store s) (notifications s) kn /\ a_settled (store s) anns ka.

(** The entries whose key is not among the marks. *)
Definition unread (ks : list jsstr) : list entry -> list entry :=
  List.filter (fun e => negb (bool_decide (e_key e ∈ ks))).

Definition n_entries (s : notices) : list entry :=
  entries_of date_ms notification getNoticeNotificationKey 0 (notifications s).
Definition a_entries (anns : list jsv) (s : notices) : list entry :=
  entries_of date_ms updateAnnouncement getUpdateAnnouncementKey (Z.of_nat (length (notifications s))) anns.

Definition view_of (anns : list jsv) (s : notices) (kn ka : list jsstr) : notices_view :=
  let queue := sort_by prompt_cmp (unread kn (n_entries s) ++ unread ka (a_entries anns s)) in
  let n := Z.of_nat (length queue) in
  {| promptQueue := queue; unreadCount := n;
     autoPromptItem := if noticeVisible s then None else head queue;
     autoPromptRemainingCount := if noticeVisible s then 0 else n |}.

Lemma filter_marks ks l :
  List.filter (fun e => negb (set_has (JStr (e_key e)) (JStr <$> fold_left sadd ks []))) l = unread ks l.
Proof.
  apply filter_ext. intros e. rewrite set_has_str. f_equal. apply bool_decide_ext.
  rewrite elem_of_sadds. set_solver.
Qed.

Lemma unread_notices_settled s st kn :
  Forall (fun i => getLegacyNoticeKey i = Ret (lk i)) (notifications s) -> n_settled st (notifications s) kn ->
  unreadNotificationItems date_ms s st = Ret (st, unread kn (n_entries s)).
Proof.
  intros Hl Hs. unfold unreadNotificationItems, unread_of, n_entries.
  destruct (notifications s) as [|i l] eqn:E; [done|]. rewrite <- E in *.
  unfold getReadKeySet. erewrite reads_settled by done. simpl. by rewrite filter_marks.
Qed.

Lemma unread_announcements_settled s anns st ka :
  a_settled st anns ka ->
  unreadUpdateAnnouncementItems date_ms s anns st = Ret (st, unread ka (a_entries anns s)).
Proof.
  intros Hs. unfold unreadUpdateAnnouncementItems, unread_of, a_entries.
  destruct anns as [|i l] eqn:E; [done|]. rewrite <- E in *.
  unfold getUpdateAnnouncementReadKeySet.
  erewrite reads_settled; [|done|by apply Forall_forall|exact Hs]. simpl. by rewrite filter_marks.
Qed.

Lemma render_settled anns s kn ka :
  Forall (fun i => getLegacyNoticeKey i = Ret (lk i)) (notifications s) -> hook_settled anns s kn ka ->
  render date_ms anns s = Ret (s, view_of anns s kn ka).
Proof.
  intros Hl [Hn Ha]. unfold render. rewrite (unread_notices_settled _ _ _ Hl Hn). simpl.
  rewrite (unread_announcements_settled _ _ _ _ Ha). simpl. by destruct s.
Qed.

(** A render leaves a settled storage behind. *)
Lemma render_settles anns s :
  notices_ok lk anns s ->
  exists st kn ka, render date_ms anns s = Ret (set_store st s, view_of anns s kn ka)
    /\ hook_settled anns (set_store st s) kn ka.
Proof.
  intros [[kn0 Hn0] [ka0 Ha0] Hkn Hka Hl].
  assert (exists st1 kn, unreadNotificationItems date_ms s (store s) = Ret (st1, unread kn (n_entries s))
    /\ n_settled st1 (notifications s) kn
    /\ forall k, k <> NOTIFICATION_READ_KEYS -> readStoredKeys st1 k = readStoredKeys (store s) k)
    as (st1 & kn & E1 & Hs1 & Hk1).
  { destruct (notifications s) as [|i l] eqn:E.
    - exists (store s), kn0. unfold unreadNotificationItems, n_entries. rewrite E.
      split_and!; [done | apply settled_all; [done | set_solver] | done].
    - rewrite <- E in *. unfold unreadNotificationItems, unread_of, getReadKeySet. 
      destruct (reads_settles NOTIFICATION_READ_KEYS LEGACY_NOTICE_READ_KEYS getLegacyNoticeKey _ ltac:(done) lk _ _ _ Hn0 Hl Hkn)
        as (st1 & kn & -> & Hs & _ & Hk).
      exists st1, kn. split_and!; try done. simpl. rewrite filter_marks. unfold n_entries. by rewrite E. }
  assert (exists st2 ka, unreadUpdateAnnouncementItems date_ms s anns st1 = Ret (st2, unread ka (a_entries anns s))
    /\ a_settled st2 anns ka
    /\ forall k, k <> UPDATE_ANNOUNCEMENT_READ_KEYS -> readStoredKeys st2 k = readStoredKeys st1 k)
    as (st2 & ka & E2 & Hs2 & Hk2).
  { assert (strs_at st1 UPDATE_ANNOUNCEMENT_READ_KEYS ka0) as Ha1 by (unfold strs_at; by rewrite Hk1).
    destruct anns as [|i l] eqn:E.
    - exists st1, ka0. split; [reflexivity|]. split; [|intros; reflexivity].
      apply settled_all; [exact Ha1|]. intros k []%not_elem_of_nil.
    - rewrite <- E in *. unfold unreadUpdateAnnouncementItems, unread_of, getUpdateAnnouncementReadKeySet.
      destruct (reads_settles UPDATE_ANNOUNCEMENT_READ_KEYS LEGACY_SYSTEM_NOTIFICATION_READ_KEYS
        (fun i => Ret (getLegacySystemAnnouncementKey i)) _ ltac:(done) getLegacySystemAnnouncementKey
        _ anns _ Ha1 ltac:(by apply Forall_forall) Hka) as (st2 & ka & -> & Hs & _ & Hk).
      exists st2, ka. split_and!; try done. simpl. rewrite filter_marks. unfold a_entries. by rewrite E. }
  exists st2, kn, ka. split.
  - unfold render. rewrite E1. simpl. rewrite E2. done.
  - split; [|done]. simpl. eapply settled_ext; [..|exact Hs1]; by apply Hk2.
Qed.

Lemma unread_all ks l : (forall e, e ∈ l -> e_key e ∈ ks) -> unread ks l = [].
Proof.
  intros H. induction l as [|e l IH]; simpl; [done|]. rewrite bool_decide_true by (apply H; set_solver).
  apply IH. set_solver.
Qed.

Lemma entries_keys kind key base items e :
  e ∈ entries_of date_ms kind key base items -> e_kind e = kind /\ e_key e ∈ key <$> items.
Proof.
  unfold entries_of. intros (j & i & Hi & -> & _)%elem_of_mapi_from. split; [done|].
  simpl. by apply list_elem_of_fmap_2.
Qed.

(** Closing the panel marks every notice and every announcement. *)
Lemma close_settles anns s :
  notices_ok lk anns s ->
  exists kn ka, hook_settled anns (handleNoticeClose anns s) kn ka
    /\ (forall k, k ∈ getNoticeNotificationKey <$> notifications s -> k ∈ kn)
    /\ (forall k, k ∈ getUpdateAnnouncementKey <$> anns -> k ∈ ka).
Proof.
  intros [[kn0 Hn0] [ka0 Ha0] Hkn Hka Hl].
  set (st1 := match notifications s with [] => store s | _ => mark_read NOTIFICATION_READ_KEYS
    (getNoticeNotificationKey <$> notifications s) (store s) end).
  assert (exists kn, strs_at st1 NOTIFICATION_READ_KEYS kn
    /\ (forall k, k ∈ getNoticeNotificationKey <$> notifications s -> k ∈ kn)
    /\ forall k', NOTIFICATION_READ_KEYS <> k' -> readStoredKeys st1 k' = readStoredKeys (store s) k')
    as (kn & Hs1 & Hall1 & Hk1).
  { destruct (mark_read_strs _ _ _ _ Hn0 Hkn) as (kn & Hs & Hm). unfold st1.
    destruct (notifications s).
    - exists kn0. split; [exact Hn0|]. split; [intros k []%not_elem_of_nil | intros; reflexivity].
    - exists kn. split; [exact Hs|]. split; [intros k Hk; apply Hm; by right | intros; by apply mark_read_ne]. }
  set (st2 := match anns with [] => st1 | _ => mark_read UPDATE_ANNOUNCEMENT_READ_KEYS
    (getUpdateAnnouncementKey <$> anns) st1 end).
  assert (exists ka, strs_at st2 UPDATE_ANNOUNCEMENT_READ_KEYS ka
    /\ (forall k, k ∈ getUpdateAnnouncementKey <$> anns -> k ∈ ka)
    /\ forall k', UPDATE_ANNOUNCEMENT_READ_KEYS <> k' -> readStoredKeys st2 k' = readStoredKeys st1 k')
    as (ka & Hs2 & Hall2 & Hk2).
  { assert (strs_at st1 UPDATE_ANNOUNCEMENT_READ_KEYS ka0) as Ha1 by (unfold strs_at; by rewrite Hk1).
    destruct (mark_read_strs _ _ _ _ Ha1 Hka) as (ka & Hs & Hm). unfold st2.
    destruct anns.
    - exists ka0. split; [exact Ha1|]. split; [intros k []%not_elem_of_nil | intros; reflexivity].
    - exists ka. split; [exact Hs|]. split; [intros k Hk; apply Hm; by right | intros; by apply mark_read_ne]. }
  assert (handleNoticeClose anns s = bump_version (set_store st2 (set_visible false s))) as E.
  { unfold handleNoticeClose, st2, st1. by destruct (notifications s), anns. }
  exists kn, ka. rewrite E. split_and!; [|done..]. split; simpl; [|by apply settled_all].
  apply settled_all; [|done]. unfold strs_at. by rewrite Hk2.
Qed.

(** After the notice panel is closed nothing is unread: the next render
    has an empty queue, no automatic prompt and writes nothing. *)
Theorem close_reads_all anns s :
  notices_ok lk anns s ->
  let s' := handleNoticeClose anns s in
  exists v, render date_ms anns s' = Ret (s', v)
    /\ promptQueue v = [] /\ unreadCount v = 0 /\ autoPromptItem v = None.
Proof.
  intros Hok s'. destruct (close_settles anns s Hok) as (kn & ka & Hs & Hn & Ha).
  eexists. split; [apply (render_settled _ _ kn ka); [apply Hok | done]|].
  assert (promptQueue (view_of anns s' kn ka) = []) as Hq.
  { unfold view_of. cbn [promptQueue]. rewrite !unread_all; [done|..].
    - intros e [_ He]%entries_keys. by apply Ha.
    - intros e [_ He]%entries_keys. by apply Hn. }
  unfold view_of in *. cbn [promptQueue unreadCount autoPromptItem] in *. rewrite Hq. done.
Qed.

(** ** Prompts *)

Definition same_entry (e x : entry) : bool :=
  bool_decide (e_kind x = e_kind e) && bool_decide (e_key x = e_key e).

Lemma unread_marked ks ks' e l kind :
  e_kind e = kind -> (forall x, x ∈ l -> e_kind x = kind) ->
  (forall k, k ∈ ks' <-> k ∈ ks \/ k = e_key e) ->
  unread ks' l = List.filter (fun x => negb (same_entry e x)) (unread ks l).
Proof.
  intros He Hl Hk. induction l as [|x l IH]; simpl; [done|]. rewrite IH by set_solver.
  assert (same_entry e x = bool_decide (e_key x = e_key e)) as Hx.
  { unfold same_entry. by rewrite bool_decide_true by (rewrite He; apply Hl; set_solver). }
  rewrite (bool_decide_ext _ _ (Hk (e_key x))), bool_decide_or.
  destruct (bool_decide (e_key x ∈ ks)); simpl; [done|]. rewrite Hx. by destruct (bool_decide _).
Qed.

Lemma unread_other e l :
  (forall x, x ∈ l -> e_kind x <> e_kind e) -> List.filter (fun x => negb (same_entry e x)) l = l.
Proof.
  intros H. induction l as [|x l IH]; simpl; [done|]. unfold same_entry at 1.
  rewrite bool_decide_false by (apply H; set_solver). simpl. f_equal. apply IH. set_solver.
Qed.

Lemma filter_perm {A} (p : A -> bool) l l' : l ≡ₚ l' -> List.filter p l ≡ₚ List.filter p l'.
Proof.
  induction 1 as [|x l l' _ IH|x y l|l1 l2 l3 _ IH1 _ IH2]; simpl; [done|..].
  - destruct (p x); [by constructor | done].
  - destruct (p x), (p y); try done. constructor.
  - by rewrite IH1.
Qed.

Lemma view_of_queue anns s kn ka :
  promptQueue (view_of anns s kn ka) ≡ₚ unread kn (n_entries s) ++ unread ka (a_entries anns s).
Proof. apply sort_by_perm. Qed.

Lemma append_read storageKey ks k st :
  strs_at st storageKey ks -> Forall unit_ok k ->
  exists ks', strs_at (writeStoredKeys st storageKey (readStoredKeys st storageKey ++ [JStr k])) storageKey ks'
    /\ forall x, x ∈ ks' <-> x ∈ ks \/ x = k.
Proof.
  intros [H Hu] Hk. rewrite H. change [JStr k] with (JStr <$> [k]). rewrite <- fmap_app. eexists. split.
  - apply write_read, Forall_app. split; [done | by constructor].
  - intros x. rewrite elem_of_sadds. set_solver.
Qed.

Lemma n_entries_kind s e : e ∈ n_entries s -> e_kind e = notification /\ e_key e ∈ getNoticeNotificationKey <$> notifications s.
Proof. apply entries_keys. Qed.
Lemma a_entries_kind anns s e : e ∈ a_entries anns s -> e_kind e = updateAnnouncement /\ e_key e ∈ getUpdateAnnouncementKey <$> anns.
Proof. apply entries_keys. Qed.
Lemma elem_of_unread e ks l : e ∈ unread ks l <-> e ∈ l /\ e_key e ∉ ks.
Proof. unfold unread. rewrite elem_of_lfilter, negb_true_iff, bool_decide_eq_false. done. Qed.

Lemma settled_more lk' sk lsk (key : jsv -> jsstr) st st' items ks ks' :
  strs_at st' sk ks' -> readStoredKeys st' lsk = readStoredKeys st lsk -> (forall k, k ∈ ks -> k ∈ ks') ->
  settled sk lsk key lk' st items ks -> settled sk lsk key lk' st' items ks'.
Proof.
  intros Hs Hl Hk [_ Hm]. split; [done|]. unfold migrated_keys in *. rewrite Hl. auto.
Qed.

Lemma view_count anns s kn ka :
  unreadCount (view_of anns s kn ka) = Z.of_nat (length (promptQueue (view_of anns s kn ka))).
Proof. done. Qed.

Lemma view_prompt anns s kn ka e :
  autoPromptItem (view_of anns s kn ka) = Some e -> exists q, promptQueue (view_of anns s kn ka) = e :: q.
Proof.
  unfold view_of. cbn [autoPromptItem promptQueue]. destruct (noticeVisible s); [done|].
  destruct (sort_by _ _) as [|x q]; [done|]. intros [= ->]. by exists q.
Qed.

(** Closing the prompt of a settled state marks exactly its key. *)
Lemma prompt_close_settles anns s kn ka e :
  notices_ok lk anns s -> hook_settled anns s kn ka -> autoPromptItem (view_of anns s kn ka) = Some e ->
  exists kn' ka', hook_settled anns (handleAutoPromptClose (view_of anns s kn ka) s) kn' ka'
    /\ unread kn' (n_entries s) = List.filter (fun x => negb (same_entry e x)) (unread kn (n_entries s))
    /\ unread ka' (a_entries anns s) = List.filter (fun x => negb (same_entry e x)) (unread ka (a_entries anns s)).
Proof.
  intros Hok [Hn Ha] He.
  assert (e ∈ promptQueue (view_of anns s kn ka)) as Hq.
  { destruct (view_prompt _ _ _ _ _ He) as [q ->]. apply list_elem_of_here. }
  rewrite view_of_queue, elem_of_app in Hq. unfold handleAutoPromptClose. rewrite He.
  assert (Forall unit_ok (e_key e)) as Hu.
  { pose proof (ok_notice_keys _ _ _ Hok) as Hu1. pose proof (ok_announcement_keys _ _ _ Hok) as Hu2.
    unfold units_ok in *. rewrite Forall_forall in Hu1. rewrite Forall_forall in Hu2.
    destruct Hq as [[Hq _]%elem_of_unread|[Hq _]%elem_of_unread].
    - apply Hu1. exact (proj2 (n_entries_kind _ _ Hq)).
    - apply Hu2. exact (proj2 (a_entries_kind _ _ _ Hq)). }
  destruct (e_kind e) eqn:Ek.
  - destruct (append_read _ _ _ _ (proj1 Hn) Hu) as (kn' & Hs & Hk). exists kn', ka. split; [|split].
    + split; simpl; [|eapply settled_ext; [..|exact Ha]; by apply write_read_ne].
      eapply settled_more; [exact Hs | by apply write_read_ne | | exact Hn]. intros k Hin. apply Hk. by left.
    + apply (unread_marked _ _ _ _ notification); [done | by intros x [? _]%n_entries_kind | done].
    + symmetry. apply unread_other. intros x [[-> _]%a_entries_kind _]%elem_of_unread. by rewrite Ek.
  - destruct (append_read _ _ _ _ (proj1 Ha) Hu) as (ka' & Hs & Hk). exists kn, ka'. split; [|split].
    + split; simpl; [eapply settled_ext; [..|exact Hn]; by apply write_read_ne|].
      eapply settled_more; [exact Hs | by apply write_read_ne | | exact Ha]. intros k Hin. apply Hk. by left.
    + symmetry. apply unread_other. intros x [[-> _]%n_entries_kind _]%elem_of_unread. by rewrite Ek.
    + apply (unread_marked _ _ _ _ updateAnnouncement); [done | by intros x [? _]%a_entries_kind | done].
Qed.

Lemma close_prompt_ok v anns s kn ka :
  notices_ok lk anns s -> hook_settled anns (handleAutoPromptClose v s) kn ka ->
  notices_ok lk anns (handleAutoPromptClose v s).
Proof.
  intros Hok [Hn Ha]. destruct Hok as [_ _ H1 H2 H3].
  assert (notifications (handleAutoPromptClose v s) = notifications s) as E.
  { unfold handleAutoPromptClose. by destruct (autoPromptItem v). }
  split; rewrite ?E; [exists kn; apply Hn | exists ka; apply Ha | done..].
Qed.

(** The state that a render leaves behind satisfies the invariant again. *)
Lemma settled_ok anns s st kn ka :
  notices_ok lk anns s -> hook_settled anns (set_store st s) kn ka -> notices_ok lk anns (set_store st s).
Proof. intros [_ _ H1 H2 H3] [Hn Ha]. split; [exists kn; apply Hn | exists ka; apply Ha | done..]. Qed.

Lemma prompt_close_step anns s s1 v e :
  notices_ok lk anns s -> render date_ms anns s = Ret (s1, v) -> autoPromptItem v = Some e ->
  let s2 := handleAutoPromptClose v s1 in
  notices_ok lk anns s2 /\ noticeVisible s2 = noticeVisible s
  /\ exists v2, render date_ms anns s2 = Ret (s2, v2)
    /\ promptQueue v2 ≡ₚ List.filter (fun x => negb (same_entry e x)) (promptQueue v)
    /\ unreadCount v2 < unreadCount v.
Proof.
  intros Hok H He s2. destruct (render_settles anns s Hok) as (st & kn & ka & E & Hs).
  rewrite E in H. apply Ret_inj in H. injection H as <- <-.
  pose proof (settled_ok _ _ _ _ _ Hok Hs) as Hok1. change (view_of anns s kn ka) with (view_of anns (set_store st s) kn ka) in *.
  destruct (prompt_close_settles _ _ _ _ _ Hok1 Hs He) as (kn' & ka' & Hs' & E1 & E2). fold s2 in Hs'.
  pose proof (close_prompt_ok _ _ _ _ _ Hok1 Hs') as Hok2.
  split; [done|]. split; [unfold s2, handleAutoPromptClose; by rewrite He|].
  exists (view_of anns s2 kn' ka'). split; [apply render_settled; [apply Hok2 | done]|].
  assert (notifications s2 = notifications s) as En.
  { unfold s2, handleAutoPromptClose. by rewrite He. }
  assert (promptQueue (view_of anns s2 kn' ka')
    ≡ₚ List.filter (fun x => negb (same_entry e x)) (promptQueue (view_of anns (set_store st s) kn ka))) as Hp.
  { rewrite (filter_perm _ _ _ (view_of_queue _ _ _ _)), List.filter_app, <- E1, <- E2, view_of_queue.
    unfold n_entries, a_entries. rewrite En. done. }
  split; [done|]. rewrite !view_count, (Permutation_length Hp). apply inj_lt.
  destruct (view_prompt _ _ _ _ _ He) as [q ->]. simpl. unfold same_entry at 1.
  rewrite !bool_decide_true by done. simpl. pose proof (List.filter_length_le (fun x => negb (same_entry e x)) q). lia.
Qed.

Lemma render_again anns s s1 v :
  notices_ok lk anns s -> render date_ms anns s = Ret (s1, v) ->
  notices_ok lk anns s1 /\ noticeVisible s1 = noticeVisible s /\ render date_ms anns s1 = Ret (s1, v)
  /\ unreadCount v = Z.of_nat (length (promptQueue v))
  /\ (noticeVisible s = false -> autoPromptItem v = head (promptQueue v)).
Proof.
  intros Hok H. destruct (render_settles anns s Hok) as (st & kn & ka & E & Hs).
  rewrite E in H. apply Ret_inj in H. injection H as <- <-.
  pose proof (settled_ok _ _ _ _ _ Hok Hs) as Hok1. split; [done|]. split; [done|]. split.
  - exact (render_settled anns (set_store st s) kn ka (ok_legacy _ _ _ Hok) Hs).
  - split; [done|]. intros Hv. unfold view_of. cbn [autoPromptItem promptQueue]. by rewrite Hv.
Qed.

(** Rendering twice gives the same view and writes nothing the second time:
    the marks of the older version are migrated once, so a value React keeps
    from an earlier render is the value a new render would compute. *)
Theorem render_idempotent anns s s1 v :
  notices_ok lk anns s -> render date_ms anns s = Ret (s1, v) -> render date_ms anns s1 = Ret (s1, v).
Proof. intros Hok H. by apply (render_again anns s s1 v Hok H). Qed.

(** Closing the automatic prompt removes from the queue exactly the
    entries of its kind with its key, the prompt among them, and no others:
    the count of unread items goes down. *)
Theorem prompt_close_spec anns s s1 v e :
  notices_ok lk anns s -> render date_ms anns s = Ret (s1, v) -> autoPromptItem v = Some e ->
  let s2 := handleAutoPromptClose v s1 in
  exists v2, render date_ms anns s2 = Ret (s2, v2)
    /\ promptQueue v2 ≡ₚ List.filter (fun x => negb (same_entry e x)) (promptQueue v)
    /\ unreadCount v2 < unreadCount v.
Proof. intros Hok H He. by apply (prompt_close_step anns s s1 v e Hok H He). Qed.

(** The user closes the prompt [n] times. *)
Fixpoint dismiss (n : nat) (anns : list jsv) (s : notices) : exc notices :=
  match n with
  | O => Ret s
  | S n' => r ← render date_ms anns s; dismiss n' anns (handleAutoPromptClose r.2 r.1)
  end.

(** With the panel closed, closing as many prompts as there are unread
    items leaves none: no prompt comes back. *)
Theorem prompts_drain n anns s s1 v :
  notices_ok lk anns s -> noticeVisible s = false -> render date_ms anns s = Ret (s1, v) ->
  unreadCount v <= Z.of_nat n ->
  exists s2 s3 v3, dismiss n anns s = Ret s2 /\ render date_ms anns s2 = Ret (s3, v3) /\ promptQueue v3 = [].
Proof.
  revert s s1 v. induction n as [|n IH]; intros s s1 v Hok Hv H Hc;
    destruct (render_again _ _ _ _ Hok H) as (Hok1 & Hv1 & H1 & Hn & Hp).
  - exists s, s1, v. split_and!; [done..|]. apply length_zero_iff_nil. lia.
  - cbn [dismiss]. rewrite H. cbn [mbind exc_bind fst snd]. destruct (promptQueue v) as [|e q] eqn:Eq.
    + assert (handleAutoPromptClose v s1 = s1) as ->.
      { unfold handleAutoPromptClose. by rewrite Hp. }
      apply (IH s1 s1 v); [done | by rewrite Hv1 | done|]. simpl in Hn. lia.
    + destruct (prompt_close_step _ _ _ _ e Hok H) as (Hok2 & Hv2 & v2 & H2 & _ & Hlt); [by rewrite Hp|].
      eapply IH; [exact Hok2 | by rewrite Hv2 | exact H2 | lia].
Qed.
End Hook.

(** ** A concrete session *)

Module Session.
Definition ms0 (v : jsv) : num := match v with JStr s => of_Z (Z.of_nat (length s)) | _ => NaN end.
Definition q (s : string) : jsstr := [34] ++ u s ++ [34].
(** The older version marked the notice "hello", which has no date. *)
Definition st0 : storage := [(LEGACY_NOTICE_READ_KEYS, u "[" ++ q "-hello" ++ u "]")].
Definition anns0 : list jsv := [JObj [(u "id", JNum (of_Z 4)); (u "content", JStr (u "maintenance"))]].
Definition s0 : notices :=
  loadNotifications (Some (JObj [(u "success", JBool true);
    (u "data", JStr (u "[" ++ q "hello" ++ u "," ++ q "world" ++ u "," ++ q " " ++ u "]"))]))
    (initial_notices st0).
Definition lk0 (i : jsv) : jsstr := match getLegacyNoticeKey i with Ret k => k | Throw _ => [] end.

Definition has_legacy (i : jsv) : bool := match getLegacyNoticeKey i with Ret _ => true | Throw _ => false end.

Lemma lk0_ok l : forallb has_legacy l = true -> Forall (fun i => getLegacyNoticeKey i = Ret (lk0 i)) l.
Proof.
  rewrite forallb_forall, Forall_forall. intros H i Hi%list_elem_of_In. specialize (H i Hi).
  unfold has_legacy, lk0 in *. by destruct (getLegacyNoticeKey i).
Qed.

Lemma ok0 : notices_ok lk0 anns0 s0.
Proof.
  split.
  - exists []. split; [vm_compute; reflexivity | constructor].
  - exists []. split; [vm_compute; reflexivity | constructor].
  - apply (bool_decide_unpack _). vm_compute. exact I.
  - apply (bool_decide_unpack _). vm_compute. exact I.
  - apply lk0_ok. vm_compute. reflexivity.
Qed.
End Session.

Lemma render_idempotent_witness :
  exists s1 v, render Session.ms0 Session.anns0 Session.s0 = Ret (s1, v) /\ store s1 <> store Session.s0
    /\ unreadCount v = 2 /\ render Session.ms0 Session.anns0 s1 = Ret (s1, v).
Proof.
  destruct (render Session.ms0 Session.anns0 Session.s0) as [[s1 v]|] eqn:E; [|by vm_compute in E].
  exists s1, v. split; [reflexivity|].
  pose proof (render_idempotent Session.ms0 Session.lk0 Session.anns0 Session.s0 s1 v Session.ok0 E) as H.
  split; [|split; [|exact H]].
  - intros Hst. apply (f_equal (fun r => match r with Ret (s, _) => length (store s) | Throw _ => O end)) in E.
    rewrite Hst in E. by vm_compute in E.
  - apply (f_equal (fun r => match r with Ret (_, v) => unreadCount v | Throw _ => 0 end)) in E.
    by vm_compute in E.
Defined.

Lemma close_reads_all_witness :
  exists v, render Session.ms0 Session.anns0 (handleNoticeClose Session.anns0 Session.s0)
    = Ret (handleNoticeClose Session.anns0 Session.s0, v) /\ unreadCount v = 0.
Proof.
  destruct (close_reads_all Session.ms0 Session.lk0 Session.anns0 Session.s0 Session.ok0) as (v & H & _ & Hc & _).
  exists v. split; [exact H | exact Hc].
Defined.

Lemma prompt_close_spec_witness :
  exists s1 v e v2, render Session.ms0 Session.anns0 Session.s0 = Ret (s1, v) /\ autoPromptItem v = Some e
    /\ render Session.ms0 Session.anns0 (handleAutoPromptClose v s1) = Ret (handleAutoPromptClose v s1, v2)
    /\ unreadCount v2 < unreadCount v.
Proof.
  destruct (render Session.ms0 Session.anns0 Session.s0) as [[s1 v]|] eqn:E; [|by vm_compute in E].
  destruct (autoPromptItem v) as [e|] eqn:Ee.
  2:{ apply (f_equal (fun r => match r with Ret (_, v) => bool_decide (is_Some (autoPromptItem v)) | Throw _ => true end)) in E.
      rewrite Ee in E. by vm_compute in E. }
  destruct (prompt_close_spec Session.ms0 Session.lk0 Session.anns0 Session.s0 s1 v e Session.ok0 E Ee)
    as (v2 & H & _ & Hlt).
  exists s1, v, e, v2. split; [reflexivity|]. split; [exact Ee|]. split; [exact H | exact Hlt].
Defined.

Lemma prompts_drain_witness :
  exists s2 s3 v3, dismiss Session.ms0 2 Session.anns0 Session.s0 = Ret s2
    /\ render Session.ms0 Session.anns0 s2 = Ret (s3, v3) /\ promptQueue v3 = [].
Proof.
  destruct (render Session.ms0 Session.anns0 Session.s0) as [[s1 v]|] eqn:E; [|by vm_compute in E].
  apply (prompts_drain Session.ms0 Session.lk0 2 Session.anns0 Session.s0 s1 v Session.ok0 eq_refl E).
  assert (2 = unreadCount v) as <-; [|apply Z.leb_le; reflexivity].
  apply (f_equal (fun r => match r with Ret (_, v) => unreadCount v | Throw _ => 0 end)) in E.
  rewrite <- E. vm_compute. reflexivity.
Defined.
