(* ===== verification/Payments.v ===== *)
(** * Payments

    Model of the top-up helpers of web/classic/src/components/topup:
    modals/topupHistoryUtils.mjs (what an order allows), rechargeAmountDisplay.js
    and subscriptionPaymentDisplay.js (what a purchase costs), and
    subscriptionPaymentMethods.js (how a plan can be paid).

    Orders, presets, plans and methods are the values the server sends.  Amounts
    are doubles, rounded as the code rounds them. *)

From Stdlib Require Import QArith.
From S2P Require Import Prelude JsString JsNumber JsNumText JsValue.

#[local] Open Scope Z_scope.

(** [Number(v || 0)], [Number(v) || 0] and [xs.includes(v)] for texts *)
Definition number_of_or_zero (v : jsv) : num := to_number (js_or v (JNum (Zero false))).
Definition number_or (v : jsv) (d : num) : num := let n := to_number v in if num_truthy n then n else d.
Definition one_of (xs : list jsstr) (v : jsv) : bool := existsb (is_str v) xs.

(** [Object.prototype.hasOwnProperty.call(v, k)] *)
Definition has_own (v : jsv) (k : jsstr) : bool :=
  bool_decide (k ∈ keys v)
  || match v with JArr _ | JStr _ => bool_decide (k = u "length") | _ => false end.

(** ** Orders *)

Section Orders.
Context `{UnicodeCase}.

Definition getRemainingRefundMoney (record : jsv) : num :=
  let money := number_of_or_zero (record?."money") in
  let refundedMoney := number_of_or_zero (record?."refunded_money") in
  num_max (Zero false)
    (num_div (num_round (num_mul (num_sub money refundedMoney) (of_Z 100))) (of_Z 100)).

Definition SUBSCRIPTION_PREFIXES : list jsstr :=
  u <$> ["SUB"; "ALIPAYSUB"; "WXSUB"; "SSSUB"; "BALANCE__"]%string.

Definition isSubscriptionTopup (record : jsv) : bool :=
  if negb (truthy record) then false
  else if negb (num_eq (number_of_or_zero (record?."amount")) (Zero false)) then false
  else
    let tradeNo := toUpperCase (to_string (js_or (record?."trade_no") (JStr []))) in
    existsb (fun p => startsWith p tradeNo) SUBSCRIPTION_PREFIXES.

Definition isOfficialPaymentTopup (record : jsv) : bool :=
  is_str (record?."payment_provider") (u "alipay_official")
  || is_str (record?."payment_method") (u "alipay_official")
  || is_str (record?."payment_provider") (u "wxpay_official")
  || is_str (record?."payment_method") (u "wxpay_official").

Definition isSelfServeTopup (record : jsv) : bool :=
  is_str (record?."payment_provider") (u "self_serve")
  || is_str (record?."payment_method") (u "alipay_self_serve")
  || is_str (record?."payment_method") (u "wxpay_self_serve").

Definition isBalanceTopup (record : jsv) : bool :=
  is_str (record?."payment_provider") (u "balance") || is_str (record?."payment_method") (u "balance").

(** [record.status === 'success' || record.status === 'partial_refunded'] *)
Definition statusAllowsRefund (record : jsv) : bool :=
  is_str (record?."status") (u "success") || is_str (record?."status") (u "partial_refunded").

Definition hasMoneyLeft (record : jsv) : bool := num_gt (getRemainingRefundMoney record) (Zero false).

Definition isBalanceSubscriptionRefundable (record : jsv) : bool :=
  if negb (truthy record) then false
  else isBalanceTopup record && isSubscriptionTopup record && statusAllowsRefund record
       && hasMoneyLeft record.

Definition ADMIN_TOPUP_PAYMENT_METHODS : list jsstr :=
  u <$> ["admin_add"; "管理员增加"; "管理员充值"]%string.

Definition isAdminManagedTopup (record : jsv) : bool :=
  is_str (record?."payment_provider") (u "admin")
  || one_of ADMIN_TOPUP_PAYMENT_METHODS (record?."payment_method").

Definition getRemainingAdminRefundQuota (record : jsv) : num :=
  let amount := number_of_or_zero (record?."amount") in
  let refundedQuota := number_of_or_zero (record?."refunded_quota") in
  num_max (Zero false) (num_round (num_sub amount refundedQuota)).

Definition canAdminCompleteTopup (record : jsv) : bool :=
  if negb (truthy record) then false
  else if is_str (record?."status") (u "pending")
       then negb (isSubscriptionTopup record) || isOfficialPaymentTopup record
       else is_str (record?."status") (u "expired") && isOfficialPaymentTopup record.

Definition isAlipayOfficialRefundable (record : jsv) : bool :=
  if negb (truthy record) then false
  else if isSubscriptionTopup record then false
  else
    let isAlipayOfficial :=
      is_str (record?."payment_provider") (u "alipay_official")
      || is_str (record?."payment_method") (u "alipay_official") in
    isAlipayOfficial && statusAllowsRefund record && hasMoneyLeft record.

Definition isOfficialRefundable (record : jsv) : bool :=
  if negb (truthy record) then false
  else isOfficialPaymentTopup record && statusAllowsRefund record && hasMoneyLeft record.

Definition isSelfServeRefundable (record : jsv) : bool :=
  if negb (truthy record) then false
  else isSelfServeTopup record && is_str (record?."audit_status") (u "approved")
       && statusAllowsRefund record && hasMoneyLeft record.

Definition isRefundRequestable (record : jsv) : bool :=
  if negb (truthy record) then false
  else (isOfficialPaymentTopup record || isSelfServeRefundable record
        || isBalanceSubscriptionRefundable record)
       && statusAllowsRefund record && hasMoneyLeft record.

Definition isAdminMoneyRefundable (record : jsv) : bool :=
  isOfficialRefundable record || isSelfServeRefundable record || isBalanceSubscriptionRefundable record.

Definition isAdminManagedTopupRefundable (record : jsv) : bool :=
  if negb (truthy record) then false
  else isAdminManagedTopup record && statusAllowsRefund record
       && num_gt (getRemainingAdminRefundQuota record) (Zero false).

End Orders.

Definition formatCurrency (value : jsv) : jsstr := to_fixed 2 (number_of_or_zero value).

Definition TOPUP_PAYMENT_METHOD_LABELS : list (jsstr * jsstr) :=
  (fun kv => (u kv.1, u kv.2)) <$>
    [("stripe", "Stripe"); ("creem", "Creem"); ("waffo", "Waffo"); ("waffo_pancake", "Waffo Pancake");
     ("alipay", "支付宝"); ("wxpay", "微信"); ("alipay_official", "支付宝"); ("wxpay_official", "微信");
     ("alipay_self_serve", "支付宝自助"); ("wxpay_self_serve", "微信自助"); ("balance", "余额");
     ("admin_add", "管理员充值"); ("管理员增加", "管理员充值"); ("管理员充值", "管理员充值")]%string.

Definition getTopupPaymentMethodLabel (paymentMethod : jsv) : jsv :=
  match om_get (to_string paymentMethod) TOPUP_PAYMENT_METHOD_LABELS with
  | Some l => JStr l
  | None => js_or paymentMethod (JStr (u "-"))
  end.

(** ** Amounts *)

Definition ALIPAY_SELF_SERVE : jsstr := u "alipay_self_serve".
Definition WXPAY_SELF_SERVE : jsstr := u "wxpay_self_serve".
Definition SELF_SERVE_PAYMENT_METHODS : list jsstr := [ALIPAY_SELF_SERVE; WXPAY_SELF_SERVE].
Definition CNY_PAYMENT_METHODS : list jsstr :=
  [u "alipay"; u "wxpay"; u "alipay_official"; u "wxpay_official"; ALIPAY_SELF_SERVE; WXPAY_SELF_SERVE].

(** [1e-9], the double nearest to it. *)
Definition CENT_EPSILON : num := to_num false (1 # 1000000000).

(** [Math.ceil(x * 100 - 1e-9) / 100] *)
Definition ceil_cents (x : num) : num :=
  num_div (num_ceil (num_sub (num_mul x (of_Z 100)) CENT_EPSILON)) (of_Z 100).

(** [amount || 0] for a number. *)
Definition or_zero_num (x : num) : num := if num_truthy x then x else Zero false.

Definition ceilToCents (amount : num) : num := ceil_cents (or_zero_num amount).

Definition no_fee (feePercent : num) : bool := negb (is_finite feePercent) || num_le feePercent (Zero false).

(** [1 + feePercent / 100] *)
Definition fee_factor (feePercent : num) : num := num_add (of_Z 1) (num_div feePercent (of_Z 100)).

Definition applyServiceFee (amount : num) (serviceFeePercent : jsv) : num :=
  let feePercent := to_number serviceFeePercent in
  if no_fee feePercent then ceilToCents amount
  else ceilToCents (num_mul (ceilToCents amount) (fee_factor feePercent)).

(** The functions of that name in both files. *)
Definition shouldApplyServiceFee (paymentMethod : jsv) : bool :=
  negb (is_str paymentMethod (u "stripe")) && negb (is_str paymentMethod (u "creem"))
  && negb (one_of SELF_SERVE_PAYMENT_METHODS paymentMethod).

(** [Number.isFinite(x) && x > 0] *)
Definition positive_finite (x : num) : bool := is_finite x && num_gt x (Zero false).

Definition getConfiguredDiscount (preset discountConfig : jsv) : option num :=
  let presetDiscount := to_number (preset?."discount") in
  if truthy preset && has_own preset (u "discount") && positive_finite presetDiscount
  then Some presetDiscount
  else
    let discountByAmount := js_or discountConfig (JObj []) in
    let amountKey := preset?."value" in
    let configuredDiscount := to_number (oget discountByAmount (to_string amountKey)) in
    if match amountKey with JUndef => false | _ => true end
       && has_own discountByAmount (to_string amountKey) && positive_finite configuredDiscount
    then Some configuredDiscount else None.

Record recharge_args := {
  ra_preset : jsv; ra_paymentAmountBase : jsv; ra_priceRatio : jsv; ra_discountConfig : jsv;
  ra_currencyConfig : jsv; ra_usdExchangeRate : jsv; ra_selectedPaymentMethod : jsv;
  ra_serviceFeePercent : jsv
}.

Record recharge_display := {
  displayValue : num; paymentSymbol : jsv; displayActualPay : num; displaySave : num; rd_fee : num;
  rd_discount : num; hasDiscount : bool; showSavings : bool
}.

(** The numbers computed before the currency is chosen. *)
Record recharge_sums := {
  rs_amount : num; originalPrice : num; configuredDiscount : option num; effectivePay : num;
  actualPay : num; originalPay : num
}.

Definition recharge_discount (r : recharge_sums) : num :=
  match configuredDiscount r with Some d => d | None => of_Z 1 end.

Definition recharge_sums_of (a : recharge_args) : recharge_sums :=
  let amount := number_or (ra_preset a)?."value" (Zero false) in
  let normalizedPaymentAmount := to_number (ra_paymentAmountBase a) in
  let amountForPayment :=
    if positive_finite normalizedPaymentAmount then normalizedPaymentAmount else amount in
  let unitPrice := number_or (ra_priceRatio a) (Zero false) in
  let original := num_mul amountForPayment unitPrice in
  let paymentMethod := js_or (ra_selectedPaymentMethod a) (JStr []) in
  let configured :=
    if one_of SELF_SERVE_PAYMENT_METHODS paymentMethod then None
    else getConfiguredDiscount (ra_preset a) (ra_discountConfig a) in
  let discount := match configured with Some d => d | None => of_Z 1 end in
  let activeServiceFeePercent :=
    if shouldApplyServiceFee paymentMethod then ra_serviceFeePercent a else JNum (Zero false) in
  let effective := ceilToCents (num_mul original discount) in
  {| rs_amount := amount; originalPrice := original; configuredDiscount := configured;
     effectivePay := effective; actualPay := applyServiceFee effective activeServiceFeePercent;
     originalPay := applyServiceFee original activeServiceFeePercent |}.

Definition buildRechargeAmountDisplay (a : recharge_args) : recharge_display :=
  let r := recharge_sums_of a in
  let paymentMethod := js_or (ra_selectedPaymentMethod a) (JStr []) in
  let discount := recharge_discount r in
  let has := match configuredDiscount r with Some _ => num_lt discount (of_Z 1) | None => false end in
  let save := num_max (Zero false) (num_sub (originalPay r) (actualPay r)) in
  let fee := num_max (Zero false) (num_sub (actualPay r) (effectivePay r)) in
  let displayType := js_or (ra_currencyConfig a)?."type" (JStr (u "USD")) in
  let exchangeRate := number_or (ra_usdExchangeRate a) (of_Z 7) in
  let customRate := number_or (ra_currencyConfig a)?."rate" (of_Z 1) in
  let symbol := js_or (ra_currencyConfig a)?."symbol" (JStr (u "$")) in
  let value :=
    if is_str displayType (u "CNY") then num_mul (rs_amount r) exchangeRate
    else if is_str displayType (u "CUSTOM") then num_mul (rs_amount r) customRate
    else rs_amount r in
  let '(symbol', pay, sv) :=
    if one_of CNY_PAYMENT_METHODS paymentMethod then (JStr (u "¥"), actualPay r, save)
    else if is_str paymentMethod (u "stripe") || is_str displayType (u "USD")
         then (JStr (u "$"), num_div (actualPay r) exchangeRate, num_div save exchangeRate)
    else if is_str displayType (u "CUSTOM")
         then (symbol, num_mul (num_div (actualPay r) exchangeRate) customRate,
               num_mul (num_div save exchangeRate) customRate)
    else (symbol, actualPay r, save) in
  {| displayValue := value; paymentSymbol := symbol'; displayActualPay := pay; displaySave := sv;
     rd_fee := fee; rd_discount := discount; hasDiscount := has; showSavings := has |}.

Definition calculateSubscriptionPayAmount (priceAmount unitPrice serviceFeePercent paymentMethod : jsv)
  : option num :=
  let price := to_number priceAmount in
  let priceRatio := to_number unitPrice in
  if negb (is_finite price) || num_lt price (Zero false)
     || negb (is_finite priceRatio) || num_le priceRatio (Zero false)
  then None
  else
    let effectiveAmount := ceil_cents (num_mul price priceRatio) in
    let feePercent :=
      if shouldApplyServiceFee paymentMethod then to_number serviceFeePercent else Zero false in
    if no_fee feePercent then Some effectiveAmount
    else Some (ceil_cents (num_mul effectiveAmount (fee_factor feePercent))).

Definition formatSubscriptionPayAmount
  (priceAmount symbol rate unitPrice serviceFeePercent paymentMethod : jsv) : jsstr :=
  match calculateSubscriptionPayAmount priceAmount unitPrice serviceFeePercent paymentMethod with
  | Some amount => u "¥" ++ to_fixed 2 amount
  | None =>
      let price := to_number priceAmount in
      let currencyRate := to_number rate in
      let convertedPrice :=
        num_mul (if is_finite price then price else Zero false)
          (if is_finite currencyRate then currencyRate else of_Z 1) in
      to_string (js_or symbol (JStr (u "$")))
        ++ to_fixed (if is_integer convertedPrice then 0 else 2) convertedPrice
  end.

(** ** Methods of payment *)

Definition type_is (s : jsstr) (m : jsv) : bool := is_str (m?."type") s.

(** [(payMethods || []).find((method) => method?.type === s)] *)
Definition find_method (s : jsstr) (payMethods : jsv) : jsv :=
  match List.find (type_is s) (arr_or_empty payMethods) with Some m => m | None => JUndef end.

Definition NOT_EPAY : list jsstr :=
  [u "stripe"; u "creem"; u "alipay_official"; u "wxpay_official"; ALIPAY_SELF_SERVE; WXPAY_SELF_SERVE].

Definition getEpayMethods (payMethods : jsv) : list jsv :=
  List.filter (fun m => truthy (m?."type") && negb (one_of NOT_EPAY (m?."type"))) (arr_or_empty payMethods).

Definition getOfficialAlipayMethod (payMethods : jsv) : jsv :=
  js_or (find_method (u "alipay_official") payMethods) JNull.
Definition getOfficialWechatPayMethod (payMethods : jsv) : jsv :=
  js_or (find_method (u "wxpay_official") payMethods) JNull.
Definition getSelfServeMethod (payMethods : jsv) (type : jsstr) : jsv :=
  js_or (find_method type payMethods) JNull.

Definition normalizeUnitPrice (unitPrice : jsv) : option num :=
  let value := to_number unitPrice in if positive_finite value then Some value else None.

Definition normalizeServiceFeePercent (percent : jsv) : num :=
  let value := to_number percent in if positive_finite value then value else Zero false.

(** The fields of a method; those the code leaves out are undefined. *)
Record pay_method := {
  pm_key : jsstr; pm_type : jsv; pm_provider : jsstr; pm_name : jsv; pm_unitPrice : option num;
  pm_service_fee_percent : num; pm_icon : jsv; pm_color : jsv; pm_qrCode : jsv; pm_raw : jsv
}.

Definition self_serve_candidate (payMethods selfServeQrCodes : jsv) (configured : option num)
  (type name color : jsstr) : option pay_method :=
  let method := getSelfServeMethod payMethods type in
  let unitPrice :=
    match configured with Some p => Some p | None => normalizeUnitPrice (method?."unit_price") end in
  let qrCode := js_or (oget selfServeQrCodes type) (JStr []) in
  if negb (truthy qrCode) then None
  else Some {| pm_key := u "self_serve:" ++ type; pm_type := JStr type; pm_provider := u "self_serve";
               pm_name := js_or (method?."name") (JStr name); pm_unitPrice := unitPrice;
               pm_service_fee_percent := Zero false; pm_icon := method?."icon";
               pm_color := js_or (method?."color") (JStr color); pm_qrCode := qrCode; pm_raw := method |}.

Definition opt_list {A : Type} (o : option A) : list A := match o with Some x => [x] | None => [] end.

Definition getSelfServeMethods (payMethods selfServeQrCodes selfServeUnitPrice : jsv) : list pay_method :=
  let configured := normalizeUnitPrice selfServeUnitPrice in
  opt_list (self_serve_candidate payMethods selfServeQrCodes configured ALIPAY_SELF_SERVE
              (u "支付宝自助") (u "rgba(var(--semi-blue-5), 1)"))
  ++ opt_list (self_serve_candidate payMethods selfServeQrCodes configured WXPAY_SELF_SERVE
                 (u "微信自助") (u "rgba(var(--semi-green-5), 1)")).

Definition method_fee (method : jsv) : num :=
  normalizeServiceFeePercent (js_nullish (method?."service_fee_percent") (method?."serviceFeePercent")).

(** The entry of a single gateway, whose key is its type and its provider. *)
Definition gateway_method (key defaultName : jsstr) (method : jsv) : pay_method :=
  {| pm_key := key; pm_type := JStr key; pm_provider := key;
     pm_name := js_or (method?."name") (JStr defaultName);
     pm_unitPrice := normalizeUnitPrice (method?."unit_price");
     pm_service_fee_percent := method_fee method; pm_icon := method?."icon";
     pm_color := method?."color"; pm_qrCode := JUndef; pm_raw := JUndef |}.

Definition epay_method (epayUnitPrice method : jsv) : pay_method :=
  {| pm_key := u "epay:" ++ to_string (method?."type"); pm_type := method?."type"; pm_provider := u "epay";
     pm_name := js_or (method?."name") (method?."type");
     pm_unitPrice := normalizeUnitPrice (js_nullish (method?."unit_price") epayUnitPrice);
     pm_service_fee_percent := method_fee method; pm_icon := method?."icon";
     pm_color := method?."color"; pm_qrCode := JUndef; pm_raw := method |}.

Record method_args := {
  ma_plan : jsv; payMethods : jsv; epayMethods : jsv; epayUnitPrice : jsv; selfServeQrCodes : jsv;
  selfServeUnitPrice : jsv; enableOnlineTopUp : bool; enableStripeTopUp : bool; enableCreemTopUp : bool;
  enableAlipayOfficialTopUp : bool; enableWechatPayOfficialTopUp : bool; enableSelfServeTopUp : bool;
  hasAlipayOfficial : bool; hasWechatPayOfficial : bool
}.

Definition buildSubscriptionPaymentMethods (a : method_args) : list pay_method :=
  (if enableStripeTopUp a && truthy (ma_plan a)?."stripe_price_id"
   then [gateway_method (u "stripe") (u "Stripe") (find_method (u "stripe") (payMethods a))] else [])
  ++ (if enableCreemTopUp a && truthy (ma_plan a)?."creem_product_id"
      then [gateway_method (u "creem") (u "Creem") (find_method (u "creem") (payMethods a))] else [])
  ++ (if enableAlipayOfficialTopUp a && hasAlipayOfficial a
      then [gateway_method (u "alipay_official") (u "支付宝") (getOfficialAlipayMethod (payMethods a))] else [])
  ++ (if enableWechatPayOfficialTopUp a && hasWechatPayOfficial a
      then [gateway_method (u "wxpay_official") (u "微信") (getOfficialWechatPayMethod (payMethods a))] else [])
  ++ (if enableOnlineTopUp a
      then epay_method (epayUnitPrice a)
             <$> List.filter (fun m => truthy (m?."type")) (arr_or_empty (epayMethods a)) else [])
  ++ (if enableSelfServeTopUp a
      then getSelfServeMethods (payMethods a) (selfServeQrCodes a) (selfServeUnitPrice a) else []).
