(* ===== verification/PaymentsThms.v ===== *)
(** * Payments: theorems

    Which orders can be completed or refunded, the arithmetic of prices in
    doubles (rounding up to cents is monotone, and stable on every price of at
    most four million cents), and the methods a plan can be paid with. *)

From Stdlib Require Import QArith Qround Qreduction Qabs Lqa.
From S2P Require Import Prelude JsString JsNumber JsNumText JsValue Payments.

#[local] Open Scope Q_scope.

(** ** Numbers by their value *)

Definition num_val (a : num) (q : Q) : Prop := exists p, val a = Some p /\ p == q.

Lemma num_val_ext a p q : p == q -> num_val a p -> num_val a q.
Proof. intros E (r & Hr & Er). exists r. split; [done | by rewrite Er]. Qed.

Lemma to_num_num_val z x : Qabs (rnd x) < max_bound -> num_val (to_num z x) (rnd x).
Proof. apply to_num_val. Qed.

(** A bound on the values the prices reach, far below overflow. *)
Definition small (x : Q) : Prop := Qabs x <= inject_Z (2 ^ 53).

Lemma rnd_small x : small x -> small (rnd x).
Proof.
  unfold small. intros H. apply Qabs_Qle_condition in H as [H1 H2]. apply Qabs_Qle_condition. split.
  - rewrite <- inject_Z_opp in *. apply rnd_ge; [by apply is_double_int | done].
  - apply rnd_le; [by apply is_double_int | done].
Qed.

Lemma small_bound x : small x -> Qabs x < max_bound.
Proof.
  intros H. apply (Qle_lt_trans _ _ _ H). unfold max_bound. rewrite p2_Z by lia. rewrite <- Zlt_Qlt.
  apply Z.pow_lt_mono_r; lia.
Qed.

Lemma to_num_small z x : small x -> num_val (to_num z x) (rnd x).
Proof. intros H. by apply to_num_num_val, small_bound, rnd_small. Qed.

Lemma num_val_inv a p : num_val a p -> (exists s, a = Zero s /\ p == 0) \/ (exists q, a = Fin q /\ q == p).
Proof.
  intros (q & Hq & E). destruct a as [|s|s|r]; simpl in Hq; try done; injection Hq as <-.
  - left. exists s. split; [done | by rewrite <- E].
  - right. by exists r.
Qed.

Lemma rnd_ext x y : x == y -> rnd x == rnd y.
Proof. intros H. by rewrite H. Qed.

Lemma num_val_mul a b p q : num_val a p -> num_val b q -> small (p * q) -> num_val (num_mul a b) (rnd (p * q)).
Proof.
  intros (r & Hr & Er) (s & Hs & Es) Hsm.
  rewrite num_mul_finite by (unfold is_finite; by rewrite ?Hr, ?Hs). unfold val0. rewrite Hr, Hs.
  assert (r * s == p * q) as E by (by rewrite Er, Es).
  apply (num_val_ext _ (rnd (r * s))); [by apply rnd_ext|]. apply to_num_small.
  unfold small in *. by rewrite E.
Qed.

Lemma num_val_neg a p : num_val a p -> num_val (num_neg a) (- p).
Proof.
  intros [(s & -> & E)|(q & -> & E)]%num_val_inv; simpl.
  - exists 0. split; [done | by rewrite E].
  - exists (- q). split; [done | by rewrite E].
Qed.

Lemma rnd_zero : rnd 0 == 0.
Proof. apply rnd_exact, is_double_0. Qed.

Lemma num_val_add a b p q : num_val a p -> num_val b q -> small (p + q) -> num_val (num_add a b) (rnd (p + q)).
Proof.
  intros Ha Hb Hsm. pose proof (num_val_inv a p Ha) as [(s & -> & Ep)|(r & -> & Er)];
    pose proof (num_val_inv b q Hb) as [(t & -> & Eq)|(r' & -> & Er')]; unfold num_add, val0; simpl val; cbv iota.
  - exists 0. split; [done|]. rewrite Ep, Eq. change (0 + 0) with 0. by rewrite rnd_zero.
  - apply (num_val_ext _ (rnd (0 + r'))); [by rewrite Ep, Er'|]. apply to_num_small. unfold small in *.
    by rewrite Er', <- Ep.
  - apply (num_val_ext _ (rnd (r + 0))); [by rewrite Eq, Er|]. apply to_num_small. unfold small in *.
    by rewrite Er, <- Eq.
  - apply (num_val_ext _ (rnd (r + r'))); [by rewrite Er', Er|]. apply to_num_small. unfold small in *.
    by rewrite Er, Er'.
Qed.

Lemma num_val_sub a b p q : num_val a p -> num_val b q -> small (p - q) -> num_val (num_sub a b) (rnd (p - q)).
Proof. intros Ha Hb Hs. apply num_val_add; [done | by apply num_val_neg | done]. Qed.

Lemma num_val_div a b p q :
  num_val a p -> num_val b q -> ~ q == 0 -> small (p / q) -> num_val (num_div a b) (rnd (p / q)).
Proof.
  intros Ha Hb Hq Hsm. pose proof (num_val_inv b q Hb) as [(t & -> & Eq)|(r' & -> & Er')]; [done|].
  pose proof (num_val_inv a p Ha) as [(s & -> & Ep)|(r & -> & Er)]; unfold num_div, val0; simpl val; cbv iota.
  - apply (num_val_ext _ (rnd (0 / r'))); [by rewrite Ep, Er'|]. apply to_num_small. unfold small in *.
    by rewrite Er', <- Ep.
  - apply (num_val_ext _ (rnd (r / r'))); [by rewrite Er', Er|]. apply to_num_small. unfold small in *.
    by rewrite Er, Er'.
Qed.

Lemma num_val_ceil a p : num_val a p -> (Z.abs (Qceiling p) <= 2 ^ 53)%Z -> num_val (num_ceil a) (inject_Z (Qceiling p)).
Proof.
  intros [(s & -> & E)|(q & -> & E)]%num_val_inv Hb; unfold num_ceil.
  - exists 0. split; [done|]. rewrite E. reflexivity.
  - assert (small (inject_Z (Qceiling q))) as Hs.
    { unfold small. rewrite E. change (inject_Z (Qceiling p)) with (inject_Z (Qceiling p)).
      apply Qabs_Qle_condition. rewrite <- inject_Z_opp, <- !Zle_Qle. lia. }
    apply (num_val_ext _ (rnd (inject_Z (Qceiling q)))); [|by apply to_num_small].
    rewrite E. apply rnd_exact. by apply is_double_int.
Qed.

Lemma num_val_of_Z n : (Z.abs n <= 2 ^ 53)%Z -> num_val (of_Z n) (inject_Z n).
Proof. intros H. exists (inject_Z n). by rewrite val_of_Z. Qed.

(** Comparisons by value. *)
Lemma num_compare_val a b p q : num_val a p -> num_val b q -> num_compare a b = Some (Qcompare p q).
Proof.
  intros (r & Hr & Er) (s & Hs & Es).
  assert (num_compare a b = Some (Qcompare (val0 a) (val0 b))) as ->.
  { destruct a, b; done. }
  unfold val0. rewrite Hr, Hs. by rewrite Er, Es.
Qed.

Lemma num_eq_val a b p q : num_val a p -> num_val b q -> num_eq a b = true <-> p == q.
Proof.
  intros Ha Hb. unfold num_eq. rewrite (num_compare_val a b p q) by done. rewrite Qeq_alt. by destruct (p ?= q).
Qed.

Lemma num_le_val a b p q : num_val a p -> num_val b q -> num_le a b = true <-> p <= q.
Proof.
  intros Ha Hb. unfold num_le. rewrite (num_compare_val a b p q) by done. rewrite Qle_alt.
  destruct (p ?= q); split; try done; by intros [].
Qed.

Lemma num_lt_val a b p q : num_val a p -> num_val b q -> num_lt a b = true <-> p < q.
Proof.
  intros Ha Hb. unfold num_lt. rewrite (num_compare_val a b p q) by done. rewrite Qlt_alt. by destruct (p ?= q).
Qed.

(** ** Rounding up to cents, by value *)

Definition eps : Q := rnd (1 # 1000000000).

Lemma eps_bounds : 99 # 100000000000 <= eps /\ eps <= 1 # 1000000.
Proof. split; apply Qle_bool_iff; vm_compute; reflexivity. Qed.

Lemma num_val_CENT_EPSILON : num_val CENT_EPSILON eps.
Proof.
  apply to_num_small. unfold small. apply Qle_bool_iff. vm_compute. reflexivity.
Qed.

(** The cents of an amount, and the amount of that many cents. *)
Definition cents (x : Q) : Z := Qceiling (rnd (rnd (x * 100) - eps)).
Definition cc (x : Q) : Q := rnd (inject_Z (cents x) / 100).

#[export] Instance cents_proper : Proper (Qeq ==> eq) cents.
Proof. intros x y E. unfold cents. apply Qceiling_comp. by rewrite E. Qed.

#[export] Instance cc_proper : Proper (Qeq ==> Qeq) cc.
Proof. intros x y E. unfold cc. by rewrite E. Qed.

Lemma cents_mono x y : x <= y -> (cents x <= cents y)%Z.
Proof.
  intros H. unfold cents. apply Qceiling_resp_le, rnd_mono.
  pose proof (rnd_mono (x * 100) (y * 100)). lra.
Qed.

Lemma cc_mono x y : x <= y -> cc x <= cc y.
Proof.
  intros H%cents_mono. unfold cc. apply rnd_mono. rewrite Zle_Qle in H.
  apply Qle_shift_div_l; [lra|]. field_simplify. lra.
Qed.

(** What is too large for the arithmetic to overflow. *)
Definition price_bound : Q := inject_Z (2 ^ 40).

Lemma double_int n : (Z.abs n <= 2 ^ 53)%Z -> is_double (inject_Z n).
Proof. apply is_double_int. Qed.

Lemma cents_range x : 0 <= x -> x <= price_bound -> (0 <= cents x <= 2 ^ 47)%Z.
Proof.
  intros H0 H1. unfold price_bound in H1. pose proof eps_bounds as [E1 E2].
  assert (0 <= rnd (x * 100)) as L1 by (apply rnd_ge; [apply is_double_0 | lra]).
  assert (rnd (x * 100) <= inject_Z (2 ^ 47)) as L2.
  { apply rnd_le; [by apply is_double_int|]. change (inject_Z (2 ^ 47)) with (128 * inject_Z (2 ^ 40)). lra. }
  assert (rnd (rnd (x * 100) - eps) <= inject_Z (2 ^ 47)) as L3 by (apply rnd_le; [by apply is_double_int | lra]).
  assert (- (1 # 2) <= rnd (rnd (x * 100) - eps)) as L4.
  { apply rnd_ge; [|lra]. exists (-1)%Z, (-1)%Z. split_and!; [lia | lia | reflexivity]. }
  unfold cents. split.
  - pose proof (Qle_ceiling (rnd (rnd (x * 100) - eps))) as Hc.
    assert (inject_Z (-1) < inject_Z (Qceiling (rnd (rnd (x * 100) - eps)))) as Hz.
    { change (inject_Z (-1)) with (-1 # 1). lra. }
    rewrite <- Zlt_Qlt in Hz. lia.
  - rewrite <- (Qceiling_Z (2 ^ 47)). by apply Qceiling_resp_le.
Qed.

Lemma small_intro x b : 0 <= x -> x <= inject_Z b -> (b <= 2 ^ 53)%Z -> small x.
Proof.
  intros H0 H1 Hb. unfold small. rewrite Qabs_pos by done. rewrite Zle_Qle in Hb. lra.
Qed.

Lemma num_val_ceil_cents a x :
  num_val a x -> 0 <= x -> x <= price_bound -> num_val (ceil_cents a) (cc x).
Proof.
  intros Ha H0 H1. pose proof (cents_range x H0 H1) as Hc. pose proof eps_bounds as [E1 E2]. unfold price_bound in H1.
  assert (small (x * 100)) as S1.
  { apply (small_intro _ (2 ^ 47)); [lra| |lia]. change (inject_Z (2 ^ 47)) with (128 * inject_Z (2 ^ 40)). lra. }
  pose proof (num_val_mul _ _ _ _ Ha (num_val_of_Z 100 ltac:(lia)) S1) as V1.
  assert (0 <= rnd (x * 100)) as L1 by (apply rnd_ge; [apply is_double_0 | lra]).
  assert (rnd (x * 100) <= inject_Z (2 ^ 47)) as L2.
  { apply rnd_le; [by apply is_double_int|]. change (inject_Z (2 ^ 47)) with (128 * inject_Z (2 ^ 40)). lra. }
  assert (small (rnd (x * 100) - eps)) as S2.
  { unfold small. apply Qabs_Qle_condition. change (inject_Z (2 ^ 53)) with (64 * inject_Z (2 ^ 47)).
    assert (1 <= inject_Z (2 ^ 47)) by (change 1 with (inject_Z 1); rewrite <- Zle_Qle; lia). split; lra. }
  pose proof (num_val_sub _ _ _ _ V1 num_val_CENT_EPSILON S2) as V2.
  change (inject_Z 100) with 100 in V2. pose proof (num_val_ceil _ _ V2 ltac:(fold (cents x); lia)) as V3. fold (cents x) in V3.
  unfold ceil_cents, cc. apply (num_val_div _ _ _ (inject_Z 100)); [done | by apply num_val_of_Z | done|].
  change (inject_Z 100) with 100. apply (small_intro _ (2 ^ 47)); [| |lia].
  - apply Qle_shift_div_l; [lra|]. rewrite Qmult_0_l. change 0 with (inject_Z 0). rewrite <- Zle_Qle. lia.
  - apply Qle_shift_div_r; [lra|]. destruct Hc as [Hc0 Hc]. rewrite Zle_Qle in Hc, Hc0. change (inject_Z 0) with 0 in Hc0. lra.
Qed.

Lemma num_val_or_zero a x : num_val a x -> num_val (or_zero_num a) x.
Proof.
  intros Ha. destruct (num_val_inv a x Ha) as [(s & -> & E)|(q & -> & E)].
  - exists 0. split; [done | by rewrite E].
  - done.
Qed.

Lemma num_val_ceilToCents a x :
  num_val a x -> 0 <= x -> x <= price_bound -> num_val (ceilToCents a) (cc x).
Proof. intros Ha. apply num_val_ceil_cents. by apply num_val_or_zero. Qed.

(** ** Stability *)

(** The relative error of a rounding, away from the subnormal numbers. *)
Lemma rnd_relative x : p2 (-1000) <= x -> Qabs (rnd x - x) <= x * p2 (-53).
Proof.
  intros Hx. pose proof (p2_pos (-1000)). assert (0 < x) as H0 by lra.
  pose proof (ilog2_spec x H0) as [Hl _]. unfold rnd.
  destruct (Qcompare_spec x 0) as [E|E|E]; [lra..|]. apply (Qle_trans _ _ _ (rnd_pos_error x H0)).
  assert (ulp_exp x = ilog2 x - 52)%Z as ->.
  { unfold ulp_exp. assert (-1001 < ilog2 x)%Z; [|lia].
    pose proof (ilog2_spec x H0) as [_ Hu]. assert (p2 (-1000) < p2 (ilog2 x + 1)) as Hp%p2_lt_inv by lra. lia. }
  replace (ilog2 x - 52)%Z with (ilog2 x + -53 + 1)%Z by lia. rewrite !p2_add, p2_1.
  pose proof (p2_pos (-53)). pose proof (p2_pos (ilog2 x)). nra.
Qed.

Lemma is_double_half n : (Z.abs n <= 2 ^ 53)%Z -> is_double (inject_Z n * (1 # 2)).
Proof. intros H. exists n, (-1)%Z. split_and!; [done | lia | reflexivity]. Qed.

(** Converting a number of cents to an amount and back gives it again, up to
    four million cents. *)
Lemma cents_stable n : (0 <= n <= 2 ^ 22)%Z -> cents (rnd (inject_Z n / 100)) = n.
Proof.
  intros Hn. pose proof eps_bounds as [E1 E2].
  destruct (Z.eq_dec n 0) as [->|Hne]; [vm_compute; reflexivity|].
  assert (1 <= inject_Z n) as N1 by (change 1 with (inject_Z 1); rewrite <- Zle_Qle; lia).
  assert (inject_Z n <= 4194304) as N2 by (change 4194304 with (inject_Z (2 ^ 22)); rewrite <- Zle_Qle; lia).
  assert (p2 (-1000) <= 1 # 100) as Hp by (apply Qle_bool_iff; vm_compute; reflexivity).
  assert (p2 (-53) <= 1 # 9007199254740992) as Hd by (apply Qle_bool_iff; vm_compute; reflexivity).
  pose proof (p2_pos (-53)) as Hd0. set (d := p2 (-53)) in *.
  assert (inject_Z n / 100 == inject_Z n * (1 # 100)) as Ediv by (field).
  set (c := rnd (inject_Z n / 100)).
  assert (Qabs (c - inject_Z n / 100) <= inject_Z n / 100 * d) as R1 by (apply rnd_relative; rewrite Ediv; lra).
  rewrite Ediv in R1. apply Qabs_Qle_condition in R1 as [R1 R1'].
  assert (Qabs (rnd (c * 100) - c * 100) <= c * 100 * d) as R2 by (apply rnd_relative; nra).
  apply Qabs_Qle_condition in R2 as [R2 R2']. set (y := rnd (c * 100)) in *.
  assert (- (1 # 1050000000) <= y - inject_Z n <= 1 # 1050000000) as [Y1 Y2] by (split; nra).
  assert (rnd (y - eps) <= inject_Z n) as Z1 by (apply rnd_le; [apply is_double_int; lia | lra]).
  assert (inject_Z (2 * n - 1) * (1 # 2) <= rnd (y - eps)) as Z2.
  { apply rnd_ge; [apply is_double_half; lia|].
    unfold Z.sub. rewrite inject_Z_plus, inject_Z_mult, inject_Z_opp. change (inject_Z 2) with 2. change (inject_Z 1) with 1. lra. }
  unfold cents. fold y. unfold Z.sub in Z2. rewrite inject_Z_plus, inject_Z_mult, inject_Z_opp in Z2.
  change (inject_Z 2) with 2 in Z2. change (inject_Z 1) with 1 in Z2.
  pose proof (Qle_ceiling (rnd (y - eps))) as C1. pose proof (Qceiling_lt (rnd (y - eps))) as C2.
  unfold Z.sub in C2. rewrite inject_Z_plus, inject_Z_opp in C2. change (inject_Z 1) with 1 in C2.
  apply Z.le_antisymm; apply inject_Z_lt_succ; lra.
Qed.

(** The largest price for which the stability is claimed. *)
Definition MAX_PRICE : Z := 41943.

Lemma cents_max x : 0 <= x -> x <= inject_Z MAX_PRICE -> (0 <= cents x <= 2 ^ 22)%Z.
Proof.
  intros H0 H1. split.
  - apply cents_range; [done|]. apply (Qle_trans _ _ _ H1). unfold price_bound, MAX_PRICE. rewrite <- Zle_Qle. lia.
  - transitivity 4194300%Z; [|lia]. pose proof eps_bounds as [E1 E2]. unfold cents.
    rewrite <- (Qceiling_Z 4194300). apply Qceiling_resp_le, rnd_le; [by apply is_double_int|].
    assert (rnd (x * 100) <= inject_Z 4194300); [|lra].
    apply rnd_le; [by apply is_double_int|]. unfold MAX_PRICE in H1.
    change (inject_Z 41943) with 41943 in H1. change (inject_Z 4194300) with 4194300. lra.
Qed.

Lemma cc_idem x : 0 <= x -> x <= inject_Z MAX_PRICE -> cc (cc x) == cc x.
Proof.
  intros H0 H1. change (rnd (inject_Z (cents (rnd (inject_Z (cents x) / 100))) / 100) == cc x).
  by rewrite (cents_stable _ (cents_max x H0 H1)).
Qed.

Lemma cc_range x : 0 <= x -> x <= inject_Z MAX_PRICE -> 0 <= cc x /\ cc x <= inject_Z MAX_PRICE.
Proof.
  intros H0 H1. pose proof (cents_max x H0 H1) as [C0 C1]. split.
  - apply rnd_ge; [apply is_double_0|]. apply Qle_shift_div_l; [lra|]. rewrite Qmult_0_l.
    change 0 with (inject_Z 0). by rewrite <- Zle_Qle.
  - apply (Qle_trans _ _ _ (cc_mono x (inject_Z MAX_PRICE) H1)). apply Qle_bool_iff. vm_compute. reflexivity.
Qed.

Lemma cc_double x : is_double (cc x).
Proof. apply rnd_double. Qed.

(** ** Service fees *)

(** A fee that is off, or at most a million percent. *)
Definition fee_ok (fee : num) : Prop := no_fee fee = true \/ num_le fee (of_Z 1000000) = true.

(** The factor of a fee, by its value. *)
Lemma fee_factor_val fee :
  no_fee fee = false -> num_le fee (of_Z 1000000) = true ->
  exists F, num_val (fee_factor fee) F /\ 1 <= F /\ F <= inject_Z (2 ^ 14).
Proof.
  unfold no_fee. intros [Hf Hp]%orb_false_iff Hle. apply negb_false_iff in Hf. unfold is_finite in Hf.
  destruct (val fee) as [f|] eqn:E; [|done]. assert (num_val fee f) as Vf by (by exists f).
  assert (num_val (Zero false) 0) as V0 by (by exists 0).
  assert (0 < f) as F0.
  { apply Qnot_le_lt. intros H. apply (num_le_val _ _ _ _ Vf V0) in H. congruence. }
  apply (num_le_val _ _ _ _ Vf (num_val_of_Z 1000000 ltac:(lia))) in Hle. change (inject_Z 1000000) with 1000000 in Hle.
  assert (f / 100 == f * (1 # 100)) as Ed by field.
  assert (num_val (num_div fee (of_Z 100)) (rnd (f / 100))) as V1.
  { apply (num_val_div _ _ _ (inject_Z 100)); [done | by apply num_val_of_Z | done|].
    apply (small_intro _ 10000); [..|lia]; change (inject_Z 100) with 100; rewrite Ed; [lra|].
    change (inject_Z 10000) with 10000. lra. }
  assert (0 <= rnd (f / 100)) as L0 by (apply rnd_ge; [apply is_double_0 | rewrite Ed; lra]).
  assert (rnd (f / 100) <= inject_Z 10000) as L1.
  { apply rnd_le; [by apply is_double_int|]. change (inject_Z 10000) with 10000. rewrite Ed. lra. }
  change (inject_Z 10000) with 10000 in L1.
  exists (rnd (inject_Z 1 + rnd (f / 100))). change (inject_Z 1) with 1. split_and!.
  - apply (num_val_add _ _ (inject_Z 1)); [by apply num_val_of_Z | done|]. change (inject_Z 1) with 1.
    apply (small_intro _ (2 ^ 14)); [lra| |lia]. change (inject_Z (2 ^ 14)) with 16384. lra.
  - apply rnd_ge; [by apply (is_double_int 1) | lra].
  - apply rnd_le; [by apply is_double_int|]. change (inject_Z (2 ^ 14)) with 16384. lra.
Qed.

(** What a fee makes of an amount, by its value: nothing, or a factor and
    another rounding. *)
Definition with_fee (F : option Q) (x : Q) : Q :=
  match F with None => cc x | Some F => cc (rnd (cc x * F)) end.

Lemma fee_product c F : 0 <= c -> c <= inject_Z MAX_PRICE -> 1 <= F -> F <= inject_Z (2 ^ 14) ->
  small (c * F) /\ 0 <= rnd (c * F) /\ rnd (c * F) <= price_bound.
Proof.
  intros C0 C1 F0 F1. unfold MAX_PRICE in C1. change (inject_Z 41943) with 41943 in C1.
  change (inject_Z (2 ^ 14)) with 16384 in F1.
  assert (0 <= c * F) as L0 by nra. assert (c * F <= inject_Z (2 ^ 40)) as L1.
  { change (inject_Z (2 ^ 40)) with 1099511627776. nra. }
  split_and!; [by apply (small_intro _ (2 ^ 40)) | |].
  - apply rnd_ge; [apply is_double_0 | done].
  - apply rnd_le; [by apply is_double_int | done].
Qed.

Lemma price_below x : x <= inject_Z MAX_PRICE -> x <= price_bound.
Proof. intros H. apply (Qle_trans _ _ _ H). unfold price_bound, MAX_PRICE. rewrite <- Zle_Qle. lia. Qed.

(** The factor that a fee stands for. *)
Definition fee_means (fee : num) (F : option Q) : Prop :=
  match F with
  | None => no_fee fee = true
  | Some F => no_fee fee = false /\ num_val (fee_factor fee) F /\ 1 <= F /\ F <= inject_Z (2 ^ 14)
  end.

Lemma fee_ok_means fee : fee_ok fee -> exists F, fee_means fee F.
Proof.
  intros H. destruct (no_fee fee) eqn:E; [by exists None|]. destruct H as [H|H]; [congruence|].
  destruct (fee_factor_val fee E H) as (F & HF). by exists (Some F).
Qed.

Lemma applyServiceFee_val a x fee F :
  num_val a x -> 0 <= x -> x <= inject_Z MAX_PRICE -> fee_means (to_number fee) F ->
  num_val (applyServiceFee a fee) (with_fee F x).
Proof.
  intros Ha H0 H1 HF. pose proof (num_val_ceilToCents a x Ha H0 (price_below x H1)) as V1.
  unfold applyServiceFee. destruct F as [F|]; simpl in HF; [|by rewrite HF].
  destruct HF as (-> & VF & F0 & F1). destruct (cc_range x H0 H1) as [C0 C1].
  destruct (fee_product (cc x) F C0 C1 F0 F1) as (S & L0 & L1).
  apply num_val_ceilToCents; [by apply num_val_mul | done | done].
Qed.

Lemma with_fee_mono F x y fee :
  fee_means fee F -> 0 <= x -> x <= y -> y <= inject_Z MAX_PRICE -> with_fee F x <= with_fee F y.
Proof.
  intros HF H0 Hxy H1. pose proof (cc_mono x y Hxy) as Hc. destruct F as [F|]; [|done].
  destruct HF as (_ & _ & F0 & _). apply cc_mono, rnd_mono. apply Qmult_le_compat_r; [done | lra].
Qed.

Lemma with_fee_ge F x fee :
  fee_means fee F -> 0 <= x -> x <= inject_Z MAX_PRICE -> cc x == x -> is_double x -> x <= with_fee F x.
Proof.
  intros HF H0 H1 E Hd. destruct F as [F|]; simpl; [|rewrite E; lra].
  destruct HF as (_ & _ & F0 & _). rewrite E. rewrite <- E at 1. apply cc_mono.
  apply rnd_ge; [done|]. nra.
Qed.

(** A number between zero and an integer, by its value. *)
Lemma bounded_val a n :
  (0 <= n <= 2 ^ 53)%Z -> num_le (Zero false) a = true -> num_le a (of_Z n) = true ->
  exists x, num_val a x /\ 0 <= x /\ x <= inject_Z n.
Proof.
  intros Hn H0 H1. assert (num_val (Zero false) 0) as V0 by (by exists 0).
  pose proof (num_val_of_Z n ltac:(lia)) as Vn. destruct (val a) as [x|] eqn:E.
  - assert (num_val a x) as Va by (by exists x). exists x. split; [done|].
    split; [by apply (num_le_val _ _ _ _ V0 Va) | by apply (num_le_val _ _ _ _ Va Vn)].
  - exfalso. destruct a as [|s|s|q]; try done. destruct s; [done|].
    rewrite of_Z_safe in H1 by lia. by destruct (n =? 0)%Z.
Qed.

Lemma positive_val a : positive_finite a = true -> exists x, num_val a x /\ 0 < x.
Proof.
  unfold positive_finite, is_finite. intros [Hf Hp]%andb_true_iff. destruct (val a) as [x|] eqn:E; [|done].
  exists x. split; [by exists x|]. apply (num_lt_val (Zero false) a 0 x); [by exists 0 | by exists x | done].
Qed.

Lemma wf_val_double a x : wf_num a -> num_val a x -> is_double x.
Proof.
  intros Hw [(s & -> & E)|(q & -> & E)]%num_val_inv.
  - apply (is_double_proper 0); [by symmetry | apply is_double_0].
  - destruct Hw as [Hw _]. by apply (is_double_proper q).
Qed.

Lemma num_mul_wf a b : wf_num (num_mul a b).
Proof. destruct a, b; try done; apply to_num_wf. Qed.

Lemma with_fee_cc F x : 0 <= x -> x <= inject_Z MAX_PRICE -> with_fee F (cc x) == with_fee F x.
Proof. intros H0 H1. pose proof (cc_idem x H0 H1) as E. destruct F; simpl; by rewrite E. Qed.

(** The fee that a payment method makes active. *)
Definition active_fee (a : recharge_args) : jsv :=
  if shouldApplyServiceFee (js_or (ra_selectedPaymentMethod a) (JStr []))
  then ra_serviceFeePercent a else JNum (Zero false).

Lemma sums_eqs a :
  let r := recharge_sums_of a in
  effectivePay r = ceilToCents (num_mul (originalPrice r) (recharge_discount r))
  /\ actualPay r = applyServiceFee (effectivePay r) (active_fee a)
  /\ originalPay r = applyServiceFee (originalPrice r) (active_fee a).
Proof.
  unfold recharge_sums_of, recharge_discount, active_fee.
  cbn [effectivePay actualPay originalPay originalPrice configuredDiscount]. cbv zeta.
  split; [reflexivity | split; reflexivity].
Qed.

Lemma active_fee_ok a : fee_ok (to_number (ra_serviceFeePercent a)) -> fee_ok (to_number (active_fee a)).
Proof. intros H. unfold active_fee. destruct (shouldApplyServiceFee _); [done | by left]. Qed.

Lemma discount_positive a : positive_finite (recharge_discount (recharge_sums_of a)) = true.
Proof.
  assert (positive_finite (of_Z 1) = true) as H1 by (vm_compute; reflexivity).
  unfold recharge_discount, recharge_sums_of. cbn [configuredDiscount].
  destruct (one_of _ _); [done|]. unfold getConfiguredDiscount.
  destruct (truthy _ && _ && _) eqn:E1; [by apply andb_true_iff in E1 as [_ ?]|].
  destruct (match oget _ _ with JUndef => false | _ => true end && _ && _) eqn:E2; [|done].
  by apply andb_true_iff in E2 as [_ ?].
Qed.

(** C36. The amounts of the recharge page are consistent: for prices up to 41943
    and fees up to a million percent, a discount of at most one never raises
    the payable amount and a fee never lowers it, so that the displayed saving
    and the displayed fee are the differences they are meant to be. *)
Theorem recharge_amounts_ordered a :
  let r := recharge_sums_of a in
  num_le (Zero false) (originalPrice r) = true -> num_le (originalPrice r) (of_Z MAX_PRICE) = true ->
  num_le (recharge_discount r) (of_Z 1) = true -> fee_ok (to_number (ra_serviceFeePercent a)) ->
  num_le (effectivePay r) (actualPay r) = true /\ num_le (actualPay r) (originalPay r) = true.
Proof.
  intros r H0 H1 Hd Hf. destruct (sums_eqs a) as (Ee & Ea & Eo). fold r in Ee, Ea, Eo. rewrite Ea, Eo.
  destruct (bounded_val _ MAX_PRICE ltac:(unfold MAX_PRICE; lia) H0 H1) as (o & Vo & O0 & O1).
  destruct (positive_val _ (discount_positive a)) as (d & Vd & D0). fold r in Vd.
  apply (num_le_val _ _ _ _ Vd (num_val_of_Z 1 ltac:(lia))) in Hd. change (inject_Z 1) with 1 in Hd.
  destruct (fee_ok_means _ (active_fee_ok a Hf)) as [F HF].
  assert (0 <= o * d) as P0 by (apply Qmult_le_0_compat; lra).
  assert (0 <= o * (1 - d)) as P2 by (apply Qmult_le_0_compat; lra).
  assert (o * d <= o) as P3 by lra. assert (o * d <= inject_Z MAX_PRICE) as P1 by (by apply (Qle_trans _ o)).
  assert (small (o * d)) as S by (apply (small_intro _ MAX_PRICE); [done..|unfold MAX_PRICE; lia]).
  assert (0 <= rnd (o * d)) as R0 by (apply rnd_ge; [apply is_double_0 | done]).
  assert (rnd (o * d) <= inject_Z MAX_PRICE) as R1 by (apply rnd_le; [by apply is_double_int | done]).
  pose proof (num_val_ceilToCents _ _ (num_val_mul _ _ _ _ Vo Vd S) R0 (price_below _ R1)) as Ve. rewrite <- Ee in Ve.
  destruct (cc_range _ R0 R1) as [C0 C1]. pose proof (cc_idem _ R0 R1) as Ci.
  pose proof (applyServiceFee_val _ _ _ _ Ve C0 C1 HF) as Va. pose proof (applyServiceFee_val _ _ _ _ Vo O0 O1 HF) as Vp.
  split.
  - apply (num_le_val _ _ _ _ Ve Va). by apply (with_fee_ge F _ _ HF C0 C1 Ci), cc_double.
  - apply (num_le_val _ _ _ _ Va Vp). rewrite with_fee_cc by done. apply (with_fee_mono _ _ _ _ HF R0); [|done].
    apply rnd_le; [|done]. apply (wf_val_double (originalPrice r)); [apply num_mul_wf | done].
Qed.

Definition sample_recharge : recharge_args :=
  {| ra_preset := JObj [(u "value", JNum (of_Z 100)); (u "discount", JNum (to_num false (95 # 100)))];
     ra_paymentAmountBase := JUndef; ra_priceRatio := JNum (to_num false (73 # 10));
     ra_discountConfig := JNull; ra_currencyConfig := JNull; ra_usdExchangeRate := JNum (of_Z 7);
     ra_selectedPaymentMethod := JStr (u "alipay_official"); ra_serviceFeePercent := JNum (of_Z 6) |}.

Lemma recharge_amounts_ordered_witness :
  let r := recharge_sums_of sample_recharge in
  num_le (effectivePay r) (actualPay r) = true /\ num_le (actualPay r) (originalPay r) = true.
Proof.
  apply (recharge_amounts_ordered sample_recharge); [vm_compute; reflexivity..|].
  right. vm_compute. reflexivity.
Defined.

(** ** The two pages charge alike *)

Lemma should_or_empty m : shouldApplyServiceFee (js_or m (JStr [])) = shouldApplyServiceFee m.
Proof.
  unfold js_or. destruct (truthy m) eqn:E; [done|].
  destruct m as [| |b|n|s| |]; try done. simpl in E. apply negb_false_iff, bool_decide_eq_true in E. by subst.
Qed.

(** The recharge page for a price and a ratio, without a discount. *)
Definition plain_recharge (price ratio : num) (fee method : jsv) : recharge_args :=
  {| ra_preset := JObj [(u "value", JNum price)]; ra_paymentAmountBase := JUndef;
     ra_priceRatio := JNum ratio; ra_discountConfig := JNull; ra_currencyConfig := JNull;
     ra_usdExchangeRate := JNull; ra_selectedPaymentMethod := method; ra_serviceFeePercent := fee |}.

Lemma plain_sums price ratio fee method :
  let r := recharge_sums_of (plain_recharge price ratio fee method) in
  originalPrice r = num_mul (or_zero_num price) (or_zero_num ratio) /\ recharge_discount r = of_Z 1.
Proof.
  unfold recharge_sums_of, recharge_discount, plain_recharge.
  cbn [originalPrice configuredDiscount ra_preset ra_paymentAmountBase ra_priceRatio ra_discountConfig
       ra_selectedPaymentMethod]. cbv zeta. split.
  - unfold number_or. change ((JObj [(u "value", JNum price)])?."value") with (JNum price). reflexivity.
  - destruct (one_of _ _); [reflexivity|]. unfold getConfiguredDiscount.
    change (has_own (JObj [(u "value", JNum price)]) (u "discount")) with false.
    rewrite andb_false_r. cbv zeta. cbn [andb].
    change ((JObj [(u "value", JNum price)])?."value") with (JNum price). cbv iota.
    change (has_own (js_or JNull (JObj [])) (to_string (JNum price))) with false. reflexivity.
Qed.

Lemma ceil_cents_fee a x fee F :
  num_val a (cc x) -> 0 <= x -> x <= inject_Z MAX_PRICE -> fee_means fee F ->
  num_val (if no_fee fee then a else ceil_cents (num_mul a (fee_factor fee))) (with_fee F x).
Proof.
  intros Ha H0 H1 HF. destruct F as [F|]; simpl in HF |- *; [|by rewrite HF].
  destruct HF as (-> & VF & F0 & F1). destruct (cc_range x H0 H1) as [C0 C1].
  destruct (fee_product (cc x) F C0 C1 F0 F1) as (S & L0 & L1).
  apply num_val_ceil_cents; [by apply num_val_mul | done | done].
Qed.

Lemma nonneg_of_le a : num_le (Zero false) a = true -> nonneg_num a.
Proof.
  destruct a as [|s|s|q]; simpl; try done; [by destruct s|].
  apply (num_le_val (Zero false) (Fin q) 0 q); [by exists 0 | by exists q].
Qed.

(** The product of a price and a ratio, with or without their signs of zero. *)
Lemma product_val price ratio n :
  (0 <= n <= 2 ^ 53)%Z -> is_finite price = true -> num_le (Zero false) price = true ->
  is_finite ratio = true -> num_lt (Zero false) ratio = true ->
  num_le (num_mul price ratio) (of_Z n) = true ->
  exists x, num_val (num_mul price ratio) x /\ num_val (num_mul (or_zero_num price) (or_zero_num ratio)) x
    /\ 0 <= x /\ x <= inject_Z n.
Proof.
  intros Hn Fp Hp Fr Hr Hb. assert (or_zero_num ratio = ratio) as Er by (by destruct ratio). rewrite Er.
  assert (num_le (Zero false) (num_mul price ratio) = true) as H0.
  { apply nonneg_le, nonneg_mul; [by apply nonneg_of_le| |done..]. apply nonneg_of_le. unfold num_lt, num_le in *.
    by destruct (num_compare (Zero false) ratio) as [[]|]. }
  destruct (bounded_val _ n Hn H0 Hb) as (x & Vx & X0 & X1). exists x. split_and!; [done| |done..].
  destruct price as [|s|s|p]; try done. destruct s; [|done].
  by destruct ratio.
Qed.



(** Above four million cents the extra rounding shows: the recharge page asks
    a cent more than the subscription page for a price of 262144.025. *)
Theorem large_price_drift :
  let price := to_num false (262144025 # 1000) in
  (to_fixed 2 <$> calculateSubscriptionPayAmount (JNum price) (JNum (of_Z 1)) JNull (JStr (u "alipay_official"))
     = Some (u "262144.03"))
  /\ to_fixed 2 (actualPay (recharge_sums_of
       (plain_recharge price (of_Z 1) JNull (JStr (u "alipay_official"))))) = u "262144.04".
Proof. vm_compute. split; reflexivity. Qed.

#[local] Open Scope Z_scope.

(** ** Orders *)

Section Orders.
Context `{UnicodeCase}.

Lemma status_distinct record s :
  is_str (record?."status") s = true -> statusAllowsRefund record = true ->
  s = u "success" \/ s = u "partial_refunded".
Proof.
  intros H1%is_str_iff H2. unfold statusAllowsRefund in H2. rewrite H1 in H2. simpl in H2.
  apply orb_true_iff in H2 as [H2|H2]; apply bool_decide_eq_true in H2; auto.
Qed.

Lemma money_refund_status record :
  isAdminMoneyRefundable record = true -> statusAllowsRefund record = true /\ hasMoneyLeft record = true.
Proof.
  unfold isAdminMoneyRefundable, isOfficialRefundable, isSelfServeRefundable, isBalanceSubscriptionRefundable.
  destruct (truthy record); [|done]. cbn [negb]. intros [[E|E]%orb_true_iff|E]%orb_true_iff; bool_simp; done.
Qed.

(** C35. Users and administrators see the same refunds of money: a refund of an order can be
    requested exactly when an administrator can refund its money
    ([isAdminMoneyRefundable]).  Such an order succeeded (perhaps refunded in part) and has
    money left.  An order that an administrator can still complete can neither have its money
    refunded nor be refunded as a managed order. *)
Theorem refunds_agree record :
  isRefundRequestable record = isAdminMoneyRefundable record
  /\ (isAdminMoneyRefundable record = true ->
      statusAllowsRefund record = true /\ num_gt (getRemainingRefundMoney record) (Zero false) = true)
  /\ (canAdminCompleteTopup record = true ->
      isAdminMoneyRefundable record = false /\ isAdminManagedTopupRefundable record = false).
Proof.
  split_and!.
  - unfold isRefundRequestable, isAdminMoneyRefundable, isOfficialRefundable, isSelfServeRefundable,
      isBalanceSubscriptionRefundable. destruct (truthy record); [|done]. cbn [negb].
    destruct (isOfficialPaymentTopup record), (statusAllowsRefund record), (hasMoneyLeft record);
      rewrite ?andb_false_r, ?andb_true_r, ?orb_true_r; done.
  - apply money_refund_status.
  - intros Hc. assert (statusAllowsRefund record = false) as Hs.
    { apply not_true_is_false. intros Hs. unfold canAdminCompleteTopup in Hc. destruct (truthy record); [|done].
      cbn [negb] in Hc. destruct (is_str (record?."status") (u "pending")) eqn:E.
      - by destruct (status_distinct _ _ E Hs).
      - apply andb_true_iff in Hc as [Hc _]. by destruct (status_distinct _ _ Hc Hs). }
    split.
    + apply not_true_is_false. intros Hm%money_refund_status. destruct Hm. congruence.
    + unfold isAdminManagedTopupRefundable. rewrite Hs, andb_false_r. by destruct (truthy record).
Qed.

End Orders.

(** ** Methods of payment *)

(** A unit price is missing or a positive number, a fee a number from zero on. *)
Record method_ok (m : pay_method) : Prop := {
  mo_price : forall p, pm_unitPrice m = Some p -> positive_finite p = true;
  mo_fee : is_finite (pm_service_fee_percent m) = true
           /\ num_le (Zero false) (pm_service_fee_percent m) = true;
  mo_type : truthy (pm_type m) = true;
  mo_name : truthy (pm_name m) = true
}.

Lemma normalize_price_ok v p : normalizeUnitPrice v = Some p -> positive_finite p = true.
Proof. unfold normalizeUnitPrice. destruct (positive_finite _) eqn:E; [|done]. by intros [= <-]. Qed.

Lemma normalize_fee_ok v :
  is_finite (normalizeServiceFeePercent v) = true /\ num_le (Zero false) (normalizeServiceFeePercent v) = true.
Proof.
  unfold normalizeServiceFeePercent. destruct (positive_finite _) eqn:E; [|done].
  unfold positive_finite, num_gt, num_lt, num_le in *. apply andb_true_iff in E as [E1 E2]. split; [done|].
  by destruct (num_compare _ _) as [[]|].
Qed.

Lemma truthy_text s : s <> [] -> truthy (JStr s) = true.
Proof. intros H. simpl. by rewrite bool_decide_false. Qed.

Lemma gateway_ok key name m : key <> [] -> name <> [] -> method_ok (gateway_method key name m).
Proof.
  intros Hk Hn. split; cbn [gateway_method pm_unitPrice pm_service_fee_percent pm_type pm_name].
  - intros p. apply normalize_price_ok.
  - apply normalize_fee_ok.
  - by apply truthy_text.
  - rewrite truthy_or. rewrite truthy_text by done. by rewrite orb_true_r.
Qed.

Lemma epay_ok price m : truthy (m?."type") = true -> method_ok (epay_method price m).
Proof.
  intros Ht. split; cbn [epay_method pm_unitPrice pm_service_fee_percent pm_type pm_name].
  - intros p. apply normalize_price_ok.
  - apply normalize_fee_ok.
  - done.
  - by rewrite truthy_or, Ht, orb_true_r.
Qed.

Lemma self_serve_ok pms qrs configured type name color m :
  (forall p, configured = Some p -> positive_finite p = true) -> type <> [] -> name <> [] ->
  self_serve_candidate pms qrs configured type name color = Some m -> method_ok m.
Proof.
  intros Hc Ht Hn. unfold self_serve_candidate. destruct (truthy (js_or _ _)); [|done]. cbn [negb]. intros [= <-].
  split; cbn [pm_unitPrice pm_service_fee_percent pm_type pm_name].
  - intros p. destruct configured as [q|]; [intros [= <-]; by apply Hc | apply normalize_price_ok].
  - done.
  - by apply truthy_text.
  - rewrite truthy_or. rewrite truthy_text by done. by rewrite orb_true_r.
Qed.

Lemma self_serves_ok pms qrs price : Forall method_ok (getSelfServeMethods pms qrs price).
Proof.
  unfold getSelfServeMethods. pose proof (normalize_price_ok price) as Hp. apply Forall_app. split.
  - destruct (self_serve_candidate _ _ _ ALIPAY_SELF_SERVE _ _) as [m|] eqn:E; [|constructor].
    constructor; [|constructor]. by apply (self_serve_ok _ _ _ _ _ _ _ Hp) in E.
  - destruct (self_serve_candidate _ _ _ WXPAY_SELF_SERVE _ _) as [m|] eqn:E; [|constructor].
    constructor; [|constructor]. by apply (self_serve_ok _ _ _ _ _ _ _ Hp) in E.
Qed.

(** When a provider may be offered. *)
Definition offered (a : method_args) (provider : jsstr) : bool :=
  if bool_decide (provider = u "stripe") then enableStripeTopUp a && truthy (ma_plan a)?."stripe_price_id"
  else if bool_decide (provider = u "creem") then enableCreemTopUp a && truthy (ma_plan a)?."creem_product_id"
  else if bool_decide (provider = u "alipay_official") then enableAlipayOfficialTopUp a && hasAlipayOfficial a
  else if bool_decide (provider = u "wxpay_official") then enableWechatPayOfficialTopUp a && hasWechatPayOfficial a
  else if bool_decide (provider = u "epay") then enableOnlineTopUp a
  else bool_decide (provider = u "self_serve") && enableSelfServeTopUp a.

(** A property of a list built under a condition. *)
Lemma Forall_if {A} (P : A -> Prop) (b : bool) l : (b = true -> Forall P l) -> Forall P (if b then l else []).
Proof. intros H. destruct b; [by apply H | constructor]. Qed.

Lemma Forall_one {A} (P : A -> Prop) x : P x -> Forall P [x].
Proof. intros H. by repeat constructor. Qed.

Lemma self_serve_provider pms qrs price :
  Forall (fun m => pm_provider m = u "self_serve" /\ truthy (pm_qrCode m) = true) (getSelfServeMethods pms qrs price).
Proof.
  assert (forall c t n col, Forall (fun m => pm_provider m = u "self_serve" /\ truthy (pm_qrCode m) = true)
    (opt_list (self_serve_candidate pms qrs c t n col))) as H.
  { intros c t n col. unfold self_serve_candidate. destruct (truthy (js_or _ _)) eqn:E; [|constructor].
    apply Forall_one. split; [reflexivity | exact E]. }
  unfold getSelfServeMethods. apply Forall_app. split; apply H.
Qed.

(** C37. What a plan can be paid with: every listed method has a type and a name,
    a unit price that is missing or positive and a finite fee from zero on; it
    belongs to a provider that is offered, with a QR code when it is
    self-serve; and each of the four gateways that is offered is listed. *)
Theorem payment_methods_typed a :
  let methods := buildSubscriptionPaymentMethods a in
  Forall method_ok methods
  /\ Forall (fun m => offered a (pm_provider m) = true
             /\ (pm_provider m = u "self_serve" -> truthy (pm_qrCode m) = true)) methods
  /\ (forall p, p ∈ u <$> ["stripe"; "creem"; "alipay_official"; "wxpay_official"]%string ->
      offered a p = true -> p ∈ pm_provider <$> methods).
Proof.
  split_and!.
  - unfold buildSubscriptionPaymentMethods. repeat (apply Forall_app; split); apply Forall_if; intros Hb;
      try (apply Forall_one, gateway_ok; done); [|apply self_serves_ok].
    apply Forall_fmap, Forall_forall. intros m [_ Hm]%elem_of_lfilter. by apply epay_ok.
  - unfold buildSubscriptionPaymentMethods. repeat (apply Forall_app; split); apply Forall_if; intros Hb;
      try (apply Forall_one; split; [exact Hb | done]).
    + apply Forall_fmap, Forall_forall. intros m _. split; [exact Hb | done].
    + eapply Forall_impl; [apply self_serve_provider|]. intros m [Hm Hq]. rewrite Hm. split; [exact Hb | done].
  - intros p Hp Ho. unfold buildSubscriptionPaymentMethods. rewrite !fmap_app, !elem_of_app.
    repeat (apply elem_of_cons in Hp as [->|Hp]); [..|by apply not_elem_of_nil in Hp].
    + change (enableStripeTopUp a && truthy (ma_plan a)?."stripe_price_id" = true) in Ho. rewrite Ho.
      left. by constructor.
    + change (enableCreemTopUp a && truthy (ma_plan a)?."creem_product_id" = true) in Ho. rewrite Ho.
      right; left. by constructor.
    + change (enableAlipayOfficialTopUp a && hasAlipayOfficial a = true) in Ho. rewrite Ho.
      right; right; left. by constructor.
    + change (enableWechatPayOfficialTopUp a && hasWechatPayOfficial a = true) in Ho. rewrite Ho.
      right; right; right; left. by constructor.
Qed.
