(* ===== verification/ParamOverride.v ===== *)
(** * Parameter overrides of a channel

    Model of web/classic/src/components/table/channels/modals/ParamOverrideEditorModal.jsx:
    the operations that rewrite a request, their validation, the JSON they are
    saved as, and the editor that shows them as cards or as text.

    The identifier of a card is the counter that [nextLocalId] puts in it; the
    time it also contains is left out, and the empty identifier is [None].  The
    counter is part of the state.  [t], the translation of a message, is an
    argument.  A text field holds a string and a switch a boolean, as the inputs
    and [normalizeOperation] make them. *)

From S2P Require Import Prelude JsString JsNumber JsNumText JsValue JsJson.

#[local] Open Scope Z_scope.

(** ** Modes *)

Definition OPERATION_MODE_OPTIONS : list (jsstr * jsstr) :=
  (fun kv => (u kv.1, u kv.2)) <$>
    [("设置字段", "set"); ("删除字段", "delete"); ("追加到末尾", "append"); ("追加到开头", "prepend");
     ("复制字段", "copy"); ("移动字段", "move"); ("字符串替换", "replace"); ("正则替换", "regex_replace");
     ("裁剪前缀", "trim_prefix"); ("裁剪后缀", "trim_suffix"); ("确保前缀", "ensure_prefix");
     ("确保后缀", "ensure_suffix"); ("去掉空白", "trim_space"); ("转小写", "to_lower");
     ("转大写", "to_upper"); ("返回自定义错误", "return_error"); ("清理对象项", "prune_objects");
     ("请求头透传", "pass_headers"); ("字段同步", "sync_fields"); ("设置请求头", "set_header");
     ("删除请求头", "delete_header"); ("复制请求头", "copy_header"); ("移动请求头", "move_header")]%string.

Definition OPERATION_MODE_VALUES : list jsstr := OPERATION_MODE_OPTIONS.*2.

Definition CONDITION_MODE_OPTIONS : list (jsstr * jsstr) :=
  (fun kv => (u kv.1, u kv.2)) <$>
    [("完全匹配", "full"); ("前缀匹配", "prefix"); ("后缀匹配", "suffix"); ("包含", "contains");
     ("大于", "gt"); ("大于等于", "gte"); ("小于", "lt"); ("小于等于", "lte")]%string.

Definition CONDITION_MODE_VALUES : list jsstr := CONDITION_MODE_OPTIONS.*2.

(** What a mode uses; a property that the source leaves out is false. *)
Record mode_meta := {
  m_path : bool; m_pathOptional : bool; m_value : bool; m_keepOrigin : bool; m_from : bool; m_to : bool;
  m_pathAlias : bool
}.

Definition uses (path pathOptional value keepOrigin from to pathAlias : bool) : mode_meta :=
  {| m_path := path; m_pathOptional := pathOptional; m_value := value; m_keepOrigin := keepOrigin;
     m_from := from; m_to := to; m_pathAlias := pathAlias |}.

Definition META_PATH : mode_meta := uses true false false false false false false.
Definition META_SET : mode_meta := uses true false true true false false false.
Definition META_TEXT : mode_meta := uses true false true false false false false.
Definition META_PAIR : mode_meta := uses false false false false true true false.
Definition META_REPLACE : mode_meta := uses true false false false true false false.
Definition META_HEADER_PAIR : mode_meta := uses false false false true true true true.

Definition MODE_META : list (jsstr * mode_meta) :=
  [(u "delete", META_PATH); (u "set", META_SET); (u "append", META_SET); (u "prepend", META_SET);
   (u "copy", META_PAIR); (u "move", META_PAIR); (u "replace", META_REPLACE);
   (u "regex_replace", META_REPLACE); (u "trim_prefix", META_TEXT); (u "trim_suffix", META_TEXT);
   (u "ensure_prefix", META_TEXT); (u "ensure_suffix", META_TEXT); (u "trim_space", META_PATH);
   (u "to_lower", META_PATH); (u "to_upper", META_PATH);
   (u "return_error", uses false false true false false false false);
   (u "prune_objects", uses false true true false false false false);
   (u "pass_headers", uses false false true true false false false); (u "sync_fields", META_PAIR);
   (u "set_header", META_SET); (u "delete_header", META_PATH); (u "copy_header", META_HEADER_PAIR);
   (u "move_header", META_HEADER_PAIR)].

Definition meta_of (mode : jsstr) : mode_meta :=
  match om_get mode MODE_META with Some m => m | None => META_SET end.

Definition has_mode (l : list jsstr) (mode : jsstr) : bool := bool_decide (mode ∈ l).

Definition VALUE_REQUIRED_MODES : list jsstr :=
  u <$> ["trim_prefix"; "trim_suffix"; "ensure_prefix"; "ensure_suffix"; "set_header"; "return_error";
         "prune_objects"; "pass_headers"]%string.
Definition FROM_REQUIRED_MODES : list jsstr :=
  u <$> ["copy"; "move"; "replace"; "regex_replace"; "copy_header"; "move_header"; "sync_fields"]%string.
Definition TO_REQUIRED_MODES : list jsstr :=
  u <$> ["copy"; "move"; "copy_header"; "move_header"; "sync_fields"]%string.

(** ** Texts and values *)

Definition ne (s : jsstr) : bool := negb (bool_decide (s = [])).

Definition toValueText (value : jsv) : jsstr :=
  match value with
  | JUndef => []
  | JStr s => s
  | _ => match stringify value with Some s => s | None => u "undefined" end
  end.

Definition parseLooseValue (valueText : jsstr) : jsv :=
  if bool_decide (trim valueText = []) then JStr []
  else match json_parse valueText with Some v => v | None => JStr valueText end.

Definition verifyJSON (s : jsstr) : bool := match json_parse s with Some _ => true | None => false end.

(** [v && typeof v === 'object' && !Array.isArray(v)] *)
Definition is_plain (v : jsv) : bool := match v with JObj _ => true | _ => false end.

(** [String(item ?? '').trim()], without the empty ones *)
Definition header_names (l : list jsv) : list jsstr :=
  List.filter ne ((fun item => trim (to_string (js_nullish item (JStr [])))) <$> l).

Definition parsePassHeaderNames (rawValue : jsv) : list jsstr :=
  match rawValue with
  | JArr l => header_names l
  | JObj _ =>
      match rawValue?."headers" with
      | JArr l => header_names l
      | _ =>
          match rawValue?."header" with
          | JUndef => []
          | h => header_names [h]
          end
      end
  | JStr s => List.filter ne (trim <$> split_char 44 s)
  | _ => []
  end.

(** ** Operations *)

Record pcondition := {
  pc_id : Z; pc_path : jsstr; pc_mode : jsstr; pc_value_text : jsstr; pc_invert : bool;
  pc_pass_missing_key : bool
}.

Record operation := {
  o_id : Z; o_description : jsstr; o_path : jsstr; o_mode : jsstr; o_value_text : jsstr;
  o_keep_origin : bool; o_from : jsstr; o_to : jsstr; o_logic : jsstr; o_conditions : list pcondition
}.

(** [typeof v === 'string' ? v : ''] *)
Definition str_field (v : jsv) : jsstr := match v with JStr s => s | _ => [] end.

(** Reading a property of null throws. *)
Definition no_null (v : jsv) : exc jsv := match v with JNull => Throw (u "TypeError") | _ => Ret v end.

Definition mode_field (modes : list jsstr) (default : string) (v : jsv) : jsstr :=
  match v with JStr s => if has_mode modes s then s else u default | _ => u default end.

Definition normalizeCondition (seed : Z) (condition : jsv) : exc (pcondition * Z) :=
  c ← no_null condition;
  Ret ({| pc_id := seed; pc_path := str_field (c?."path");
          pc_mode := mode_field CONDITION_MODE_VALUES "full" (c?."mode");
          pc_value_text := toValueText (c?."value"); pc_invert := is_true (c?."invert");
          pc_pass_missing_key := is_true (c?."pass_missing_key") |}, seed + 1).

(** [xs.map(f)] with a function that takes identifiers. *)
Fixpoint map_seeded {A B : Type} (f : Z -> A -> exc (B * Z)) (seed : Z) (l : list A) : exc (list B * Z) :=
  match l with
  | [] => Ret ([], seed)
  | x :: l' =>
      r ← f seed x;
      rs ← map_seeded f r.2 l';
      Ret (r.1 :: rs.1, rs.2)
  end.

Section Editor.
Context `{UnicodeCase}.
Context (t : jsstr -> Z -> jsstr).

Definition logic_field (v : jsv) : jsstr :=
  if bool_decide (toUpperCase (to_string (js_or v (JStr (u "OR")))) = u "AND") then u "AND" else u "OR".

Definition normalizeOperation (seed : Z) (raw : jsv) : exc (operation * Z) :=
  o ← no_null raw;
  cs ← match o?."conditions" with
       | JArr l => map_seeded normalizeCondition (seed + 1) l
       | _ => Ret ([], seed + 1)
       end;
  Ret ({| o_id := seed; o_description := str_field (o?."description"); o_path := str_field (o?."path");
          o_mode := mode_field OPERATION_MODE_VALUES "set" (o?."mode");
          o_value_text := toValueText (o?."value"); o_keep_origin := is_true (o?."keep_origin");
          o_from := str_field (o?."from"); o_to := str_field (o?."to");
          o_logic := logic_field (o?."logic"); o_conditions := cs.1 |}, cs.2).

Definition createDefaultCondition (seed : Z) : pcondition :=
  {| pc_id := seed; pc_path := []; pc_mode := u "full"; pc_value_text := []; pc_invert := false;
     pc_pass_missing_key := false |}.

Definition createDefaultOperation (seed : Z) : operation :=
  {| o_id := seed; o_description := []; o_path := []; o_mode := u "set"; o_value_text := [];
     o_keep_origin := false; o_from := []; o_to := []; o_logic := u "OR"; o_conditions := [] |}.

Definition find_index (id : Z) (l : list operation) : option nat :=
  match list_find (fun o => o_id o = id) l with Some (i, _) => Some i | None => None end.

Definition reorderOperations (ops : list operation) (sourceId targetId : option Z) (after : bool)
  : list operation :=
  match sourceId, targetId with
  | Some s, Some g =>
      if s =? g then ops
      else
        match list_find (fun o => o_id o = s) ops with
        | None => ops
        | Some (i, moved) =>
            let next := take i ops ++ drop (S i) ops in
            match find_index g next with
            | None => ops
            | Some j => let j' := if after then S j else j in take j' next ++ [moved] ++ drop j' next
            end
        end
  | _, _ => ops
  end.

Definition blank_condition (c : pcondition) : bool :=
  bool_decide (trim (pc_path c) = []) && bool_decide (trim (pc_value_text c) = [])
  && bool_decide (pc_mode c = u "full") && negb (pc_invert c) && negb (pc_pass_missing_key c).

Definition isOperationBlank (o : operation) : bool :=
  bool_decide (o_mode o = u "set") && bool_decide (trim (o_path o) = [])
  && bool_decide (trim (o_from o) = []) && bool_decide (trim (o_to o) = [])
  && bool_decide (trim (o_value_text o) = []) && negb (o_keep_origin o)
  && forallb blank_condition (o_conditions o).

(** ** Validation: the message of the first fault, or the empty text *)

(** [object.message] of a return_error value that is an object *)
Definition return_error_fault (raw : jsstr) : bool :=
  match json_parse raw with
  | Some v => is_plain v && bool_decide (trim (to_string (js_or (v?."message") (JStr []))) = [])
  | None => false
  end.

Definition nonempty_object (v : jsv) : bool := match v with JObj (_ :: _) => true | _ => false end.
Definition nonempty_array (v : jsv) : bool := match v with JArr (_ :: _) => true | _ => false end.

Definition prune_fault (raw : jsstr) : bool :=
  match json_parse raw with
  | Some v =>
      is_plain v
      && negb (match v?."type" with JUndef => false | ty => negb (bool_decide (trim (to_string ty) = [])) end
               || nonempty_object (v?."where") || nonempty_array (v?."conditions")
               || nonempty_object (v?."conditions"))
  | None => false
  end.

(** The message that a mode's own rules give, of those for [raw], the trimmed
    value: [None] when there is none. *)
Definition mode_fault (mode raw : jsstr) (line : Z) : option jsstr :=
  if bool_decide (mode = u "return_error") && bool_decide (raw = []) then Some (t (u "第 {{line}} 条操作缺少值") line)
  else if bool_decide (mode = u "return_error") && return_error_fault raw
       then Some (t (u "第 {{line}} 条 return_error 需要 message 字段") line)
  else if bool_decide (mode = u "prune_objects") && bool_decide (raw = [])
       then Some (t (u "第 {{line}} 条 prune_objects 缺少条件") line)
  else if bool_decide (mode = u "prune_objects") && prune_fault raw
       then Some (t (u "第 {{line}} 条 prune_objects 需要至少一个匹配条件") line)
  else if bool_decide (mode = u "pass_headers") && bool_decide (raw = [])
       then Some (t (u "第 {{line}} 条请求头透传缺少请求头名称") line)
  else if bool_decide (mode = u "pass_headers")
            && bool_decide (parsePassHeaderNames (parseLooseValue raw) = [])
       then Some (t (u "第 {{line}} 条请求头透传格式无效") line)
  else None.

Definition mode_or_set (m : jsstr) : jsstr := if ne m then m else u "set".

(** The message for one operation; [None] goes on to the next. *)
Definition operation_fault (line : Z) (op : operation) : option jsstr :=
  let mode := mode_or_set (o_mode op) in
  let meta := meta_of mode in
  let pathValue := trim (o_path op) in
  let fromValue := trim (o_from op) in
  let toValue := trim (o_to op) in
  let raw := trim (o_value_text op) in
  if m_path meta && negb (ne pathValue) then Some (t (u "第 {{line}} 条操作缺少目标路径") line)
  else if has_mode FROM_REQUIRED_MODES mode && negb (ne fromValue) && negb (m_pathAlias meta && ne pathValue)
       then Some (t (u "第 {{line}} 条操作缺少来源字段") line)
  else if has_mode TO_REQUIRED_MODES mode && negb (ne toValue) && negb (m_pathAlias meta && ne pathValue)
       then Some (t (u "第 {{line}} 条操作缺少目标字段") line)
  else if m_from meta && negb (ne fromValue) then Some (t (u "第 {{line}} 条操作缺少来源字段") line)
  else if m_to meta && negb (ne toValue) then Some (t (u "第 {{line}} 条操作缺少目标字段") line)
  else if has_mode VALUE_REQUIRED_MODES mode && negb (ne raw) then Some (t (u "第 {{line}} 条操作缺少值") line)
  else mode_fault mode raw line.

Fixpoint validate_from (line : Z) (ops : list operation) : jsstr :=
  match ops with
  | [] => []
  | op :: ops' =>
      match operation_fault line op with Some m => m | None => validate_from (line + 1) ops' end
  end.

Definition validateOperations (ops : list operation) : jsstr := validate_from 1 ops.

(** ** The saved JSON *)

Definition buildConditionPayload (c : pcondition) : option jsv :=
  let path := trim (pc_path c) in
  if negb (ne path) then None
  else Some (JObj ([(u "path", JStr path); (u "mode", JStr (if ne (pc_mode c) then pc_mode c else u "full"));
                    (u "value", parseLooseValue (pc_value_text c))]
                   ++ (if pc_invert c then [(u "invert", JBool true)] else [])
                   ++ (if pc_pass_missing_key c then [(u "pass_missing_key", JBool true)] else []))).

(** [payload.k = v] when [b] *)
Definition set_if (b : bool) (k : string) (v : jsv) (o : list (jsstr * jsv)) : list (jsstr * jsv) :=
  if b then obj_set (u k) v o else o.

Definition operation_payload (op : operation) : jsv :=
  let mode := mode_or_set (o_mode op) in
  let meta := meta_of mode in
  let descriptionValue := trim (o_description op) in
  let pathValue := trim (o_path op) in
  let fromValue := trim (o_from op) in
  let toValue := trim (o_to op) in
  let p0 := [(u "mode", JStr mode)] in
  let p1 := set_if (ne descriptionValue) "description" (JStr descriptionValue) p0 in
  let p2 := set_if (m_path meta) "path" (JStr pathValue) p1 in
  let p3 := set_if (m_pathOptional meta && ne pathValue) "path" (JStr pathValue) p2 in
  let p4 := set_if (m_value meta) "value" (parseLooseValue (o_value_text op)) p3 in
  let p5 := set_if (m_keepOrigin meta && o_keep_origin op) "keep_origin" (JBool true) p4 in
  let p6 := set_if (m_from meta) "from" (JStr fromValue) p5 in
  let p7 := set_if (negb (m_to meta) && ne toValue) "to" (JStr toValue) p6 in
  let p8 := set_if (m_to meta) "to" (JStr toValue) p7 in
  let p9 := set_if (m_pathAlias meta && negb (truthy (oget (JObj p8) (u "from"))) && ne pathValue) "from"
              (JStr pathValue) p8 in
  let p10 := set_if (m_pathAlias meta && negb (truthy (oget (JObj p9) (u "to"))) && ne pathValue) "to"
               (JStr pathValue) p9 in
  let conditions := omap buildConditionPayload (o_conditions op) in
  let p11 := set_if (nonempty_array (JArr conditions)) "conditions" (JArr conditions) p10 in
  JObj (set_if (nonempty_array (JArr conditions)) "logic"
          (JStr (if bool_decide (o_logic op = u "AND") then u "AND" else u "OR")) p11).

Definition text_of (v : jsv) : jsstr := match stringify2 0 v with Some s => s | None => u "undefined" end.

Definition buildOperationsJson (ops : list operation) (validate : bool) : exc jsstr :=
  let filteredOps := List.filter (fun o => negb (isOperationBlank o)) ops in
  match filteredOps with
  | [] => Ret []
  | _ =>
      let message := if validate then validateOperations filteredOps else [] in
      if ne message then Throw message
      else Ret (text_of (JObj [(u "operations", JArr (operation_payload <$> filteredOps))]))
  end.

(** ** The state of the editor *)

Inductive edit_mode := EditVisual | EditJson.
Inductive visual_mode := VOperations | VLegacy.

Record po_editor := {
  editMode : edit_mode; visualMode : visual_mode; legacyValue : jsstr; operations : list operation;
  jsonText : jsstr; jsonError : jsstr; selectedOperationId : option Z;
  expandedConditionMap : list (Z * list Z); localIdSeed : Z
}.

(** What the parse of a stored value sets: the editor of the first five fields
    and the identifiers taken. *)
Definition first_id (ops : list operation) : option Z := match ops with [] => None | o :: _ => Some (o_id o) end.

Definition fresh_editor (em : edit_mode) (vm : visual_mode) (legacy : jsstr) (ops : list operation)
  (text error : jsstr) (seed : Z) : po_editor :=
  {| editMode := em; visualMode := vm; legacyValue := legacy; operations := ops; jsonText := text;
     jsonError := error; selectedOperationId := first_id ops; expandedConditionMap := [];
     localIdSeed := seed |}.

(** The operations of a parsed value, or one default operation. *)
Definition load_operations (seed : Z) (l : list jsv) : exc (list operation * Z) :=
  match l with
  | [] => Ret ([createDefaultOperation seed], seed + 1)
  | _ => map_seeded normalizeOperation seed l
  end.

Definition parseInitialState (seed : Z) (rawValue : jsv) : exc po_editor :=
  let text := str_field rawValue in
  let trimmed := trim text in
  let default := [createDefaultOperation seed] in
  if bool_decide (trimmed = []) then Ret (fresh_editor EditVisual VOperations [] default [] [] (seed + 1))
  else
    match json_parse trimmed with
    | None => Ret (fresh_editor EditJson VOperations [] default text (u "JSON 格式不正确") (seed + 1))
    | Some parsed =>
        let pretty := text_of parsed in
        match parsed, parsed?."operations" with
        | JObj _, JArr l =>
            r ← load_operations seed l;
            Ret (fresh_editor EditVisual VOperations [] r.1 pretty [] r.2)
        | JObj _, _ => Ret (fresh_editor EditVisual VLegacy pretty default pretty [] (seed + 1))
        | _, _ => Ret (fresh_editor EditJson VOperations [] default pretty [] (seed + 1))
        end
    end.

Definition buildVisualJson (e : po_editor) : exc jsstr :=
  match visualMode e with
  | VLegacy =>
      let trimmed := trim (legacyValue e) in
      if bool_decide (trimmed = []) then Ret []
      else match json_parse trimmed with
           | None => Throw (t (u "参数覆盖必须是合法的 JSON 格式！") 0)
           | Some parsed =>
               if is_plain parsed then Ret (text_of parsed) else Throw (t (u "旧格式必须是 JSON 对象") 0)
           end
  | VOperations => buildOperationsJson (operations e) true
  end.

(** What [handleSave] hands to [onSave], or the error it shows. *)
Definition handleSave (e : po_editor) : exc jsstr :=
  match editMode e with
  | EditJson =>
      let trimmed := trim (jsonText e) in
      if bool_decide (trimmed = []) then Ret []
      else match json_parse trimmed with
           | None => Throw (t (u "参数覆盖必须是合法的 JSON 格式！") 0)
           | Some v => Ret (text_of v)
           end
  | EditVisual => buildVisualJson e
  end.

(** ** Handlers of the cards *)

Definition set_ops (ops : list operation) (e : po_editor) : po_editor :=
  {| editMode := editMode e; visualMode := visualMode e; legacyValue := legacyValue e; operations := ops;
     jsonText := jsonText e; jsonError := jsonError e; selectedOperationId := selectedOperationId e;
     expandedConditionMap := expandedConditionMap e; localIdSeed := localIdSeed e |}.
Definition set_selected_op (id : option Z) (e : po_editor) : po_editor :=
  {| editMode := editMode e; visualMode := visualMode e; legacyValue := legacyValue e;
     operations := operations e; jsonText := jsonText e; jsonError := jsonError e; selectedOperationId := id;
     expandedConditionMap := expandedConditionMap e; localIdSeed := localIdSeed e |}.
Definition set_expanded (m : list (Z * list Z)) (e : po_editor) : po_editor :=
  {| editMode := editMode e; visualMode := visualMode e; legacyValue := legacyValue e;
     operations := operations e; jsonText := jsonText e; jsonError := jsonError e;
     selectedOperationId := selectedOperationId e; expandedConditionMap := m; localIdSeed := localIdSeed e |}.
Definition set_seed (seed : Z) (e : po_editor) : po_editor :=
  {| editMode := editMode e; visualMode := visualMode e; legacyValue := legacyValue e;
     operations := operations e; jsonText := jsonText e; jsonError := jsonError e;
     selectedOperationId := selectedOperationId e; expandedConditionMap := expandedConditionMap e;
     localIdSeed := seed |}.
Definition set_json (text error : jsstr) (e : po_editor) : po_editor :=
  {| editMode := editMode e; visualMode := visualMode e; legacyValue := legacyValue e;
     operations := operations e; jsonText := text; jsonError := error;
     selectedOperationId := selectedOperationId e; expandedConditionMap := expandedConditionMap e;
     localIdSeed := localIdSeed e |}.
Definition set_edit_mode (m : edit_mode) (e : po_editor) : po_editor :=
  {| editMode := m; visualMode := visualMode e; legacyValue := legacyValue e;
     operations := operations e; jsonText := jsonText e; jsonError := jsonError e;
     selectedOperationId := selectedOperationId e; expandedConditionMap := expandedConditionMap e;
     localIdSeed := localIdSeed e |}.

(** The effect that keeps the selection on an operation. *)
Definition has_op (id : option Z) (ops : list operation) : bool :=
  match id with Some i => existsb (fun o => o_id o =? i) ops | None => false end.

Definition fix_selected (e : po_editor) : po_editor :=
  match operations e with
  | [] => set_selected_op None e
  | o :: _ => if has_op (selectedOperationId e) (operations e) then e else set_selected_op (Some (o_id o)) e
  end.

(** [{ ...operation, ...patch }] keeps the identifier. *)
Definition on_op (id : Z) (f : operation -> operation) (ops : list operation) : list operation :=
  (fun o => if o_id o =? id then f o else o) <$> ops.

Inductive op_patch :=
  | SetDescription (s : jsstr) | SetPath (s : jsstr) | SetMode (s : jsstr) | SetValueText (s : jsstr)
  | SetKeepOrigin (b : bool) | SetFrom (s : jsstr) | SetTo (s : jsstr) | SetLogic (s : jsstr).

Definition patch_op (p : op_patch) (o : operation) : operation :=
  {| o_id := o_id o;
     o_description := match p with SetDescription s => s | _ => o_description o end;
     o_path := match p with SetPath s => s | _ => o_path o end;
     o_mode := match p with SetMode s => s | _ => o_mode o end;
     o_value_text := match p with SetValueText s => s | _ => o_value_text o end;
     o_keep_origin := match p with SetKeepOrigin b => b | _ => o_keep_origin o end;
     o_from := match p with SetFrom s => s | _ => o_from o end;
     o_to := match p with SetTo s => s | _ => o_to o end;
     o_logic := match p with SetLogic s => s | _ => o_logic o end;
     o_conditions := o_conditions o |}.

Definition with_pconditions (f : list pcondition -> list pcondition) (o : operation) : operation :=
  {| o_id := o_id o; o_description := o_description o; o_path := o_path o; o_mode := o_mode o;
     o_value_text := o_value_text o; o_keep_origin := o_keep_origin o; o_from := o_from o; o_to := o_to o;
     o_logic := o_logic o; o_conditions := f (o_conditions o) |}.

Definition updateOperation (id : Z) (p : op_patch) (e : po_editor) : po_editor :=
  set_ops (on_op id (patch_op p) (operations e)) e.

Definition addOperation (e : po_editor) : po_editor :=
  let created := createDefaultOperation (localIdSeed e) in
  set_seed (localIdSeed e + 1) (set_selected_op (Some (o_id created)) (set_ops (operations e ++ [created]) e)).

Definition moveOperation (sourceId targetId : option Z) (after : bool) (e : po_editor) : po_editor :=
  match sourceId, targetId with
  | Some s, Some g =>
      if s =? g then e
      else set_selected_op (Some s) (set_ops (reorderOperations (operations e) sourceId targetId after) e)
  | _, _ => e
  end.

(** What [normalizeOperation] is given for the copy of an operation. *)
Definition condition_source (c : pcondition) : jsv :=
  JObj [(u "path", JStr (pc_path c)); (u "mode", JStr (pc_mode c));
        (u "value", parseLooseValue (pc_value_text c)); (u "invert", JBool (pc_invert c));
        (u "pass_missing_key", JBool (pc_pass_missing_key c))].

Definition operation_source (o : operation) : jsv :=
  JObj [(u "description", JStr (o_description o)); (u "path", JStr (o_path o)); (u "mode", JStr (o_mode o));
        (u "value", parseLooseValue (o_value_text o)); (u "keep_origin", JBool (o_keep_origin o));
        (u "from", JStr (o_from o)); (u "to", JStr (o_to o)); (u "logic", JStr (o_logic o));
        (u "conditions", JArr (condition_source <$> o_conditions o))].

(** The selection follows the copy only when the updater of the operations has
    run by the time the handler looks at the identifier it recorded; [ran] says
    whether it has. *)
Definition duplicateOperation (ran : bool) (id : Z) (e : po_editor) : exc po_editor :=
  match list_find (fun o => o_id o = id) (operations e) with
  | None => Ret e
  | Some (i, source) =>
      r ← normalizeOperation (localIdSeed e) (operation_source source);
      let e' := set_seed r.2 (set_ops (take (S i) (operations e) ++ [r.1] ++ drop (S i) (operations e)) e) in
      Ret (if ran then set_selected_op (Some (o_id r.1)) e' else e')
  end.

Definition removeOperation (id : Z) (e : po_editor) : po_editor :=
  let expanded := om_del id (expandedConditionMap e) in
  if (length (operations e) <=? 1)%nat
  then set_expanded expanded (set_seed (localIdSeed e + 1) (set_ops [createDefaultOperation (localIdSeed e)] e))
  else set_expanded expanded (set_ops (List.filter (fun o => negb (o_id o =? id)) (operations e)) e).

Definition expanded_of (id : Z) (e : po_editor) : list Z :=
  match om_get id (expandedConditionMap e) with Some l => l | None => [] end.

Definition addCondition (id : Z) (e : po_editor) : po_editor :=
  let created := createDefaultCondition (localIdSeed e) in
  set_seed (localIdSeed e + 1)
    (set_expanded (om_set id (expanded_of id e ++ [pc_id created]) (expandedConditionMap e))
       (set_ops (on_op id (with_pconditions (fun cs => cs ++ [created])) (operations e)) e)).

Inductive cond_patch :=
  | CSetPath (s : jsstr) | CSetMode (s : jsstr) | CSetValueText (s : jsstr) | CSetInvert (b : bool)
  | CSetPassMissing (b : bool).

Definition patch_cond (p : cond_patch) (c : pcondition) : pcondition :=
  {| pc_id := pc_id c;
     pc_path := match p with CSetPath s => s | _ => pc_path c end;
     pc_mode := match p with CSetMode s => s | _ => pc_mode c end;
     pc_value_text := match p with CSetValueText s => s | _ => pc_value_text c end;
     pc_invert := match p with CSetInvert b => b | _ => pc_invert c end;
     pc_pass_missing_key := match p with CSetPassMissing b => b | _ => pc_pass_missing_key c end |}.

Definition updateCondition (id cid : Z) (p : cond_patch) (e : po_editor) : po_editor :=
  set_ops (on_op id (with_pconditions (fmap (fun c => if pc_id c =? cid then patch_cond p c else c)))
             (operations e)) e.

Definition removeCondition (id cid : Z) (e : po_editor) : po_editor :=
  set_expanded (om_set id (List.filter (fun i => negb (i =? cid)) (expanded_of id e)) (expandedConditionMap e))
    (set_ops (on_op id (with_pconditions (List.filter (fun c => negb (pc_id c =? cid)))) (operations e)) e).

(** ** Handlers of the editor *)

Definition switchToJsonMode (e : po_editor) : po_editor :=
  match editMode e with
  | EditJson => e
  | EditVisual =>
      set_edit_mode EditJson
        (match buildVisualJson e with
         | Ret text => set_json text [] e
         | Throw message =>
             set_json
               (match visualMode e with
                | VLegacy => legacyValue e
                | VOperations => match buildOperationsJson (operations e) false with Ret s => s | Throw _ => [] end
                end)
               (if ne message then message else t (u "参数配置有误") 0) e
         end)
  end.

Definition switchToVisualMode (e : po_editor) : exc po_editor :=
  match editMode e with
  | EditVisual => Ret e
  | EditJson =>
      let seed := localIdSeed e in
      let trimmed := trim (jsonText e) in
      let enter vm legacy ops seed' :=
        {| editMode := EditVisual; visualMode := vm; legacyValue := legacy; operations := ops;
           jsonText := jsonText e; jsonError := []; selectedOperationId := first_id ops;
           expandedConditionMap := expandedConditionMap e; localIdSeed := seed' |} in
      if bool_decide (trimmed = []) then Ret (enter VOperations [] [createDefaultOperation seed] (seed + 1))
      else
        match json_parse trimmed with
        | None => Ret e
        | Some parsed =>
            match parsed, parsed?."operations" with
            | JObj _, JArr l => r ← load_operations seed l; Ret (enter VOperations [] r.1 r.2)
            | JObj _, _ => Ret (enter VLegacy (text_of parsed) [createDefaultOperation seed] (seed + 1))
            | _, _ => Ret e
            end
        end
  end.

Definition fillLegacyTemplate (payload : jsv) (e : po_editor) : po_editor :=
  let text := text_of payload in
  fresh_editor EditVisual VLegacy text [createDefaultOperation (localIdSeed e)] text [] (localIdSeed e + 1).

(** The array of a template is never missing. *)
Definition fillOperationsTemplate (payload : list jsv) (e : po_editor) : exc po_editor :=
  r ← load_operations (localIdSeed e) payload;
  Ret {| editMode := EditVisual; visualMode := VOperations; legacyValue := legacyValue e; operations := r.1;
         jsonText := text_of (JObj [(u "operations", JArr payload)]); jsonError := [];
         selectedOperationId := first_id r.1; expandedConditionMap := []; localIdSeed := r.2 |}.

Definition appendOperationsTemplate (payload : list jsv) (e : po_editor) : exc po_editor :=
  r ← map_seeded normalizeOperation (localIdSeed e) payload;
  let existing := match visualMode e with
                  | VOperations => List.filter (fun o => negb (isOperationBlank o)) (operations e)
                  | VLegacy => []
                  end in
  let next := existing ++ r.1 in
  Ret (fresh_editor EditVisual VOperations [] next [] [] r.2).

Definition appendLegacyTemplate (payload : list (jsstr * jsv)) (e : po_editor) : po_editor :=
  let trimmed := trim (legacyValue e) in
  let current :=
    match visualMode e with
    | VLegacy => if bool_decide (trimmed = []) then Some (JObj []) else json_parse trimmed
    | VOperations => Some (JObj [])
    end in
  match current with
  | Some (JObj o) => fillLegacyTemplate (JObj (obj_merge payload o)) e
  | _ => e
  end.

Definition clearValue (e : po_editor) : po_editor :=
  let ops := [createDefaultOperation (localIdSeed e)] in
  {| editMode := editMode e; visualMode := VOperations; legacyValue := []; operations := ops; jsonText := [];
     jsonError := []; selectedOperationId := first_id ops; expandedConditionMap := [];
     localIdSeed := localIdSeed e + 1 |}.

Definition resetEditorState (e : po_editor) : po_editor := set_edit_mode EditVisual (clearValue e).

Definition handleJsonChange (nextValue : jsstr) (e : po_editor) : po_editor :=
  let trimmed := trim nextValue in
  set_json nextValue
    (if bool_decide (trimmed = []) then [] else if verifyJSON trimmed then [] else t (u "JSON格式错误") 0) e.

Definition formatJson (e : po_editor) : po_editor :=
  let trimmed := trim (jsonText e) in
  if bool_decide (trimmed = []) then e
  else match json_parse trimmed with
       | None => e
       | Some v => set_json (text_of v) [] e
       end.

End Editor.

(** ** Templates *)

Definition LEGACY_TEMPLATE : list (jsstr * jsv) :=
  [(u "temperature", JNum (Zero false)); (u "max_tokens", JNum (of_Z 1000))].

Definition template_condition (path mode value : string) : jsv :=
  JObj [(u "path", JStr (u path)); (u "mode", JStr (u mode)); (u "value", JStr (u value))].

Definition OPERATION_TEMPLATE : list jsv :=
  [JObj [(u "description", JStr (u "Set default temperature for openai/* models."));
         (u "path", JStr (u "temperature")); (u "mode", JStr (u "set"));
         (u "value", JNum (string_to_num (u "0.7")));
         (u "conditions", JArr [template_condition "model" "prefix" "openai/"]); (u "logic", JStr (u "AND"))]].

Definition HEADER_PASSTHROUGH_TEMPLATE : list jsv :=
  [JObj [(u "description", JStr (u "Pass through X-Request-Id header to upstream."));
         (u "mode", JStr (u "pass_headers")); (u "value", JArr [JStr (u "X-Request-Id")]);
         (u "keep_origin", JBool true)]].

Definition GEMINI_IMAGE_4K_TEMPLATE : list jsv :=
  [JObj [(u "description", JStr (u "Set imageSize to 4K when model contains gemini/image and ends with 4k."));
         (u "mode", JStr (u "set")); (u "path", JStr (u "generationConfig.imageConfig.imageSize"));
         (u "value", JStr (u "4K"));
         (u "conditions", JArr [template_condition "original_model" "contains" "gemini";
                                template_condition "original_model" "contains" "image";
                                template_condition "original_model" "suffix" "4k"]);
         (u "logic", JStr (u "AND"))]].

Definition beta (kv : string * option string) : jsstr * jsv :=
  (u kv.1, match kv.2 with Some s => JStr (u s) | None => JNull end).

Definition AWS_BEDROCK_ANTHROPIC_COMPAT_TEMPLATE : list jsv :=
  [JObj [(u "description", JStr (u "Normalize anthropic-beta header tokens for Bedrock compatibility."));
         (u "mode", JStr (u "set_header")); (u "path", JStr (u "anthropic-beta"));
         (u "value", JObj (beta <$>
           [("advanced-tool-use-2025-11-20", Some "tool-search-tool-2025-10-19"); ("bash_20241022", None);
            ("bash_20250124", None); ("code-execution-2025-08-25", None);
            ("compact-2026-01-12", Some "compact-2026-01-12");
            ("computer-use-2025-01-24", Some "computer-use-2025-01-24");
            ("computer-use-2025-11-24", Some "computer-use-2025-11-24");
            ("context-1m-2025-08-07", Some "context-1m-2025-08-07");
            ("context-management-2025-06-27", Some "context-management-2025-06-27");
            ("effort-2025-11-24", None); ("fast-mode-2026-02-01", None); ("files-api-2025-04-14", None);
            ("fine-grained-tool-streaming-2025-05-14", None);
            ("interleaved-thinking-2025-05-14", Some "interleaved-thinking-2025-05-14");
            ("mcp-client-2025-11-20", None); ("mcp-client-2025-04-04", None); ("mcp-servers-2025-12-04", None);
            ("output-128k-2025-02-19", None); ("structured-output-2024-03-01", None);
            ("prompt-caching-scope-2026-01-05", None); ("skills-2025-10-02", None);
            ("structured-outputs-2025-11-13", None); ("text_editor_20241022", None);
            ("text_editor_20250124", None); ("token-efficient-tools-2025-02-19", None);
            ("tool-search-tool-2025-10-19", Some "tool-search-tool-2025-10-19");
            ("web-fetch-2025-09-10", None); ("web-search-2025-03-05", None); ("oauth-2025-04-20", None)]%string))];
   JObj [(u "description", JStr (u "Remove all tools[*].custom.input_examples before upstream relay."));
         (u "mode", JStr (u "delete")); (u "path", JStr (u "tools.*.custom.input_examples"))]].

Definition buildPassHeadersTemplate (headers : list string) : list jsv :=
  [JObj [(u "mode", JStr (u "pass_headers")); (u "value", JArr (JStr ∘ u <$> headers));
         (u "keep_origin", JBool true)]].

Definition CODEX_CLI_HEADER_PASSTHROUGH_HEADERS : list string :=
  ["Originator"; "Session_id"; "User-Agent"; "X-Codex-Beta-Features"; "X-Codex-Turn-Metadata"]%string.
Definition CLAUDE_CLI_HEADER_PASSTHROUGH_HEADERS : list string :=
  ["X-Stainless-Arch"; "X-Stainless-Lang"; "X-Stainless-Os"; "X-Stainless-Package-Version";
   "X-Stainless-Retry-Count"; "X-Stainless-Runtime"; "X-Stainless-Runtime-Version"; "X-Stainless-Timeout";
   "User-Agent"; "X-App"; "Anthropic-Beta"; "Anthropic-Dangerous-Direct-Browser-Access";
   "Anthropic-Version"]%string.

(** What a preset fills in: the operations of its payload, or an object. *)
Inductive preset_kind := KOperations (payload : list jsv) | KLegacy (payload : list (jsstr * jsv)).

Record template_preset := { tp_group : jsstr; tp_label : jsstr; tp_kind : preset_kind }.

Definition preset (group label : string) (kind : preset_kind) : template_preset :=
  {| tp_group := u group; tp_label := u label; tp_kind := kind |}.

Definition TEMPLATE_PRESET_CONFIG : list (jsstr * template_preset) :=
  [(u "operations_default", preset "basic" "新格式模板（规则集）" (KOperations OPERATION_TEMPLATE));
   (u "legacy_default", preset "basic" "旧格式模板（JSON 对象）" (KLegacy LEGACY_TEMPLATE));
   (u "pass_headers_auth", preset "scenario" "请求头透传（X-Request-Id）" (KOperations HEADER_PASSTHROUGH_TEMPLATE));
   (u "gemini_image_4k", preset "scenario" "Gemini 图片 4K" (KOperations GEMINI_IMAGE_4K_TEMPLATE));
   (u "claude_cli_headers_passthrough",
    preset "scenario" "Claude CLI 请求头透传" (KOperations (buildPassHeadersTemplate CLAUDE_CLI_HEADER_PASSTHROUGH_HEADERS)));
   (u "codex_cli_headers_passthrough",
    preset "scenario" "Codex CLI 请求头透传" (KOperations (buildPassHeadersTemplate CODEX_CLI_HEADER_PASSTHROUGH_HEADERS)));
   (u "aws_bedrock_anthropic_beta_override",
    preset "scenario" "AWS Bedrock Claude 兼容模板" (KOperations AWS_BEDROCK_ANTHROPIC_COMPAT_TEMPLATE))].

Definition templatePresetOptions (templateGroupKey : jsstr) : list (jsstr * jsstr) :=
  (fun kv => (kv.1, tp_label kv.2))
    <$> List.filter (fun kv => bool_decide (tp_group kv.2 = templateGroupKey)) TEMPLATE_PRESET_CONFIG.

(** The effect that keeps the preset within the group. *)
Definition fix_preset (templateGroupKey templatePresetKey : jsstr) : jsstr :=
  match templatePresetOptions templateGroupKey with
  | [] => templatePresetKey
  | (o :: _) as l =>
      if existsb (fun item => bool_decide (item.1 = templatePresetKey)) l then templatePresetKey else o.1
  end.

Definition getSelectedTemplatePreset (templatePresetKey : jsstr) : template_preset :=
  match om_get templatePresetKey TEMPLATE_PRESET_CONFIG with
  | Some p => p
  | None => preset "basic" "新格式模板（规则集）" (KOperations OPERATION_TEMPLATE)
  end.

Definition fillTemplateFromLibrary `{UnicodeCase} (templatePresetKey : jsstr) (e : po_editor) : exc po_editor :=
  match tp_kind (getSelectedTemplatePreset templatePresetKey) with
  | KLegacy payload => Ret (fillLegacyTemplate (JObj payload) e)
  | KOperations payload => fillOperationsTemplate payload e
  end.

Definition appendTemplateFromLibrary `{UnicodeCase} (templatePresetKey : jsstr) (e : po_editor) : exc po_editor :=
  match tp_kind (getSelectedTemplatePreset templatePresetKey) with
  | KLegacy payload => Ret (appendLegacyTemplate payload e)
  | KOperations payload => appendOperationsTemplate payload e
  end.
