(* ===== verification/ParamOverrideRound.v ===== *)
(** * Round trips of parameter overrides

    What saving the cards as JSON and opening that JSON again keeps of each
    operation, when a second save writes the same text, and which stored values
    do not survive. *)

From S2P Require Import Prelude JsString JsNumber JsNumText JsValue JsJson JsJsonRound ParamOverride.

#[local] Open Scope Z_scope.

(** ** Facts about the table of modes *)

Definition mode_consistent (mode : jsstr) : bool :=
  let meta := meta_of mode in
  ne mode
  && implb (has_mode FROM_REQUIRED_MODES mode) (m_from meta)
  && implb (has_mode TO_REQUIRED_MODES mode) (m_to meta)
  && implb (has_mode VALUE_REQUIRED_MODES mode) (m_value meta)
  && implb (m_pathAlias meta) (m_from meta && m_to meta && negb (m_path meta) && negb (m_pathOptional meta)).

Lemma modes_consistent mode : mode ∈ OPERATION_MODE_VALUES -> mode_consistent mode = true.
Proof.
  intros H. assert (forallb mode_consistent OPERATION_MODE_VALUES = true) as Hall by (vm_compute; reflexivity).
  rewrite forallb_forall in Hall. apply Hall. by apply list_elem_of_In.
Qed.

Lemma mode_facts mode :
  mode ∈ OPERATION_MODE_VALUES ->
  mode_or_set mode = mode
  /\ (has_mode FROM_REQUIRED_MODES mode = true -> m_from (meta_of mode) = true)
  /\ (has_mode TO_REQUIRED_MODES mode = true -> m_to (meta_of mode) = true)
  /\ (has_mode VALUE_REQUIRED_MODES mode = true -> m_value (meta_of mode) = true)
  /\ (m_pathAlias (meta_of mode) = true ->
      m_from (meta_of mode) = true /\ m_to (meta_of mode) = true
      /\ m_path (meta_of mode) = false /\ m_pathOptional (meta_of mode) = false).
Proof.
  intros H%modes_consistent. unfold mode_consistent in H. unfold mode_or_set.
  rewrite !andb_true_iff in H. destruct H as [[[[Hn Hf] Ht] Hv] Ha]. rewrite Hn.
  assert (forall a b, implb a b = true -> a = true -> b = true) as Himp by (by intros [] []).
  split; [done|]. split; [by apply Himp|]. split; [by apply Himp|]. split; [by apply Himp|].
  intros Hb. specialize (Himp _ _ Ha Hb). rewrite !andb_true_iff, !negb_true_iff in Himp. tauto.
Qed.

(** ** Reading a property of a payload *)

Lemma oget_set_same b k v o : oget (JObj (set_if b k v o)) (u k) = if b then v else oget (JObj o) (u k).
Proof. destruct b; [|done]. unfold oget, set_if. rewrite obj_get_set, decide_True; done. Qed.

Lemma oget_set_other b k k' v o :
  u k' <> u k -> oget (JObj (set_if b k v o)) (u k') = oget (JObj o) (u k').
Proof. intros Hne. destruct b; [|done]. unfold oget, set_if. by rewrite obj_get_set, decide_False. Qed.

Ltac distinct_keys := apply (bool_decide_eq_false_1 _); vm_compute; reflexivity.

(** Reads a property through the assignments that built an object. *)
Ltac read_prop :=
  repeat (rewrite oget_set_same || (rewrite oget_set_other by distinct_keys)).

Lemma ne_iff s : ne s = true <-> s <> [].
Proof. unfold ne. rewrite negb_true_iff, bool_decide_eq_false. done. Qed.

Lemma ne_false s : ne s = false <-> s = [].
Proof. unfold ne. rewrite negb_false_iff, bool_decide_eq_true. done. Qed.

Lemma truthy_JStr s : truthy (JStr s) = ne s.
Proof. by destruct s. Qed.

Lemma str_field_if s : str_field (if ne s then JStr s else JUndef) = s.
Proof. by destruct s. Qed.

(** ** What stays of an operation *)

Definition kept_text (vt : jsstr) : jsstr := toValueText (parseLooseValue vt).

(** An operation without its identifiers. *)
Definition anon_cond (c : pcondition) : pcondition :=
  {| pc_id := 0; pc_path := pc_path c; pc_mode := pc_mode c; pc_value_text := pc_value_text c;
     pc_invert := pc_invert c; pc_pass_missing_key := pc_pass_missing_key c |}.

Definition anon (o : operation) : operation :=
  {| o_id := 0; o_description := o_description o; o_path := o_path o; o_mode := o_mode o;
     o_value_text := o_value_text o; o_keep_origin := o_keep_origin o; o_from := o_from o; o_to := o_to o;
     o_logic := o_logic o; o_conditions := anon_cond <$> o_conditions o |}.

(** What a save keeps: the description, the path, [from] and [to] trimmed, conditions without a
    path dropped, and each value text as [toValueText] shows the value that [parseLooseValue]
    reads from it (a quoted ["123"] comes back as [123], JSON without its white space, blank
    text as empty). *)
Definition kept_cond (c : pcondition) : pcondition :=
  {| pc_id := 0; pc_path := trim (pc_path c); pc_mode := pc_mode c; pc_value_text := kept_text (pc_value_text c);
     pc_invert := pc_invert c; pc_pass_missing_key := pc_pass_missing_key c |}.

Definition has_path (c : pcondition) : bool := ne (trim (pc_path c)).

(** The path, the value, [keep_origin] and [from] are emptied in a mode that does not use them;
    [to] is kept in every mode.  In the modes whose path stands for them, an empty [from] or
    [to] becomes the path, and the path itself is emptied.  The logic is [OR] without conditions. *)
Definition kept (o : operation) : operation :=
  let meta := meta_of (o_mode o) in
  let path := trim (o_path o) in
  let cs := kept_cond <$> List.filter has_path (o_conditions o) in
  let alias s := if m_pathAlias meta && negb (ne s) then path else s in
  {| o_id := 0; o_description := trim (o_description o);
     o_path := if m_path meta || m_pathOptional meta then path else [];
     o_mode := o_mode o;
     o_value_text := if m_value meta then kept_text (o_value_text o) else [];
     o_keep_origin := m_keepOrigin meta && o_keep_origin o;
     o_from := if m_from meta then alias (trim (o_from o)) else [];
     o_to := alias (trim (o_to o));
     o_logic := match cs with
                | [] => u "OR"
                | _ => if bool_decide (o_logic o = u "AND") then u "AND" else u "OR"
                end;
     o_conditions := cs |}.

(** What the inputs of the editor can hold: a mode of the menu, code units, and
    values that JSON can write. *)
Record cond_ok (c : pcondition) : Prop := {
  ck_mode : pc_mode c ∈ CONDITION_MODE_VALUES;
  ck_path : Forall unit_ok (pc_path c);
  ck_value : json_ok (parseLooseValue (pc_value_text c))
}.

Record op_ok (o : operation) : Prop := {
  ok_mode : o_mode o ∈ OPERATION_MODE_VALUES;
  ok_description : Forall unit_ok (o_description o);
  ok_path : Forall unit_ok (o_path o);
  ok_from : Forall unit_ok (o_from o);
  ok_to : Forall unit_ok (o_to o);
  ok_value : json_ok (parseLooseValue (o_value_text o));
  ok_conditions : Forall cond_ok (o_conditions o)
}.

(** ** The payload *)

Lemma trim_units s : Forall unit_ok s -> Forall unit_ok (trim s).
Proof.
  assert (forall s, Forall unit_ok s -> Forall unit_ok (trimStart s)) as Hs.
  { intros s' H. unfold trimStart. destruct (dropWhile_suffix is_space s') as [w Hw]. rewrite Hw in H.
    by apply Forall_app in H as [_ H]. }
  intros H. unfold trim, trimEnd. rewrite Forall_reverse. apply Hs. rewrite Forall_reverse. by apply Hs.
Qed.

Ltac key_ok := first [vm_compute; reflexivity | apply units_okb_ok; vm_compute; reflexivity].

Lemma plain_set_if b k v o :
  array_index (u k) = None -> units_okb (u k) = true -> json_ok v -> plain_props o ->
  plain_props (set_if b k v o).
Proof. intros Hi Hu Hv Ho. destruct b; [|done]. apply plain_set; [done | by apply units_okb_ok | done | done]. Qed.

Lemma condition_mode_ne c : pc_mode c ∈ CONDITION_MODE_VALUES -> ne (pc_mode c) = true /\ Forall unit_ok (pc_mode c).
Proof.
  intros H.
  assert (forallb (fun m => ne m && units_okb m) CONDITION_MODE_VALUES = true) as Hall by (vm_compute; reflexivity).
  rewrite forallb_forall in Hall. specialize (Hall _ (proj1 (list_elem_of_In _ _) H)).
  apply andb_true_iff in Hall as [? ?]. split; [done | by apply units_okb_ok].
Qed.

Lemma operation_mode_units mode : mode ∈ OPERATION_MODE_VALUES -> Forall unit_ok mode.
Proof.
  intros H.
  assert (forallb units_okb OPERATION_MODE_VALUES = true) as Hall by (vm_compute; reflexivity).
  rewrite forallb_forall in Hall. apply units_okb_ok, Hall. by apply list_elem_of_In.
Qed.

Lemma condition_payload_ok c v : cond_ok c -> buildConditionPayload c = Some v -> json_ok v.
Proof.
  intros [Hm Hp Hv]. unfold buildConditionPayload. destruct (ne (trim (pc_path c))); [|done]. cbn [negb].
  destruct (condition_mode_ne c Hm) as [-> Hu]. intros H. apply (inj Some) in H. subst v. apply plain_json_ok.
  repeat (apply plain_cons; [key_ok | key_ok | | |]); try done.
  all: try (constructor; by auto using trim_units).
  all: destruct (pc_invert c), (pc_pass_missing_key c); cbn [app fmap list_fmap fst];
    first [repeat (apply plain_cons; [key_ok | key_ok | constructor | |]); try apply plain_nil |
           idtac]; apply (bool_decide_eq_true_1 _); vm_compute; reflexivity.
Qed.

Lemma omap_Forall {A B} (f : A -> option B) (P : A -> Prop) (Q : B -> Prop) l :
  (forall x y, P x -> f x = Some y -> Q y) -> Forall P l -> Forall Q (omap f l).
Proof.
  intros Hf. induction 1 as [|x l Hx _ IH]; [constructor|]. cbn [omap list_omap].
  destruct (f x) eqn:E; [constructor; eauto | done].
Qed.

Lemma operation_payload_ok o : op_ok o -> json_ok (operation_payload o).
Proof.
  intros [Hm Hd Hp Hf Ht Hv Hc]. unfold operation_payload. cbv zeta. apply plain_json_ok.
  destruct (mode_facts _ Hm) as (-> & _).
  repeat (apply plain_set_if; [vm_compute; reflexivity | vm_compute; reflexivity | |]).
  all: try (constructor; by auto using trim_units); try done.
  - constructor. destruct (bool_decide _); apply units_okb_ok; vm_compute; reflexivity.
  - constructor. eapply omap_Forall; [|exact Hc]. intros c v. apply condition_payload_ok.
  - apply plain_cons; [key_ok | key_ok | | apply not_elem_of_nil | apply plain_nil].
    constructor. by apply operation_mode_units.
Qed.

(** What each property of the payload holds. *)
Lemma payload_fields o :
  o_mode o ∈ OPERATION_MODE_VALUES ->
  let p := operation_payload o in
  let meta := meta_of (o_mode o) in
  let cs := omap buildConditionPayload (o_conditions o) in
  p?."mode" = JStr (o_mode o)
  /\ str_field (p?."description") = o_description (kept o)
  /\ str_field (p?."path") = o_path (kept o)
  /\ p?."value" = (if m_value meta then parseLooseValue (o_value_text o) else JUndef)
  /\ p?."keep_origin" = (if m_keepOrigin meta && o_keep_origin o then JBool true else JUndef)
  /\ str_field (p?."from") = o_from (kept o)
  /\ str_field (p?."to") = o_to (kept o)
  /\ p?."conditions" = (if nonempty_array (JArr cs) then JArr cs else JUndef)
  /\ p?."logic" = (if nonempty_array (JArr cs)
                   then JStr (if bool_decide (o_logic o = u "AND") then u "AND" else u "OR") else JUndef).
Proof.
  intros Hm. destruct (mode_facts _ Hm) as (Emode & _ & _ & _ & Ha). cbv zeta.
  unfold operation_payload. cbv zeta. rewrite Emode. set (meta := meta_of (o_mode o)) in *.
  assert (forall k, u k <> u "mode" -> oget (JObj [(u "mode", JStr (o_mode o))]) (u k) = JUndef) as H0.
  { intros k Hk. unfold oget. cbn [om_get]. by rewrite decide_False. }
  unfold kept. cbn [o_description o_path o_from o_to]. fold meta.
  split_and!; read_prop; rewrite ?H0 by distinct_keys; try done.
  - apply str_field_if.
  - destruct (m_pathOptional meta), (m_path meta); cbn [andb orb]; try done; [|apply str_field_if].
    by destruct (trim (o_path o)).
  - destruct (m_pathAlias meta); cbn [andb].
    + destruct Ha as (-> & _); [done|]. rewrite truthy_JStr. destruct (trim (o_from o)), (trim (o_path o)); done.
    + by destruct (m_from meta).
  - destruct (m_pathAlias meta); cbn [andb].
    + destruct Ha as (_ & -> & _); [done|]. rewrite truthy_JStr. destruct (trim (o_to o)), (trim (o_path o)); done.
    + destruct (m_to meta); [done|]. apply str_field_if.
Qed.

(** ** Reading it back *)

Section Round.
Context `{UnicodeCase}.

Lemma known_mode_field modes d m : m ∈ modes -> mode_field modes d (JStr m) = m.
Proof. intros Hm. unfold mode_field, has_mode. by rewrite bool_decide_eq_true_2. Qed.

Lemma normalize_condition_payload c v seed :
  pc_mode c ∈ CONDITION_MODE_VALUES -> buildConditionPayload c = Some v ->
  exists r, normalizeCondition seed v = Ret r /\ anon_cond r.1 = kept_cond c.
Proof.
  intros Hm. unfold buildConditionPayload. destruct (ne (trim (pc_path c))); [|done]. cbn [negb].
  destruct (condition_mode_ne c Hm) as [-> _]. intros E. apply (inj Some) in E. subst v.
  eexists. split; [reflexivity|]. unfold anon_cond, kept_cond. cbn [fst pc_path pc_mode pc_value_text pc_invert pc_pass_missing_key].
  f_equal.
  - by apply known_mode_field.
  - by destruct (pc_invert c), (pc_pass_missing_key c).
  - by destruct (pc_invert c), (pc_pass_missing_key c).
Qed.

Lemma conditions_read_back cs seed :
  Forall cond_ok cs ->
  exists r, map_seeded normalizeCondition seed (omap buildConditionPayload cs) = Ret r
            /\ anon_cond <$> r.1 = kept_cond <$> List.filter has_path cs.
Proof.
  intros Hc. revert seed. induction Hc as [|c cs Hc _ IH]; intros seed; [by eexists|].
  cbn [omap list_omap List.filter]. unfold has_path at 1.
  destruct (buildConditionPayload c) as [v|] eqn:E.
  - destruct (normalize_condition_payload c v seed (ck_mode _ Hc) E) as (r & Hr & Er).
    destruct (IH r.2) as (rs & Hrs & Ers). exists (r.1 :: rs.1, rs.2). cbn [map_seeded].
    rewrite Hr. cbn. fold (omap (M := list) buildConditionPayload cs). rewrite Hrs. split; [done|].
    unfold buildConditionPayload in E. destruct (ne (trim (pc_path c))); [|done]. rewrite !fmap_cons. by f_equal.
  - destruct (IH seed) as (rs & Hrs & Ers). exists rs. split; [done|].
    unfold buildConditionPayload in E. by destruct (ne (trim (pc_path c))).
Qed.

Lemma conditions_filter cs :
  match omap buildConditionPayload cs with [] => True | _ => False end <->
  List.filter has_path cs = [].
Proof.
  induction cs as [|c cs IH]; [done|]. cbn [omap list_omap List.filter]. unfold has_path at 1, buildConditionPayload at 1.
  destruct (ne (trim (pc_path c))); [done|]. exact IH.
Qed.

Lemma operation_read_back o seed :
  op_ok o -> exists r, normalizeOperation seed (operation_payload o) = Ret r /\ anon r.1 = kept o.
Proof.
  intros Ho. destruct (payload_fields o (ok_mode _ Ho)) as (E1 & E2 & E3 & E4 & E5 & E6 & E7 & E8 & E9).
  unfold normalizeOperation.
  assert (no_null (operation_payload o) = Ret (operation_payload o)) as -> by reflexivity.
  cbn [mbind exc_bind]. rewrite E1, E2, E3, E4, E5, E6, E7, E8, E9.
  rewrite (known_mode_field _ _ _ (ok_mode _ Ho)).
  destruct (conditions_read_back (o_conditions o) (seed + 1) (ok_conditions _ Ho)) as (r & Hr & Er).
  pose proof (conditions_filter (o_conditions o)) as Hf.
  destruct (omap buildConditionPayload (o_conditions o)) as [|v vs] eqn:Ecs; cbn [nonempty_array].
  - eexists. split; [reflexivity|]. unfold anon, kept. cbn [fst o_id o_description o_path o_mode o_value_text
      o_keep_origin o_from o_to o_logic o_conditions]. rewrite (proj1 Hf I).
    f_equal; [by destruct (m_value _) | by destruct (m_keepOrigin _ && _)].
  - rewrite Hr. eexists. split; [reflexivity|]. unfold anon. cbn [fst o_id o_description o_path o_mode o_value_text
      o_keep_origin o_from o_to o_logic o_conditions]. rewrite Er. unfold kept.
    assert (List.filter has_path (o_conditions o) <> []) as Hne by tauto.
    destruct (List.filter has_path (o_conditions o)) as [|c cs]; [done|].
    f_equal; [by destruct (m_value _) | by destruct (m_keepOrigin _ && _) | by destruct (bool_decide _)].
Qed.

Lemma operations_read_back ops seed :
  Forall op_ok ops ->
  exists r, map_seeded normalizeOperation seed (operation_payload <$> ops) = Ret r
            /\ anon <$> r.1 = kept <$> ops.
Proof.
  intros Hl. revert seed. induction Hl as [|o ops Ho _ IH]; intros seed; [by eexists|].
  destruct (operation_read_back o seed Ho) as (r & Hr & Er), (IH r.2) as (rs & Hrs & Ers).
  exists (r.1 :: rs.1, rs.2). rewrite fmap_cons. cbn [map_seeded]. rewrite Hr. cbn [mbind exc_bind]. rewrite Hrs.
  split; [done|]. cbn [fst]. rewrite !fmap_cons. by f_equal.
Qed.

Definition shown (ops : list operation) : list operation := List.filter (fun o => negb (isOperationBlank o)) ops.

Definition operations_value (l : list jsv) : jsv := JObj [(u "operations", JArr l)].

Lemma operations_value_ok l : Forall json_ok l -> json_ok (operations_value l).
Proof.
  intros Hl. apply plain_json_ok. apply plain_cons; [key_ok | key_ok | by constructor | apply not_elem_of_nil | apply plain_nil].
Qed.

(** Opening the text that a value of operations prints. *)
Lemma open_operations l seed :
  Forall json_ok l -> l <> [] ->
  parseInitialState seed (JStr (text_of (operations_value l)))
  = (r ← map_seeded normalizeOperation seed l;
     Ret (fresh_editor EditVisual VOperations [] r.1 (text_of (operations_value l)) [] r.2)).
Proof.
  intros Hl Hne. pose proof (operations_value_ok l Hl) as Hok.
  destruct (json_roundtrip2 _ Hok) as (txt & Ht & Hp).
  unfold parseInitialState. cbn [str_field].
  assert (text_of (operations_value l) = txt) as Etxt by (unfold text_of; by rewrite Ht).
  rewrite Etxt, (stringify2_trimmed (operations_value l) txt I Ht).
  rewrite bool_decide_eq_false_2 by (intros ->; vm_compute in Hp; done).
  rewrite Hp, Etxt. unfold operations_value. cbv zeta. cbv iota beta.
  change (oget (JObj [(u "operations", JArr l)]) (u "operations")) with (JArr l). cbv iota.
  unfold load_operations. by destruct l.
Qed.

Lemma built_text (t : jsstr -> Z -> jsstr) ops validate text :
  buildOperationsJson t ops validate = Ret text -> text <> [] ->
  shown ops <> [] /\ text = text_of (operations_value (operation_payload <$> shown ops))
  /\ (validate = true -> validateOperations t (shown ops) = []).
Proof.
  unfold buildOperationsJson. fold (shown ops). destruct (shown ops) as [|o l]; [by intros [= <-]|].
  destruct (ne _) eqn:E; [done|]. intros Ht _. apply Ret_inj in Ht. subst text. split; [done|]. split; [done|].
  intros ->. by apply ne_false.
Qed.

Lemma shown_ok ops : Forall op_ok ops -> Forall op_ok (shown ops).
Proof.
  intros Hl. apply Forall_forall. intros o [Ho _]%elem_of_lfilter. by rewrite Forall_forall in Hl; apply Hl.
Qed.

(** C11. The text that the cards are saved as opens as cards again, in the same order, and
    each card shows what [kept] says of its operation: description, path, [from] and [to]
    trimmed; path, value, [keep_origin] and [from] emptied where the mode does not use them
    ([to] stays in every mode); an empty [from] or [to] filled with the path in the modes that
    allow it; value texts as they show after reading them as JSON where they are JSON;
    conditions without a path gone.  The blank cards are left out, and the text of the JSON
    view is the stored text.  The cards have modes of the menu and values JSON can write, and
    not all of them are blank. *)
Theorem saved_operations_read_back (t : jsstr -> Z -> jsstr) seed ops validate text :
  Forall op_ok ops -> buildOperationsJson t ops validate = Ret text -> text <> [] ->
  exists e, parseInitialState seed (JStr text) = Ret e
            /\ editMode e = EditVisual /\ visualMode e = VOperations /\ jsonText e = text
            /\ anon <$> operations e = kept <$> List.filter (fun o => negb (isOperationBlank o)) ops.
Proof.
  intros Hl Hb Hne. destruct (built_text t ops validate text Hb Hne) as (Hs & -> & _).
  destruct (operations_read_back (shown ops) seed (shown_ok ops Hl)) as (r & Hr & Er).
  exists (fresh_editor EditVisual VOperations [] r.1 (text_of (operations_value (operation_payload <$> shown ops))) [] r.2).
  rewrite open_operations, Hr; [done | |].
  - apply Forall_fmap. eapply Forall_impl; [by apply shown_ok | exact operation_payload_ok].
  - by destruct (shown ops).
Qed.

(** ** A second save *)

Section Again.
Context (t : jsstr -> Z -> jsstr).

(** What a validated operation has. *)
Lemma valid_fields line o :
  o_mode o ∈ OPERATION_MODE_VALUES -> operation_fault t line o = None ->
  (m_path (meta_of (o_mode o)) = true -> ne (trim (o_path o)) = true)
  /\ (m_from (meta_of (o_mode o)) = true -> ne (trim (o_from o)) = true)
  /\ (m_to (meta_of (o_mode o)) = true -> ne (trim (o_to o)) = true)
  /\ (has_mode VALUE_REQUIRED_MODES (o_mode o) = true -> ne (trim (o_value_text o)) = true)
  /\ mode_fault t (o_mode o) (trim (o_value_text o)) line = None.
Proof.
  intros Hm. destruct (mode_facts _ Hm) as (Emode & _). unfold operation_fault. cbv zeta. rewrite Emode.
  intros Hf. repeat match type of Hf with (if ?b then _ else _) = None =>
    let E := fresh "E" in destruct b eqn:E; [discriminate Hf|] end.
  repeat match goal with H : _ && negb _ = false |- _ => apply andb_false_iff in H; rewrite ?negb_false_iff in H end.
  split_and!; try done; intros Hb; rewrite Hb in *; naive_solver.
Qed.

Lemma set_if_ext b b' k v v' o o' :
  b = b' -> (b = true -> v = v') -> o = o' -> set_if b k v o = set_if b' k v' o'.
Proof. intros <- Hv <-. destruct b; [by rewrite Hv | done]. Qed.

(** The payload of a validated operation, where no alias is needed. *)
Lemma payload_no_alias o :
  o_mode o ∈ OPERATION_MODE_VALUES ->
  (m_from (meta_of (o_mode o)) = true -> ne (trim (o_from o)) = true) ->
  (m_to (meta_of (o_mode o)) = true -> ne (trim (o_to o)) = true) ->
  let meta := meta_of (o_mode o) in
  let cs := omap buildConditionPayload (o_conditions o) in
  operation_payload o = JObj (
    set_if (nonempty_array (JArr cs)) "logic"
      (JStr (if bool_decide (o_logic o = u "AND") then u "AND" else u "OR"))
    (set_if (nonempty_array (JArr cs)) "conditions" (JArr cs)
    (set_if (m_to meta) "to" (JStr (trim (o_to o)))
    (set_if (negb (m_to meta) && ne (trim (o_to o))) "to" (JStr (trim (o_to o)))
    (set_if (m_from meta) "from" (JStr (trim (o_from o)))
    (set_if (m_keepOrigin meta && o_keep_origin o) "keep_origin" (JBool true)
    (set_if (m_value meta) "value" (parseLooseValue (o_value_text o))
    (set_if (m_pathOptional meta && ne (trim (o_path o))) "path" (JStr (trim (o_path o)))
    (set_if (m_path meta) "path" (JStr (trim (o_path o)))
    (set_if (ne (trim (o_description o))) "description" (JStr (trim (o_description o)))
      [(u "mode", JStr (o_mode o))])))))))))).
Proof.
  intros Hm Hf Ht. destruct (mode_facts _ Hm) as (Emode & _ & _ & _ & Ha).
  unfold operation_payload. cbv zeta. rewrite Emode. set (meta := meta_of (o_mode o)) in *.
  match goal with |- context [set_if (m_pathAlias meta && ?b && ?c) "from" ?v ?p] =>
    assert (m_pathAlias meta && b && c = false) as -> end.
  { read_prop. destruct (m_pathAlias meta); [|done]. destruct Ha as (Hb & _); [done|]. rewrite Hb, truthy_JStr, Hf; done. }
  match goal with |- context [set_if (m_pathAlias meta && ?b && ?c) "to" ?v ?p] =>
    assert (m_pathAlias meta && b && c = false) as -> end.
  { read_prop. destruct (m_pathAlias meta); [|done]. destruct Ha as (_ & Hb & _); [done|]. rewrite Hb, truthy_JStr, Ht; done. }
  done.
Qed.

(** The values whose text reads and prints as itself. *)
Record op_stable (o : operation) : Prop := {
  st_value : m_value (meta_of (o_mode o)) = true -> kept_text (o_value_text o) = o_value_text o;
  st_conditions : Forall (fun c => kept_text (pc_value_text c) = pc_value_text c) (o_conditions o)
}.

Lemma kept_from_to line o :
  o_mode o ∈ OPERATION_MODE_VALUES -> operation_fault t line o = None ->
  o_from (kept o) = (if m_from (meta_of (o_mode o)) then trim (o_from o) else []) /\ o_to (kept o) = trim (o_to o).
Proof.
  intros Hm Hf. destruct (valid_fields line o Hm Hf) as (_ & Hfrom & Hto & _).
  destruct (mode_facts _ Hm) as (_ & _ & _ & _ & Ha). unfold kept. cbn [o_from o_to].
  destruct (m_pathAlias (meta_of (o_mode o))); [|done]. destruct Ha as (Ea & Eb & _); [done|].
  rewrite Ea in *. by rewrite Hfrom, Hto.
Qed.

Lemma kept_conditions_payload cs :
  Forall (fun c => kept_text (pc_value_text c) = pc_value_text c) cs ->
  omap buildConditionPayload (kept_cond <$> List.filter has_path cs) = omap buildConditionPayload cs.
Proof.
  induction 1 as [|c cs Hc _ IH]; [done|]. cbn [List.filter]. unfold has_path at 1.
  destruct (ne (trim (pc_path c))) eqn:E; cbn [fmap list_fmap omap list_omap].
  - assert (buildConditionPayload (kept_cond c) = buildConditionPayload c) as ->.
    { unfold buildConditionPayload, kept_cond. cbn [pc_path pc_mode pc_value_text pc_invert pc_pass_missing_key].
      by rewrite trim_idemp, Hc. }
    destruct (buildConditionPayload c); [f_equal|]; exact IH.
  - unfold buildConditionPayload at 2. rewrite E. cbn [negb]. exact IH.
Qed.

Lemma anon_payload o : operation_payload (anon o) = operation_payload o.
Proof.
  assert (forall cs : list pcondition, omap buildConditionPayload (anon_cond <$> cs) = omap buildConditionPayload cs) as Hc.
  { induction cs as [|c cs IH]; [done|]. cbn [fmap list_fmap omap list_omap].
    change (buildConditionPayload (anon_cond c)) with (buildConditionPayload c).
    destruct (buildConditionPayload c); [f_equal|]; exact IH. }
  unfold operation_payload, anon.
  cbn [o_mode o_description o_path o_from o_to o_value_text o_keep_origin o_logic o_conditions]. by rewrite Hc.
Qed.

Lemma kept_logic o :
  nonempty_array (JArr (omap buildConditionPayload (o_conditions o))) = true ->
  bool_decide (o_logic (kept o) = u "AND") = bool_decide (o_logic o = u "AND").
Proof.
  intros Hn. pose proof (conditions_filter (o_conditions o)) as Hf. unfold kept. cbn [o_logic].
  destruct (List.filter has_path (o_conditions o)) as [|c cs].
  - destruct Hf as [_ Hf]. specialize (Hf eq_refl). by destruct (omap buildConditionPayload (o_conditions o)).
  - cbn [fmap list_fmap]. by destruct (bool_decide (o_logic o = u "AND")).
Qed.

Lemma kept_payload line o :
  o_mode o ∈ OPERATION_MODE_VALUES -> operation_fault t line o = None -> op_stable o ->
  operation_payload (kept o) = operation_payload o.
Proof.
  intros Hm Hf [Hv Hc]. destruct (valid_fields line o Hm Hf) as (_ & Hfrom & Hto & _).
  destruct (kept_from_to line o Hm Hf) as [Ef Et].
  rewrite (payload_no_alias o Hm Hfrom Hto), (payload_no_alias (kept o)); [|done | |].
  - change (o_mode (kept o)) with (o_mode o). set (meta := meta_of (o_mode o)) in *.
    pose proof (kept_logic o) as Hl. change (o_conditions (kept o)) with (kept_cond <$> List.filter has_path (o_conditions o)).
    rewrite (kept_conditions_payload _ Hc), Ef, Et, !trim_idemp.
    change (o_description (kept o)) with (trim (o_description o)).
    change (o_keep_origin (kept o)) with (m_keepOrigin meta && o_keep_origin o).
    change (o_value_text (kept o)) with (if m_value meta then kept_text (o_value_text o) else []).
    change (o_path (kept o)) with (if m_path meta || m_pathOptional meta then trim (o_path o) else []).
    rewrite !trim_idemp. f_equal. repeat apply set_if_ext; try done.
    + intros Hn. by rewrite Hl.
    + intros ->. by rewrite trim_idemp.
    + by destruct (m_keepOrigin meta).
    + intros Hb. rewrite Hb in *. by rewrite Hv.
    + destruct (m_pathOptional meta); [|done]. by rewrite orb_true_r, trim_idemp.
    + intros [-> _]%andb_true_iff. by rewrite orb_true_r, trim_idemp.
    + intros ->. cbn [orb]. by rewrite trim_idemp.
  - rewrite Ef. change (o_mode (kept o)) with (o_mode o). intros Hb. rewrite Hb, trim_idemp. by apply Hfrom.
  - rewrite Et, trim_idemp. exact Hto.
Qed.

(** A mode without a value has no rules of its own. *)
Lemma mode_fault_no_value mode raw line : m_value (meta_of mode) = false -> mode_fault t mode raw line = None.
Proof.
  intros Hv. unfold mode_fault.
  assert (forall m, m_value (meta_of m) = true -> bool_decide (mode = m) = false) as Hne.
  { intros m Hm. apply bool_decide_eq_false_2. congruence. }
  rewrite (Hne (u "return_error")), (Hne (u "prune_objects")), (Hne (u "pass_headers")) by (vm_compute; reflexivity).
  done.
Qed.

Lemma mode_fault_line mode raw line line' : mode_fault t mode raw line = None -> mode_fault t mode raw line' = None.
Proof. unfold mode_fault. intros Hf. by repeat case_match. Qed.

Lemma kept_no_fault line line' o :
  o_mode o ∈ OPERATION_MODE_VALUES -> operation_fault t line o = None -> op_stable o ->
  operation_fault t line' (kept o) = None.
Proof.
  intros Hm Hf [Hv _]. destruct (valid_fields line o Hm Hf) as (Hpath & Hfrom & Hto & Hval & Hmode).
  destruct (kept_from_to line o Hm Hf) as [Ef Et]. destruct (mode_facts _ Hm) as (Emode & Rf & Rt & Rv & _).
  unfold operation_fault. cbv zeta. change (o_mode (kept o)) with (o_mode o). rewrite Emode, Ef, Et.
  change (o_value_text (kept o)) with (if m_value (meta_of (o_mode o)) then kept_text (o_value_text o) else []).
  change (o_path (kept o)) with
    (if m_path (meta_of (o_mode o)) || m_pathOptional (meta_of (o_mode o)) then trim (o_path o) else []).
  set (meta := meta_of (o_mode o)) in *. rewrite trim_idemp.
  assert (m_path meta && negb (ne (trim (if m_path meta || m_pathOptional meta then trim (o_path o) else []))) = false) as ->.
  { destruct (m_path meta); [|done]. cbn [orb andb]. by rewrite trim_idemp, Hpath. }
  assert (forall b, (has_mode FROM_REQUIRED_MODES (o_mode o)
    && negb (ne (trim (if m_from meta then trim (o_from o) else []))) && b) = false) as ->.
  { intros b. destruct (has_mode FROM_REQUIRED_MODES (o_mode o)); [|done]. rewrite Rf, trim_idemp, Hfrom; auto. }
  assert (forall b, (has_mode TO_REQUIRED_MODES (o_mode o) && negb (ne (trim (o_to o))) && b) = false) as ->.
  { intros b. destruct (has_mode TO_REQUIRED_MODES (o_mode o)); [|done]. rewrite Hto; auto. }
  assert (m_from meta && negb (ne (trim (if m_from meta then trim (o_from o) else []))) = false) as ->.
  { destruct (m_from meta); [|done]. by rewrite trim_idemp, Hfrom. }
  assert (m_to meta && negb (ne (trim (o_to o))) = false) as ->.
  { destruct (m_to meta); [|done]. by rewrite Hto. }
  destruct (m_value meta) eqn:Ev.
  - rewrite Hv by done. destruct (has_mode VALUE_REQUIRED_MODES (o_mode o)); [rewrite Hval by done|];
      by eapply mode_fault_line.
  - destruct (has_mode VALUE_REQUIRED_MODES (o_mode o)); [by specialize (Rv eq_refl)|]. by apply mode_fault_no_value.
Qed.

(** A validated operation is not blank. *)
Lemma valid_not_blank line o :
  o_mode o ∈ OPERATION_MODE_VALUES -> operation_fault t line o = None -> isOperationBlank o = false.
Proof.
  intros Hm Hf. destruct (valid_fields line o Hm Hf) as (Hpath & _). unfold isOperationBlank.
  destruct (bool_decide_reflect (o_mode o = u "set")) as [E|]; [|done]. rewrite E in Hpath.
  specialize (Hpath ltac:(vm_compute; reflexivity)). unfold ne in Hpath. by destruct (bool_decide (trim (o_path o) = [])).
Qed.

Context (Ht : forall m line, m <> [] -> t m line <> []).

Lemma fault_message line o m : operation_fault t line o = Some m -> m <> [].
Proof.
  unfold operation_fault, mode_fault. intros Hf.
  repeat match type of Hf with (if ?b then _ else _) = _ => destruct b end; try discriminate Hf;
    apply (inj Some) in Hf; subst m; apply Ht; apply ne_iff; vm_compute; reflexivity.
Qed.

Lemma validate_none ops line :
  validate_from t line ops = [] <-> Forall (fun o => forall line, operation_fault t line o = None) ops.
Proof.
  assert (forall o l l', operation_fault t l o = None -> operation_fault t l' o = None) as Hl.
  { intros o l l'. unfold operation_fault. cbv zeta. intros Hf.
    repeat match type of Hf with (if ?b then _ else _) = None => destruct b; [discriminate Hf|] end.
    by eapply mode_fault_line. }
  revert line. induction ops as [|o ops IH]; intros line; cbn [validate_from]; [by split|].
  rewrite Forall_cons. destruct (operation_fault t line o) eqn:E.
  - split; [intros ->; by apply fault_message in E | intros [Ho _]; by rewrite Ho in E].
  - rewrite IH. split; [intros ?; split; [intros l; by eapply Hl | done] | by intros [_ ?]].
Qed.

Lemma reopened ops ops' :
  Forall (fun o => o_mode o ∈ OPERATION_MODE_VALUES /\ op_stable o /\ forall line, operation_fault t line o = None) ops ->
  anon <$> ops' = kept <$> ops ->
  operation_payload <$> ops' = operation_payload <$> ops
  /\ Forall (fun o => o_mode o ∈ OPERATION_MODE_VALUES /\ forall line, operation_fault t line o = None) ops'.
Proof.
  intros Hl. revert ops'. induction Hl as [|o ops (Hm & Hs & Hf) _ IH]; intros [|o' ops'] E; try done.
  assert (anon o' = kept o /\ anon <$> ops' = kept <$> ops) as [Ea E'].
  { rewrite !fmap_cons in E. generalize dependent (kept o). generalize (anon o'). intros; split; congruence. }
  destruct (IH ops' E') as [Ep Hv]. split.
  - rewrite !fmap_cons, Ep. f_equal. rewrite <- anon_payload, Ea. by apply (kept_payload 1).
  - constructor; [|done]. split.
    + change (o_mode o') with (o_mode (anon o')). by rewrite Ea.
    + intros line. change (operation_fault t line (anon o') = None). rewrite Ea. by apply (kept_no_fault 1).
Qed.

(** C12. Saving cards whose values read and print as themselves, opening the
    saved text and saving again without an edit writes the same text. *)
Theorem reopened_save_unchanged seed ops text e :
  Forall op_ok ops -> Forall op_stable ops -> buildOperationsJson t ops true = Ret text -> text <> [] ->
  parseInitialState seed (JStr text) = Ret e -> handleSave t e = Ret text.
Proof.
  intros Hl Hs Hb Hne He. destruct (built_text t ops true text Hb Hne) as (Hsh & -> & Hval).
  specialize (Hval eq_refl). unfold validateOperations in Hval. rewrite validate_none in Hval.
  destruct (operations_read_back (shown ops) seed (shown_ok ops Hl)) as (r & Hr & Er).
  rewrite open_operations, Hr in He;
    [|apply Forall_fmap; eapply Forall_impl; [by apply shown_ok | exact operation_payload_ok] | by destruct (shown ops)].
  cbn [mbind exc_bind] in He. apply Ret_inj in He. subst e. unfold handleSave, buildVisualJson, buildOperationsJson.
  cbn [editMode visualMode operations fresh_editor]. fold (shown r.1).
  destruct (reopened (shown ops) r.1) as [Ep Hv]; [|done|].
  { apply Forall_forall. intros o Ho. rewrite Forall_forall in Hval. split_and!; [| |by apply Hval].
    - apply shown_ok in Hl. rewrite Forall_forall in Hl. by apply Hl.
    - apply elem_of_lfilter in Ho as [Ho _]. rewrite Forall_forall in Hs. by apply Hs. }
  assert (shown r.1 = r.1) as ->.
  { apply lfilter_id. eapply Forall_impl; [exact Hv|]. intros o [Hm Hf]. by rewrite (valid_not_blank 1). }
  assert (validateOperations t r.1 = []) as ->.
  { unfold validateOperations. apply validate_none. eapply Forall_impl; [exact Hv|]. naive_solver. }
  change (ne []) with false. cbv iota. rewrite Ep. destruct r.1; [|done]. by destruct (shown ops).
Qed.
End Again.

(** ** A stored text that looks like JSON *)

Definition set_value (path : jsstr) (v : jsv) : jsv :=
  JObj [(u "mode", JStr (u "set")); (u "path", JStr path); (u "value", v)].

Definition set_operation (seed : Z) (path s : jsstr) : operation :=
  patch_op (SetValueText s) (patch_op (SetPath path) (createDefaultOperation seed)).

Lemma set_operation_read seed path s :
  normalizeOperation seed (set_value path (JStr s)) = Ret (set_operation seed path s, seed + 1).
Proof. reflexivity. Qed.

Lemma set_operation_payload seed path s :
  trim path = path -> operation_payload (set_operation seed path s) = set_value path (parseLooseValue s).
Proof.
  intros Hp. rewrite payload_no_alias; [|apply (bool_decide_eq_true_1 _); vm_compute; reflexivity | done | done].
  cbn [o_path set_operation patch_op createDefaultOperation o_value_text]. rewrite Hp. reflexivity.
Qed.

Lemma set_operation_fault (t : jsstr -> Z -> jsstr) line seed path s :
  trim path = path -> path <> [] -> operation_fault t line (set_operation seed path s) = None.
Proof.
  intros Hp Hne. unfold operation_fault. cbn [o_path set_operation patch_op createDefaultOperation o_value_text].
  rewrite Hp. apply ne_iff in Hne. rewrite Hne. reflexivity.
Qed.

(** A stored string whose text is itself JSON is shown without its quotes,
    so that saving the untouched card writes the value that the text denotes:
    the string "123" becomes the number 123, the string "true" a boolean. *)
Theorem json_like_string_retyped (t : jsstr -> Z -> jsstr) seed path s w :
  Forall unit_ok path -> trim path = path -> path <> [] ->
  Forall unit_ok s -> trim s <> [] -> json_parse s = Some w ->
  exists e,
    parseInitialState seed (JStr (text_of (operations_value [set_value path (JStr s)]))) = Ret e
    /\ handleSave t e = Ret (text_of (operations_value [set_value path w])).
Proof.
  intros Hp Etp Hne Hs Hns Hw. rewrite open_operations; [|constructor; [|done] | done].
  - cbn [map_seeded]. rewrite set_operation_read. eexists. split; [reflexivity|].
    unfold handleSave, buildVisualJson, buildOperationsJson, fresh_editor. cbn [editMode visualMode operations fst].
    pose proof (set_operation_fault t 1 seed path s Etp Hne) as Hf. cbn [List.filter].
    rewrite (valid_not_blank t 1) by (done || (apply (bool_decide_eq_true_1 _); vm_compute; reflexivity)).
    cbn [negb]. unfold validateOperations. cbn [validate_from]. rewrite Hf. change (ne []) with false. cbv iota.
    rewrite fmap_cons, set_operation_payload by done. unfold parseLooseValue.
    rewrite bool_decide_eq_false_2 by done. by rewrite Hw.
  - apply plain_json_ok. repeat (apply plain_cons; [key_ok | key_ok | | |]); try apply plain_nil;
      try (constructor; done); try (apply (bool_decide_eq_true_1 _); vm_compute; reflexivity).
    constructor. key_ok.
Qed.
End Round.

(** ** Witnesses *)

Definition w_ops : list operation :=
  [{| o_id := 3; o_description := []; o_path := u " temperature "; o_mode := u "set"; o_value_text := u "true";
      o_keep_origin := true; o_from := []; o_to := []; o_logic := u "AND";
      o_conditions := [{| pc_id := 4; pc_path := u "model"; pc_mode := u "prefix"; pc_value_text := u "openai/";
                          pc_invert := true; pc_pass_missing_key := false |};
                       createDefaultCondition 5] |};
   createDefaultOperation 6].

Definition w_t (m : jsstr) (line : Z) : jsstr := m.

Definition w_text : jsstr := match buildOperationsJson w_t w_ops true with Ret s => s | Throw _ => [] end.

Lemma w_ops_ok : Forall op_ok w_ops.
Proof.
  repeat constructor; cbn; try (apply (bool_decide_eq_true_1 _); vm_compute; reflexivity);
    try (apply units_okb_ok; vm_compute; reflexivity).
Qed.

Lemma w_ops_stable : Forall op_stable w_ops.
Proof.
  repeat constructor; cbn; try (intros _); try (vm_compute; reflexivity).
Qed.

Lemma saved_operations_read_back_witness :
  exists e, parseInitialState (H := ascii_case) 0 (JStr w_text) = Ret e
            /\ editMode e = EditVisual /\ visualMode e = VOperations /\ jsonText e = w_text
            /\ anon <$> operations e = kept <$> List.filter (fun o => negb (isOperationBlank o)) w_ops.
Proof.
  apply (saved_operations_read_back (H := ascii_case) w_t 0 w_ops true w_text).
  - exact w_ops_ok.
  - vm_compute. reflexivity.
  - apply (bool_decide_eq_true_1 _). vm_compute. reflexivity.
Defined.

Lemma reopened_save_unchanged_witness :
  match parseInitialState (H := ascii_case) 0 (JStr w_text) with
  | Ret e => handleSave w_t e = Ret w_text
  | Throw _ => False
  end.
Proof.
  destruct (parseInitialState (H := ascii_case) 0 (JStr w_text)) as [e|] eqn:E; [|vm_compute in E; discriminate E].
  apply (reopened_save_unchanged (H := ascii_case) w_t (fun m _ Hm => Hm) 0 w_ops w_text e).
  - exact w_ops_ok.
  - exact w_ops_stable.
  - vm_compute. reflexivity.
  - apply (bool_decide_eq_true_1 _). vm_compute. reflexivity.
  - exact E.
Defined.

Lemma json_like_string_retyped_witness :
  exists e,
    parseInitialState (H := ascii_case) 0 (JStr (text_of (operations_value [set_value (u "user") (JStr (u "true"))]))) = Ret e
    /\ handleSave w_t e = Ret (text_of (operations_value [set_value (u "user") (JBool true)])).
Proof.
  apply (json_like_string_retyped (H := ascii_case) w_t 0 (u "user") (u "true") (JBool true)).
  - apply units_okb_ok. vm_compute. reflexivity.
  - vm_compute. reflexivity.
  - apply (bool_decide_eq_true_1 _). vm_compute. reflexivity.
  - apply units_okb_ok. vm_compute. reflexivity.
  - apply (bool_decide_eq_true_1 _). vm_compute. reflexivity.
  - vm_compute. reflexivity.
Defined.
