(* ===== verification/ParamOverrideDrafts.v ===== *)
(** * The forms for the value of an operation

    Model of the parts of
    web/classic/src/components/table/channels/modals/ParamOverrideEditorModal.jsx
    that show the value of an operation as a form: the error that return_error
    answers with, the conditions of prune_objects, the two ends of sync_fields,
    the list of built-in fields, and the summaries of the cards.

    A form has no state of its own: it is read from the text of the value when it
    is shown, and an edit writes the text again. *)

From S2P Require Import Prelude JsString JsNumber JsNumText JsValue JsJson ParamOverride.

#[local] Open Scope Z_scope.

(** ** The error of return_error *)

Record re_draft := {
  re_message : jsstr; re_statusCode : num; re_code : jsstr; re_type : jsstr; re_skipRetry : bool;
  re_simpleMode : bool
}.

Definition re_defaults : re_draft :=
  {| re_message := []; re_statusCode := of_Z 400; re_code := []; re_type := []; re_skipRetry := true;
     re_simpleMode := true |}.

(** An HTTP status, or 400. *)
Definition status_or_400 (n : num) : num :=
  if is_integer n && num_ge n (of_Z 100) && num_le n (of_Z 599) then n else of_Z 400.

(** [String(v || '').trim()] *)
Definition text_or_empty (v : jsv) : jsstr := trim (to_string (js_or v (JStr []))).

Definition re_plain (raw : jsstr) : re_draft :=
  {| re_message := raw; re_statusCode := of_Z 400; re_code := []; re_type := []; re_skipRetry := true;
     re_simpleMode := true |}.

Definition parseReturnErrorDraft (valueText : jsstr) : re_draft :=
  let raw := trim valueText in
  if bool_decide (raw = []) then re_defaults
  else
    match json_parse raw with
    | Some (JObj p) =>
        let parsed := JObj p in
        let statusRaw := match parsed?."status_code" with JUndef => parsed?."status" | v => v end in
        {| re_message := text_or_empty (js_or (parsed?."message") (parsed?."msg"));
           re_statusCode := status_or_400 (to_number statusRaw);
           re_code := text_or_empty (parsed?."code");
           re_type := text_or_empty (parsed?."type");
           re_skipRetry := negb (is_false (parsed?."skip_retry"));
           re_simpleMode := false |}
    | _ => re_plain raw
    end.

(** [JSON.stringify] of an object that is never undefined *)
Definition compact_text (v : jsv) : jsstr := match stringify v with Some s => s | None => u "undefined" end.

Definition re_payload (draft : re_draft) : jsv :=
  let code := trim (re_code draft) in
  let type := trim (re_type draft) in
  JObj (set_if (negb (re_skipRetry draft)) "skip_retry" (JBool false)
       (set_if (ne type) "type" (JStr type)
       (set_if (ne code) "code" (JStr code)
         [(u "message", JStr (trim (re_message draft)));
          (u "status_code", JNum (status_or_400 (re_statusCode draft)))]))).

Definition buildReturnErrorValueText (draft : re_draft) : jsstr :=
  if re_simpleMode draft then trim (re_message draft) else compact_text (re_payload draft).

(** The patches of the form: its fields, its modes and its three presets. *)
Inductive re_patch :=
  | RMessage (s : jsstr) | RStatus (n : num) | RCode (s : jsstr) | RType (s : jsstr) | RSkip (b : bool)
  | RSimple (b : bool) | RPreset (n : num) (code type : jsstr).

Definition patch_re (p : re_patch) (d : re_draft) : re_draft :=
  {| re_message := match p with RMessage s => s | _ => re_message d end;
     re_statusCode := match p with RStatus n | RPreset n _ _ => n | _ => re_statusCode d end;
     re_code := match p with RCode s | RPreset _ s _ => s | _ => re_code d end;
     re_type := match p with RType s | RPreset _ _ s => s | _ => re_type d end;
     re_skipRetry := match p with RSkip b => b | _ => re_skipRetry d end;
     re_simpleMode := match p with RSimple b => b | _ => re_simpleMode d end |}.

Definition op_by_id (id : Z) (e : po_editor) : option operation :=
  snd <$> list_find (fun o => o_id o = id) (operations e).

Definition updateReturnErrorDraft (id : Z) (p : re_patch) (e : po_editor) : po_editor :=
  match op_by_id id e with
  | None => e
  | Some current =>
      updateOperation id
        (SetValueText (buildReturnErrorValueText (patch_re p (parseReturnErrorDraft (o_value_text current))))) e
  end.

(** ** The conditions of prune_objects *)

Record prune_draft := {
  pd_simpleMode : bool; pd_typeText : jsstr; pd_logic : jsstr; pd_recursive : bool; pd_rules : list pcondition
}.

Definition pd_defaults : prune_draft :=
  {| pd_simpleMode := true; pd_typeText := []; pd_logic := u "AND"; pd_recursive := true; pd_rules := [] |}.

Definition pd_plain (typeText : jsstr) : prune_draft :=
  {| pd_simpleMode := true; pd_typeText := typeText; pd_logic := u "AND"; pd_recursive := true; pd_rules := [] |}.

(** Of a value that is not null; an identifier is taken. *)
Definition normalizePruneRule (seed : Z) (rule : jsv) : pcondition :=
  {| pc_id := seed; pc_path := str_field (rule?."path");
     pc_mode := mode_field CONDITION_MODE_VALUES "full" (rule?."mode");
     pc_value_text := toValueText (rule?."value"); pc_invert := is_true (rule?."invert");
     pc_pass_missing_key := is_true (rule?."pass_missing_key") |}.

Fixpoint normalizePruneRules (seed : Z) (l : list jsv) : list pcondition :=
  match l with
  | [] => []
  | x :: l' => normalizePruneRule seed x :: normalizePruneRules (seed + 1) l'
  end.

(** One rule for each property of a table of values. *)
Definition where_rules (v : jsv) : list jsv :=
  match v with
  | JObj o => (fun kv => JObj [(u "path", JStr kv.1); (u "mode", JStr (u "full")); (u "value", kv.2)]) <$> o
  | _ => []
  end.

Definition condition_rules (v : jsv) : list jsv :=
  match v with
  | JArr l => List.filter is_object l
  | v => where_rules v
  end.

Definition defined (v : jsv) : bool := match v with JUndef => false | _ => true end.

Section Prune.
Context `{UnicodeCase}.

(** [String(v || 'AND').toUpperCase() === 'OR'] *)
Definition logic_or (v : jsv) : bool :=
  bool_decide (toUpperCase (to_string (js_or v (JStr (u "AND")))) = u "OR").

Definition parsePruneObjectsDraft (seed : Z) (valueText : jsstr) : prune_draft * Z :=
  let raw := trim valueText in
  if bool_decide (raw = []) then (pd_defaults, seed)
  else
    match json_parse raw with
    | None => (pd_plain raw, seed)
    | Some (JStr s) => (pd_plain (trim s), seed)
    | Some (JObj p) =>
        let parsed := JObj p in
        let rules := where_rules (parsed?."where") ++ condition_rules (parsed?."conditions") in
        ({| pd_simpleMode := negb (defined (parsed?."logic") || defined (parsed?."recursive")
                                   || defined (parsed?."where") || defined (parsed?."conditions"));
            pd_typeText := match parsed?."type" with JUndef => [] | ty => trim (to_string ty) end;
            pd_logic := if logic_or (parsed?."logic") then u "OR" else u "AND";
            pd_recursive := negb (is_false (parsed?."recursive"));
            pd_rules := normalizePruneRules seed rules |},
         seed + Z.of_nat (length rules))
    | Some v => (pd_plain (trim (to_string (js_nullish v (JStr [])))), seed)
    end.

Definition prune_rule_payload (rule : pcondition) : jsv :=
  let valueRaw := trim (pc_value_text rule) in
  JObj (set_if (pc_pass_missing_key rule) "pass_missing_key" (JBool true)
       (set_if (pc_invert rule) "invert" (JBool true)
       (set_if (ne valueRaw) "value" (parseLooseValue valueRaw)
         [(u "path", JStr (trim (pc_path rule)));
          (u "mode", JStr (if has_mode CONDITION_MODE_VALUES (pc_mode rule) then pc_mode rule else u "full"))]))).

Definition prune_payload (draft : prune_draft) : list (jsstr * jsv) :=
  let typeText := trim (pd_typeText draft) in
  let conditions := prune_rule_payload <$> List.filter (fun r => ne (trim (pc_path r))) (pd_rules draft) in
  set_if (nonempty_array (JArr conditions)) "conditions" (JArr conditions)
    (set_if (negb (pd_recursive draft)) "recursive" (JBool false)
    (set_if (logic_or (JStr (pd_logic draft))) "logic" (JStr (u "OR"))
    (set_if (ne typeText) "type" (JStr typeText) []))).

Definition buildPruneObjectsValueText (draft : prune_draft) : jsstr :=
  if pd_simpleMode draft then trim (pd_typeText draft)
  else
    let payload := JObj (prune_payload draft) in
    if negb (truthy (payload?."type")) && negb (truthy (payload?."conditions"))
    then compact_text (JObj [(u "logic", JStr (u "AND"))])
    else compact_text payload.

(** [updater] is given the counter, for the rules it makes. *)
Definition updatePruneObjectsDraft (id : Z) (updater : Z -> prune_draft -> prune_draft * Z) (e : po_editor)
  : po_editor :=
  match op_by_id id e with
  | None => e
  | Some current =>
      let d := parsePruneObjectsDraft (localIdSeed e) (o_value_text current) in
      let d' := updater d.2 d.1 in
      set_seed d'.2 (updateOperation id (SetValueText (buildPruneObjectsValueText d'.1)) e)
  end.

Inductive prune_patch := PSimple (b : bool) | PType (s : jsstr) | PLogic (s : jsstr) | PRecursive (b : bool).

Definition patch_prune (p : prune_patch) (seed : Z) (d : prune_draft) : prune_draft * Z :=
  ({| pd_simpleMode := match p with PSimple b => b | _ => pd_simpleMode d end;
      pd_typeText := match p with PType s => s | _ => pd_typeText d end;
      pd_logic := match p with PLogic s => if ne s then s else u "AND" | _ => pd_logic d end;
      pd_recursive := match p with PRecursive b => b | _ => pd_recursive d end;
      pd_rules := pd_rules d |}, seed).

Definition with_rules (simple : bool) (rules : list pcondition) (d : prune_draft) : prune_draft :=
  {| pd_simpleMode := simple; pd_typeText := pd_typeText d; pd_logic := pd_logic d;
     pd_recursive := pd_recursive d; pd_rules := rules |}.

Definition addPruneRule (id : Z) (e : po_editor) : po_editor :=
  updatePruneObjectsDraft id
    (fun seed d => (with_rules false (pd_rules d ++ [normalizePruneRule seed (JObj [])]) d, seed + 1)) e.

Definition updatePruneRule (id ruleId : Z) (p : cond_patch) (e : po_editor) : po_editor :=
  updatePruneObjectsDraft id
    (fun seed d => (with_rules (pd_simpleMode d)
                      ((fun r => if pc_id r =? ruleId then patch_cond p r else r) <$> pd_rules d) d, seed)) e.

Definition removePruneRule (id ruleId : Z) (e : po_editor) : po_editor :=
  updatePruneObjectsDraft id
    (fun seed d => (with_rules (pd_simpleMode d)
                      (List.filter (fun r => negb (pc_id r =? ruleId)) (pd_rules d)) d, seed)) e.

(** The form that is shown for the selected card, and the identifiers that
    showing it takes. *)
Definition selectedOperation (e : po_editor) : option operation :=
  match selectedOperationId e with Some id => op_by_id id e | None => None end.

Definition pruneObjectsDraft (e : po_editor) : option prune_draft * po_editor :=
  match selectedOperation e with
  | Some o =>
      if bool_decide (o_mode o = u "prune_objects") then
        let d := parsePruneObjectsDraft (localIdSeed e) (o_value_text o) in (Some d.1, set_seed d.2 e)
      else (None, e)
  | None => (None, e)
  end.

Definition returnErrorDraft (e : po_editor) : option re_draft :=
  match selectedOperation e with
  | Some o => if bool_decide (o_mode o = u "return_error") then Some (parseReturnErrorDraft (o_value_text o)) else None
  | None => None
  end.

(** ** The ends of sync_fields *)

Inductive sync_type := SJson | SHeader.

Fixpoint index_of (c : Z) (s : jsstr) : option nat :=
  match s with
  | [] => None
  | x :: s' => if x =? c then Some 0%nat else S <$> index_of c s'
  end.

Definition parseSyncTargetSpec (spec : jsstr) : sync_type * jsstr :=
  let raw := trim spec in
  if bool_decide (raw = []) then (SJson, [])
  else
    match index_of 58 raw with
    | None => (SJson, raw)
    | Some idx =>
        let prefix := toLowerCase (trim (take idx raw)) in
        let key := trim (drop (S idx) raw) in
        (if bool_decide (prefix = u "header") then SHeader else SJson, key)
    end.

Definition buildSyncTargetSpec (type : sync_type) (key : jsstr) : jsstr :=
  let normalizedType := match type with SHeader => u "header" | SJson => u "json" end in
  let normalizedKey := trim key in
  if bool_decide (normalizedKey = []) then [] else normalizedType ++ [58] ++ normalizedKey.

(** ** Built-in fields and the value as JSON *)

Inductive field_target := TPath | TFrom | TTo.

(** [None] when the mode has no such field. *)
Definition field_patch (fieldKey : jsstr) (target : field_target) (mode : jsstr) : option op_patch :=
  let meta := meta_of mode in
  let sync := bool_decide (mode = u "sync_fields") in
  let text := if sync then buildSyncTargetSpec SJson fieldKey else fieldKey in
  match target with
  | TPath => if m_path meta || m_pathOptional meta || m_pathAlias meta then Some (SetPath fieldKey) else None
  | TFrom => if m_from meta || m_pathAlias meta || sync then Some (SetFrom text) else None
  | TTo => if m_to meta || sync then Some (SetTo text) else None
  end.

Definition applyBuiltinField (fieldKey : jsstr) (target : field_target) (e : po_editor) : po_editor :=
  match selectedOperation e with
  | None => e
  | Some o =>
      match field_patch fieldKey target (mode_or_set (o_mode o)) with
      | Some p => updateOperation (o_id o) p e
      | None => e
      end
  end.

Definition formatSelectedOperationValueAsJson (e : po_editor) : po_editor :=
  match selectedOperation e with
  | None => e
  | Some o =>
      let raw := trim (o_value_text o) in
      if bool_decide (raw = []) then e
      else match json_parse raw with
           | None => e
           | Some v => updateOperation (o_id o) (SetValueText (text_of v)) e
           end
  end.

(** ** What the list of cards shows *)

Definition getOperationSummary (o : operation) (index : Z) : jsstr :=
  let mode := mode_or_set (o_mode o) in
  let modeLabel :=
    match list_find (fun kv => kv.2 = mode) OPERATION_MODE_OPTIONS with
    | Some (_, kv) => if ne kv.1 then kv.1 else mode
    | None => mode
    end in
  let path := trim (o_path o) in
  let from := trim (o_from o) in
  let to := trim (o_to o) in
  let or_text a b := if ne a then a else b in
  let shown :=
    if bool_decide (mode = u "sync_fields") then or_text from (or_text to (u "-"))
    else or_text path (or_text from (or_text to (u "-"))) in
  str_of_Z (index + 1) ++ u ". " ++ modeLabel ++ u " · " ++ shown.

Definition getOperationModeTagColor (mode : jsstr) : jsstr :=
  if includes (u "header") mode then u "cyan"
  else if includes (u "replace") mode || includes (u "trim") mode then u "violet"
  else if includes (u "copy") mode || includes (u "move") mode then u "blue"
  else if includes (u "error") mode || includes (u "prune") mode then u "red"
  else if includes (u "sync") mode then u "green"
  else u "grey".

Definition filteredOperations (operationSearch : jsstr) (ops : list operation) : list operation :=
  let keyword := toLowerCase (trim operationSearch) in
  if bool_decide (keyword = []) then ops
  else
    List.filter
      (fun o => includes keyword (toLowerCase (join (u " ")
         (List.filter ne [o_description o; o_mode o; o_path o; o_from o; o_to o; o_value_text o])))) ops.

Definition operationCount (ops : list operation) : Z :=
  Z.of_nat (length (List.filter (fun o => negb (isOperationBlank o)) ops)).

(** The keys are modes, never array indices. *)
Definition count_mode (acc : list (jsstr * Z)) (o : operation) : list (jsstr * Z) :=
  let mode := mode_or_set (o_mode o) in
  om_set mode (match om_get mode acc with Some n => n | None => 0 end + 1) acc.

Definition topOperationModes (ops : list operation) : list (jsstr * Z) :=
  take 4 (sort_by (fun a b => b.2 - a.2) (fold_left count_mode ops [])).
End Prune.
