(* ===== verification/ParamOverrideEditor.v ===== *)
(** * The states of the parameter override editor

    Model of the handlers of
    web/classic/src/components/table/channels/modals/ParamOverrideEditorModal.jsx
    as the actions of a user: dragging cards, opening and closing conditions, and
    the states that an open editor can be in. *)

From S2P Require Import Prelude JsString JsNumber JsNumText JsValue JsJson ParamOverride ParamOverrideDrafts.

#[local] Open Scope Z_scope.

(** ** Dragging a card *)

Record drag := { draggedOperationId : option Z; dragOverOperationId : option Z; dragOverAfter : bool }.

Definition resetOperationDragState : drag :=
  {| draggedOperationId := None; dragOverOperationId := None; dragOverAfter := false |}.

Definition handleOperationDragStart (id : Z) (d : drag) (e : po_editor) : drag * po_editor :=
  ({| draggedOperationId := Some id; dragOverOperationId := dragOverOperationId d;
      dragOverAfter := dragOverAfter d |}, set_selected_op (Some id) e).

(** [lower]: the pointer is in the lower half of the card. *)
Definition handleOperationDragOver (lower : bool) (id : Z) (d : drag) : drag :=
  match draggedOperationId d with
  | None => d
  | Some s =>
      if s =? id then d
      else {| draggedOperationId := draggedOperationId d; dragOverOperationId := Some id; dragOverAfter := lower |}
  end.

(** [data]: the identifier that the drag carries. *)
Definition handleOperationDrop (data : option Z) (id : Z) (d : drag) (e : po_editor) : drag * po_editor :=
  let sourceId := match draggedOperationId d with Some s => Some s | None => data end in
  let after := if bool_decide (dragOverOperationId d = Some id) then dragOverAfter d else false in
  (resetOperationDragState, moveOperation sourceId (Some id) after e).

(** ** Opening and closing conditions *)

Definition handleConditionCollapseChange (id : Z) (keys : list Z) (e : po_editor) : po_editor :=
  set_expanded (om_set id keys (expandedConditionMap e)) e.

Definition expandAllSelectedConditions (e : po_editor) : po_editor :=
  match selectedOperationId e, selectedOperation e with
  | Some id, Some o => set_expanded (om_set id (pc_id <$> o_conditions o) (expandedConditionMap e)) e
  | _, _ => e
  end.

Definition collapseAllSelectedConditions (e : po_editor) : po_editor :=
  match selectedOperationId e with
  | Some id => set_expanded (om_set id [] (expandedConditionMap e)) e
  | None => e
  end.

(** The text area of the legacy mode. *)
Definition set_legacy (text : jsstr) (e : po_editor) : po_editor :=
  {| editMode := editMode e; visualMode := visualMode e; legacyValue := text; operations := operations e;
     jsonText := jsonText e; jsonError := jsonError e; selectedOperationId := selectedOperationId e;
     expandedConditionMap := expandedConditionMap e; localIdSeed := localIdSeed e |}.

(** ** What a user can do *)

Inductive po_action :=
  | AUpdate (id : Z) (p : op_patch)
  | AAdd
  | ADragStart (id : Z)
  | ADrop (data : option Z) (id : Z) (d : drag)
  | ADuplicate (ran : bool) (id : Z)
  | ARemove (id : Z)
  | AAddCondition (id : Z)
  | AUpdateCondition (id cid : Z) (p : cond_patch)
  | ARemoveCondition (id cid : Z)
  | ACollapse (id : Z) (keys : list Z)
  | AExpandAll
  | ACollapseAll
  | AReturnError (id : Z) (p : re_patch)
  | AShowPrune
  | APrune (id : Z) (p : prune_patch)
  | AAddPruneRule (id : Z)
  | AUpdatePruneRule (id ruleId : Z) (p : cond_patch)
  | ARemovePruneRule (id ruleId : Z)
  | AField (fieldKey : jsstr) (target : field_target)
  | AFormatValue
  | ASelect (id : Z)
  | AJson
  | AVisual
  | ALegacyText (text : jsstr)
  | AFill (templatePresetKey : jsstr)
  | AAppend (templatePresetKey : jsstr)
  | AReset
  | AType (text : jsstr)
  | AFormat.

Section Actions.
Context `{UnicodeCase}.
Context (t : jsstr -> Z -> jsstr).

Definition po_handle (a : po_action) (e : po_editor) : exc po_editor :=
  match a with
  | AUpdate id p => Ret (updateOperation id p e)
  | AAdd => Ret (addOperation e)
  | ADragStart id => Ret (handleOperationDragStart id resetOperationDragState e).2
  | ADrop data id d => Ret (handleOperationDrop data id d e).2
  | ADuplicate ran id => duplicateOperation ran id e
  | ARemove id => Ret (removeOperation id e)
  | AAddCondition id => Ret (addCondition id e)
  | AUpdateCondition id cid p => Ret (updateCondition id cid p e)
  | ARemoveCondition id cid => Ret (removeCondition id cid e)
  | ACollapse id keys => Ret (handleConditionCollapseChange id keys e)
  | AExpandAll => Ret (expandAllSelectedConditions e)
  | ACollapseAll => Ret (collapseAllSelectedConditions e)
  | AReturnError id p => Ret (updateReturnErrorDraft id p e)
  | AShowPrune => Ret (pruneObjectsDraft e).2
  | APrune id p => Ret (updatePruneObjectsDraft id (patch_prune p) e)
  | AAddPruneRule id => Ret (addPruneRule id e)
  | AUpdatePruneRule id ruleId p => Ret (updatePruneRule id ruleId p e)
  | ARemovePruneRule id ruleId => Ret (removePruneRule id ruleId e)
  | AField fieldKey target => Ret (applyBuiltinField fieldKey target e)
  | AFormatValue => Ret (formatSelectedOperationValueAsJson e)
  | ASelect id => Ret (set_selected_op (Some id) e)
  | AJson => Ret (switchToJsonMode t e)
  | AVisual => switchToVisualMode e
  | ALegacyText text => Ret (set_legacy text e)
  | AFill key => fillTemplateFromLibrary key e
  | AAppend key => appendTemplateFromLibrary key e
  | AReset => Ret (resetEditorState e)
  | AType text => Ret (handleJsonChange t text e)
  | AFormat => Ret (formatJson e)
  end.

(** The states of an open editor: a stored value, then actions, each followed by
    the effect on the selection.  A handler that throws changes nothing but the
    counter of identifiers, which another editor of the page moves too. *)
Inductive po_reachable : po_editor -> Prop :=
  | po_open seed value e : parseInitialState seed value = Ret e -> po_reachable (fix_selected e)
  | po_step e a e' : po_reachable e -> po_handle a e = Ret e' -> po_reachable (fix_selected e')
  | po_count e n : po_reachable e -> 0 <= n -> po_reachable (set_seed (localIdSeed e + n) e).
End Actions.
