(* ===== verification/ParamOverrideThms.v ===== *)
(** * Theorems about the parameter override editor

    Moving a card, the identifiers and the selection of the editor in every
    state a user can reach, what validation accepts, and the templates. *)

From S2P Require Import Prelude JsString JsNumber JsNumText JsValue JsJson ParamOverride.
From S2P Require Import JsJsonRound ParamOverrideRound ParamOverrideDrafts ParamOverrideEditor.

#[local] Open Scope Z_scope.

(** ** Moving a card *)

Section Reorder.
Implicit Types (ops : list operation).

Lemma list_find_split (P : operation -> Prop) `{!forall o, Decision (P o)} ops i o :
  list_find P ops = Some (i, o) -> ops = take i ops ++ o :: drop (S i) ops /\ P o.
Proof.
  intros Hf. apply list_find_Some in Hf as (Hl & HP & _). split; [|done].
  by rewrite (take_drop_middle ops i o Hl).
Qed.

Lemma reorder_perm ops s g after : reorderOperations ops s g after ≡ₚ ops.
Proof.
  unfold reorderOperations. destruct s as [s|]; [|done]. destruct g as [g|]; [|done].
  destruct (s =? g); [done|]. destruct (list_find _ ops) as [[i moved]|] eqn:E; [|done]. cbv zeta.
  destruct (find_index g _) as [j|]; [|done]. apply list_find_split in E as [E _].
  set (next := take i ops ++ drop (S i) ops). transitivity (moved :: next); [|etransitivity; [apply Permutation_middle | by rewrite <- E]].
  cbn [app]. rewrite <- Permutation_middle. by rewrite take_drop.
Qed.

Lemma find_id_some ops s i o :
  NoDup (o_id <$> ops) -> ops !! i = Some o -> o_id o = s -> list_find (fun o => o_id o = s) ops = Some (i, o).
Proof.
  intros Hnd Hl Hs. apply list_find_Some. split_and!; [done | done|]. intros j y Hy Hj Hc.
  assert (j = i); [|lia]. eapply (NoDup_lookup (o_id <$> ops)); [done | |].
  - by rewrite list_lookup_fmap, Hy.
  - rewrite list_lookup_fmap, Hl. simpl. congruence.
Qed.

Definition without (s : Z) ops : list operation := List.filter (fun o => negb (o_id o =? s)) ops.

Lemma without_split a o b s :
  NoDup (o_id <$> a ++ o :: b) -> o_id o = s -> without s (a ++ o :: b) = a ++ b.
Proof.
  intros Hnd Hs. rewrite fmap_app, fmap_cons in Hnd. apply NoDup_app in Hnd as (_ & Hd & Hb).
  apply NoDup_cons in Hb as [Hb _]. unfold without. rewrite List.filter_app. cbn [List.filter].
  rewrite Hs, Z.eqb_refl. cbn [negb].
  assert (forall l, s ∉ o_id <$> l -> List.filter (fun o => negb (o_id o =? s)) l = l) as Hid.
  { intros l Hl. apply lfilter_id. apply Forall_forall. intros x Hx.
    destruct (Z.eqb_spec (o_id x) s) as [E|]; [|done]. destruct Hl. rewrite <- E. by apply list_elem_of_fmap_2. }
  rewrite !Hid; [done | by rewrite <- Hs |].
  intros Hin. apply (Hd _ Hin). rewrite Hs. left.
Qed.

(** Dropping a card on another one puts it directly before or after that
    card, as asked; every other card keeps its place in the order. *)
Theorem reorder_spec ops so to (after : bool) :
  NoDup (o_id <$> ops) -> so ∈ ops -> to ∈ ops -> o_id so <> o_id to ->
  exists a b,
    reorderOperations ops (Some (o_id so)) (Some (o_id to)) after
    = a ++ (if after then [to; so] else [so; to]) ++ b
    /\ a ++ to :: b = without (o_id so) ops.
Proof.
  intros Hnd Hs Hg Hne. unfold reorderOperations. destruct (Z.eqb_spec (o_id so) (o_id to)); [done|].
  apply list_elem_of_lookup in Hs as [i Hi]. rewrite (find_id_some _ _ _ _ Hnd Hi eq_refl). cbv zeta.
  pose proof (take_drop_middle ops i so Hi) as Eops. set (next := take i ops ++ drop (S i) ops).
  assert (without (o_id so) ops = next) as Ew by (rewrite <- Eops; apply without_split; [by rewrite Eops | done]).
  assert (NoDup (o_id <$> next)) as Hnd'.
  { rewrite <- Eops, fmap_app, fmap_cons, <- Permutation_middle in Hnd. apply NoDup_cons in Hnd as [_ Hnd].
    unfold next. by rewrite fmap_app. }
  assert (to ∈ next) as Hto.
  { rewrite <- Ew. apply elem_of_lfilter. split; [done|]. by destruct (Z.eqb_spec (o_id to) (o_id so)). }
  apply list_elem_of_lookup in Hto as [j Hj]. unfold find_index. rewrite (find_id_some _ _ _ _ Hnd' Hj eq_refl).
  exists (take j next), (drop (S j) next). rewrite Ew, take_drop_middle by done. split; [|done].
  destruct after.
  - rewrite (take_S_r next j to) by done. by rewrite <- app_assoc.
  - rewrite <- (take_drop_middle next j to) at 2 by done. rewrite drop_app_length'; [done|].
    rewrite length_take. apply lookup_lt_Some in Hj. lia.
Qed.
End Reorder.

(** ** Identifiers *)

(** The identifiers of an operation and of its conditions. *)
Definition op_ids (o : operation) : list Z := o_id o :: (pc_id <$> o_conditions o).
Definition all_ids (ops : list operation) : list Z := concat (op_ids <$> ops).

(** Identifiers taken between two values of the counter. *)
Record taken (s s' : Z) (ids : list Z) : Prop := {
  taken_nodup : NoDup ids;
  taken_range : Forall (fun i => s <= i < s') ids;
  taken_grow : s <= s'
}.

Lemma taken_nil s : taken s s [].
Proof. split; [constructor | constructor | lia]. Qed.

Lemma taken_one s : taken s (s + 1) [s].
Proof. split; [apply NoDup_singleton | constructor; [lia | constructor] | lia]. Qed.

Lemma taken_app a b c l k : taken a b l -> taken b c k -> taken a c (l ++ k).
Proof.
  intros [N1 R1 G1] [N2 R2 G2]. split; [|apply Forall_app; split|lia].
  - apply NoDup_app. split_and!; [done | | done]. rewrite !Forall_forall in *. intros x H1 H2.
    specialize (R1 _ H1). specialize (R2 _ H2). lia.
  - eapply Forall_impl; [exact R1|]. simpl. lia.
  - eapply Forall_impl; [exact R2|]. simpl. lia.
Qed.

Lemma bind_ret {A B} (m : exc A) (f : A -> exc B) b : m ≫= f = Ret b -> exists a, m = Ret a /\ f a = Ret b.
Proof. destruct m; [by eexists | done]. Qed.

Lemma map_seeded_taken {A B} (f : Z -> A -> exc (B * Z)) (ids : B -> list Z) l s r :
  (forall s x r, f s x = Ret r -> taken s r.2 (ids r.1)) ->
  map_seeded f s l = Ret r -> taken s r.2 (concat (ids <$> r.1)) /\ length r.1 = length l.
Proof.
  intros Hf. revert s r. induction l as [|x l IH]; intros s r; cbn [map_seeded].
  - intros [= <-]. split; [apply taken_nil | done].
  - intros (y & Hy & (ys & Hys & E)%bind_ret)%bind_ret. apply Ret_inj in E. subst r. cbn [fst snd].
    destruct (IH _ _ Hys) as [Ht Hlen]. rewrite fmap_cons. cbn [concat length]. split; [|by rewrite Hlen].
    eapply taken_app; [by eapply Hf | exact Ht].
Qed.

Section Ids.
Context `{UnicodeCase}.

Lemma normalizeCondition_taken s c r : normalizeCondition s c = Ret r -> taken s r.2 [pc_id r.1].
Proof.
  unfold normalizeCondition. intros (v & _ & E)%bind_ret. apply Ret_inj in E. subst r. apply taken_one.
Qed.

Lemma concat_singletons {A} (l : list A) : concat ((fun x => [x]) <$> l) = l.
Proof. induction l as [|x l IH]; [done|]. rewrite fmap_cons. cbn [concat app]. by rewrite IH. Qed.

Lemma normalizeOperation_taken s o r : normalizeOperation s o = Ret r -> taken s r.2 (op_ids r.1).
Proof.
  unfold normalizeOperation. intros (v & _ & (cs & Hcs & E)%bind_ret)%bind_ret. apply Ret_inj in E. subst r.
  unfold op_ids. cbn [fst snd o_id o_conditions].
  apply (taken_app s (s + 1) _ [s]); [apply taken_one|].
  destruct (oget v (u "conditions")); try (apply Ret_inj in Hcs; subst cs; apply taken_nil).
  apply (map_seeded_taken _ (fun c => [pc_id c])) in Hcs as [Ht _]; [|exact normalizeCondition_taken].
  assert (concat ((fun c => [pc_id c]) <$> cs.1) = pc_id <$> cs.1) as E; [|by rewrite E in Ht].
  rewrite <- (concat_singletons (pc_id <$> cs.1)). by rewrite <- list_fmap_compose.
Qed.

Lemma load_operations_taken s l r : load_operations s l = Ret r -> taken s r.2 (all_ids r.1) /\ r.1 <> [].
Proof.
  unfold load_operations. destruct l as [|x l].
  - intros E. apply Ret_inj in E. subst r. split; [apply taken_one | done].
  - intros Hr. apply (map_seeded_taken _ op_ids) in Hr as [Ht Hlen]; [|exact normalizeOperation_taken].
    split; [exact Ht|]. intros E. rewrite E in Hlen. done.
Qed.
End Ids.

(** The identifiers on screen are distinct and below the counter, and there is a card. *)
Record ids_wf (e : po_editor) : Prop := {
  wf_some : operations e <> [];
  wf_nodup : NoDup (all_ids (operations e));
  wf_below : Forall (fun i => i < localIdSeed e) (all_ids (operations e))
}.

Lemma submseteq_NoDup {A} (l k : list A) : l ⊆+ k -> NoDup k -> NoDup l.
Proof. intros [k' Hk]%submseteq_Permutation. rewrite Hk. by intros (? & _)%NoDup_app. Qed.

(** An action whose cards only have old identifiers and newly taken ones. *)
Lemma ids_wf_grow e e' new :
  ids_wf e -> operations e' <> [] -> taken (localIdSeed e) (localIdSeed e') new ->
  all_ids (operations e') ⊆+ new ++ all_ids (operations e) -> ids_wf e'.
Proof.
  intros [_ Hnd Hb] Hne [Nn Rn Gn] Hsub. split; [done| |].
  - eapply submseteq_NoDup; [exact Hsub|]. apply NoDup_app. split_and!; [done | | done].
    rewrite Forall_forall in *. intros i H1 H2. specialize (Rn i H1). specialize (Hb i H2). lia.
  - rewrite Forall_forall in *. intros i Hi. apply (elem_of_submseteq _ _ _ Hi) in Hsub.
    apply elem_of_app in Hsub as [Hi'|Hi']; [specialize (Rn i Hi'); lia | specialize (Hb i Hi'); lia].
Qed.

Lemma ids_wf_fresh e s : operations e <> [] -> taken s (localIdSeed e) (all_ids (operations e)) -> ids_wf e.
Proof.
  intros Hne [Hnd Hr _]. split; [done | done|]. eapply Forall_impl; [exact Hr|]. simpl. lia.
Qed.

Lemma ids_wf_same e e' :
  ids_wf e -> all_ids (operations e') = all_ids (operations e) -> localIdSeed e' = localIdSeed e ->
  operations e' <> [] -> ids_wf e'.
Proof. intros [Hs Hn Hb] E1 E2 Hne. split; [done | by rewrite E1 | by rewrite E1, E2]. Qed.

(** ** The handlers and the identifiers *)

Lemma all_ids_app l k : all_ids (l ++ k) = all_ids l ++ all_ids k.
Proof. unfold all_ids. by rewrite fmap_app, concat_app. Qed.

Lemma all_ids_cons o l : all_ids (o :: l) = op_ids o ++ all_ids l.
Proof. done. Qed.

Lemma all_ids_perm l k : l ≡ₚ k -> all_ids l ≡ₚ all_ids k.
Proof.
  induction 1 as [|x l k _ IH|x y l|l k m _ IH1 _ IH2]; rewrite ?all_ids_cons; [done | by rewrite IH | | by etransitivity].
  rewrite !app_assoc. by rewrite (Permutation_app_comm (op_ids y)).
Qed.

Lemma all_ids_filter p l : all_ids (List.filter p l) ⊆+ all_ids l.
Proof.
  induction l as [|o l IH]; [done|]. cbn [List.filter]. rewrite all_ids_cons.
  destruct (p o); [by apply submseteq_app | by apply submseteq_inserts_l].
Qed.

Lemma on_op_ids id f l : (forall o, op_ids (f o) ⊆+ op_ids o) -> all_ids (on_op id f l) ⊆+ all_ids l.
Proof.
  intros Hf. induction l as [|o l IH]; [done|]. unfold on_op. rewrite fmap_cons, !all_ids_cons.
  apply submseteq_app; [by destruct (o_id o =? id) | exact IH].
Qed.

Lemma o_id_in_all l id : id ∈ o_id <$> l -> id ∈ all_ids l.
Proof.
  intros (o & -> & Ho)%list_elem_of_fmap. unfold all_ids. apply elem_of_concat_fmap. exists o. split; [done|]. left.
Qed.

Lemma on_op_absent id f l : id ∉ o_id <$> l -> on_op id f l = l.
Proof.
  induction l as [|o l IH]; [done|]. rewrite fmap_cons, not_elem_of_cons. intros [Hne Hn].
  unfold on_op. rewrite fmap_cons. destruct (Z.eqb_spec (o_id o) id); [congruence|]. f_equal. by apply IH.
Qed.

(** Only one operation has the identifier, so only one takes the new one. *)
Lemma on_op_new_id id f l s :
  NoDup (all_ids l) -> (forall o, op_ids (f o) ≡ₚ s :: op_ids o) -> all_ids (on_op id f l) ⊆+ s :: all_ids l.
Proof.
  intros Hnd Hf. induction l as [|o l IH]; [by apply submseteq_nil_l|].
  rewrite all_ids_cons in Hnd. apply NoDup_app in Hnd as (_ & Hd & Hl). unfold on_op. rewrite fmap_cons, !all_ids_cons.
  fold (on_op id f l). destruct (Z.eqb_spec (o_id o) id) as [E|].
  - rewrite on_op_absent; [by rewrite Hf|]. intros Hin%o_id_in_all. apply (Hd id); [|done]. rewrite <- E. left.
  - rewrite app_comm_cons, (Permutation_cons_append (op_ids o) s), <- app_assoc. apply submseteq_skips_l. by apply IH.
Qed.

Lemma on_op_nil id f l : on_op id f l = [] -> l = [].
Proof. by destruct l. Qed.

Section Invariant.
Context `{UnicodeCase}.
Context (t : jsstr -> Z -> jsstr).

Lemma parseInitialState_wf seed v e : parseInitialState seed v = Ret e -> ids_wf e.
Proof.
  unfold parseInitialState. cbv zeta. intros Hp.
  repeat match type of Hp with
  | (if ?b then _ else _) = Ret _ => destruct b
  | match ?x with _ => _ end = Ret _ => destruct x
  end; try (apply bind_ret in Hp as (r & [Hr Hne]%load_operations_taken & Hp));
  apply Ret_inj in Hp; subst e;
  first [by apply (ids_wf_fresh _ seed) | apply (ids_wf_fresh _ seed); [done | apply taken_one]].
Qed.

Lemma switchToVisualMode_wf e e' : ids_wf e -> switchToVisualMode e = Ret e' -> ids_wf e'.
Proof.
  intros He. unfold switchToVisualMode. cbv zeta. intros Hp.
  repeat match type of Hp with
  | (if ?b then _ else _) = Ret _ => destruct b
  | match ?x with _ => _ end = Ret _ => destruct x
  end; try (apply bind_ret in Hp as (r & [Hr Hne]%load_operations_taken & Hp));
  apply Ret_inj in Hp; subst e';
  first [done | by apply (ids_wf_fresh _ (localIdSeed e))
        | apply (ids_wf_fresh _ (localIdSeed e)); [done | apply taken_one]].
Qed.

Lemma patch_ids p o : op_ids (patch_op p o) = op_ids o.
Proof. done. Qed.

Lemma removeOperation_wf id e : ids_wf e -> ids_wf (removeOperation id e).
Proof.
  intros He. unfold removeOperation. destruct (Nat.leb_spec (length (operations e)) 1) as [_|Hlen].
  - apply (ids_wf_fresh _ (localIdSeed e)); [done | apply taken_one].
  - apply (ids_wf_grow e _ []); [done | | apply taken_nil | apply all_ids_filter].
    destruct He as [_ Hnd _]. cbn [operations set_expanded set_ops] in *.
    destruct (operations e) as [|o1 [|o2 l]] eqn:E; [simpl in Hlen; lia.. |]. cbn [List.filter].
    destruct (Z.eqb_spec (o_id o1) id) as [E1|]; [|done]. destruct (Z.eqb_spec (o_id o2) id) as [E2|]; [|done].
    rewrite !all_ids_cons in Hnd. apply NoDup_app in Hnd as (_ & Hd & _). destruct (Hd id).
    + rewrite <- E1. left.
    + apply elem_of_app. left. rewrite <- E2. left.
Qed.

Lemma duplicateOperation_wf ran id e e' : ids_wf e -> duplicateOperation ran id e = Ret e' -> ids_wf e'.
Proof.
  intros He. unfold duplicateOperation. destruct (list_find _ _) as [[i o]|]; [|by intros [= <-]].
  intros (r & Hr & E)%bind_ret. apply Ret_inj in E. subst e'. apply normalizeOperation_taken in Hr.
  assert (forall l s e', operations (if ran then set_selected_op s (set_seed l e') else set_seed l e') = operations e'
    /\ localIdSeed (if ran then set_selected_op s (set_seed l e') else set_seed l e') = l) as Hran by by destruct ran.
  apply (ids_wf_grow e _ (op_ids r.1)); [done | | |]; rewrite ?(proj1 (Hran _ _ _)), ?(proj2 (Hran _ _ _));
    [by destruct (take (S i) (operations e)) | done|].
  cbn [operations set_ops]. apply Permutation_submseteq.
  transitivity (all_ids (r.1 :: operations e)); [|done]. apply all_ids_perm. cbn [app].
  rewrite <- Permutation_middle. by rewrite take_drop.
Qed.

Lemma appendOperations_wf payload e e' :
  payload <> [] -> ids_wf e -> appendOperationsTemplate payload e = Ret e' -> ids_wf e'.
Proof.
  intros Hne He (r & Hr & E)%bind_ret. cbv zeta in E. apply Ret_inj in E. subst e'.
  apply (map_seeded_taken _ op_ids) in Hr as [Ht Hlen]; [|exact normalizeOperation_taken].
  apply (ids_wf_grow e _ (all_ids r.1)); [done | | done |]; cbn [operations fresh_editor].
  - intros [_ E]%app_nil. rewrite E in Hlen. by destruct payload.
  - rewrite all_ids_app, (Permutation_app_comm (all_ids r.1)). apply submseteq_skips_r.
    destruct (visualMode e); [apply all_ids_filter | apply submseteq_nil_l].
Qed.

Lemma moveOperation_wf s g after e : ids_wf e -> ids_wf (moveOperation s g after e).
Proof.
  intros He. unfold moveOperation. destruct s as [s|]; [|done]. destruct g as [g|]; [|done].
  destruct (s =? g); [done|]. pose proof (reorder_perm (operations e) (Some s) (Some g) after) as Hp.
  apply (ids_wf_grow e _ []); [done | | apply taken_nil | by apply Permutation_submseteq, all_ids_perm].
  cbn [operations set_selected_op set_ops]. intros E. rewrite E in Hp. apply Permutation_nil_l in Hp. by apply (wf_some _ He).
Qed.

Lemma updateOperation_wf id p e : ids_wf e -> ids_wf (updateOperation id p e).
Proof.
  intros He. apply (ids_wf_grow e _ []); [done | intros ?%on_op_nil; by apply (wf_some _ He) | apply taken_nil|].
  by apply on_op_ids.
Qed.

Lemma set_seed_wf s e : localIdSeed e <= s -> ids_wf e -> ids_wf (set_seed s e).
Proof.
  intros Hs He. apply (ids_wf_grow e _ []); [done | apply He | | done]. split; [constructor | constructor | done].
Qed.

Lemma parsePrune_seed seed vt : seed <= (parsePruneObjectsDraft seed vt).2.
Proof. unfold parsePruneObjectsDraft. cbv zeta. repeat case_match; cbn [snd]; lia. Qed.

Lemma updatePrune_wf id f e :
  (forall seed d, seed <= (f seed d).2) -> ids_wf e -> ids_wf (updatePruneObjectsDraft id f e).
Proof.
  intros Hf He. unfold updatePruneObjectsDraft. destruct (op_by_id id e) as [o|]; [|done]. cbv zeta.
  apply set_seed_wf; [|by apply updateOperation_wf]. cbn [localIdSeed updateOperation set_ops].
  etransitivity; [apply parsePrune_seed | apply Hf].
Qed.

Lemma appendLegacyTemplate_wf payload e : ids_wf e -> ids_wf (appendLegacyTemplate payload e).
Proof.
  intros He. unfold appendLegacyTemplate. cbv zeta. repeat case_match; try done;
    (apply (ids_wf_fresh _ (localIdSeed e)); [done | apply taken_one]).
Qed.

Lemma preset_payload_ne key payload :
  tp_kind (getSelectedTemplatePreset key) = KOperations payload -> payload <> [].
Proof.
  assert (forallb (fun kv => match tp_kind kv.2 with KOperations [] => false | _ => true end) TEMPLATE_PRESET_CONFIG
    = true) as Hc by (vm_compute; reflexivity).
  unfold getSelectedTemplatePreset. destruct (om_get key TEMPLATE_PRESET_CONFIG) as [p|] eqn:E.
  - apply om_get_Some_in in E. rewrite forallb_forall in Hc. specialize (Hc _ (proj1 (list_elem_of_In _ _) E)).
    intros Ek. cbn [snd] in Hc. rewrite Ek in Hc. by destruct payload.
  - intros Ek ->. discriminate Ek.
Qed.

Lemma condition_handlers_wf f id e l s :
  ids_wf e -> (forall o, op_ids (f o) ⊆+ op_ids o) -> s = localIdSeed e ->
  ids_wf (set_seed s (set_expanded l (set_ops (on_op id f (operations e)) e))).
Proof.
  intros He Hf ->. apply (ids_wf_grow e _ []); [done | intros ?%on_op_nil; by apply (wf_some _ He) | apply taken_nil|].
  by apply on_op_ids.
Qed.

Lemma addCondition_wf id e : ids_wf e -> ids_wf (addCondition id e).
Proof.
  intros He. apply (ids_wf_grow e _ [localIdSeed e]);
    [done | intros ?%on_op_nil; by apply (wf_some _ He) | apply taken_one|].
  apply on_op_new_id; [apply He|]. intros o. unfold op_ids, with_pconditions. cbn [o_id o_conditions].
  rewrite fmap_app, app_comm_cons. symmetry. apply Permutation_cons_append.
Qed.

Lemma updateCondition_wf id cid p e : ids_wf e -> ids_wf (updateCondition id cid p e).
Proof.
  intros He. apply (condition_handlers_wf _ id e (expandedConditionMap e) (localIdSeed e)); [done | | done]. intros o.
  unfold op_ids, with_pconditions. cbn [o_id o_conditions]. rewrite <- list_fmap_compose.
  apply reflexive_eq. f_equal. apply list_fmap_ext. intros i c _. unfold compose. by destruct (pc_id c =? cid).
Qed.

Lemma removeCondition_wf id cid e : ids_wf e -> ids_wf (removeCondition id cid e).
Proof.
  intros He. apply (condition_handlers_wf _ id e
    (om_set id (List.filter (fun i => negb (i =? cid)) (expanded_of id e)) (expandedConditionMap e)) (localIdSeed e));
    [done | | done]. intros o.
  unfold op_ids, with_pconditions. cbn [o_id o_conditions]. apply submseteq_skip.
  induction (o_conditions o) as [|c cs IH]; [done|]. cbn [List.filter]. rewrite fmap_cons.
  destruct (negb (pc_id c =? cid)); [by apply submseteq_skip | by apply submseteq_cons].
Qed.

Lemma addOperation_wf e : ids_wf e -> ids_wf (addOperation e).
Proof.
  intros He. apply (ids_wf_grow e _ [localIdSeed e]); [done | by intros [_ ?]%app_nil | apply taken_one|].
  cbn [operations addOperation set_seed set_selected_op set_ops]. rewrite all_ids_app.
  by rewrite (Permutation_app_comm (all_ids (operations e))).
Qed.

#[local] Hint Resolve moveOperation_wf updateOperation_wf removeOperation_wf addCondition_wf updateCondition_wf
  removeCondition_wf addOperation_wf : po.

(** The handlers that leave the cards and the counter. *)
Ltac same_cards e := by apply (ids_wf_same e).

Lemma po_handle_wf a e e' : ids_wf e -> po_handle t a e = Ret e' -> ids_wf e'.
Proof.
  intros He. pose proof (wf_some _ He) as Hne.
  destruct a; cbn [po_handle]; intros E;
    try (apply Ret_inj in E; subst e'); auto with po; try same_cards e.
  - apply moveOperation_wf. exact He.
  - by eapply duplicateOperation_wf.
  - unfold expandAllSelectedConditions. destruct (selectedOperationId e), (selectedOperation e); same_cards e || done.
  - unfold collapseAllSelectedConditions. destruct (selectedOperationId e); same_cards e || done.
  - unfold updateReturnErrorDraft. destruct (op_by_id id e); auto with po.
  - unfold pruneObjectsDraft. destruct (selectedOperation e); [|done]. destruct (bool_decide _); [|done].
    apply set_seed_wf; [apply parsePrune_seed | done].
  - by apply updatePrune_wf.
  - apply updatePrune_wf; [cbn [snd]; lia | done].
  - by apply updatePrune_wf.
  - by apply updatePrune_wf.
  - unfold applyBuiltinField. destruct (selectedOperation e); [|done]. destruct (field_patch _ _ _); auto with po.
  - unfold formatSelectedOperationValueAsJson. cbv zeta. repeat case_match; auto with po.
  - unfold switchToJsonMode. destruct (editMode e); [|done]. destruct (buildVisualJson t e); same_cards e.
  - by eapply switchToVisualMode_wf.
  - unfold fillTemplateFromLibrary in E. destruct (tp_kind _) as [payload|payload].
    + apply bind_ret in E as (r & [Hr Hn]%load_operations_taken & E). apply Ret_inj in E. subst e'.
      by apply (ids_wf_fresh _ (localIdSeed e)).
    + apply Ret_inj in E. subst e'. apply (ids_wf_fresh _ (localIdSeed e)); [done | apply taken_one].
  - unfold appendTemplateFromLibrary in E. destruct (tp_kind _) as [payload|payload] eqn:Ek.
    + eapply appendOperations_wf; [by eapply preset_payload_ne | done | exact E].
    + apply Ret_inj in E. subst e'. by apply appendLegacyTemplate_wf.
  - apply (ids_wf_fresh _ (localIdSeed e)); [done | apply taken_one].
  - unfold formatJson. cbv zeta. repeat case_match; same_cards e || done.
Qed.

Lemma fix_selected_ops e : operations (fix_selected e) = operations e /\ localIdSeed (fix_selected e) = localIdSeed e.
Proof. unfold fix_selected. destruct (operations e) eqn:E; [done|]. by destruct (has_op _ _). Qed.

Lemma fix_selected_spec e :
  operations e <> [] -> exists o, o ∈ operations (fix_selected e) /\ selectedOperationId (fix_selected e) = Some (o_id o).
Proof.
  intros Hne. rewrite (proj1 (fix_selected_ops e)). unfold fix_selected. destruct (operations e) as [|o l] eqn:E; [done|].
  destruct (has_op (selectedOperationId e) (o :: l)) eqn:Hs.
  - unfold has_op in Hs. destruct (selectedOperationId e) as [i|] eqn:Ei; [|done].
    apply existsb_exists in Hs as (x & Hx & Ex). apply Z.eqb_eq in Ex. exists x. split; [by apply list_elem_of_In | by rewrite Ex].
  - exists o. split; [left | done].
Qed.

Lemma reachable_wf e : po_reachable t e -> ids_wf e.
Proof.
  assert (forall e, ids_wf e -> ids_wf (fix_selected e)) as Hfix.
  { intros e' [H1 H2 H3]. destruct (fix_selected_ops e') as [Eo Es]. split; rewrite ?Eo, ?Es; done. }
  induction 1 as [seed v e' Hp|e1 a e' _ IH Hh|e1 n _ IH Hn]; [apply Hfix..|].
  - by eapply parseInitialState_wf.
  - by eapply po_handle_wf.
  - apply set_seed_wf; [lia | done].
Qed.

(** C13. Whatever is opened and done, the editor shows at least one card, the
    selection is on a card that is shown, and no two cards or conditions share an
    identifier, so that each handler reaches one card; the identifiers to come
    are not in use. *)
Theorem po_editor_invariant e :
  po_reachable t e ->
  (exists o, o ∈ operations e /\ selectedOperationId e = Some (o_id o))
  /\ NoDup (all_ids (operations e)) /\ Forall (fun i => i < localIdSeed e) (all_ids (operations e)).
Proof.
  intros Hr. destruct (reachable_wf e Hr) as [Hs Hn Hb]. split; [|done]. clear Hn Hb.
  induction Hr as [seed v e' _|e1 a e' _ _ _|e1 n Hr IH _]; [| |by apply IH];
    apply fix_selected_spec; by rewrite <- (proj1 (fix_selected_ops e')).
Qed.
End Invariant.

(** ** What validation accepts *)

(** The fields that the mode uses are filled, and its value is usable. *)
Record op_complete (o : operation) : Prop := {
  oc_path : m_path (meta_of (o_mode o)) = true -> trim (o_path o) <> [];
  oc_from : m_from (meta_of (o_mode o)) = true -> trim (o_from o) <> [];
  oc_to : m_to (meta_of (o_mode o)) = true -> trim (o_to o) <> [];
  oc_value : o_mode o ∈ VALUE_REQUIRED_MODES -> trim (o_value_text o) <> [];
  oc_return_error : o_mode o = u "return_error" ->
    forall p, json_parse (trim (o_value_text o)) = Some (JObj p) ->
      trim (to_string (js_or ((JObj p)?."message") (JStr []))) <> [];
  oc_prune : o_mode o = u "prune_objects" -> prune_fault (trim (o_value_text o)) = false;
  oc_headers : o_mode o = u "pass_headers" -> parsePassHeaderNames (parseLooseValue (trim (o_value_text o))) <> []
}.

Section Validation.
Context (t : jsstr -> Z -> jsstr).
Context (Ht : forall m line, m <> [] -> t m line <> []).

Lemma guard_iff (b : bool) (s : jsstr) : b && negb (ne s) = false <-> (b = true -> s <> []).
Proof. rewrite <- ne_iff. destruct b, (ne s); simpl; intuition congruence. Qed.

Lemma guard2_iff (b c : bool) : b && c = false <-> (b = true -> c = false).
Proof. destruct b, c; simpl; intuition congruence. Qed.

Lemma if_none {A} (b : bool) (m : A) (r : option A) : (if b then Some m else r) = None <-> b = false /\ r = None.
Proof. destruct b; naive_solver. Qed.

Lemma mode_fault_none mode raw line :
  mode_fault t mode raw line = None <->
  (mode = u "return_error" -> raw <> [] /\ return_error_fault raw = false)
  /\ (mode = u "prune_objects" -> raw <> [] /\ prune_fault raw = false)
  /\ (mode = u "pass_headers" -> raw <> [] /\ parsePassHeaderNames (parseLooseValue raw) <> []).
Proof.
  unfold mode_fault. rewrite !if_none, !guard2_iff, !bool_decide_eq_true, !bool_decide_eq_false. naive_solver.
Qed.

Lemma own_value_modes mode :
  mode ∈ u <$> ["return_error"; "prune_objects"; "pass_headers"]%string -> mode ∈ VALUE_REQUIRED_MODES.
Proof.
  intros Hm. assert (forallb (has_mode VALUE_REQUIRED_MODES)
    (u <$> ["return_error"; "prune_objects"; "pass_headers"]%string) = true) as Hall by (vm_compute; reflexivity).
  rewrite forallb_forall in Hall. apply (bool_decide_eq_true_1 _), Hall. by apply list_elem_of_In.
Qed.

Lemma return_error_fault_iff raw :
  return_error_fault raw = false <->
  forall p, json_parse raw = Some (JObj p) -> trim (to_string (js_or ((JObj p)?."message") (JStr []))) <> [].
Proof.
  unfold return_error_fault. destruct (json_parse raw) as [v|]; [|by split].
  destruct v; cbn [is_plain andb]; try (by split).
  rewrite bool_decide_eq_false. split; [by intros Hm p [= <-] | intros Hm; by apply Hm].
Qed.

Lemma fault_none_iff line o :
  o_mode o ∈ OPERATION_MODE_VALUES -> operation_fault t line o = None <-> op_complete o.
Proof.
  intros Hm. split.
  - intros Hf. destruct (valid_fields t line o Hm Hf) as (H1 & H2 & H3 & H4 & H5).
    apply mode_fault_none in H5 as (R1 & R2 & R3). unfold has_mode in H4. rewrite bool_decide_eq_true in H4.
    split; [| | | | intros E; apply return_error_fault_iff, (R1 E) | apply R2 | apply R3]; rewrite <- ne_iff; assumption.
  - intros [H1 H2 H3 H4 H5 H6 H7]. destruct (mode_facts _ Hm) as (Emode & Rf & Rt & _).
    unfold operation_fault. cbv zeta. rewrite Emode, !if_none, mode_fault_none, !guard_iff.
    rewrite <- !andb_assoc, !guard2_iff. unfold has_mode at 3. rewrite bool_decide_eq_true.
    assert (forall m, m ∈ u <$> ["return_error"; "prune_objects"; "pass_headers"]%string -> o_mode o = m ->
              trim (o_value_text o) <> []) as Hraw.
    { intros m Hin Em. apply H4, own_value_modes. by rewrite Em. }
    split_and!; [exact H1 | | | exact H2 | exact H3 | exact H4 | | |].
    + intros Hb. apply Rf, H2, ne_iff in Hb. by rewrite Hb.
    + intros Hb. apply Rt, H3, ne_iff in Hb. by rewrite Hb.
    + intros Em. split; [eapply Hraw; [|exact Em]; apply (bool_decide_eq_true_1 _); vm_compute; reflexivity | by apply return_error_fault_iff, H5].
    + intros Em. split; [eapply Hraw; [|exact Em]; apply (bool_decide_eq_true_1 _); vm_compute; reflexivity | by apply H6].
    + intros Em. split; [eapply Hraw; [|exact Em]; apply (bool_decide_eq_true_1 _); vm_compute; reflexivity | by apply H7].
Qed.

(** C15. Validation passes exactly when every operation has the fields its mode
    uses and a value its mode can use.  For the header modes both ends must be
    given: the exception for operations that only have a path never applies. *)
Theorem validation_spec ops :
  Forall (fun o => o_mode o ∈ OPERATION_MODE_VALUES) ops ->
  validateOperations t ops = [] <-> Forall op_complete ops.
Proof.
  intros Hm. unfold validateOperations. rewrite validate_none by done. rewrite !Forall_forall in *.
  split; intros Hall o Ho; specialize (Hall o Ho); specialize (Hm o Ho).
  - by apply (fault_none_iff 1), Hall.
  - intros line. by apply fault_none_iff.
Qed.
End Validation.

(** ** Templates *)

(** Moves the first property to the place it has on the other side. *)
Ltac perm_at n :=
  match goal with |- ?x :: ?l ≡ₚ ?k =>
    let a := eval cbv [take] in (take n k) in
    let b := eval cbv [drop] in (drop (S n) k) in
    change (x :: l ≡ₚ a ++ x :: b); apply Permutation_cons_app; cbn [app]
  end.
Ltac perm_props := repeat first [apply perm_nil | perm_at 0%nat | perm_at 1%nat | perm_at 2%nat | perm_at 3%nat].

Section Presets.
Context `{UnicodeCase}.
Context (t : jsstr -> Z -> jsstr).

(** What is computed for a template: its cards, that none is blank or at fault,
    and the properties they are saved with. *)
Definition saves_as (seed : Z) (payload : list jsv) : Prop :=
  exists r, map_seeded normalizeOperation seed payload = Ret r
            /\ forallb (fun o => negb (isOperationBlank o)) r.1 = true
            /\ validateOperations t r.1 = []
            /\ Forall2 (fun p o => own_props (operation_payload o) ≡ₚ own_props p) payload r.1.

Ltac preset :=
  eexists; split; [vm_compute; reflexivity|]; split; [vm_compute; reflexivity|];
  split; [vm_compute; reflexivity|];
  repeat first [apply List.Forall2_nil | apply List.Forall2_cons]; vm_compute; perm_props.

Lemma pass_headers_saves_as seed : saves_as seed HEADER_PASSTHROUGH_TEMPLATE.
Proof. preset. Qed.
Lemma operation_saves_as seed : saves_as seed OPERATION_TEMPLATE.
Proof. preset. Qed.
Lemma gemini_saves_as seed : saves_as seed GEMINI_IMAGE_4K_TEMPLATE.
Proof. preset. Qed.
Lemma claude_saves_as seed : saves_as seed (buildPassHeadersTemplate CLAUDE_CLI_HEADER_PASSTHROUGH_HEADERS).
Proof. preset. Qed.
Lemma codex_saves_as seed : saves_as seed (buildPassHeadersTemplate CODEX_CLI_HEADER_PASSTHROUGH_HEADERS).
Proof. preset. Qed.
Lemma aws_saves_as seed : saves_as seed AWS_BEDROCK_ANTHROPIC_COMPAT_TEMPLATE.
Proof. preset. Qed.

Lemma presets_saves_as seed :
  Forall (fun kv => match tp_kind kv.2 with KOperations p => saves_as seed p | KLegacy _ => True end)
    TEMPLATE_PRESET_CONFIG.
Proof.
  unfold TEMPLATE_PRESET_CONFIG. repeat apply List.Forall_cons; [apply operation_saves_as | exact I
    | apply pass_headers_saves_as | apply gemini_saves_as | apply claude_saves_as | apply codex_saves_as
    | apply aws_saves_as | apply List.Forall_nil].
Qed.

Lemma fill_operations_saves payload e :
  payload <> [] -> saves_as (localIdSeed e) payload ->
  exists e',
    fillOperationsTemplate payload e = Ret e'
    /\ handleSave t e' = Ret (text_of (JObj [(u "operations", JArr (operation_payload <$> operations e'))]))
    /\ Forall2 (fun p o => own_props (operation_payload o) ≡ₚ own_props p) payload (operations e').
Proof.
  intros Hne (r & Hr & Hb & Hv & Hp).
  unfold fillOperationsTemplate, load_operations. destruct payload as [|x l]; [done|]. rewrite Hr.
  eexists. split; [reflexivity|]. split; [|exact Hp].
  unfold handleSave, buildVisualJson, buildOperationsJson. cbn [editMode visualMode operations].
  rewrite (lfilter_id (fun o => negb (isOperationBlank o)) r.1), Hv.
  - apply Forall2_length in Hp. by destruct r.1.
  - apply Forall_forall. intros o Ho. rewrite forallb_forall in Hb. by apply Hb, list_elem_of_In.
Qed.

(** Filling the editor from any preset of the library succeeds, and saving
    it untouched stores the preset: for a preset of operations, one validated
    operation for each of its own, with the same properties and values; for the
    legacy preset, its object. *)
Theorem presets_save key e :
  key ∈ TEMPLATE_PRESET_CONFIG.*1 ->
  exists e', fillTemplateFromLibrary key e = Ret e'
    /\ match tp_kind (getSelectedTemplatePreset key) with
       | KOperations payload =>
           handleSave t e' = Ret (text_of (JObj [(u "operations", JArr (operation_payload <$> operations e'))]))
           /\ Forall2 (fun p o => own_props (operation_payload o) ≡ₚ own_props p) payload (operations e')
       | KLegacy payload => handleSave t e' = Ret (text_of (JObj payload))
       end.
Proof.
  intros [p Hp]%elem_of_keys. pose proof (presets_saves_as (localIdSeed e)) as Hall. rewrite Forall_forall in Hall.
  specialize (Hall _ (om_get_Some_in _ _ _ Hp)). cbn [snd] in Hall.
  pose proof (preset_payload_ne key) as Hne. unfold fillTemplateFromLibrary, getSelectedTemplatePreset in *.
  rewrite Hp in *. destruct (tp_kind p) as [payload|payload] eqn:Ek.
  - apply fill_operations_saves; [by apply Hne | done].
  - eexists. split; [reflexivity|]. assert (payload = LEGACY_TEMPLATE) as ->.
    { assert (Forall (fun kv => match tp_kind kv.2 with KLegacy q => q = LEGACY_TEMPLATE | _ => True end)
        TEMPLATE_PRESET_CONFIG) as Hl by (repeat constructor).
      rewrite Forall_forall in Hl. specialize (Hl _ (om_get_Some_in _ _ _ Hp)). cbn [snd] in Hl. by rewrite Ek in Hl. }
    vm_compute. reflexivity.
Qed.
End Presets.

(** ** Witnesses *)

Definition w_cards : list operation := [createDefaultOperation 0; createDefaultOperation 1; createDefaultOperation 2].

Lemma reorder_spec_witness :
  exists a b,
    reorderOperations w_cards (Some 0) (Some 2) false
    = a ++ [createDefaultOperation 0; createDefaultOperation 2] ++ b
    /\ a ++ createDefaultOperation 2 :: b = without 0 w_cards.
Proof.
  apply (reorder_spec w_cards (createDefaultOperation 0) (createDefaultOperation 2) false).
  - apply (bool_decide_eq_true_1 _). vm_compute. reflexivity.
  - left.
  - right. right. left.
  - apply (bool_decide_eq_true_1 _). vm_compute. reflexivity.
Defined.

Lemma po_editor_invariant_witness :
  match parseInitialState (H := ascii_case) 0 (JStr []) with
  | Ret e =>
      (exists o, o ∈ operations (fix_selected (addOperation (fix_selected e)))
                 /\ selectedOperationId (fix_selected (addOperation (fix_selected e))) = Some (o_id o))
      /\ NoDup (all_ids (operations (fix_selected (addOperation (fix_selected e)))))
      /\ Forall (fun i => i < localIdSeed (fix_selected (addOperation (fix_selected e))))
           (all_ids (operations (fix_selected (addOperation (fix_selected e)))))
  | Throw _ => False
  end.
Proof.
  destruct (parseInitialState (H := ascii_case) 0 (JStr [])) as [e|] eqn:E; [|discriminate E].
  apply (po_editor_invariant (H := ascii_case) w_t (fix_selected (addOperation (fix_selected e)))).
  apply (po_step w_t (fix_selected e) AAdd).
  - exact (po_open w_t 0 (JStr []) e E).
  - reflexivity.
Defined.

Lemma validation_spec_witness : validateOperations w_t w_ops = [] <-> Forall op_complete w_ops.
Proof.
  apply (validation_spec w_t (fun m _ Hm => Hm) w_ops).
  repeat constructor; apply (bool_decide_eq_true_1 _); vm_compute; reflexivity.
Defined.

Lemma presets_save_witness :
  exists e', fillTemplateFromLibrary (H := ascii_case) (u "gemini_image_4k")
      (fresh_editor EditVisual VOperations [] w_cards [] [] 3) = Ret e'
    /\ match tp_kind (getSelectedTemplatePreset (u "gemini_image_4k")) with
       | KOperations payload =>
           handleSave w_t e' = Ret (text_of (JObj [(u "operations", JArr (operation_payload <$> operations e'))]))
           /\ Forall2 (fun p o => own_props (operation_payload o) ≡ₚ own_props p) payload (operations e')
       | KLegacy payload => handleSave w_t e' = Ret (text_of (JObj payload))
       end.
Proof.
  apply (presets_save (H := ascii_case) w_t (u "gemini_image_4k")).
  apply (bool_decide_eq_true_1 _). vm_compute. reflexivity.
Defined.
