(* ===== verification/ParamOverrideForms.v ===== *)
(** * Theorems about the forms for the value of an operation

    Which forms survive being written to the text of the value and read again,
    and the edits of the prune_objects form that do not. *)

From S2P Require Import Prelude JsString JsNumber JsNumText JsValue JsJson JsJsonRound.
From S2P Require Import ParamOverride ParamOverrideRound ParamOverrideDrafts ParamOverrideEditor.

#[local] Open Scope Z_scope.

(** ** The text of an object reads as that object *)

Lemma stringify_trimmed o s : stringify (JObj o) = Some s -> trim s = s /\ s <> [].
Proof.
  cbn [stringify]. intros Hs. apply (inj Some) in Hs. subst s. split; [|done]. apply trim_trimmed_id.
  change (u "{") with [123]. change (u "}") with [125]. cbn [app]. unfold trimmed.
  rewrite app_comm_cons, reverse_app. reflexivity.
Qed.

Lemma compact_reads o :
  json_ok (JObj o) ->
  trim (compact_text (JObj o)) = compact_text (JObj o) /\ compact_text (JObj o) <> []
  /\ json_parse (compact_text (JObj o)) = Some (JObj o).
Proof.
  intros Ho. destruct (json_roundtrip _ Ho) as (s & Hs & Hp). unfold compact_text. rewrite Hs.
  destruct (stringify_trimmed o s Hs). done.
Qed.

(** ** The error of return_error *)

#[local] Instance Q_eq_dec : EqDecision QArith_base.Q.
Proof. solve_decision. Defined.
#[local] Instance num_eq_dec : EqDecision num.
Proof. solve_decision. Defined.

(** All the statuses print as themselves. *)
Lemma status_ok k : 100 <= k <= 599 -> json_ok (JNum (of_Z k)) /\ status_or_400 (of_Z k) = of_Z k.
Proof.
  intros Hk.
  assert (forallb (fun i => let n := of_Z (100 + Z.of_nat i) in
            is_finite n && bool_decide (scan_number (num_to_string n) = Some (n, []))
            && bool_decide (status_or_400 n = n)) (seq 0 500) = true) as Hall by (vm_compute; reflexivity).
  rewrite forallb_forall in Hall. specialize (Hall (Z.to_nat (k - 100))).
  rewrite Z2Nat.id in Hall by lia. replace (100 + (k - 100)) with k in Hall by lia.
  rewrite !andb_true_iff, !bool_decide_eq_true in Hall. destruct Hall as [[Hf Hs] Ho]; [apply in_seq; lia|].
  split; [by apply json_num_reads | done].
Qed.

(** A form as the page can show it: trimmed texts, a status, and in the simple
    mode nothing but a message that is not itself an object. *)
Record re_shown (d : re_draft) : Prop := {
  rs_units : Forall unit_ok (re_message d) /\ Forall unit_ok (re_code d) /\ Forall unit_ok (re_type d);
  rs_trim : trim (re_message d) = re_message d /\ trim (re_code d) = re_code d /\ trim (re_type d) = re_type d;
  rs_status : exists k, 100 <= k <= 599 /\ re_statusCode d = of_Z k;
  rs_simple : re_simpleMode d = true ->
    d = re_plain (re_message d) /\ forall p, json_parse (re_message d) <> Some (JObj p)
}.

Lemma text_or_empty_str s : trim s = s -> text_or_empty (JStr s) = s.
Proof. intros Hs. unfold text_or_empty. by destruct s. Qed.

Lemma text_or_empty_if s : trim s = s -> text_or_empty (if ne s then JStr s else JUndef) = s.
Proof. intros Hs. destruct (ne s) eqn:E; [by apply text_or_empty_str|]. apply ne_false in E. by rewrite E. Qed.

Lemma re_payload_ok d : re_shown d -> json_ok (re_payload d).
Proof.
  intros [(Um & Uc & Ut) _ (k & Hk & Ek) _]. destruct (status_ok k Hk) as [Hn Hs].
  apply plain_json_ok. repeat (apply plain_set_if; [vm_compute; reflexivity | vm_compute; reflexivity | |]);
    try (constructor; by auto using trim_units).
  rewrite Ek, Hs.
  apply plain_cons; [key_ok | key_ok | constructor; by apply trim_units | | apply plain_cons; [key_ok | key_ok | done | | apply plain_nil]];
    apply (bool_decide_eq_true_1 _); vm_compute; reflexivity.
Qed.

(** Writing the error form to the value of its operation and reading it
    again shows the same form: message, status, code, type, the retry switch and
    the mode of the form. *)
Theorem return_error_roundtrip d :
  re_shown d -> parseReturnErrorDraft (buildReturnErrorValueText d) = d.
Proof.
  intros Hd. pose proof Hd as [_ (Tm & Tc & Tt) (k & Hk & Ek) Hsimple].
  unfold buildReturnErrorValueText, parseReturnErrorDraft. destruct (re_simpleMode d) eqn:Emode.
  - destruct (Hsimple eq_refl) as [Ed Hobj]. rewrite Tm, Tm.
    destruct (bool_decide_reflect (re_message d = [])) as [E|E]; [rewrite Ed, E; reflexivity|].
    destruct (json_parse (re_message d)) as [[]|] eqn:Ej; try by rewrite Ed. by destruct (Hobj o).
  - pose proof (re_payload_ok d Hd) as Hok. unfold re_payload in *.
    match goal with |- context [JObj ?o] => set (o1 := o) in * end.
    destruct (compact_reads _ Hok) as (Et & Hne & Ep). rewrite Et, bool_decide_eq_false_2, Ep by done. subst o1.
    read_prop. rewrite Tm, Tc, Tt, Ek, (proj2 (status_ok k Hk)).
    assert (forall key, u key <> u "message" -> u key <> u "status_code" ->
      oget (JObj [(u "message", JStr (re_message d)); (u "status_code", JNum (of_Z k))]) (u key) = JUndef) as H0.
    { intros key H1 H2. unfold oget. cbn [om_get]. by rewrite !decide_False. }
    rewrite (H0 "msg"%string), (H0 "code"%string), (H0 "type"%string), (H0 "skip_retry"%string) by distinct_keys.
    change (oget (JObj [(u "message", JStr (re_message d)); (u "status_code", JNum (of_Z k))]) (u "message"))
      with (JStr (re_message d)).
    change (oget (JObj [(u "message", JStr (re_message d)); (u "status_code", JNum (of_Z k))]) (u "status_code"))
      with (JNum (of_Z k)).
    cbv beta iota zeta. change (to_number (JNum (of_Z k))) with (of_Z k). rewrite (proj2 (status_ok k Hk)), !text_or_empty_if by done.
    assert (text_or_empty (js_or (JStr (re_message d)) JUndef) = re_message d) as ->.
    { unfold js_or. rewrite truthy_JStr. by apply text_or_empty_if. }
    destruct d as [m st c ty sk si]. cbn in *. subst. by destruct sk.
Qed.

(** ** The conditions of prune_objects *)

Section Prune.
Context `{UnicodeCase}.

Lemma rules_ids seed l : Forall (fun r => seed <= pc_id r < seed + Z.of_nat (length l)) (normalizePruneRules seed l).
Proof.
  revert seed. induction l as [|x l IH]; intros seed; cbn [normalizePruneRules length]; constructor; [cbn; lia|].
  eapply Forall_impl; [apply IH|]. simpl. lia.
Qed.

(** The rules that a text is read as have identifiers that were not in use. *)
Lemma draft_ids seed vt :
  Forall (fun r => seed <= pc_id r < (parsePruneObjectsDraft seed vt).2) (pd_rules (parsePruneObjectsDraft seed vt).1).
Proof.
  unfold parsePruneObjectsDraft. cbv zeta. repeat case_match; cbn [fst snd pd_rules pd_defaults pd_plain];
    first [apply rules_ids | constructor].
Qed.

Lemma updatePrune_ext id f g e :
  (forall seed vt, let d := parsePruneObjectsDraft seed vt in seed = localIdSeed e ->
     buildPruneObjectsValueText (f d.2 d.1).1 = buildPruneObjectsValueText (g d.2 d.1).1) ->
  operations (updatePruneObjectsDraft id f e) = operations (updatePruneObjectsDraft id g e).
Proof.
  intros Hfg. unfold updatePruneObjectsDraft. destruct (op_by_id id e) as [o|]; [|done]. cbv zeta.
  cbn [operations set_seed updateOperation set_ops].
  by rewrite (Hfg (localIdSeed e) (o_value_text o) eq_refl).
Qed.

Lemma with_rules_id d : with_rules (pd_simpleMode d) (pd_rules d) d = d.
Proof. by destruct d. Qed.

(** A rule without a path is not written. *)
Lemma build_blank_rule d r :
  trim (pc_path r) = [] ->
  buildPruneObjectsValueText (with_rules false (pd_rules d ++ [r]) d)
  = buildPruneObjectsValueText (with_rules false (pd_rules d) d).
Proof.
  intros Hr. unfold buildPruneObjectsValueText, prune_payload, with_rules.
  cbn [pd_simpleMode pd_typeText pd_logic pd_recursive pd_rules].
  rewrite List.filter_app. cbn [List.filter]. rewrite Hr. change (ne []) with false. cbv iota.
  by rewrite app_nil_r.
Qed.

(** The buttons of the condition list of prune_objects do nothing.  A rule
    that the form shows gets a new identifier whenever the text is read, so
    editing or deleting it changes no rule: the text is only written again as it
    was read.  A rule that is added has no path yet, so it is dropped before it
    is ever shown; adding one only selects the advanced mode. *)
Theorem prune_rule_edits_lost e d e' r id p :
  pruneObjectsDraft e = (Some d, e') -> r ∈ pd_rules d ->
  operations (updatePruneRule id (pc_id r) p e') = operations (updatePruneObjectsDraft id (fun s d => (d, s)) e')
  /\ operations (removePruneRule id (pc_id r) e') = operations (updatePruneObjectsDraft id (fun s d => (d, s)) e')
  /\ operations (addPruneRule id e') = operations (updatePruneObjectsDraft id (patch_prune (PSimple false)) e').
Proof.
  intros Hd Hr.
  assert (pc_id r < localIdSeed e') as Hlt.
  { unfold pruneObjectsDraft in Hd. destruct (selectedOperation e) as [o|]; [|done]. destruct (bool_decide _); [|done].
    cbv zeta in Hd. injection Hd as <- <-. pose proof (draft_ids (localIdSeed e) (o_value_text o)) as Hids.
    rewrite Forall_forall in Hids. cbn [localIdSeed set_seed]. apply (Hids r Hr). }
  assert (forall vt, let d := (parsePruneObjectsDraft (localIdSeed e') vt).1 in
    Forall (fun x => (pc_id x =? pc_id r) = false) (pd_rules d)) as Hnone.
  { intros vt d0. eapply Forall_impl; [apply draft_ids|]. cbn beta. intros x Hx. apply Z.eqb_neq. lia. }
  split_and!; apply updatePrune_ext; intros seed vt d0 ->; cbn [fst].
  - assert ((fun x => if pc_id x =? pc_id r then patch_cond p x else x) <$> pd_rules d0.1 = pd_rules d0.1) as ->;
      [|by rewrite with_rules_id]. rewrite <- (list_fmap_id (pd_rules d0.1)) at 2.
    apply list_fmap_ext. intros i x Hx. pose proof (Hnone vt) as Hv. cbv zeta in Hv. fold d0 in Hv.
    rewrite Forall_forall in Hv. by rewrite (Hv x (list_elem_of_lookup_2 _ _ _ Hx)).
  - rewrite (lfilter_id _ (pd_rules d0.1)); [by rewrite with_rules_id|]. eapply Forall_impl; [apply Hnone|].
    cbn beta. by intros x ->.
  - rewrite build_blank_rule by done. by destruct d0.1.
Qed.

(** Choosing the advanced mode of prune_objects while a type is entered
    leaves the form in the simple mode: the text written for it names only the
    type, and such a text is read as the simple mode. *)
Theorem prune_advanced_reverts seed s :
  Forall unit_ok s -> trim s = s -> s <> [] ->
  (parsePruneObjectsDraft seed (buildPruneObjectsValueText (patch_prune (PSimple false) seed (pd_plain s)).1)).1
  = pd_plain s.
Proof.
  intros Hu Ht Hne. unfold buildPruneObjectsValueText, prune_payload.
  cbn [patch_prune fst pd_simpleMode pd_typeText pd_logic pd_recursive pd_rules pd_plain]. rewrite Ht.
  assert (ne s = true) as -> by by apply ne_iff.
  match goal with |- context [JObj ?o] => change (JObj o) with (JObj [(u "type", JStr s)]) end.
  change (oget (JObj [(u "type", JStr s)]) (u "type")) with (JStr s). rewrite truthy_JStr, (proj2 (ne_iff s) Hne).
  cbn [negb andb].
  assert (json_ok (JObj [(u "type", JStr s)])) as Hok.
  { apply plain_json_ok. apply plain_cons; [key_ok | key_ok | by constructor | apply not_elem_of_nil | apply plain_nil]. }
  destruct (compact_reads _ Hok) as (Et & Hn & Ep). unfold parsePruneObjectsDraft.
  rewrite Et, bool_decide_eq_false_2, Ep by done. cbv zeta. unfold pd_plain.
  change (oget (JObj [(u "type", JStr s)]) (u "type")) with (JStr s). cbn [fst to_string]. rewrite Ht. reflexivity.
Qed.
End Prune.

(** ** The advanced form of prune_objects *)

Section Advanced.
Context `{UnicodeCase}.

(** A rule as the form can show it: a path, a mode of the menu, and a value that
    reads and prints as itself. *)
Record rule_shown (r : pcondition) : Prop := {
  ru_path : Forall unit_ok (pc_path r) /\ trim (pc_path r) = pc_path r /\ pc_path r <> [];
  ru_mode : pc_mode r ∈ CONDITION_MODE_VALUES;
  ru_value : json_ok (parseLooseValue (pc_value_text r)) /\ trim (pc_value_text r) = pc_value_text r
             /\ kept_text (pc_value_text r) = pc_value_text r
}.

(** What the text of the form keeps apart from the simple mode and from the
    empty form. *)
Record prune_shown (d : prune_draft) : Prop := {
  ps_type : Forall unit_ok (pd_typeText d) /\ trim (pd_typeText d) = pd_typeText d;
  ps_logic : pd_logic d = u "AND" \/ pd_logic d = u "OR";
  ps_rules : Forall rule_shown (pd_rules d);
  ps_advanced : pd_simpleMode d = false;
  ps_kept : pd_rules d <> [] \/ (pd_typeText d <> [] /\ (pd_logic d = u "OR" \/ pd_recursive d = false))
}.

Definition anon_draft (d : prune_draft) : prune_draft :=
  with_rules (pd_simpleMode d) (anon_cond <$> pd_rules d) d.

Lemma rule_base_read r key :
  u key <> u "path" -> u key <> u "mode" ->
  oget (JObj [(u "path", JStr (pc_path r)); (u "mode", JStr (pc_mode r))]) (u key) = JUndef.
Proof. intros H1 H2. unfold oget. cbn [om_get]. by rewrite !decide_False. Qed.

Lemma rule_payload_ok r : rule_shown r -> json_ok (prune_rule_payload r).
Proof.
  intros [(Up & Tp & _) Hm (Hv & Tv & _)]. unfold prune_rule_payload, has_mode. cbv zeta.
  rewrite Tp, Tv, bool_decide_eq_true_2 by done. apply plain_json_ok.
  repeat (apply plain_set_if; [vm_compute; reflexivity | vm_compute; reflexivity | |]); try done; try constructor.
  - apply (bool_decide_eq_true_1 _). vm_compute. reflexivity.
  - repeat constructor; try done; try (apply units_okb_ok; vm_compute; reflexivity).
    by apply condition_mode_ne.
Qed.

Lemma rule_read_back r seed : rule_shown r -> anon_cond (normalizePruneRule seed (prune_rule_payload r)) = anon_cond r.
Proof.
  intros [(Up & Tp & _) Hm (_ & Tv & Hk)]. unfold prune_rule_payload, has_mode. cbv zeta.
  rewrite Tp, Tv, bool_decide_eq_true_2 by done. unfold normalizePruneRule. read_prop.
  rewrite (rule_base_read r "value"%string), (rule_base_read r "invert"%string), (rule_base_read r "pass_missing_key"%string)
    by distinct_keys.
  change (oget (JObj [(u "path", JStr (pc_path r)); (u "mode", JStr (pc_mode r))]) (u "path")) with (JStr (pc_path r)).
  change (oget (JObj [(u "path", JStr (pc_path r)); (u "mode", JStr (pc_mode r))]) (u "mode")) with (JStr (pc_mode r)).
  rewrite known_mode_field by done. unfold anon_cond. cbn [pc_path pc_mode pc_value_text pc_invert pc_pass_missing_key str_field].
  f_equal; [|by destruct (pc_invert r) | by destruct (pc_pass_missing_key r)].
  destruct (ne (pc_value_text r)) eqn:E; [exact Hk|]. apply ne_false in E. by rewrite E.
Qed.

Lemma rules_read_back l seed :
  Forall rule_shown l -> anon_cond <$> normalizePruneRules seed (prune_rule_payload <$> l) = anon_cond <$> l.
Proof.
  intros Hl. revert seed. induction Hl as [|r l Hr _ IH]; intros seed; [done|].
  rewrite fmap_cons. cbn [normalizePruneRules]. rewrite !fmap_cons, IH. f_equal. by apply rule_read_back.
Qed.

Lemma shown_rules_all l : Forall rule_shown l -> List.filter (fun r => ne (trim (pc_path r))) l = l.
Proof.
  intros Hl. apply lfilter_id. eapply Forall_impl; [exact Hl|]. intros r [(_ & -> & Hne) _ _]. by apply ne_iff.
Qed.

Lemma logic_or_iff l : l = u "AND" \/ l = u "OR" -> logic_or (JStr l) = bool_decide (l = u "OR").
Proof. by intros [-> | ->]. Qed.

(** Writing the advanced form of prune_objects and reading it again shows
    the same type, logic, recursion and rules, and the advanced mode, when the
    form has a rule or a type with a choice that is not the default. *)
Theorem prune_advanced_roundtrip d seed :
  prune_shown d ->
  anon_draft (parsePruneObjectsDraft seed (buildPruneObjectsValueText d)).1 = anon_draft d.
Proof.
  intros [(Ut & Tt) Hlogic Hrules Hadv Hkept]. unfold buildPruneObjectsValueText. rewrite Hadv.
  unfold prune_payload. cbv zeta. rewrite Tt, (shown_rules_all _ Hrules), (logic_or_iff _ Hlogic).
  match goal with |- context [JObj (set_if ?b "conditions" ?v ?o)] => set (p := set_if b "conditions" v o) end.
  assert (json_ok (JObj p)) as Hok.
  { apply plain_json_ok. subst p. repeat (apply plain_set_if; [vm_compute; reflexivity | vm_compute; reflexivity | |]);
      try apply plain_nil; constructor; try done.
    - apply Forall_fmap. eapply Forall_impl; [exact Hrules | exact rule_payload_ok].
    - apply units_okb_ok. vm_compute. reflexivity. }
  assert ((JObj p)?."type" = (if ne (pd_typeText d) then JStr (pd_typeText d) else JUndef)) as Ety
    by (subst p; by read_prop).
  assert ((JObj p)?."conditions" = (if nonempty_array (JArr (prune_rule_payload <$> pd_rules d))
    then JArr (prune_rule_payload <$> pd_rules d) else JUndef)) as Ec by (subst p; by read_prop).
  assert ((JObj p)?."logic" = (if bool_decide (pd_logic d = u "OR") then JStr (u "OR") else JUndef)) as El
    by (subst p; by read_prop).
  assert ((JObj p)?."recursive" = (if negb (pd_recursive d) then JBool false else JUndef)) as Er
    by (subst p; by read_prop).
  assert ((JObj p)?."where" = JUndef) as Ew by (subst p; by read_prop).
  clearbody p. rewrite Ety, Ec.
  assert (negb (truthy (if ne (pd_typeText d) then JStr (pd_typeText d) else JUndef))
    && negb (truthy (if nonempty_array (JArr (prune_rule_payload <$> pd_rules d))
                     then JArr (prune_rule_payload <$> pd_rules d) else JUndef)) = false) as ->.
  { destruct Hkept as [Hne|[Hne _]].
    - destruct (pd_rules d) as [|r l]; [done|]. apply andb_false_r.
    - apply ne_iff in Hne. by rewrite Hne, truthy_JStr, Hne. }
  destruct (compact_reads _ Hok) as (Etr & Hn & Ep). unfold parsePruneObjectsDraft.
  rewrite Etr, bool_decide_eq_false_2, Ep by done. cbv zeta. cbn [fst]. rewrite Ety, Ec, El, Er, Ew.
  unfold anon_draft, with_rules. cbn [pd_simpleMode pd_typeText pd_logic pd_recursive pd_rules where_rules app].
  rewrite Hadv.
  assert (condition_rules (if nonempty_array (JArr (prune_rule_payload <$> pd_rules d))
    then JArr (prune_rule_payload <$> pd_rules d) else JUndef) = prune_rule_payload <$> pd_rules d) as ->.
  { destruct (pd_rules d) as [|r l]; [done|]. rewrite fmap_cons. cbn [nonempty_array condition_rules].
    apply lfilter_id. rewrite <- fmap_cons. apply Forall_fmap, Forall_true. done. }
  rewrite (rules_read_back _ seed Hrules). f_equal.
  - destruct Hkept as [Hne|[_ [-> | ->]]]; [|done | by rewrite orb_true_r].
    destruct (pd_rules d) as [|r l]; [done|]. rewrite fmap_cons. cbn [nonempty_array defined]. by rewrite orb_true_r.
  - destruct (ne (pd_typeText d)) eqn:E; [by apply Tt|]. by apply ne_false in E.
  - by destruct Hlogic as [-> | ->].
  - by destruct (pd_recursive d).
Qed.
End Advanced.

(** ** The ends of sync_fields *)

Lemma trimmed_app b a s : is_space b = false -> trimmed s = true -> s <> [] -> trim (b :: a ++ s) = b :: a ++ s.
Proof.
  intros Hb Hs Hne. apply trim_trimmed_id. unfold trimmed in *. apply andb_true_iff in Hs as [_ Hs].
  rewrite Hb. cbn [negb andb]. rewrite app_comm_cons, reverse_app.
  destruct (reverse s) as [|c r] eqn:E; [|exact Hs].
  apply (f_equal reverse) in E. rewrite reverse_involutive in E. by subst.
Qed.

(** An end of sync_fields is shown as it was chosen, its key trimmed; while
    the key is empty the kind of end is not kept, so choosing a header before
    its name goes back to a JSON field. *)
Theorem sync_spec_roundtrip `{UnicodeCase} ty key :
  parseSyncTargetSpec (buildSyncTargetSpec ty key)
  = if bool_decide (trim key = []) then (SJson, []) else (ty, trim key).
Proof.
  unfold buildSyncTargetSpec. cbv zeta. destruct (bool_decide_reflect (trim key = [])) as [E|E]; [reflexivity|].
  pose proof (trim_trimmed key) as Hk. pose proof (trim_idemp key) as Hi. revert E Hk Hi. generalize (trim key) as k.
  intros k Hne Hk Hi. destruct ty.
  - change (u "json" ++ [58] ++ k) with (106 :: [115; 111; 110; 58] ++ k). unfold parseSyncTargetSpec.
    rewrite trimmed_app, bool_decide_eq_false_2 by done.
    match goal with |- context [index_of 58 ?s] => change (index_of 58 s) with (Some 4%nat) end.
    cbv iota zeta. cbn [drop app]. rewrite drop_0, Hi. reflexivity.
  - change (u "header" ++ [58] ++ k) with (104 :: [101; 97; 100; 101; 114; 58] ++ k). unfold parseSyncTargetSpec.
    rewrite trimmed_app, bool_decide_eq_false_2 by done.
    match goal with |- context [index_of 58 ?s] => change (index_of 58 s) with (Some 6%nat) end.
    cbv iota zeta. cbn [drop app]. rewrite drop_0, Hi. reflexivity.
Qed.

(** ** Witnesses *)

Definition w_error : re_draft :=
  {| re_message := u "model not allowed"; re_statusCode := of_Z 429; re_code := u "rate_limited"; re_type := [];
     re_skipRetry := false; re_simpleMode := false |}.

Lemma return_error_roundtrip_witness : parseReturnErrorDraft (buildReturnErrorValueText w_error) = w_error.
Proof.
  apply (return_error_roundtrip w_error). split.
  - split_and!; apply units_okb_ok; vm_compute; reflexivity.
  - vm_compute. done.
  - exists 429. split; [lia | reflexivity].
  - discriminate.
Defined.

Definition w_rule : pcondition :=
  {| pc_id := 7; pc_path := u "type"; pc_mode := u "prefix"; pc_value_text := u "redacted"; pc_invert := true;
     pc_pass_missing_key := false |}.

Definition w_prune : prune_draft :=
  {| pd_simpleMode := false; pd_typeText := u "thinking"; pd_logic := u "OR"; pd_recursive := false;
     pd_rules := [w_rule] |}.

Lemma prune_advanced_roundtrip_witness :
  anon_draft (parsePruneObjectsDraft (H := ascii_case) 0 (buildPruneObjectsValueText (H := ascii_case) w_prune)).1
  = anon_draft w_prune.
Proof.
  apply (prune_advanced_roundtrip (H := ascii_case) w_prune 0). split.
  - split; [apply units_okb_ok; vm_compute; reflexivity | vm_compute; reflexivity].
  - by right.
  - constructor; [|constructor]. split.
    + split; [apply units_okb_ok; vm_compute; reflexivity|]. split; [vm_compute; reflexivity|].
      apply (bool_decide_eq_true_1 _). vm_compute. reflexivity.
    + apply (bool_decide_eq_true_1 _). vm_compute. reflexivity.
    + split; [vm_compute; constructor; apply units_okb_ok; vm_compute; reflexivity|]. split; vm_compute; reflexivity.
  - reflexivity.
  - left. discriminate.
Defined.

(** A card that prunes objects, selected. *)
Definition w_prune_card : operation :=
  patch_op (SetValueText (buildPruneObjectsValueText (H := ascii_case) w_prune))
    (patch_op (SetMode (u "prune_objects")) (createDefaultOperation 0)).

Definition w_prune_editor : po_editor := fresh_editor EditVisual VOperations [] [w_prune_card] [] [] 1.

Definition w_shown_rule : pcondition :=
  {| pc_id := 1; pc_path := u "type"; pc_mode := u "prefix"; pc_value_text := u "redacted"; pc_invert := true;
     pc_pass_missing_key := false |}.

Lemma prune_rule_edits_lost_witness :
  operations (updatePruneRule (H := ascii_case) 0 1 (CSetPath (u "role")) (set_seed 2 w_prune_editor))
  = operations (updatePruneObjectsDraft (H := ascii_case) 0 (fun s d => (d, s)) (set_seed 2 w_prune_editor))
  /\ operations (removePruneRule (H := ascii_case) 0 1 (set_seed 2 w_prune_editor))
     = operations (updatePruneObjectsDraft (H := ascii_case) 0 (fun s d => (d, s)) (set_seed 2 w_prune_editor))
  /\ operations (addPruneRule (H := ascii_case) 0 (set_seed 2 w_prune_editor))
     = operations (updatePruneObjectsDraft (H := ascii_case) 0 (patch_prune (PSimple false)) (set_seed 2 w_prune_editor)).
Proof.
  apply (prune_rule_edits_lost (H := ascii_case) w_prune_editor
           (parsePruneObjectsDraft (H := ascii_case) 1 (o_value_text w_prune_card)).1
           (set_seed 2 w_prune_editor) w_shown_rule 0 (CSetPath (u "role"))).
  - vm_compute. reflexivity.
  - vm_compute. left.
Defined.

Lemma prune_advanced_reverts_witness :
  (parsePruneObjectsDraft (H := ascii_case) 0
     (buildPruneObjectsValueText (H := ascii_case) (patch_prune (PSimple false) 0 (pd_plain (u "thinking"))).1)).1
  = pd_plain (u "thinking").
Proof.
  apply (prune_advanced_reverts (H := ascii_case) 0 (u "thinking")).
  - apply units_okb_ok. vm_compute. reflexivity.
  - vm_compute. reflexivity.
  - apply (bool_decide_eq_true_1 _). vm_compute. reflexivity.
Defined.
