(* ===== verification/ParamOverrideCards.v ===== *)
(** * The cards of the parameter override editor, by position

    The editor addresses cards and conditions by identifiers that it makes up.
    The specification here knows no identifiers: a list of cards, changed at
    positions.  Every handler, called as the page calls it with the identifiers
    of what it shows, refines the change at that position. *)

From S2P Require Import Prelude JsString JsNumber JsNumText JsValue JsJson JsJsonRound.
From S2P Require Import ParamOverride ParamOverrideRound ParamOverrideDrafts ParamOverrideEditor ParamOverrideThms.

#[local] Open Scope Z_scope.

(** ** The specification *)

Inductive card_action :=
  | CUpdate (i : nat) (p : op_patch)
  | CAdd
  | CMove (i j : nat) (after : bool)
  | CRemove (i : nat)
  | CAddCondition (i : nat)
  | CUpdateCondition (i j : nat) (p : cond_patch)
  | CRemoveCondition (i j : nat).

Definition blank_card : operation := createDefaultOperation 0.
Definition blank_cond : pcondition := createDefaultCondition 0.

(** The card at [i] goes directly before or after the card at [j]. *)
Definition move_card (i j : nat) (after : bool) (l : list operation) : list operation :=
  match l !! i with
  | Some x =>
      let rest := delete i l in
      let j' := (if decide (i < j)%nat then (j - 1)%nat else j) in
      let k := if after then S j' else j' in
      take k rest ++ [x] ++ drop k rest
  | None => l
  end.

Definition card_step (a : card_action) (l : list operation) : list operation :=
  match a with
  | CUpdate i p => alter (patch_op p) i l
  | CAdd => l ++ [blank_card]
  | CMove i j after => if decide (i = j) then l else move_card i j after l
  | CRemove i => if decide (length l <= 1)%nat then [blank_card] else delete i l
  | CAddCondition i => alter (with_pconditions (fun cs => cs ++ [blank_cond])) i l
  | CUpdateCondition i j p => alter (with_pconditions (alter (patch_cond p) j)) i l
  | CRemoveCondition i j => alter (with_pconditions (delete j)) i l
  end.

(** ** What the page calls for it *)

Definition id_at (e : po_editor) (i : nat) : option Z := o_id <$> operations e !! i.

Definition cond_id_at (e : po_editor) (i j : nat) : option Z :=
  o ← operations e !! i; pc_id <$> o_conditions o !! j.

Definition page_action (e : po_editor) (a : card_action) : option po_action :=
  match a with
  | CUpdate i p => id ← id_at e i; Some (AUpdate id p)
  | CAdd => Some AAdd
  | CMove i j after =>
      s ← id_at e i; g ← id_at e j;
      Some (ADrop None g {| draggedOperationId := Some s; dragOverOperationId := Some g; dragOverAfter := after |})
  | CRemove i => id ← id_at e i; Some (ARemove id)
  | CAddCondition i => id ← id_at e i; Some (AAddCondition id)
  | CUpdateCondition i j p => id ← id_at e i; cid ← cond_id_at e i j; Some (AUpdateCondition id cid p)
  | CRemoveCondition i j => id ← id_at e i; cid ← cond_id_at e i j; Some (ARemoveCondition id cid)
  end.

(** ** Identifiers and positions *)

Lemma op_ids_nodup l : NoDup (all_ids l) -> NoDup (o_id <$> l).
Proof.
  induction l as [|o l IH]; [constructor|]. rewrite all_ids_cons, fmap_cons. intros (_ & Hd & Hl)%NoDup_app.
  constructor; [|by apply IH]. intros Hin%o_id_in_all. apply (Hd (o_id o)); [left | done].
Qed.

Lemma cond_ids_nodup l i o : NoDup (all_ids l) -> l !! i = Some o -> NoDup (pc_id <$> o_conditions o).
Proof.
  revert i. induction l as [|x l IH]; intros i; [done|]. rewrite all_ids_cons. intros (Hx & _ & Hl)%NoDup_app.
  destruct i as [|i]; [intros [= ->]; by apply NoDup_cons in Hx as [_ Hx] | by apply IH].
Qed.

Section ById.
Context {A : Type} (ident : A -> Z).
Implicit Types (l : list A).

Lemma map_at_id f l i x :
  NoDup (ident <$> l) -> l !! i = Some x -> (fun y => if ident y =? ident x then f y else y) <$> l = alter f i l.
Proof.
  revert i. induction l as [|y l IH]; intros i Hnd Hl; [done|]. rewrite fmap_cons in Hnd. apply NoDup_cons in Hnd as [Hy Hnd].
  rewrite fmap_cons. destruct i as [|i]; cbn in Hl |- *.
  - injection Hl as ->. rewrite Z.eqb_refl. f_equal. rewrite <- (list_fmap_id l) at 2. apply list_fmap_ext.
    intros j z Hz. destruct (Z.eqb_spec (ident z) (ident x)) as [E|]; [|done]. destruct Hy. rewrite <- E.
    apply list_elem_of_fmap_2. by eapply list_elem_of_lookup_2.
  - destruct (Z.eqb_spec (ident y) (ident x)) as [E|]; [destruct Hy; rewrite E;
      apply list_elem_of_fmap_2; by eapply list_elem_of_lookup_2|]. f_equal. by apply IH.
Qed.

Lemma filter_at_id l i x :
  NoDup (ident <$> l) -> l !! i = Some x -> List.filter (fun y => negb (ident y =? ident x)) l = delete i l.
Proof.
  revert i. induction l as [|y l IH]; intros i Hnd Hl; [done|]. rewrite fmap_cons in Hnd. apply NoDup_cons in Hnd as [Hy Hnd].
  cbn [List.filter]. destruct i as [|i]; cbn in Hl |- *.
  - injection Hl as ->. rewrite Z.eqb_refl. cbn [negb]. apply lfilter_id. apply Forall_forall. intros z Hz.
    destruct (Z.eqb_spec (ident z) (ident x)) as [E|]; [|done]. destruct Hy. rewrite <- E. by apply list_elem_of_fmap_2.
  - destruct (Z.eqb_spec (ident y) (ident x)) as [E|]; [destruct Hy; rewrite E;
      apply list_elem_of_fmap_2; by eapply list_elem_of_lookup_2|]. cbn [negb]. f_equal. by apply IH.
Qed.
End ById.

Lemma on_op_at f l i o : NoDup (all_ids l) -> l !! i = Some o -> on_op (o_id o) f l = alter f i l.
Proof. intros Hnd. apply (map_at_id o_id). by apply op_ids_nodup. Qed.

(** A handler on the card at [i] that does [h] to its content. *)
Lemma on_op_refines f h l i o :
  NoDup (all_ids l) -> l !! i = Some o -> anon (f o) = h (anon o) ->
  anon <$> on_op (o_id o) f l = alter h i (anon <$> l).
Proof.
  intros Hnd Hl Hf. rewrite (on_op_at f l i o Hnd Hl). clear Hnd. revert i Hl.
  induction l as [|y l IH]; intros i Hl; [done|]. destruct i as [|i]; cbn in Hl.
  - injection Hl as ->. rewrite fmap_cons. change (anon <$> (f o :: l) = h (anon o) :: (anon <$> l)). by rewrite fmap_cons, Hf.
  - rewrite fmap_cons. change (anon <$> (y :: alter f i l) = anon y :: alter h i (anon <$> l)).
    rewrite fmap_cons. f_equal. by apply IH.
Qed.

Lemma anon_conditions f h o :
  anon_cond <$> f (o_conditions o) = h (anon_cond <$> o_conditions o) ->
  anon (with_pconditions f o) = with_pconditions h (anon o).
Proof. intros E. unfold anon, with_pconditions. cbn [o_id o_description o_path o_mode o_value_text o_keep_origin
  o_from o_to o_logic o_conditions]. by rewrite E. Qed.

Lemma move_refines l i j so to after :
  NoDup (all_ids l) -> l !! i = Some so -> l !! j = Some to -> i <> j ->
  anon <$> reorderOperations l (Some (o_id so)) (Some (o_id to)) after = move_card i j after (anon <$> l).
Proof.
  intros Hnd Hi Hj Hij. apply op_ids_nodup in Hnd. unfold reorderOperations, move_card.
  destruct (Z.eqb_spec (o_id so) (o_id to)) as [E|_].
  { destruct Hij. eapply (NoDup_lookup (o_id <$> l)); [done | by rewrite list_lookup_fmap, Hi |].
    rewrite list_lookup_fmap, Hj. simpl. by rewrite E. }
  rewrite (find_id_some _ _ _ _ Hnd Hi eq_refl), list_lookup_fmap, Hi. cbn [fmap option_fmap option_map]. cbv zeta.
  rewrite <- delete_take_drop, <- list_fmap_delete.
  set (j' := if decide (i < j)%nat then (j - 1)%nat else j).
  assert (delete i l !! j' = Some to) as Hj'.
  { subst j'. rewrite list_lookup_delete. destruct (decide (i < j)%nat).
    - rewrite decide_False by lia. replace (S (j - 1)) with j by lia. done.
    - rewrite decide_True by lia. done. }
  assert (NoDup (o_id <$> delete i l)) as Hnd'.
  { rewrite list_fmap_delete. eapply sublist_NoDup; [exact Hnd | apply sublist_delete]. }
  unfold find_index. rewrite (find_id_some _ _ _ _ Hnd' Hj' eq_refl).
  by rewrite !fmap_app, fmap_take, fmap_drop.
Qed.

Section Refinement.
Context `{UnicodeCase}.
Context (t : jsstr -> Z -> jsstr).

(** C14. The handlers of the cards refine the list of cards by position: in every
    state the editor can reach, the handler that the page calls for a change at a
    position makes exactly that change to the contents and no other. *)
Theorem cards_refine e a act :
  po_reachable t e -> page_action e a = Some act ->
  exists e', po_handle t act e = Ret e' /\ anon <$> operations e' = card_step a (anon <$> operations e).
Proof.
  intros Hr. pose proof (wf_nodup _ (reachable_wf t e Hr)) as Hnd. unfold page_action, id_at, cond_id_at.
  destruct a as [i p| |i j after|i|i|i j p|i j]; intros Ha;
    repeat match type of Ha with context [operations e !! ?k] =>
      let o := fresh "o" in let E := fresh "E" in destruct (operations e !! k) as [o|] eqn:E; [|discriminate Ha] end;
    cbn in Ha;
    try match type of Ha with context [o_conditions ?o !! ?k] =>
      destruct (o_conditions o !! k) as [c|] eqn:Ec; [|discriminate Ha] end;
    cbn in Ha; injection Ha as <-; (eexists; split; [reflexivity|]); cbn [card_step].
  - by apply on_op_refines.
  - cbn [operations addOperation set_seed set_selected_op set_ops]. by rewrite fmap_app.
  - cbn [snd handleOperationDrop draggedOperationId dragOverOperationId dragOverAfter]. rewrite bool_decide_eq_true_2 by done.
    unfold moveOperation. destruct (decide (i = j)) as [->|Hij]; [simplify_eq; by rewrite Z.eqb_refl|].
    destruct (Z.eqb_spec (o_id o) (o_id o0)) as [Eid|_]; [|by apply move_refines].
    destruct Hij. apply op_ids_nodup in Hnd. eapply (NoDup_lookup (o_id <$> operations e)); [done | by rewrite list_lookup_fmap, E |].
    rewrite list_lookup_fmap, E0. simpl. by rewrite Eid.
  - unfold removeOperation. rewrite length_fmap. destruct (decide (length (operations e) <= 1)%nat) as [Hl|Hl].
    + by rewrite (proj2 (Nat.leb_le _ _) Hl).
    + rewrite (proj2 (Nat.leb_nle _ _) Hl). cbn [operations set_expanded set_ops].
      rewrite (filter_at_id o_id (operations e) i o) by (done || by apply op_ids_nodup). apply list_fmap_delete.
  - apply on_op_refines; [done..|]. apply anon_conditions. by rewrite fmap_app.
  - apply on_op_refines; [done..|]. apply anon_conditions.
    rewrite (map_at_id pc_id (patch_cond p) _ j c) by (done || by eapply cond_ids_nodup).
    apply list_fmap_alter. by apply Forall_true.
  - apply on_op_refines; [done..|]. apply anon_conditions.
    rewrite (filter_at_id pc_id _ j c) by (done || by eapply cond_ids_nodup). apply list_fmap_delete.
Qed.
End Refinement.

(** ** Witness *)

Lemma cards_refine_witness :
  match parseInitialState (H := ascii_case) 0 (JStr []) with
  | Ret e =>
      exists e', po_handle (H := ascii_case) w_t (AUpdate 0 (SetPath (u "model"))) (fix_selected e) = Ret e'
                 /\ anon <$> operations e'
                    = card_step (CUpdate 0 (SetPath (u "model"))) (anon <$> operations (fix_selected e))
  | Throw _ => False
  end.
Proof.
  destruct (parseInitialState (H := ascii_case) 0 (JStr [])) as [e|] eqn:E; [|discriminate E].
  apply (cards_refine (H := ascii_case) w_t (fix_selected e) (CUpdate 0 (SetPath (u "model")))).
  - exact (po_open w_t 0 (JStr []) e E).
  - vm_compute in E. injection E as <-. reflexivity.
Defined.
