(* ===== verification/AccessPolicy.v ===== *)
(** * The access policy of the web pages

    A model of the access checks of web/classic/src/helpers/utils.jsx: the role of
    the viewer, the resources a route belongs to, and the six layers of rules of the
    server's status that may restrict a route.  The status is the JSON value the
    server sent ([JUndef] before it has arrived); [stored] is the text of the entry
    ["user"] of the browser's local storage. *)

From S2P Require Import Prelude JsString JsNumber JsNumText JsValue JsJson.

(** ** Roles *)

Definition GUEST : num := of_Z 0.
Definition COMMON : num := of_Z 1.
Definition AUDIT_ADMIN : num := of_Z 5.
Definition ADMIN : num := of_Z 10.
Definition ROOT : num := of_Z 100.

(** [user.role] of the stored user, [None] when nobody is stored; a text that is not
    JSON, and a stored [null], throw. *)
Definition stored_role (stored : option jsstr) : exc (option jsv) :=
  match stored with
  | None | Some [] => Ret None
  | Some user =>
      match json_parse user with
      | None => Throw (u "SyntaxError")
      | Some v => if is_nullish v then Throw (u "TypeError") else Ret (Some (v?."role"))
      end
  end.

Definition role_at_least (v : jsv) (n : num) : bool := num_ge (to_number v) n.

Definition isAdmin (stored : option jsstr) : exc bool :=
  r ← stored_role stored; Ret (match r with None => false | Some v => role_at_least v ADMIN end).

Definition isAuditAdmin (stored : option jsstr) : exc bool :=
  r ← stored_role stored;
  Ret (match r with None => false | Some v => role_at_least v AUDIT_ADMIN end).

Definition isAuditOnlyAdmin (stored : option jsstr) : exc bool :=
  r ← stored_role stored;
  Ret (match r with
       | None => false
       | Some v => role_at_least v AUDIT_ADMIN && num_lt (to_number v) ADMIN
       end).

Definition isRoot (stored : option jsstr) : exc bool :=
  r ← stored_role stored; Ret (match r with None => false | Some v => role_at_least v ROOT end).

(** ** Resources and sources *)

Definition CHINA_MAINLAND_SENSITIVE_WEB_PATHS : list jsstr :=
  [u "/console/token"; u "/console/topup"; u "/console/billing"].

Definition R_ALL := u "all".
Definition R_WEB := u "web".
Definition R_HOME := u "home".
Definition R_MODEL_API := u "model_api".
Definition R_TOKEN := u "token".
Definition R_WALLET := u "wallet".
Definition R_BILLING := u "billing".
Definition R_USAGE_LOG := u "usage_log".
Definition R_DASHBOARD := u "dashboard".
Definition R_PLAYGROUND := u "playground".
Definition R_CHAT := u "chat".
Definition R_PERSONAL := u "personal".
Definition R_DRAWING_LOG := u "drawing_log".
Definition R_TASK_LOG := u "task_log".
Definition R_ADMIN_CHANNEL := u "admin_channel".
Definition R_ADMIN_SUBSCRIPTION := u "admin_subscription".
Definition R_ADMIN_MODEL := u "admin_model".
Definition R_ADMIN_REDEMPTION := u "admin_redemption".
Definition R_ADMIN_USER := u "admin_user".
Definition R_ADMIN_REFERRAL := u "admin_referral".
Definition R_ADMIN_SETTING := u "admin_setting".

Definition ACCESS_RESOURCES : list jsstr :=
  [R_ALL; R_WEB; R_HOME; R_MODEL_API; R_TOKEN; R_WALLET; R_BILLING; R_USAGE_LOG;
   R_DASHBOARD; R_PLAYGROUND; R_CHAT; R_PERSONAL; R_DRAWING_LOG; R_TASK_LOG;
   R_ADMIN_CHANNEL; R_ADMIN_SUBSCRIPTION; R_ADMIN_MODEL; R_ADMIN_REDEMPTION;
   R_ADMIN_USER; R_ADMIN_REFERRAL; R_ADMIN_SETTING].

Definition S_ALL := u "all".
Definition S_CHINA_MAINLAND := u "china_mainland".
Definition S_EUROPEAN_UNION := u "european_union".
Definition S_UNKNOWN_COUNTRY := u "unknown_country".

(** ** Routes *)

Definition is_slash (c : Z) : bool := c =? 47.

(** [path.replace(/\/+$/, '')] *)
Definition strip_slashes (s : jsstr) : jsstr := reverse (dropWhile is_slash (reverse s)).

Definition normalizeRoutePath (pathname : jsstr) : jsstr :=
  if bool_decide (pathname = []) then u "/"
  else if (1 <? Z.of_nat (length pathname)) && endsWith (u "/") pathname then
    let s := strip_slashes pathname in if bool_decide (s = []) then u "/" else s
  else pathname.

Definition appendResourceKey (keys : list jsstr) (key : jsstr) : list jsstr :=
  if negb (bool_decide (key = [])) && negb (bool_decide (key ∈ keys)) then keys ++ [key] else keys.

Definition isWebSPAFallbackPath (path : jsstr) : bool :=
  if bool_decide (path = []) || bool_decide (path = u "/") then true
  else if bool_decide (path ∈ [u "/setup"; u "/login"; u "/register"; u "/reset";
                               u "/user/reset"; u "/forbidden"; u "/favicon.ico"]) then false
  else if startsWith (u "/api") path || startsWith (u "/v1") path || startsWith (u "/v1beta") path
       || startsWith (u "/mj") path || startsWith (u "/suno") path || startsWith (u "/kling") path
       || startsWith (u "/jimeng") path || startsWith (u "/pg") path
       || startsWith (u "/assets") path || startsWith (u "/static") path
       || startsWith (u "/oauth") path || includes (u ".") path then false
  else negb (startsWith (u "/console") path).

(** The cases of the [switch], each with the keys its body appends. *)
Definition route_cases : list (jsstr * list jsstr) :=
  [(u "/", [R_WEB; R_HOME]);
   (u "/pricing", [R_WEB]); (u "/rankings", [R_WEB]); (u "/about", [R_WEB]);
   (u "/user-agreement", [R_WEB]); (u "/privacy-policy", [R_WEB]);
   (u "/setup", []); (u "/login", []); (u "/register", []); (u "/reset", []);
   (u "/user/reset", []); (u "/favicon.ico", []);
   (u "/console", [R_DASHBOARD]);
   (u "/console/token", [R_TOKEN]);
   (u "/console/topup", [R_WALLET]);
   (u "/console/billing", [R_BILLING]);
   (u "/console/log", [R_USAGE_LOG]);
   (u "/console/playground", [R_PLAYGROUND]);
   (u "/console/personal", [R_PERSONAL]);
   (u "/console/midjourney", [R_DRAWING_LOG]);
   (u "/console/task", [R_TASK_LOG]);
   (u "/console/channel", [R_ADMIN_CHANNEL]);
   (u "/console/subscription", [R_ADMIN_SUBSCRIPTION]);
   (u "/console/models", [R_ADMIN_MODEL]);
   (u "/console/redemption", [R_ADMIN_REDEMPTION]);
   (u "/console/user", [R_ADMIN_USER]);
   (u "/console/referral", [R_ADMIN_REFERRAL]);
   (u "/console/setting", [R_ADMIN_SETTING])].

Definition getRouteResourceKeys (pathname : jsstr) : list jsstr :=
  let path := normalizeRoutePath pathname in
  match om_get path route_cases with
  | Some appended => fold_left appendResourceKey appended []
  | None =>
      if startsWith (u "/console/chat") path || bool_decide (path = u "/chat2link")
      then fold_left appendResourceKey [R_CHAT] []
      else if isWebSPAFallbackPath path then fold_left appendResourceKey [R_WEB; R_HOME] []
      else []
  end.

(** ** The viewer's role *)

Definition getCurrentUserRole (stored : option jsstr) : num :=
  match stored with
  | None | Some [] => GUEST
  | Some rawUser =>
      match json_parse rawUser with
      | None => GUEST
      | Some user => to_number (js_nullish (user?."role") (JNum GUEST))
      end
  end.

Definition getRequestRole (stored : option jsstr) (status role : jsv) : num :=
  let resolvedRole :=
    js_nullish role
      (js_nullish (status?."access_control"?."current_role") (JNum (getCurrentUserRole stored))) in
  let numericRole := to_number resolvedRole in
  if negb (is_finite numericRole) then GUEST else numericRole.

Definition getRoleAccessLevel (role : num) : jsstr :=
  if num_ge role ROOT then u "root"
  else if num_ge role ADMIN then u "admin"
  else if num_ge role AUDIT_ADMIN then u "audit_admin"
  else if num_ge role COMMON then u "user"
  else u "guest".

(** ** Rules *)

(** [Object.prototype.hasOwnProperty.call(v, k)] *)
Definition hasOwnProperty (v : jsv) (k : jsstr) : bool :=
  match v with
  | JObj o => match om_get k o with Some _ => true | None => false end
  | JArr _ | JStr _ => bool_decide (k ∈ keys v) || bool_decide (k = u "length")
  | _ => false
  end.

Record reason := {
  r_kind : jsstr;
  r_source : jsstr;
  r_resource : jsstr;
  r_role : jsstr;
  r_scope : jsstr
}.

Definition web_reason (kind source resource role : jsstr) : reason :=
  {| r_kind := kind; r_source := source; r_resource := resource; r_role := role;
     r_scope := u "web" |}.

(** A loop that returns the first result of its body. *)
Fixpoint first_some {A B} (f : A -> option B) (l : list A) : option B :=
  match l with
  | [] => None
  | x :: l' => match f x with Some y => Some y | None => first_some f l' end
  end.

(** [a || b] on results that are an object or [null]. *)
Definition or_else {A} (a b : option A) : option A := match a with Some _ => a | None => b end.

Definition isSome {A} (o : option A) : bool := match o with Some _ => true | None => false end.

Definition getRequestAccessSources (accessControl : jsv) : list jsstr :=
  if negb (truthy (accessControl?."request_country_known")) then [S_ALL; S_UNKNOWN_COUNTRY]
  else
    [S_ALL]
    ++ (if truthy (accessControl?."request_from_china_mainland") then [S_CHINA_MAINLAND] else [])
    ++ (if truthy (accessControl?."request_from_european_union") then [S_EUROPEAN_UNION] else []).

Definition roleRuleBlocks (rule : jsv) (level : jsstr) : bool := is_true (oget rule level).

Section Policy.
Context (stored : option jsstr).

Definition isResourceAllowed (status : jsv) (resourceKey : jsstr) (role : jsv) : bool :=
  if bool_decide (resourceKey = []) then true
  else
    let accessControl := status?."access_control" in
    let rules := accessControl?."resource_rules" in
    let level := getRoleAccessLevel (getRequestRole stored status role) in
    let rule := oget rules resourceKey in
    if truthy rule && hasOwnProperty rule level then negb (is_false (oget rule level))
    else
      let resourceAccess := accessControl?."resource_access" in
      if truthy resourceAccess && hasOwnProperty resourceAccess resourceKey
      then negb (is_false (oget resourceAccess resourceKey))
      else true.

Definition sourceResourceRestrictionReason (status : jsv) (resourceKeys : list jsstr) (role : jsv)
    : option reason :=
  let accessControl := status?."access_control" in
  let rules := accessControl?."source_resource_rules" in
  if negb (truthy rules) || bool_decide (resourceKeys = []) then None
  else
    let level := getRoleAccessLevel (getRequestRole stored status role) in
    first_some (fun source =>
      let sourceRules := oget rules source in
      if negb (truthy sourceRules) then None
      else if roleRuleBlocks (oget sourceRules R_ALL) level
      then Some (web_reason (u "source_resource_all") source R_ALL level)
      else first_some (fun resourceKey =>
        if roleRuleBlocks (oget sourceRules resourceKey) level
        then Some (web_reason (u "source_resource") source resourceKey level)
        else None) resourceKeys)
      (getRequestAccessSources accessControl).

Definition roleGeoRestrictionReason (status role : jsv) : option reason :=
  let accessControl := status?."access_control" in
  let rules := accessControl?."role_geo_rules" in
  if negb (truthy rules) then None
  else
    let level := getRoleAccessLevel (getRequestRole stored status role) in
    first_some (fun source =>
      if roleRuleBlocks (oget rules source) level
      then Some (web_reason (u "role_geo") source R_ALL level) else None)
      (getRequestAccessSources accessControl).

Definition resourceRestrictionReason (status : jsv) (resourceKey : jsstr) (role : jsv)
    : option reason :=
  if isResourceAllowed status resourceKey role then None
  else Some (web_reason (u "resource") S_ALL resourceKey
               (getRoleAccessLevel (getRequestRole stored status role))).

(** [accessControl?.web_policy_enabled === false] *)
Definition policy_off (status : jsv) : bool :=
  is_false (status?."access_control"?."web_policy_enabled").

Definition getRouteResourceRestrictionReason (status : jsv) (pathname : jsstr) (role : jsv)
    : option reason :=
  if policy_off status then None
  else
    let keys := getRouteResourceKeys pathname in
    if bool_decide (keys = []) then None
    else or_else (sourceResourceRestrictionReason status keys role)
           (first_some (fun key => resourceRestrictionReason status key role) keys).

Definition isRouteResourceRestricted (status : jsv) (pathname : jsstr) (role : jsv) : bool :=
  isSome (getRouteResourceRestrictionReason status pathname role).

Definition getChinaMainlandRouteRestrictionReason (status : jsv) (pathname : jsstr) (role : jsv)
    : option reason :=
  let accessControl := status?."access_control" in
  if policy_off status then None
  else if negb (truthy (accessControl?."request_from_china_mainland"))
       || num_ge (getRequestRole stored status role) AUDIT_ADMIN then None
  else
    let path := normalizeRoutePath pathname in
    let level := getRoleAccessLevel (getRequestRole stored status role) in
    if truthy (accessControl?."block_china_mainland_homepage")
       && (bool_decide (path = u "/") || isWebSPAFallbackPath path)
    then Some (web_reason (u "china_mainland_home") S_CHINA_MAINLAND R_HOME level)
    else if truthy (accessControl?."block_china_mainland_user_sensitive_pages")
         && bool_decide (path ∈ CHINA_MAINLAND_SENSITIVE_WEB_PATHS)
    then Some (web_reason (u "china_mainland_sensitive") S_CHINA_MAINLAND
                 (default [] (head (getRouteResourceKeys path))) level)
    else None.

Definition isChinaMainlandRouteRestricted (status : jsv) (pathname : jsstr) (role : jsv) : bool :=
  isSome (getChinaMainlandRouteRestrictionReason status pathname role).

Definition getGlobalGeoRestrictionReason (status : jsv) : option reason :=
  let accessControl := status?."access_control" in
  if policy_off status then None
  else if truthy (accessControl?."block_china_mainland")
       && truthy (accessControl?."request_from_china_mainland")
  then Some (web_reason (u "geo_china_mainland") S_CHINA_MAINLAND R_ALL (u "all"))
  else if truthy (accessControl?."block_european_union")
       && truthy (accessControl?."request_from_european_union")
  then Some (web_reason (u "geo_european_union") S_EUROPEAN_UNION R_ALL (u "all"))
  else None.

Definition getIdentityRestrictionReason (status role : jsv) : option reason :=
  let accessControl := status?."access_control" in
  if policy_off status then None
  else
    let requestRole := getRequestRole stored status role in
    let level := getRoleAccessLevel requestRole in
    if num_ge requestRole AUDIT_ADMIN then
      if truthy (accessControl?."block_admins")
      then Some (web_reason (u "identity_admins") S_ALL R_ALL level) else None
    else if num_ge requestRole COMMON then
      if truthy (accessControl?."block_users")
      then Some (web_reason (u "identity_users") S_ALL R_ALL level) else None
    else if truthy (accessControl?."block_guests")
    then Some (web_reason (u "identity_guests") S_ALL R_ALL level) else None.

Definition getRouteAccessRestrictionReason (status : jsv) (pathname : jsstr) (role : jsv)
    : option reason :=
  let keys := getRouteResourceKeys pathname in
  let sourceResourceReason := sourceResourceRestrictionReason status keys role in
  let resourceReason := first_some (fun key => resourceRestrictionReason status key role) keys in
  or_else (getGlobalGeoRestrictionReason status)
    (or_else (roleGeoRestrictionReason status role)
      (or_else sourceResourceReason
        (or_else (getChinaMainlandRouteRestrictionReason status pathname role)
          (or_else resourceReason (getIdentityRestrictionReason status role))))).

Definition isRouteAccessRestricted (status : jsv) (pathname : jsstr) (role : jsv) : bool :=
  isSome (getRouteAccessRestrictionReason status pathname role).
End Policy.
