(* ===== verification/AccessPolicyThms.v ===== *)
(** * What the access policy decides

    The reason [AccessPolicy.getRouteAccessRestrictionReason] gives is justified by a
    rule of the status, it is of the first layer that has one, and when no reason is
    given no layer restricts the route.  The decision does not depend on trailing
    slashes, and the stored user's role queries agree with the access levels. *)

From Stdlib Require Import QArith Lqa.
From S2P Require Import Prelude JsString JsNumber JsNumText JsValue JsJson AccessPolicy.
#[local] Open Scope Z_scope.

(** ** Lists and options *)

Lemma first_some_Some {A B} (f : A -> option B) l y :
  first_some f l = Some y -> exists x, x ∈ l /\ f x = Some y.
Proof.
  induction l as [|a l IH]; simpl; [done|]. destruct (f a) eqn:E; intros H.
  - exists a. split; [left | congruence].
  - destruct (IH H) as (x & Hx & Hf). exists x. split; [by right | done].
Qed.

Lemma first_some_None {A B} (f : A -> option B) l :
  first_some f l = None <-> forall x, x ∈ l -> f x = None.
Proof.
  induction l as [|a l IH]; simpl.
  - split; [|done]. intros _ x Hx. by apply not_elem_of_nil in Hx.
  - destruct (f a) eqn:E.
    + split; [done|]. intros H. specialize (H a). rewrite E in H. by apply H; left.
    + rewrite IH. split.
      * intros H x [->|Hx]%elem_of_cons; auto.
      * intros H x Hx. apply H. by right.
Qed.

Lemma or_else_Some {A} (a b : option A) x :
  or_else a b = Some x <-> a = Some x \/ a = None /\ b = Some x.
Proof. destruct a; simpl; naive_solver. Qed.

Lemma or_else_None {A} (a b : option A) : or_else a b = None <-> a = None /\ b = None.
Proof. destruct a; simpl; naive_solver. Qed.

Lemma isSome_true {A} (o : option A) : isSome o = true <-> exists x, o = Some x.
Proof. destruct o; simpl; naive_solver. Qed.

(** ** Lookups in falsy values *)

Lemma oget_falsy v k : truthy v = false -> array_index k = None -> k <> u "length" -> oget v k = JUndef.
Proof.
  intros Hv Hk Hl. destruct v as [| |?|?|s|?|?]; try done. simpl in *.
  unfold list_get. rewrite Hk, bool_decide_eq_false_2; done.
Qed.

(** The names of the sources. *)
Lemma sources_known ac s :
  s ∈ getRequestAccessSources ac -> s ∈ [S_ALL; S_CHINA_MAINLAND; S_EUROPEAN_UNION; S_UNKNOWN_COUNTRY].
Proof.
  unfold getRequestAccessSources. intros Hs.
  assert (Hsub : forall l, forallb (fun k => bool_decide (k ∈ [S_ALL; S_CHINA_MAINLAND; S_EUROPEAN_UNION;
    S_UNKNOWN_COUNTRY])) l = true -> s ∈ l -> s ∈ [S_ALL; S_CHINA_MAINLAND; S_EUROPEAN_UNION; S_UNKNOWN_COUNTRY]).
  { intros l Hl Hin. rewrite forallb_forall in Hl.
    exact (bool_decide_eq_true_1 _ (Hl s (proj1 (list_elem_of_In _ _) Hin))). }
  revert Hs. repeat case_match; apply Hsub; vm_compute; reflexivity.
Qed.

Lemma source_name s :
  s ∈ [S_ALL; S_CHINA_MAINLAND; S_EUROPEAN_UNION; S_UNKNOWN_COUNTRY] ->
  array_index s = None /\ s <> u "length".
Proof.
  intros H. repeat (apply elem_of_cons in H as [->|H];
    [split; [vm_compute; reflexivity | by apply (bool_decide_eq_false_1 _); vm_compute] |]).
  by apply not_elem_of_nil in H.
Qed.

Lemma resource_name k : k ∈ tail ACCESS_RESOURCES -> array_index k = None /\ k <> u "length".
Proof.
  intros H. cbn [tail ACCESS_RESOURCES] in H. repeat (apply elem_of_cons in H as [->|H];
    [split; [vm_compute; reflexivity | by apply (bool_decide_eq_false_1 _); vm_compute] |]).
  by apply not_elem_of_nil in H.
Qed.

(** ** Routes *)

(** The keys of a route: distinct, and each the name of a resource. *)
Definition keys_ok (ks : list jsstr) : Prop := NoDup ks /\ Forall (fun k => k ∈ tail ACCESS_RESOURCES) ks.

Lemma keys_ok_dec ks :
  bool_decide (NoDup ks) && forallb (fun k => bool_decide (k ∈ tail ACCESS_RESOURCES)) ks = true ->
  keys_ok ks.
Proof.
  intros H. bool_simp. split; [done|]. rewrite Forall_forall. intros k Hk.
  rewrite forallb_forall in H0. specialize (H0 k (proj1 (list_elem_of_In _ _) Hk)).
  by bool_simp.
Qed.

Lemma route_case_ok path ks :
  om_get path route_cases = Some ks -> keys_ok (fold_left appendResourceKey ks []).
Proof.
  intros H%om_get_Some_in. apply keys_ok_dec.
  assert (Hall : forallb (fun pk => let ks := fold_left appendResourceKey pk.2 [] in
    bool_decide (NoDup ks) && forallb (fun k => bool_decide (k ∈ tail ACCESS_RESOURCES)) ks)
    route_cases = true) by (vm_compute; reflexivity).
  rewrite forallb_forall in Hall. exact (Hall _ (proj1 (list_elem_of_In _ _) H)).
Qed.

Lemma route_keys_ok path : keys_ok (getRouteResourceKeys path).
Proof.
  unfold getRouteResourceKeys. destruct (om_get _ _) eqn:E; [by eapply route_case_ok|].
  repeat case_match; apply keys_ok_dec; vm_compute; reflexivity.
Qed.

(** ** Levels *)

Lemma num_le_trans a b c : num_le a b = true -> num_le b c = true -> num_le a c = true.
Proof.
  unfold num_le, num_compare.
  destruct a as [|[]|?|x], b as [|[]|?|y], c as [|[]|?|z]; unfold val0; simpl; try done.
  all: repeat match goal with
    | |- context [Qcompare ?p ?q] => destruct (Qcompare_spec p q); try done
    end; intros; lra.
Qed.

(** The thresholds are ordered. *)
Lemma ge_below r a b : num_le b a = true -> num_ge r a = true -> num_ge r b = true.
Proof. unfold num_ge. apply num_le_trans. Qed.

Lemma level_cases r :
  num_ge r AUDIT_ADMIN = true /\ getRoleAccessLevel r ∈ [u "audit_admin"; u "admin"; u "root"] \/
  num_ge r AUDIT_ADMIN = false /\ num_ge r COMMON = true /\ getRoleAccessLevel r = u "user" \/
  num_ge r AUDIT_ADMIN = false /\ num_ge r COMMON = false /\ getRoleAccessLevel r = u "guest".
Proof.
  unfold getRoleAccessLevel.
  destruct (num_ge r ROOT) eqn:E1.
  { left. split; [by apply (ge_below r ROOT) | right; right; left]. }
  destruct (num_ge r ADMIN) eqn:E2.
  { left. split; [by apply (ge_below r ADMIN) | right; left]. }
  destruct (num_ge r AUDIT_ADMIN) eqn:E3; [by left; split; [|left]|].
  destruct (num_ge r COMMON) eqn:E4; auto.
Qed.

Lemma admin_levels l : l ∈ [u "audit_admin"; u "admin"; u "root"] -> l <> u "user" /\ l <> u "guest".
Proof.
  intros H. repeat (apply elem_of_cons in H as [->|H];
    [split; by apply (bool_decide_eq_false_1 _); vm_compute |]).
  by apply not_elem_of_nil in H.
Qed.

Lemma low_level r : num_ge r AUDIT_ADMIN = false <-> getRoleAccessLevel r ∈ [u "guest"; u "user"].
Proof.
  destruct (level_cases r) as [[-> Hl]|[(-> & _ & Hl)|(-> & _ & Hl)]].
  - apply admin_levels in Hl as [Hu Hg]. split; [done|]. intros H.
    repeat (apply elem_of_cons in H as [H|H]; [congruence|]). by apply not_elem_of_nil in H.
  - rewrite Hl. split; [|done]. intros _. right. left.
  - rewrite Hl. split; [|done]. intros _. left.
Qed.

(** ** The layers *)

(** A rule of the matrix blocks the level. *)
Definition cell (rules : jsv) (source resource level : jsstr) : bool :=
  is_true (oget (oget (oget rules source) resource) level).

Section Layers.
Context (stored : option jsstr) (status : jsv) (path : jsstr) (role : jsv).

Notation ac := (status?."access_control").
Notation viewer := (getRequestRole stored status role).
Notation level := (getRoleAccessLevel viewer).
Notation route := (normalizeRoutePath path).
Notation keys := (getRouteResourceKeys path).
Notation flag k := (truthy (oget ac (u k)) = true).

(** [justified n r]: layer [n] of the policy restricts the route, for the reason [r]. *)
Inductive justified : nat -> reason -> Prop :=
  | J_geo_cn : policy_off status = false ->
      flag "block_china_mainland" -> flag "request_from_china_mainland" ->
      justified 1 (web_reason (u "geo_china_mainland") S_CHINA_MAINLAND R_ALL (u "all"))
  | J_geo_eu : policy_off status = false ->
      flag "block_european_union" -> flag "request_from_european_union" ->
      justified 1 (web_reason (u "geo_european_union") S_EUROPEAN_UNION R_ALL (u "all"))
  | J_role_geo source : source ∈ getRequestAccessSources ac ->
      is_true (oget (oget (oget ac (u "role_geo_rules")) source) level) = true ->
      justified 2 (web_reason (u "role_geo") source R_ALL level)
  | J_source_all source : keys <> [] -> source ∈ getRequestAccessSources ac ->
      cell (oget ac (u "source_resource_rules")) source R_ALL level = true ->
      justified 3 (web_reason (u "source_resource_all") source R_ALL level)
  | J_source source key : key ∈ keys -> source ∈ getRequestAccessSources ac ->
      cell (oget ac (u "source_resource_rules")) source key level = true ->
      justified 3 (web_reason (u "source_resource") source key level)
  | J_home : policy_off status = false ->
      flag "request_from_china_mainland" -> num_ge viewer AUDIT_ADMIN = false ->
      flag "block_china_mainland_homepage" -> isWebSPAFallbackPath route = true ->
      justified 4 (web_reason (u "china_mainland_home") S_CHINA_MAINLAND R_HOME level)
  | J_sensitive key : policy_off status = false ->
      flag "request_from_china_mainland" -> num_ge viewer AUDIT_ADMIN = false ->
      flag "block_china_mainland_user_sensitive_pages" ->
      (route, key) ∈ [(u "/console/token", R_TOKEN); (u "/console/topup", R_WALLET);
                      (u "/console/billing", R_BILLING)] ->
      justified 4 (web_reason (u "china_mainland_sensitive") S_CHINA_MAINLAND key level)
  | J_resource key : key ∈ keys -> isResourceAllowed stored status key role = false ->
      justified 5 (web_reason (u "resource") S_ALL key level)
  | J_admins : policy_off status = false -> level ∈ [u "audit_admin"; u "admin"; u "root"] ->
      flag "block_admins" -> justified 6 (web_reason (u "identity_admins") S_ALL R_ALL level)
  | J_users : policy_off status = false -> level = u "user" ->
      flag "block_users" -> justified 6 (web_reason (u "identity_users") S_ALL R_ALL level)
  | J_guests : policy_off status = false -> level = u "guest" ->
      flag "block_guests" -> justified 6 (web_reason (u "identity_guests") S_ALL R_ALL level).

(** What a layer computes: a reason it justifies, and none exactly when it has none. *)
Definition layer_spec (n : nat) (o : option reason) : Prop :=
  match o with Some r => justified n r | None => forall r, ~ justified n r end.

Lemma geo_layer : layer_spec 1 (getGlobalGeoRestrictionReason status).
Proof.
  unfold getGlobalGeoRestrictionReason, layer_spec. destruct (policy_off status) eqn:Hp.
  { intros r H. inversion H; congruence. }
  destruct (truthy ac?."block_china_mainland") eqn:E1,
    (truthy ac?."request_from_china_mainland") eqn:E2; cbn [andb]; [exact (J_geo_cn Hp E1 E2) | ..];
    (destruct (truthy ac?."block_european_union") eqn:E3,
      (truthy ac?."request_from_european_union") eqn:E4; cbn [andb]; [exact (J_geo_eu Hp E3 E4) | ..]);
    intros r H; inversion H; congruence.
Qed.

Lemma role_geo_layer : layer_spec 2 (roleGeoRestrictionReason stored status role).
Proof.
  unfold roleGeoRestrictionReason. set (rules := ac?."role_geo_rules").
  destruct (truthy rules) eqn:Ht; cbn [negb].
  - destruct (first_some _ _) as [r|] eqn:E; simpl.
    + apply first_some_Some in E as (s & Hs & E). destruct (roleRuleBlocks _ _) eqn:Hb; [|done].
      apply (inj Some) in E as <-. by constructor.
    + intros r H. rewrite first_some_None in E. inversion H as [| |s Hs Hb | | | | | | | |]; subst.
      specialize (E s Hs). unfold roleRuleBlocks, rules in E. by rewrite Hb in E.
  - intros r H. inversion H as [| |s Hs Hb | | | | | | | |]; subst.
    destruct (source_name s (sources_known _ _ Hs)) as [Hi Hl].
    fold rules in Hb. rewrite (oget_falsy rules s Ht Hi Hl) in Hb. done.
Qed.

Lemma source_layer : layer_spec 3 (sourceResourceRestrictionReason stored status keys role).
Proof.
  unfold sourceResourceRestrictionReason. set (rules := ac?."source_resource_rules").
  assert (Hoff : truthy rules = false \/ keys = [] -> forall r, ~ justified 3 r).
  { intros Hr r H.
    inversion H as [| | |s Hk Hs Hb|s k Hk Hs Hb| | | | | |]; subst;
      destruct (source_name s (sources_known _ _ Hs)) as [Hi Hl]; fold rules in Hb.
    all: destruct Hr as [Hr|Hr];
      [unfold cell in Hb; by rewrite (oget_falsy rules s Hr Hi Hl) in Hb | rewrite Hr in Hk].
    - done.
    - by apply not_elem_of_nil in Hk. }
  destruct (truthy rules) eqn:Ht; cbn [negb orb]; [|exact (Hoff (or_introl eq_refl))].
  case_bool_decide as Hk; [exact (Hoff (or_intror Hk))|].
  destruct (first_some _ _) as [r|] eqn:E; simpl.
  - apply first_some_Some in E as (s & Hs & E). destruct (truthy (oget rules s)); [|done]. cbn [negb] in E.
    destruct (roleRuleBlocks _ _) eqn:Hb in E.
    { apply (inj Some) in E as <-. by constructor. }
    apply first_some_Some in E as (k & Hin & E). destruct (roleRuleBlocks _ _) eqn:Hc in E; [|done].
    apply (inj Some) in E as <-. by constructor.
  - intros r H. rewrite first_some_None in E.
    inversion H as [| | |s Hk' Hs Hb|s k Hk' Hs Hb| | | | | |]; subst;
      specialize (E s Hs); fold rules in Hb; unfold cell in Hb.
    + destruct (truthy (oget rules s)) eqn:Hts; cbn [negb] in E.
      * unfold roleRuleBlocks in E at 1. by rewrite Hb in E.
      * rewrite (oget_falsy (oget rules s) R_ALL) in Hb; [done..|].
        by apply (bool_decide_eq_false_1 _); vm_compute.
    + destruct (truthy (oget rules s)) eqn:Hts; cbn [negb] in E.
      * destruct (roleRuleBlocks _ _) in E; [done|]. rewrite first_some_None in E.
        specialize (E k Hk'). unfold roleRuleBlocks in E. by rewrite Hb in E.
      * destruct (resource_name k) as [Hi Hl].
        { destruct (route_keys_ok path) as [_ Hall]. rewrite Forall_forall in Hall. by apply Hall. }
        by rewrite (oget_falsy (oget rules s) k Hts Hi Hl) in Hb.
Qed.

Lemma resource_layer :
  layer_spec 5 (first_some (fun key => resourceRestrictionReason stored status key role) keys).
Proof.
  destruct (first_some _ _) as [r|] eqn:E; simpl.
  - apply first_some_Some in E as (k & Hk & E). unfold resourceRestrictionReason in E.
    destruct (isResourceAllowed _ _ _ _) eqn:Ha; [done|]. apply (inj Some) in E as <-. by constructor.
  - intros r H. rewrite first_some_None in E. inversion H as [| | | | | | |k Hk Ha| | |]; subst.
    specialize (E k Hk). unfold resourceRestrictionReason in E. by rewrite Ha in E.
Qed.

Lemma spa_root p : bool_decide (p = u "/") || isWebSPAFallbackPath p = isWebSPAFallbackPath p.
Proof. case_bool_decide as H; [subst; reflexivity | done]. Qed.

Lemma china_layer : layer_spec 4 (getChinaMainlandRouteRestrictionReason stored status path role).
Proof.
  unfold getChinaMainlandRouteRestrictionReason. destruct (policy_off status) eqn:Hp.
  { intros r H. inversion H; congruence. }
  destruct (truthy ac?."request_from_china_mainland") eqn:Hcn; cbn [negb orb].
  2: { intros r H. inversion H; congruence. }
  destruct (num_ge viewer AUDIT_ADMIN) eqn:Hadm.
  { intros r H. inversion H; congruence. }
  rewrite spa_root.
  destruct (truthy ac?."block_china_mainland_homepage") eqn:Hh,
    (isWebSPAFallbackPath route) eqn:Hspa; cbn [andb]; [exact (J_home Hp Hcn Hadm Hh Hspa) | ..].
  all: destruct (truthy ac?."block_china_mainland_user_sensitive_pages") eqn:Hs; cbn [andb];
    try (intros r H; inversion H; congruence).
  all: case_bool_decide as Hin; [| intros r H;
    inversion H as [| | | | | |k ? ? ? ? Hk| | | |]; subst; try congruence; apply Hin;
    change CHINA_MAINLAND_SENSITIVE_WEB_PATHS with ([(u "/console/token", R_TOKEN); (u "/console/topup", R_WALLET);
                      (u "/console/billing", R_BILLING)].*1);
    by apply (list_elem_of_fmap_2 fst) in Hk].
  all: refine (J_sensitive _ Hp Hcn Hadm Hs _);
    unfold CHINA_MAINLAND_SENSITIVE_WEB_PATHS in Hin;
    repeat (apply elem_of_cons in Hin as [Hin|Hin];
      [rewrite Hin; apply (bool_decide_eq_true_1 _); vm_compute; reflexivity|]);
    by apply not_elem_of_nil in Hin.
Qed.

Lemma identity_layer : layer_spec 6 (getIdentityRestrictionReason stored status role).
Proof.
  unfold getIdentityRestrictionReason. destruct (policy_off status) eqn:Hp.
  { intros r H. inversion H; congruence. }
  assert (Hug : u "user" <> u "guest") by (apply (bool_decide_eq_false_1 _); vm_compute; reflexivity).
  destruct (level_cases viewer) as [[-> Hl]|[(-> & -> & Hl)|(-> & -> & Hl)]].
  - destruct (truthy _) eqn:Hf; [by apply J_admins|]. apply admin_levels in Hl as [Hu Hg].
    intros r H. inversion H; congruence.
  - destruct (truthy _) eqn:Hf; [by apply J_users|].
    intros r H. inversion H as [| | | | | | | |? Ha| |]; try congruence.
    apply admin_levels in Ha as []. congruence.
  - destruct (truthy _) eqn:Hf; [by apply J_guests|].
    intros r H. inversion H as [| | | | | | | |? Ha| |]; try congruence.
    apply admin_levels in Ha as []. congruence.
Qed.

Lemma layer_bounds n r : justified n r -> (1 <= n <= 6)%nat.
Proof. destruct 1; lia. Qed.

(** The first layer that has a reason. *)
Lemma first_layer (o1 o2 o3 o4 o5 o6 : option reason) :
  layer_spec 1 o1 -> layer_spec 2 o2 -> layer_spec 3 o3 ->
  layer_spec 4 o4 -> layer_spec 5 o5 -> layer_spec 6 o6 ->
  match or_else o1 (or_else o2 (or_else o3 (or_else o4 (or_else o5 o6)))) with
  | Some r => exists n, justified n r /\ forall m r', justified m r' -> (n <= m)%nat
  | None => forall m r', ~ justified m r'
  end.
Proof.
  intros H1 H2 H3 H4 H5 H6.
  destruct o1 as [r|], o2 as [r2|], o3 as [r3|], o4 as [r4|], o5 as [r5|], o6 as [r6|]; simpl in *;
  first [ intros m r' Hr; pose proof (layer_bounds _ _ Hr);
          destruct m as [|[|[|[|[|[|[|m]]]]]]]; [lia|naive_solver..|lia]
        | eexists; split; [eassumption|]; intros m r' Hr; pose proof (layer_bounds _ _ Hr);
          destruct m as [|[|[|[|[|[|[|m]]]]]]]; try lia; exfalso; naive_solver ].
Qed.

Lemma access_layers :
  match getRouteAccessRestrictionReason stored status path role with
  | Some r => exists n, justified n r /\ forall m r', justified m r' -> (n <= m)%nat
  | None => forall m r', ~ justified m r'
  end.
Proof.
  apply first_layer; auto using geo_layer, role_geo_layer, source_layer, china_layer,
    resource_layer, identity_layer.
Qed.

(** *** The rules as docs/access-control.md states them *)

(** [documented_rule n r]: with the web policy on, layer [n] of the documented order restricts
    the page, for the reason [r].  The home-page flag concerns guests and users on the pages of
    the resource home, the sensitive-pages flag users on the token, wallet and billing pages. *)
Inductive documented_rule : nat -> reason -> Prop :=
  | D_geo_cn : flag "block_china_mainland" -> flag "request_from_china_mainland" ->
      documented_rule 1 (web_reason (u "geo_china_mainland") S_CHINA_MAINLAND R_ALL (u "all"))
  | D_geo_eu : flag "block_european_union" -> flag "request_from_european_union" ->
      documented_rule 1 (web_reason (u "geo_european_union") S_EUROPEAN_UNION R_ALL (u "all"))
  | D_role_geo source : source ∈ getRequestAccessSources ac ->
      is_true (oget (oget (oget ac (u "role_geo_rules")) source) level) = true ->
      documented_rule 2 (web_reason (u "role_geo") source R_ALL level)
  | D_source_all source : source ∈ getRequestAccessSources ac ->
      cell (oget ac (u "source_resource_rules")) source R_ALL level = true ->
      documented_rule 3 (web_reason (u "source_resource_all") source R_ALL level)
  | D_source source key : key ∈ keys -> source ∈ getRequestAccessSources ac ->
      cell (oget ac (u "source_resource_rules")) source key level = true ->
      documented_rule 3 (web_reason (u "source_resource") source key level)
  | D_home : flag "request_from_china_mainland" -> flag "block_china_mainland_homepage" ->
      level ∈ [u "guest"; u "user"] -> R_HOME ∈ keys ->
      documented_rule 4 (web_reason (u "china_mainland_home") S_CHINA_MAINLAND R_HOME level)
  | D_sensitive key : flag "request_from_china_mainland" -> flag "block_china_mainland_user_sensitive_pages" ->
      level = u "user" ->
      (route, key) ∈ [(u "/console/token", R_TOKEN); (u "/console/topup", R_WALLET);
                      (u "/console/billing", R_BILLING)] ->
      documented_rule 4 (web_reason (u "china_mainland_sensitive") S_CHINA_MAINLAND key level)
  | D_resource key : key ∈ keys -> isResourceAllowed stored status key role = false ->
      documented_rule 5 (web_reason (u "resource") S_ALL key level)
  | D_admins : level ∈ [u "audit_admin"; u "admin"; u "root"] -> flag "block_admins" ->
      documented_rule 6 (web_reason (u "identity_admins") S_ALL R_ALL level)
  | D_users : level = u "user" -> flag "block_users" ->
      documented_rule 6 (web_reason (u "identity_users") S_ALL R_ALL level)
  | D_guests : level = u "guest" -> flag "block_guests" ->
      documented_rule 6 (web_reason (u "identity_guests") S_ALL R_ALL level).

(** Where the code is meant to follow the document: the web policy is on, and the three cases
    where the code goes another way are left out. *)
Record documented : Prop := {
  doc_on : ac?."web_policy_enabled" = JBool true;
  doc_home : flag "block_china_mainland_homepage" -> isWebSPAFallbackPath route = true -> R_HOME ∈ keys;
  doc_sensitive : flag "block_china_mainland_user_sensitive_pages" -> level = u "guest" ->
    route ∉ CHINA_MAINLAND_SENSITIVE_WEB_PATHS;
  doc_all : keys = [] -> forall source, source ∈ getRequestAccessSources ac ->
    cell (oget ac (u "source_resource_rules")) source R_ALL level = false
}.

Lemma home_fallback : R_HOME ∈ keys -> isWebSPAFallbackPath route = true.
Proof.
  unfold getRouteResourceKeys. destruct (om_get route route_cases) as [ks|] eqn:E.
  - intros Hin. apply om_get_Some_in in E.
    assert (Hall : forallb (fun pk => implb (bool_decide (R_HOME ∈ fold_left appendResourceKey pk.2 []))
      (isWebSPAFallbackPath pk.1)) route_cases = true) by (vm_compute; reflexivity).
    rewrite forallb_forall in Hall. specialize (Hall _ (proj1 (list_elem_of_In _ _) E)). cbn [fst snd] in Hall.
    by rewrite bool_decide_true in Hall.
  - destruct (_ || _).
    + intros H%(bool_decide_eq_true_2 _). vm_compute in H. discriminate H.
    + destruct (isWebSPAFallbackPath _); [done|]. by intros ?%not_elem_of_nil.
Qed.

Lemma documented_justified n r : documented -> justified n r <-> documented_rule n r.
Proof.
  intros [Hon Hh Hs Ha]. assert (Hp : policy_off status = false) by (unfold policy_off; by rewrite Hon).
  split.
  - intros [H1 H2 H3|H1 H2 H3|source H1 H2|source H1 H2 H3|source key H1 H2 H3|H1 H2 H3 H4 H5|key H1 H2 H3 H4 H5
           |key H1 H2|H1 H2 H3|H1 H2 H3|H1 H2 H3].
    + exact (D_geo_cn H2 H3).
    + exact (D_geo_eu H2 H3).
    + exact (D_role_geo source H1 H2).
    + exact (D_source_all source H2 H3).
    + exact (D_source source key H1 H2 H3).
    + exact (D_home H2 H4 (proj1 (low_level viewer) H3) (Hh H4 H5)).
    + refine (D_sensitive key H2 H4 _ H5).
      apply low_level in H3. apply elem_of_cons in H3 as [Hl|Hl]; [|exact (proj1 (list_elem_of_singleton _ _) Hl)].
      destruct (Hs H4 Hl). exact (list_elem_of_fmap_2 fst _ _ H5).
    + exact (D_resource key H1 H2).
    + exact (D_admins H2 H3).
    + exact (D_users H2 H3).
    + exact (D_guests H2 H3).
  - intros [H2 H3|H2 H3|source H1 H2|source H1 H2|source key H1 H2 H3|H1 H2 H3 H4|key H1 H2 H3 H4
           |key H1 H2|H2 H3|H2 H3|H2 H3].
    + exact (J_geo_cn Hp H2 H3).
    + exact (J_geo_eu Hp H2 H3).
    + exact (J_role_geo source H1 H2).
    + refine (J_source_all source _ H1 H2). intros Hk. rewrite (Ha Hk source H1) in H2. discriminate H2.
    + exact (J_source source key H1 H2 H3).
    + exact (J_home Hp H1 (proj2 (low_level viewer) H3) H2 (home_fallback H4)).
    + refine (J_sensitive key Hp H1 (proj2 (low_level viewer) _) H2 H4). rewrite H3. right. left.
    + exact (J_resource key H1 H2).
    + exact (J_admins Hp H2 H3).
    + exact (J_users Hp H2 H3).
    + exact (J_guests Hp H2 H3).
Qed.
End Layers.


Definition on_status : jsv :=
  JObj [(u "access_control", JObj [(u "web_policy_enabled", JBool true);
    (u "source_resource_rules", JObj [(u "all", JObj [(u "home", JObj [(u "guest", JBool true)])])])])].


(** ** The main switch *)

(** With the switch of the web policy off, three layers still restrict pages: a
    route is restricted exactly when a source-and-role rule, a cell of the matrix or a
    resource rule blocks the viewer. *)
Theorem policy_off_rules stored status path role :
  policy_off status = true ->
  isRouteAccessRestricted stored status path role = true <->
  exists n r, justified stored status path role n r /\ n ∈ [2; 3; 5]%nat.
Proof.
  intros Hoff. unfold isRouteAccessRestricted. rewrite isSome_true.
  pose proof (access_layers stored status path role) as Hspec.
  split.
  - intros [r Hr]. rewrite Hr in Hspec. destruct Hspec as (n & Hn & _). exists n, r.
    split; [done|]. destruct Hn; try congruence; set_solver.
  - intros (n & r & Hj & _). destruct (getRouteAccessRestrictionReason _ _ _ _) as [r'|]; [by eexists|].
    by destruct (Hspec n r).
Qed.

Definition off_status : jsv :=
  JObj [(u "access_control", JObj [(u "web_policy_enabled", JBool false);
    (u "source_resource_rules", JObj [(u "all", JObj [(u "home", JObj [(u "guest", JBool true)])])])])].

Lemma policy_off_rules_witness :
  policy_off off_status = true /\
  isRouteAccessRestricted None off_status (u "/") JUndef = true /\
  exists n r, justified None off_status (u "/") JUndef n r /\ n ∈ [2; 3; 5]%nat.
Proof.
  split; [vm_compute; reflexivity|]. split; [vm_compute; reflexivity|].
  apply (policy_off_rules None off_status (u "/") JUndef); vm_compute; reflexivity.
Defined.

(** ** Trailing slashes *)

Lemma dropWhile_all {A} (p : A -> bool) w l : forallb p w = true -> dropWhile p (w ++ l) = dropWhile p l.
Proof.
  induction w as [|x w IH]; simpl; [done|]. intros H. bool_simp. unfold dropWhile in *. simpl.
  rewrite H. simpl. by apply IH.
Qed.

Lemma strip_slashes_app p n : strip_slashes (p ++ replicate n 47) = strip_slashes p.
Proof.
  unfold strip_slashes. rewrite reverse_app, reverse_replicate. f_equal. apply dropWhile_all.
  by induction n.
Qed.

(** The path without its trailing slashes, the root for nothing else. *)
Lemma normalizeRoutePath_strip p :
  normalizeRoutePath p = let s := strip_slashes p in if bool_decide (s = []) then u "/" else s.
Proof.
  unfold normalizeRoutePath. case_bool_decide as Hp; [by subst|].
  destruct p as [|c p] using rev_ind; [done|]. clear IHp Hp.
  unfold strip_slashes. rewrite reverse_snoc.
  assert (Hends : endsWith (u "/") (p ++ [c]) = is_slash c).
  { unfold endsWith, is_slash. rewrite reverse_snoc. change (reverse (u "/")) with [47].
    cbn [startsWith]. rewrite andb_true_r. apply Z.eqb_sym. }
  rewrite Hends. destruct (is_slash c) eqn:Hc.
  - rewrite andb_true_r. destruct p as [|c' p'].
    + simpl. unfold is_slash in Hc. bool_simp. by subst.
    + rewrite (proj2 (Z.ltb_lt _ _)); [done|]. rewrite length_app. simpl. lia.
  - rewrite andb_false_r. rewrite dropWhile_none by done.
    rewrite <- reverse_snoc, reverse_involutive.
    rewrite bool_decide_eq_false_2; [done|]. by destruct p.
Qed.

Lemma strip_slashes_idemp s : strip_slashes (strip_slashes s) = strip_slashes s.
Proof.
  unfold strip_slashes. rewrite reverse_involutive. f_equal. apply dropWhile_none.
  destruct (dropWhile is_slash (reverse s)) eqn:E; [done|]. by eapply dropWhile_head.
Qed.

Lemma normalizeRoutePath_idemp p : normalizeRoutePath (normalizeRoutePath p) = normalizeRoutePath p.
Proof.
  rewrite (normalizeRoutePath_strip p). cbv zeta. case_bool_decide as H; [reflexivity|].
  rewrite normalizeRoutePath_strip. cbv zeta. rewrite strip_slashes_idemp. by rewrite bool_decide_eq_false_2.
Qed.

(** A page and the same page with slashes appended are restricted alike, for the
    same reason; the normal form the checks use is a fixed point of the normalization. *)
Theorem trailing_slashes_ignored stored status path role n :
  getRouteAccessRestrictionReason stored status (path ++ replicate n 47) role =
  getRouteAccessRestrictionReason stored status path role /\
  getRouteAccessRestrictionReason stored status (normalizeRoutePath path) role =
  getRouteAccessRestrictionReason stored status path role.
Proof.
  assert (Hkey : forall p q, normalizeRoutePath p = normalizeRoutePath q ->
    getRouteAccessRestrictionReason stored status p role =
    getRouteAccessRestrictionReason stored status q role).
  { intros p q Hpq. unfold getRouteAccessRestrictionReason, getRouteResourceKeys,
      getChinaMainlandRouteRestrictionReason. by rewrite Hpq. }
  split; apply Hkey; [|apply normalizeRoutePath_idemp].
  by rewrite !normalizeRoutePath_strip, strip_slashes_app.
Qed.

(** ** Role queries *)

Lemma not_ge_lt a b : is_nan a = false -> is_nan b = false -> num_lt a b = negb (num_ge a b).
Proof.
  unfold num_lt, num_ge, num_le, num_compare.
  destruct a as [|[]|?|x], b as [|[]|?|y]; unfold val0; simpl; try done; intros _ _.
  all: repeat match goal with
    | |- context [Qcompare ?p ?q] => destruct (Qcompare_spec p q); try done
    end; exfalso; lra.
Qed.

(** The queries on the stored user's role agree with the access level the policy
    gives that role: an administrator is of level admin or root, an auditor-only
    administrator of level audit_admin, and so on. *)
Theorem role_queries_spec stored v :
  stored_role stored = Ret (Some v) ->
  let level := getRoleAccessLevel (to_number v) in
  isRoot stored = Ret (bool_decide (level = u "root")) /\
  isAdmin stored = Ret (bool_decide (level ∈ [u "admin"; u "root"])) /\
  isAuditAdmin stored = Ret (bool_decide (level ∈ [u "audit_admin"; u "admin"; u "root"])) /\
  isAuditOnlyAdmin stored = Ret (bool_decide (level = u "audit_admin")).
Proof.
  intros Hv level. unfold isRoot, isAdmin, isAuditAdmin, isAuditOnlyAdmin. rewrite Hv.
  cbn [mbind exc_bind]. unfold role_at_least, level, getRoleAccessLevel.
  generalize (to_number v) as r. intros r. clear.
  destruct (num_ge r ROOT) eqn:E1.
  { assert (E2 : num_ge r ADMIN = true) by by apply (ge_below r ROOT).
    rewrite E2, (ge_below r ADMIN AUDIT_ADMIN) by done.
    rewrite not_ge_lt, E2; [| by destruct r | done]. repeat split; vm_compute; reflexivity. }
  destruct (num_ge r ADMIN) eqn:E2.
  { rewrite (ge_below r ADMIN AUDIT_ADMIN) by done.
    rewrite not_ge_lt, E2; [| by destruct r | done]. repeat split; vm_compute; reflexivity. }
  destruct (num_ge r AUDIT_ADMIN) eqn:E3.
  { rewrite not_ge_lt, E2; [| by destruct r | done]. repeat split; vm_compute; reflexivity. }
  destruct (num_ge r COMMON) eqn:E4; repeat split; vm_compute; reflexivity.
Qed.

Definition stored_auditor : jsstr := default [] (stringify (JObj [(u "role", JNum (of_Z 5))])).

Lemma role_queries_spec_witness :
  stored_role (Some stored_auditor) = Ret (Some (JNum (of_Z 5))) /\
  isAuditOnlyAdmin (Some stored_auditor) = Ret true.
Proof.
  split; [vm_compute; reflexivity|].
  apply (role_queries_spec _ (JNum (of_Z 5))). vm_compute; reflexivity.
Defined.
