(* ===== verification/AccessMatrix.v ===== *)
(** * The matrix of access rules

    The rule tables of web/classic/src/components/settings/SystemSetting.jsx: the
    roles, sources and resources of the matrix, reading and printing the saved rules,
    the normal form, the migration of the older rule formats into the matrix, the flags
    derived from it, and the edits of its cells; with [toBoolean] of
    web/classic/src/helpers/boolean.js.  A table of rules is a JSON object; a function
    that returns one returns its property list. *)

From S2P Require Import Prelude JsString JsNumber JsNumText JsValue JsJson.

(** ** [toBoolean] *)

Definition toBoolean `{UnicodeCase} (value : jsv) : bool :=
  match value with
  | JBool b => b
  | JNum n => num_eq n (of_Z 1)
  | JStr s => let v := toLowerCase s in bool_decide (v = u "true") || bool_decide (v = u "1")
  | _ => false
  end.

(** ** The axes of the matrix *)

Definition ACCESS_CONTROL_ROLES : list jsstr :=
  [u "guest"; u "user"; u "audit_admin"; u "admin"; u "root"].

Definition ACCESS_ROLE_GEO_SOURCES : list jsstr :=
  [u "all"; u "china_mainland"; u "european_union"; u "unknown_country"].

Record resource_group := { g_key : jsstr; g_resources : list jsstr }.

Definition resource_row (key : string) (resources : list string) : resource_group :=
  {| g_key := u key; g_resources := u <$> resources |}.

Definition ACCESS_RESOURCE_GROUPS : list resource_group :=
  [resource_row "site" ["web"; "home"; "model_api"];
   resource_row "workspace" ["dashboard"; "token"; "wallet"; "billing"; "usage_log"; "playground";
                      "chat"; "personal"; "drawing_log"; "task_log"];
   resource_row "admin" ["admin_channel"; "admin_subscription"; "admin_model"; "admin_redemption";
                  "admin_user"; "admin_referral"; "admin_setting"]]%string.

Definition ACCESS_SOURCE_RESOURCE_GROUPS : list resource_group :=
  resource_row "global" ["all"]%string :: ACCESS_RESOURCE_GROUPS.

Definition ACCESS_RESOURCE_KEY_SET : list jsstr := concat (g_resources <$> ACCESS_RESOURCE_GROUPS).

Definition ACCESS_SOURCE_RESOURCE_KEY_SET : list jsstr := u "all" :: ACCESS_RESOURCE_KEY_SET.

(** ** Reading and printing *)

(** The three tables are read by three functions with the same body. *)
Definition parse_rules (value : jsv) : jsv :=
  if negb (truthy value) then JObj []
  else match value with
  | JObj _ => value
  | _ =>
      match json_parse (to_string value) with
      | Some (JObj o) => JObj o
      | _ => JObj []
      end
  end.

Definition parseAccessResourceRules : jsv -> jsv := parse_rules.
Definition parseAccessRoleGeoRules : jsv -> jsv := parse_rules.
Definition parseAccessSourceResourceRules : jsv -> jsv := parse_rules.

(** [JSON.stringify(rules, null, 2)] *)
Definition serialize_rules (rules : list (jsstr * jsv)) : jsv :=
  match stringify2 0 (JObj rules) with Some t => JStr t | None => JUndef end.

Definition serializeAccessResourceRules := serialize_rules.
Definition serializeAccessRoleGeoRules := serialize_rules.
Definition serializeAccessSourceResourceRules := serialize_rules.

(** [rules?.[source]?.[resource]?.[role] === true] *)
Definition accessSourceResourceBlocks (rules : jsv) (sourceKey resourceKey roleKey : jsstr) : bool :=
  is_true (oget (oget (oget rules sourceKey) resourceKey) roleKey).

(** ** The normal form *)

(** The roles whose entry passes the test, each with the value [v]. *)
Definition kept_roles (test : jsv -> bool) (v : jsv) (rules : jsv) : list (jsstr * jsv) :=
  fold_left (fun next role => if test (oget rules role) then obj_set role v next else next)
    ACCESS_CONTROL_ROLES [].

(** One turn of a loop over the entries of a table: objects only, empty results left out. *)
Definition normalize_entry (inner : jsv -> list (jsstr * jsv)) (next : list (jsstr * jsv))
    (kv : jsstr * jsv) : list (jsstr * jsv) :=
  match kv.2 with
  | JObj _ =>
      let r := inner kv.2 in
      if bool_decide (r = []) then next else obj_set kv.1 (JObj r) next
  | _ => next
  end.

(** [Object.entries(rules || {}).forEach(...)] *)
Definition normalize_rules (inner : jsv -> list (jsstr * jsv)) (rules : jsv) : list (jsstr * jsv) :=
  fold_left (normalize_entry inner) (entries (js_or rules (JObj []))) [].

Definition normalizeAccessResourceRules (rules : jsv) : list (jsstr * jsv) :=
  normalize_rules (kept_roles is_false (JBool false)) rules.

Definition normalizeAccessRoleGeoRules (rules : jsv) : list (jsstr * jsv) :=
  normalize_rules (kept_roles is_true (JBool true)) rules.

Definition normalizeAccessSourceResourceRules (rules : jsv) : list (jsstr * jsv) :=
  normalize_rules (fun sourceRules =>
    normalize_rules (kept_roles is_true (JBool true)) sourceRules) rules.

(** ** Migration of the older formats *)

(** [{ ...(v || {}) }] *)
Definition spread (v : jsv) : list (jsstr * jsv) := obj_merge [] (entries (js_or v (JObj []))).

(** [next[source] = { ...(next[source] || {}),
      [resource]: { ...(next[source]?.[resource] || {}), [role]: true } }] *)
Definition block_cell (sourceKey resourceKey roleKey : jsstr) (next : list (jsstr * jsv))
    : list (jsstr * jsv) :=
  let source := oget (JObj next) sourceKey in
  obj_set sourceKey
    (JObj (obj_set resourceKey
             (JObj (obj_set roleKey (JBool true) (spread (oget source resourceKey))))
             (spread source))) next.

(** [next[source] = { ...(next[source] || {}), [role]: true }] *)
Definition block_role (sourceKey roleKey : jsstr) (next : list (jsstr * jsv)) : list (jsstr * jsv) :=
  obj_set sourceKey
    (JObj (obj_set roleKey (JBool true) (spread (oget (JObj next) sourceKey)))) next.

Section Migration.
Context `{UnicodeCase}.

Definition option_on (values : list (jsstr * jsv)) (key : string) : bool :=
  toBoolean (oget (JObj values) (u "access_control." ++ u key)).

Definition mergeLegacyAccessSourceResourceRules (rules : jsv) (values : list (jsstr * jsv))
    : list (jsstr * jsv) :=
  let next := normalizeAccessSourceResourceRules rules in
  let next :=
    if option_on values "block_china_mainland_homepage" then
      block_cell (u "china_mainland") (u "home") (u "user")
        (block_cell (u "china_mainland") (u "home") (u "guest") next)
    else next in
  if option_on values "block_china_mainland_user_sensitive_pages" then
    fold_left (fun next resourceKey => block_cell (u "china_mainland") resourceKey (u "user") next)
      [u "token"; u "wallet"; u "billing"] next
  else next.

Definition mergeLegacyAccessRoleGeoRules (rules : jsv) (values : list (jsstr * jsv))
    : list (jsstr * jsv) :=
  let setAllRolesBlocked sourceKey next :=
    fold_left (fun next role => block_role sourceKey role next) ACCESS_CONTROL_ROLES next in
  let next := normalizeAccessRoleGeoRules rules in
  let next := if option_on values "block_china_mainland"
              then setAllRolesBlocked (u "china_mainland") next else next in
  let next := if option_on values "block_european_union"
              then setAllRolesBlocked (u "european_union") next else next in
  let next := if option_on values "block_guests" then block_role (u "all") (u "guest") next else next in
  let next := if option_on values "block_users" then block_role (u "all") (u "user") next else next in
  if option_on values "block_admins" then
    block_role (u "all") (u "root")
      (block_role (u "all") (u "admin") (block_role (u "all") (u "audit_admin") next))
  else next.
End Migration.

Definition mergeAccessRoleGeoRulesIntoSourceResourceRules (sourceResourceRules roleGeoRules : jsv)
    : list (jsstr * jsv) :=
  fold_left (fun next kv =>
    fold_left (fun next role =>
      if is_true (oget kv.2 role) then block_cell kv.1 (u "all") role next else next)
      ACCESS_CONTROL_ROLES next)
    (normalizeAccessRoleGeoRules roleGeoRules)
    (normalizeAccessSourceResourceRules sourceResourceRules).

Definition mergeAccessResourceRulesIntoSourceResourceRules (sourceResourceRules resourceRules : jsv)
    : list (jsstr * jsv) :=
  fold_left (fun next kv =>
    fold_left (fun next role =>
      if is_false (oget kv.2 role) then block_cell (u "all") kv.1 role next else next)
      ACCESS_CONTROL_ROLES next)
    (normalizeAccessResourceRules resourceRules)
    (normalizeAccessSourceResourceRules sourceResourceRules).

(** The matrix [getOptions] builds from the options it has read. *)
Definition merged_access_rules `{UnicodeCase} (newInputs : list (jsstr * jsv)) : list (jsstr * jsv) :=
  let mergedLegacyRoleGeoRules :=
    mergeLegacyAccessRoleGeoRules
      (parseAccessRoleGeoRules (oget (JObj newInputs) (u "access_control.role_geo_rules"))) newInputs in
  let merged :=
    mergeLegacyAccessSourceResourceRules
      (parseAccessSourceResourceRules (oget (JObj newInputs) (u "access_control.source_resource_rules")))
      newInputs in
  let merged :=
    mergeAccessRoleGeoRulesIntoSourceResourceRules (JObj merged) (JObj mergedLegacyRoleGeoRules) in
  mergeAccessResourceRulesIntoSourceResourceRules (JObj merged)
    (parseAccessResourceRules (oget (JObj newInputs) (u "access_control.resource_rules"))).

(** ** Flags derived from the matrix *)

Record scoped_flags := { blockHomepage : bool; blockUserSensitivePages : bool }.

Definition legacyChinaMainlandScopedFlagsFromSourceResourceRules (rules : jsv) : scoped_flags :=
  {| blockHomepage :=
       accessSourceResourceBlocks rules (u "china_mainland") (u "home") (u "guest")
       && accessSourceResourceBlocks rules (u "china_mainland") (u "home") (u "user");
     blockUserSensitivePages :=
       forallb (fun resourceKey =>
         accessSourceResourceBlocks rules (u "china_mainland") resourceKey (u "user"))
         [u "token"; u "wallet"; u "billing"] |}.

Definition sourceResourceRulesBlockEveryRole (rules : jsv) (sourceKey resourceKey : jsstr) : bool :=
  forallb (fun role => accessSourceResourceBlocks rules sourceKey resourceKey role)
    ACCESS_CONTROL_ROLES.

Record legacy_flags := {
  blockChinaMainland : bool;
  blockEuropeanUnion : bool;
  blockGuests : bool;
  blockUsers : bool;
  blockAdmins : bool
}.

Definition legacyAccessFlagsFromSourceResourceRules (rules : jsv) : legacy_flags :=
  {| blockChinaMainland := sourceResourceRulesBlockEveryRole rules (u "china_mainland") (u "all");
     blockEuropeanUnion := sourceResourceRulesBlockEveryRole rules (u "european_union") (u "all");
     blockGuests := accessSourceResourceBlocks rules (u "all") (u "all") (u "guest");
     blockUsers := accessSourceResourceBlocks rules (u "all") (u "all") (u "user");
     blockAdmins :=
       accessSourceResourceBlocks rules (u "all") (u "all") (u "audit_admin")
       && accessSourceResourceBlocks rules (u "all") (u "all") (u "admin")
       && accessSourceResourceBlocks rules (u "all") (u "all") (u "root") |}.

(** ** Edits *)

(** [if (Object.keys(v).length > 0) o[k] = v; else delete o[k];] *)
Definition put_or_delete (k : jsstr) (v o : list (jsstr * jsv)) : list (jsstr * jsv) :=
  if bool_decide (v = []) then om_del k o else obj_set k (JObj v) o.

(** The rules of one resource with the role blocked or not. *)
Definition edit_role (roleKey : jsstr) (blocked : bool) (rules : jsv) : list (jsstr * jsv) :=
  if blocked then obj_set roleKey (JBool true) (spread rules) else om_del roleKey (spread rules).

Definition setAccessSourceResourceBlockedInRules (nextRules : list (jsstr * jsv))
    (sourceKey resourceKey roleKey : jsstr) (blocked : bool) : list (jsstr * jsv) :=
  let nextSourceRules := spread (oget (JObj nextRules) sourceKey) in
  let nextResourceRules := edit_role roleKey blocked (oget (JObj nextSourceRules) resourceKey) in
  put_or_delete sourceKey (put_or_delete resourceKey nextResourceRules nextSourceRules) nextRules.

Definition setAccessSourceResourceGroupRoleBlockedInRules (nextRules : list (jsstr * jsv))
    (sourceKey : jsstr) (resources : list jsstr) (roleKey : jsstr) (blocked : bool)
    : list (jsstr * jsv) :=
  let nextSourceRules :=
    fold_left (fun next resource =>
      put_or_delete resource (edit_role roleKey blocked (oget (JObj next) resource)) next)
      resources (spread (oget (JObj nextRules) sourceKey)) in
  put_or_delete sourceKey nextSourceRules nextRules.
