(* ===== verification/AccessMatrixThms.v ===== *)
(** * The matrix of access rules, as a set of blocked cells

    The invariant of a normal matrix, and what each operation of [AccessMatrix] does to
    the cells: normalization keeps them, an edit changes exactly the cells it names, and
    a merge adds exactly the cells of the older formats. *)

From S2P Require Import Prelude JsString JsNumber JsNumText JsValue JsJson JsRegex JsJsonRound JsObject AccessMatrix.

(** ** Tables of objects *)

Notation props := (list (jsstr * jsv)) (only parsing).

(** The object under a key, empty when there is none. *)
Definition row (o : props) (k : jsstr) : props :=
  match om_get k o with Some (JObj r) => r | _ => [] end.

Lemma row_set k v o k' : row (obj_set k (JObj v) o) k' = if decide (k' = k) then v else row o k'.
Proof. unfold row. rewrite obj_get_set. by case_decide. Qed.

Lemma row_put k v o k' : row (put_or_delete k v o) k' = if decide (k' = k) then v else row o k'.
Proof.
  unfold put_or_delete. case_bool_decide as Hv; [|apply row_set].
  unfold row. case_decide as Hk; [subst; by rewrite om_get_del_eq | by rewrite om_get_del_ne].
Qed.

(** A table whose values are non-empty objects that satisfy [P]. *)
Record table (P : props -> Prop) (o : props) : Prop := {
  table_ordered : ordered o;
  table_each : Forall (fun kv => Forall unit_ok kv.1 /\ exists r, kv.2 = JObj r /\ r <> [] /\ P r) o
}.

Section Table.
Context (P : props -> Prop).
Implicit Types (o : props).

Lemma table_nil : table P [].
Proof. split; constructor. Qed.

Lemma table_set k v o :
  Forall unit_ok k -> v <> [] -> P v -> table P o -> table P (obj_set k (JObj v) o).
Proof.
  intros Hk Hv Hp [Ho Hf]. split; [by apply obj_set_ordered|]. apply obj_set_Forall; [|done].
  split; [done|]. by exists v.
Qed.

Lemma table_put k v o : Forall unit_ok k -> P v -> table P o -> table P (put_or_delete k v o).
Proof.
  intros Hk Hp Ht. unfold put_or_delete. case_bool_decide; [|by apply table_set].
  destruct Ht. split; [by apply om_del_ordered | by apply om_del_Forall].
Qed.

Lemma table_get k o v : table P o -> om_get k o = Some v -> exists r, v = JObj r /\ r <> [] /\ P r.
Proof.
  intros [_ Hf] H%om_get_Some_in. rewrite Forall_forall in Hf. by destruct (Hf _ H) as [_ ?].
Qed.

Lemma table_row k o : P [] -> table P o -> P (row o k).
Proof.
  intros Hn Ht. unfold row. destruct (om_get k o) as [v|] eqn:E; [|done].
  by destruct (table_get k o v Ht E) as (r & -> & _ & ?).
Qed.

(** What the code reads under a key. *)
Lemma table_oget k o k' : table P o -> oget (oget (JObj o) k) k' = oget (JObj (row o k)) k'.
Proof.
  intros Ht. unfold row. simpl. destruct (om_get k o) as [v|] eqn:E; [|done].
  by destruct (table_get k o v Ht E) as (r & -> & _).
Qed.

Lemma table_spread k o :
  (forall r, P r -> ordered r) -> table P o -> spread (oget (JObj o) k) = row o k.
Proof.
  intros Hp Ht. unfold row, spread. simpl. destruct (om_get k o) as [v|] eqn:E; [|done].
  destruct (table_get k o v Ht E) as (r & -> & _ & Hr). simpl. by apply obj_merge_self, Hp.
Qed.

(** Normalization builds such a table, whose rows are the normal forms of the objects. *)
Definition normal_row (inner : jsv -> props) (v : option jsv) : props :=
  match v with Some (JObj o) => inner (JObj o) | _ => [] end.

Lemma normalize_fold inner l acc k :
  NoDup (l.*1) ->
  om_get k (fold_left (normalize_entry inner) l acc) =
    match normal_row inner (om_get k l) with [] => om_get k acc | r => Some (JObj r) end.
Proof.
  revert acc. induction l as [|[k1 v1] l IH]; intros acc Hnd; [done|].
  rewrite fmap_cons in Hnd. apply NoDup_cons in Hnd as [Hk1 Hnd].
  cbn [fold_left]. rewrite IH by done. simpl.
  destruct (decide (k = k1)) as [->|Hne].
  - rewrite (proj2 (om_get_None k1 l)) by done. unfold normalize_entry. cbn [fst snd].
    destruct v1; try done. simpl. destruct (inner (JObj o)) eqn:E; case_bool_decide; try done.
    by rewrite obj_get_set, decide_True.
  - assert (om_get k (normalize_entry inner acc (k1, v1)) = om_get k acc) as ->; [|done].
    unfold normalize_entry. simpl. destruct v1; try done. case_bool_decide; [done|].
    by rewrite obj_get_set, decide_False.
Qed.

Lemma normalize_get inner o k :
  NoDup (o.*1) ->
  om_get k (normalize_rules inner (JObj o)) =
    match normal_row inner (om_get k o) with [] => None | r => Some (JObj r) end.
Proof. intros Hnd. unfold normalize_rules. simpl. by rewrite normalize_fold. Qed.

Lemma normalize_row inner o k :
  NoDup (o.*1) -> row (normalize_rules inner (JObj o)) k = normal_row inner (om_get k o).
Proof. intros Hnd. unfold row. rewrite normalize_get by done. by destruct (normal_row _ _). Qed.

Lemma normalize_keys_units inner (o : props) :
  Forall (fun kv => Forall unit_ok kv.1) o ->
  Forall (fun kv => Forall unit_ok kv.1) (normalize_rules inner (JObj o)).
Proof.
  unfold normalize_rules. simpl. generalize (Forall_nil_2 (fun kv : jsstr * jsv => Forall unit_ok kv.1)).
  generalize (@nil (jsstr * jsv)) as acc.
  induction o as [|[k v] o IH]; intros acc Hacc Ho; [done|]. apply Forall_cons in Ho as [Hk Ho].
  cbn [fold_left]. apply IH; [|done]. unfold normalize_entry. cbn [fst snd] in *.
  destruct v; try done. case_bool_decide; [done|]. by apply obj_set_Forall.
Qed.

Lemma normalize_ordered inner (o : props) : ordered (normalize_rules inner (JObj o)).
Proof.
  unfold normalize_rules. simpl. generalize (@ordered_nil jsv). generalize (@nil (jsstr * jsv)) as acc.
  induction o as [|[k v] o IH]; intros acc Hacc; [done|]. cbn [fold_left]. apply IH.
  unfold normalize_entry. cbn [fst snd]. destruct v; try done. case_bool_decide; auto with js.
Qed.

Lemma normalize_table inner o :
  Forall (fun kv => Forall unit_ok kv.1 /\ forall o', kv.2 = JObj o' -> P (inner (JObj o'))) o ->
  table P (normalize_rules inner (JObj o)).
Proof.
  unfold normalize_rules. simpl. generalize table_nil. generalize (@nil (jsstr * jsv)) as acc.
  induction o as [|[k v] o IH]; intros acc Hacc Ho; [done|]. apply Forall_cons in Ho as [[Hk Hv] Ho].
  cbn [fold_left]. apply IH; [|done]. unfold normalize_entry. cbn [fst snd] in *.
  destruct v; try done. case_bool_decide; [done|]. apply table_set; auto.
Qed.
End Table.

(** ** Rows of roles *)

(** The roles of a row, each [true]. *)
Record role_row (o : props) : Prop := {
  rr_ordered : ordered o;
  rr_each : Forall (fun kv => kv.1 ∈ ACCESS_CONTROL_ROLES /\ kv.2 = JBool true) o
}.

Lemma role_row_nil : role_row [].
Proof. split; constructor. Qed.

Lemma role_row_set l o : l ∈ ACCESS_CONTROL_ROLES -> role_row o -> role_row (obj_set l (JBool true) o).
Proof. intros Hl []. split; [by apply obj_set_ordered | by apply obj_set_Forall]. Qed.

Lemma role_row_del l o : role_row o -> role_row (om_del l o).
Proof. intros []. split; [by apply om_del_ordered | by apply om_del_Forall]. Qed.

(** The role is in the row. *)
Definition hit (o : props) (l : jsstr) : bool := is_true (oget (JObj o) l).

Lemma hit_set l o l' : hit (obj_set l (JBool true) o) l' = bool_decide (l' = l) || hit o l'.
Proof.
  unfold hit. simpl. rewrite obj_get_set. rewrite bool_decide_decide. by case_decide.
Qed.

Lemma hit_del l o l' : hit (om_del l o) l' = negb (bool_decide (l' = l)) && hit o l'.
Proof.
  unfold hit. simpl. rewrite bool_decide_decide. case_decide as H; simpl.
  - subst. by rewrite om_get_del_eq.
  - by rewrite om_get_del_ne.
Qed.

Lemma kept_roles_get test v rules l :
  om_get l (kept_roles test v rules)
  = if bool_decide (l ∈ ACCESS_CONTROL_ROLES) && test (oget rules l) then Some v else None.
Proof.
  unfold kept_roles.
  assert (H : forall rs acc, om_get l (fold_left (fun next role =>
      if test (oget rules role) then obj_set role v next else next) rs acc)
    = if bool_decide (l ∈ rs) && test (oget rules l) then Some v else om_get l acc); [|apply H].
  induction rs as [|r rs IH]; intros acc; [done|]. cbn [fold_left]. rewrite IH.
  destruct (decide (l = r)) as [->|Hne].
  - rewrite (bool_decide_eq_true_2 (r ∈ r :: rs)) by left. simpl. destruct (test _) eqn:E.
    + rewrite andb_true_r, obj_get_set, decide_True by done. by destruct (bool_decide _).
    + by rewrite andb_false_r.
  - rewrite (bool_decide_ext (l ∈ r :: rs) (l ∈ rs)) by set_solver.
    destruct (bool_decide (l ∈ rs) && test (oget rules l)); [done|].
    destruct (test (oget rules r)); [|done]. by rewrite obj_get_set, decide_False.
Qed.

Lemma kept_roles_row rules : role_row (kept_roles is_true (JBool true) rules).
Proof.
  unfold kept_roles.
  assert (H : forall rs acc, Forall (fun r => r ∈ ACCESS_CONTROL_ROLES) rs -> role_row acc ->
    role_row (fold_left (fun next role => if is_true (oget rules role)
      then obj_set role (JBool true) next else next) rs acc)).
  { induction rs as [|r rs IH]; intros acc Hrs Hacc; [done|]. apply Forall_cons in Hrs as [Hr Hrs].
    cbn [fold_left]. apply IH; [done|]. case_match; [by apply role_row_set | done]. }
  apply H; [by apply Forall_forall | apply role_row_nil].
Qed.

Lemma kept_roles_hit rules l :
  l ∈ ACCESS_CONTROL_ROLES -> hit (kept_roles is_true (JBool true) rules) l = is_true (oget rules l).
Proof.
  intros Hl. unfold hit. simpl. rewrite kept_roles_get, bool_decide_eq_true_2 by done.
  cbn [andb]. by destruct (is_true (oget rules l)).
Qed.

(** ** The matrix *)

Definition resource_table : props -> Prop := table role_row.
Definition matrix : props -> Prop := table resource_table.

Lemma resource_table_nil : resource_table [].
Proof. apply table_nil. Qed.

Lemma role_row_ordered o : role_row o -> ordered o.
Proof. by intros []. Qed.

Lemma resource_table_ordered o : resource_table o -> ordered o.
Proof. by intros []. Qed.

#[local] Hint Resolve table_nil resource_table_nil role_row_nil role_row_ordered
  resource_table_ordered kept_roles_row role_row_set role_row_del : js.

(** The cell of a source, a resource and a role. *)
Definition blocks (m : props) (s r l : jsstr) : bool := hit (row (row m s) r) l.

Lemma matrix_row m s : matrix m -> resource_table (row m s).
Proof. apply table_row; auto with js. Qed.

Lemma matrix_cell m s r l : matrix m -> accessSourceResourceBlocks (JObj m) s r l = blocks m s r l.
Proof.
  intros Hm. unfold accessSourceResourceBlocks, blocks, hit.
  rewrite <- (table_oget role_row r (row m s)) by by apply matrix_row.
  by rewrite (table_oget resource_table s m r Hm).
Qed.

(** *** Edits *)

Lemma blocks_put s t m s' r' l' :
  blocks (put_or_delete s t m) s' r' l' = if decide (s' = s) then hit (row t r') l' else blocks m s' r' l'.
Proof. unfold blocks. rewrite row_put. by case_decide. Qed.

Lemma edit_role_spec l b r o :
  l ∈ ACCESS_CONTROL_ROLES -> resource_table o ->
  role_row (edit_role l b (oget (JObj o) r)) /\
  forall l', hit (edit_role l b (oget (JObj o) r)) l' = if decide (l' = l) then b else hit (row o r) l'.
Proof.
  intros Hl Ho. unfold edit_role. rewrite (table_spread role_row r o); [|auto with js|done].
  assert (role_row (row o r)) by (apply table_row; auto with js).
  destruct b; (split; [auto with js|]); intros l'; [rewrite hit_set | rewrite hit_del];
    rewrite bool_decide_decide; by case_decide.
Qed.

Lemma set_cell_spec m s r l b :
  Forall unit_ok s -> Forall unit_ok r -> l ∈ ACCESS_CONTROL_ROLES -> matrix m ->
  let m' := setAccessSourceResourceBlockedInRules m s r l b in
  matrix m' /\
  forall s' r' l', blocks m' s' r' l' =
    if decide (s' = s /\ r' = r /\ l' = l) then b else blocks m s' r' l'.
Proof.
  intros Hs Hr Hl Hm. unfold setAccessSourceResourceBlockedInRules. cbv zeta.
  rewrite (table_spread resource_table s m); [|auto with js|done].
  pose proof (matrix_row m s Hm) as Hrow.
  destruct (edit_role_spec l b r (row m s) Hl Hrow) as [Hrr Hhit].
  split. { by apply table_put; [|apply table_put|]. }
  intros s' r' l'. rewrite blocks_put, row_put. unfold blocks.
  destruct (decide (s' = s)) as [->|]; [|by rewrite decide_False by naive_solver].
  destruct (decide (r' = r)) as [->|]; [|by rewrite decide_False by naive_solver].
  rewrite Hhit. repeat case_decide; naive_solver.
Qed.

Lemma group_fold_spec rs l b t :
  Forall (Forall unit_ok) rs -> l ∈ ACCESS_CONTROL_ROLES -> resource_table t ->
  let t' := fold_left (fun next r => put_or_delete r (edit_role l b (oget (JObj next) r)) next) rs t in
  resource_table t' /\
  forall r' l', hit (row t' r') l' = if decide (r' ∈ rs /\ l' = l) then b else hit (row t r') l'.
Proof.
  intros Hrs Hl. revert t. induction Hrs as [|r rs Hr Hrs IH]; intros t Ht; cbv zeta.
  { split; [done|]. intros r' l'. rewrite decide_False; [done | set_solver]. }
  cbn [fold_left]. destruct (edit_role_spec l b r t Hl Ht) as [Hrr Hhit].
  destruct (IH (put_or_delete r (edit_role l b (oget (JObj t) r)) t)) as [Ht' Hc]; [by apply table_put|].
  split; [exact Ht'|]. intros r' l'. rewrite Hc, row_put.
  rewrite (decide_ext (r' ∈ r :: rs /\ l' = l) (r' = r /\ l' = l \/ r' ∈ rs /\ l' = l))
    by (rewrite elem_of_cons; tauto).
  clear -Hhit. destruct (decide (r' = r)) as [->|]; [rewrite Hhit|]; repeat case_decide; tauto.
Qed.

Lemma set_group_spec m s rs l b :
  Forall unit_ok s -> Forall (Forall unit_ok) rs -> l ∈ ACCESS_CONTROL_ROLES -> matrix m ->
  let m' := setAccessSourceResourceGroupRoleBlockedInRules m s rs l b in
  matrix m' /\
  forall s' r' l', blocks m' s' r' l' =
    if decide (s' = s /\ r' ∈ rs /\ l' = l) then b else blocks m s' r' l'.
Proof.
  intros Hs Hrs Hl Hm. unfold setAccessSourceResourceGroupRoleBlockedInRules. cbv zeta.
  rewrite (table_spread resource_table s m); [|auto with js|done].
  destruct (group_fold_spec rs l b (row m s) Hrs Hl (matrix_row m s Hm)) as [Ht Hc].
  split; [by apply table_put|]. intros s' r' l'. rewrite blocks_put.
  destruct (decide (s' = s)) as [->|]; [|by rewrite decide_False by naive_solver].
  rewrite Hc. unfold blocks. repeat case_decide; naive_solver.
Qed.

(** *** Merges *)

Lemma block_cell_spec m s r l :
  Forall unit_ok s -> Forall unit_ok r -> l ∈ ACCESS_CONTROL_ROLES -> matrix m ->
  matrix (block_cell s r l m) /\
  forall s' r' l', blocks (block_cell s r l m) s' r' l' =
    bool_decide (s' = s /\ r' = r /\ l' = l) || blocks m s' r' l'.
Proof.
  intros Hs Hr Hl Hm. unfold block_cell. cbv zeta.
  pose proof (matrix_row m s Hm) as Hrow.
  assert (Hrr : role_row (row (row m s) r)) by (apply table_row; auto with js).
  rewrite (table_spread resource_table s m); [|auto with js|done].
  assert (spread (oget (oget (JObj m) s) r) = row (row m s) r) as ->.
  { rewrite (table_oget resource_table s m r Hm). apply (table_spread role_row); auto with js. }
  assert (Hne : forall k v (o : props), obj_set k v o <> []).
  { intros k v o Heq. pose proof (proj2 (elem_of_obj_set_keys k v o k) (or_introl eq_refl)) as Hin.
    rewrite Heq in Hin. by apply not_elem_of_nil in Hin. }
  split. { apply table_set; auto. apply table_set; auto with js. }
  intros s' r' l'. unfold blocks. rewrite row_set.
  destruct (decide (s' = s)) as [->|]; [|by rewrite bool_decide_eq_false_2 by naive_solver].
  rewrite row_set.
  destruct (decide (r' = r)) as [->|]; [|by rewrite bool_decide_eq_false_2 by naive_solver].
  rewrite hit_set. f_equal. apply bool_decide_ext. naive_solver.
Qed.

(** *** Normalization *)

(** The keys of an object read from JSON. *)
Record keys_wf (o : props) : Prop := {
  kw_nodup : NoDup (o.*1);
  kw_units : Forall (fun kv => Forall unit_ok kv.1) o
}.

(** A table with one level of keys above the roles, and one with two. *)
Definition rules_wf (v : jsv) : Prop := exists o, v = JObj o /\ keys_wf o.
Definition matrix_wf (v : jsv) : Prop :=
  exists o, v = JObj o /\ keys_wf o /\ Forall (fun kv => forall o', kv.2 = JObj o' -> keys_wf o') o.

Lemma normalize_inner_table (o : props) :
  keys_wf o -> resource_table (normalize_rules (kept_roles is_true (JBool true)) (JObj o)).
Proof.
  intros [_ Hu]. apply normalize_table. eapply Forall_impl; [exact Hu|]. intros kv Hk.
  split; [done|]. auto with js.
Qed.

Lemma normalize_matrix rules : matrix_wf rules -> matrix (normalizeAccessSourceResourceRules rules).
Proof.
  intros (o & -> & [_ Hu] & Hin). apply normalize_table.
  apply Forall_forall. intros kv Hkv. rewrite Forall_forall in Hu, Hin.
  split; [by apply Hu|]. intros o' Ho'. by apply normalize_inner_table, (Hin kv).
Qed.

(** Reading a role in a value that is not an object. *)
Lemma role_not_index l : l ∈ ACCESS_CONTROL_ROLES -> array_index l = None.
Proof.
  intros H. unfold ACCESS_CONTROL_ROLES in H.
  repeat (apply elem_of_cons in H as [->|H]; [vm_compute; reflexivity|]). by apply not_elem_of_nil in H.
Qed.

Lemma list_get_name l k : array_index k = None -> is_object (list_get l k) = false /\ is_true (list_get l k) = false.
Proof. intros H. unfold list_get. rewrite H. by case_bool_decide. Qed.

Lemma oget_not_object v k : is_object v = false -> array_index k = None -> is_true (oget v k) = false.
Proof. intros Hv Hk. destruct v; try done. by apply list_get_name. Qed.

Lemma one_level_cell rules r l :
  rules_wf rules -> l ∈ ACCESS_CONTROL_ROLES ->
  hit (row (normalize_rules (kept_roles is_true (JBool true)) rules) r) l = is_true (oget (oget rules r) l).
Proof.
  intros (o & -> & [Hnd _]) Hl. pose proof (role_not_index l Hl) as Hi.
  rewrite normalize_row by done. unfold normal_row. simpl.
  destruct (om_get r o) as [v|]; [|done]. destruct v; try done; [..|by apply kept_roles_hit].
  all: symmetry; by apply list_get_name.
Qed.

Lemma normalize_cells rules s r l :
  matrix_wf rules -> array_index r = None -> l ∈ ACCESS_CONTROL_ROLES ->
  blocks (normalizeAccessSourceResourceRules rules) s r l = accessSourceResourceBlocks rules s r l.
Proof.
  intros (o & -> & [Hnd _] & Hin) Hr Hl. unfold blocks, normalizeAccessSourceResourceRules.
  rewrite normalize_row by done. unfold normal_row, accessSourceResourceBlocks.
  cbn [oget]. destruct (om_get s o) as [v|] eqn:E; [|done].
  pose proof (role_not_index l Hl) as Hi.
  destruct v as [| | | |t|a|o']; try done.
  - symmetry. cbn [oget]. apply oget_not_object; [|done]. by apply list_get_name.
  - symmetry. cbn [oget]. apply oget_not_object; [|done]. by apply list_get_name.
  - apply one_level_cell; [|done]. exists o'. split; [done|].
    apply om_get_Some_in in E. rewrite Forall_forall in Hin. by apply (Hin _ E).
Qed.

(** A table that is in normal form already. *)
Lemma normalize_fixed inner o :
  table (fun r => inner (JObj r) = r) o -> normalize_rules inner (JObj o) = o.
Proof.
  intros [Ho Hf]. unfold normalize_rules. simpl. rewrite <- (obj_merge_self o Ho) at 2.
  unfold obj_merge. generalize (@nil (jsstr * jsv)) as acc.
  clear Ho. induction Hf as [|[k v] o [_ (r & Hv & Hne & Hr)] Hf IH]; intros acc; [done|].
  cbn [fold_left]. rewrite <- IH. f_equal. unfold normalize_entry. cbn [fst snd] in *. subst v.
  rewrite Hr. cbv zeta. by rewrite bool_decide_eq_false_2.
Qed.

Lemma kept_roles_idemp rules :
  kept_roles is_true (JBool true) (JObj (kept_roles is_true (JBool true) rules))
  = kept_roles is_true (JBool true) rules.
Proof.
  unfold kept_roles at 1. unfold kept_roles at 2.
  assert (H : forall rs acc, Forall (fun r => r ∈ ACCESS_CONTROL_ROLES) rs ->
    fold_left (fun next role =>
      if is_true (oget (JObj (kept_roles is_true (JBool true) rules)) role)
      then obj_set role (JBool true) next else next) rs acc
    = fold_left (fun next role => if is_true (oget rules role) then obj_set role (JBool true) next
        else next) rs acc).
  { induction rs as [|r rs IH]; intros acc Hrs; [done|]. apply Forall_cons in Hrs as [Hr Hrs].
    cbn [fold_left]. rewrite IH by done. f_equal.
    change (is_true (oget (JObj (kept_roles is_true (JBool true) rules)) r))
      with (hit (kept_roles is_true (JBool true) rules) r).
    by rewrite kept_roles_hit. }
  apply H. by apply Forall_forall.
Qed.

Lemma normalize_inner_idemp o :
  keys_wf o ->
  let n := normalize_rules (kept_roles is_true (JBool true)) (JObj o) in
  normalize_rules (kept_roles is_true (JBool true)) (JObj n) = n.
Proof.
  intros [_ Hu]. apply normalize_fixed, normalize_table. eapply Forall_impl; [exact Hu|].
  intros kv Hk. split; [done|]. intros o' _. apply kept_roles_idemp.
Qed.

Lemma normalize_idemp rules :
  matrix_wf rules ->
  normalizeAccessSourceResourceRules (JObj (normalizeAccessSourceResourceRules rules))
  = normalizeAccessSourceResourceRules rules.
Proof.
  intros (o & -> & [_ Hu] & Hin). apply normalize_fixed, normalize_table.
  apply Forall_forall. intros kv Hkv. rewrite Forall_forall in Hu, Hin.
  split; [by apply Hu|]. intros o' Ho'. by apply normalize_inner_idemp, (Hin kv).
Qed.

(** A matrix is a well-formed table. *)
Lemma table_keys_wf P o : table P o -> keys_wf o.
Proof. intros [Ho Hf]. split; [by apply ordered_NoDup|]. eapply Forall_impl; [exact Hf|]. by intros ? []. Qed.

Lemma matrix_is_wf m : matrix m -> matrix_wf (JObj m).
Proof.
  intros Hm. exists m. split; [done|]. split; [by eapply table_keys_wf|].
  destruct Hm as [_ Hf]. eapply Forall_impl; [exact Hf|]. intros kv [_ (r & Hr & _ & Ht)] o' Ho'.
  rewrite Hr in Ho'. simplify_eq. by eapply table_keys_wf.
Qed.

(** A matrix survives being printed and read. *)
Lemma role_row_json o : role_row o -> json_ok (JObj o).
Proof.
  intros [Ho Hf]. apply ordered_json_ok; [done|]. eapply Forall_impl; [exact Hf|].
  intros kv [Hk ->]. split; [|constructor]. unfold ACCESS_CONTROL_ROLES in Hk.
  repeat (apply elem_of_cons in Hk as [->|Hk]; [by apply units_okb_ok|]). by apply not_elem_of_nil in Hk.
Qed.

Lemma table_json P o : (forall r, P r -> json_ok (JObj r)) -> table P o -> json_ok (JObj o).
Proof.
  intros HP [Ho Hf]. apply ordered_json_ok; [done|]. eapply Forall_impl; [exact Hf|].
  intros kv [Hk (r & -> & _ & Hr)]. auto.
Qed.

Lemma matrix_json m : matrix m -> json_ok (JObj m).
Proof. apply table_json. intros r. apply table_json. apply role_row_json. Qed.

(** *** The older formats *)

(** A loop whose turns keep the invariant [I] and add the facts [p x]. *)
Lemma fold_adds {A C} (I : props -> Prop) (G : props -> C -> Prop) (f : props -> A -> props)
    (p : A -> C -> Prop) l m :
  Forall (fun x => forall m, I m -> I (f m x) /\ forall c, G (f m x) c <-> p x c \/ G m c) l ->
  I m ->
  I (fold_left f l m) /\ forall c, G (fold_left f l m) c <-> (exists x, x ∈ l /\ p x c) \/ G m c.
Proof.
  intros Hf. revert m. induction Hf as [|x l Hx Hl IH]; intros m Hm.
  - split; [done|]. intros c. cbn [fold_left]. split; [by right|].
    intros [(x & Hx & _)|?]; [by apply not_elem_of_nil in Hx | done].
  - cbn [fold_left]. destruct (Hx m Hm) as [Hm1 H1]. destruct (IH _ Hm1) as [Hm2 H2].
    split; [done|]. intros c. rewrite H2, H1. setoid_rewrite elem_of_cons. naive_solver.
Qed.

(** The cells of a matrix, and of a table of sources and roles. *)
Definition Cell (m : props) (c : jsstr * jsstr * jsstr) : Prop := blocks m c.1.1 c.1.2 c.2 = true.
Definition Geo (m : props) (c : jsstr * jsstr) : Prop := hit (row m c.1) c.2 = true.

Lemma block_cell_adds m s r l :
  Forall unit_ok s -> Forall unit_ok r -> l ∈ ACCESS_CONTROL_ROLES -> matrix m ->
  matrix (block_cell s r l m) /\ forall c, Cell (block_cell s r l m) c <-> c = (s, r, l) \/ Cell m c.
Proof.
  intros Hs Hr Hl Hm. destruct (block_cell_spec m s r l Hs Hr Hl Hm) as [Hm' Hb].
  split; [done|]. intros [[s' r'] l']. unfold Cell. cbn [fst snd].
  rewrite Hb, orb_true_iff, bool_decide_eq_true. naive_solver.
Qed.

Lemma obj_set_ne k v (o : props) : obj_set k v o <> [].
Proof.
  intros Heq. pose proof (proj2 (elem_of_obj_set_keys k v o k) (or_introl eq_refl)) as Hin.
  rewrite Heq in Hin. by apply not_elem_of_nil in Hin.
Qed.

Lemma block_role_adds m s l :
  Forall unit_ok s -> l ∈ ACCESS_CONTROL_ROLES -> resource_table m ->
  resource_table (block_role s l m) /\ forall c, Geo (block_role s l m) c <-> c = (s, l) \/ Geo m c.
Proof.
  intros Hs Hl Hm. unfold block_role. rewrite (table_spread role_row s m); [|auto with js|done].
  assert (role_row (row m s)) by (apply table_row; auto with js).
  split; [apply table_set; auto using obj_set_ne with js|].
  intros [s' l']. unfold Geo. cbn [fst snd]. rewrite row_set.
  destruct (decide (s' = s)) as [->|]; [|naive_solver].
  rewrite hit_set, orb_true_iff, bool_decide_eq_true. naive_solver.
Qed.

Lemma roles_units l : l ∈ ACCESS_CONTROL_ROLES -> Forall unit_ok l.
Proof.
  intros Hk. unfold ACCESS_CONTROL_ROLES in Hk.
  repeat (apply elem_of_cons in Hk as [->|Hk]; [by apply units_okb_ok|]). by apply not_elem_of_nil in Hk.
Qed.

(** Adding one cell for each role that passes a test, as the merges do. *)
Lemma block_roles_adds (test : jsstr -> bool) s r m :
  Forall unit_ok s -> Forall unit_ok r -> matrix m ->
  let m' := fold_left (fun next role => if test role then block_cell s r role next else next)
              ACCESS_CONTROL_ROLES m in
  matrix m' /\
  forall c, Cell m' c <-> (c.1 = (s, r) /\ c.2 ∈ ACCESS_CONTROL_ROLES /\ test c.2 = true) \/ Cell m c.
Proof.
  intros Hs Hr Hm. cbv zeta.
  destruct (fold_adds matrix Cell (fun next role => if test role then block_cell s r role next else next)
    (fun role c => test role = true /\ c = (s, r, role)) ACCESS_CONTROL_ROLES m) as [Hm' Hc]; [|done|].
  - apply Forall_forall. intros role Hrole m1 Hm1. destruct (test role); [|naive_solver].
    destruct (block_cell_adds m1 s r role Hs Hr Hrole Hm1) as [? Ha]. split; [done|].
    intros c. rewrite Ha. naive_solver.
  - split; [done|]. intros [[s' r'] l']. rewrite Hc. cbn [fst snd].
    split; (intros [H|H]; [left | by right]).
    + destruct H as (x & Hx & Ht & [= -> -> ->]). done.
    + destruct H as ([= -> ->] & Hl & Ht). by exists l'.
Qed.

Lemma entry_get (o : props) k (Q : jsv -> Prop) :
  NoDup (o.*1) -> (exists kv, kv ∈ o /\ kv.1 = k /\ Q kv.2) <-> exists v, om_get k o = Some v /\ Q v.
Proof.
  intros Hnd. split.
  - intros ([k' v] & Hin & <- & HQ). exists v. by split; [apply om_in_get|].
  - intros (v & Hv%om_get_Some_in & HQ). by exists (k, v).
Qed.

(** A test of the entries of a role: [=== true] or [=== false]. *)
Record role_test (test : jsv -> bool) (v : jsv) : Prop := {
  rt_value : test v = true;
  rt_undef : test JUndef = false;
  rt_name l k : array_index k = None -> test (list_get l k) = false
}.

Lemma true_test : role_test is_true (JBool true).
Proof. split; try done. intros l k H. by apply list_get_name. Qed.

Lemma false_test : role_test is_false (JBool false).
Proof. split; try done. intros l k H. unfold list_get. rewrite H. by case_bool_decide. Qed.

Lemma normalized_entry test v rules k l :
  role_test test v -> rules_wf rules -> l ∈ ACCESS_CONTROL_ROLES ->
  (exists w, om_get k (normalize_rules (kept_roles test v) rules) = Some w /\ test (oget w l) = true) <->
  test (oget (oget rules k) l) = true.
Proof.
  intros Ht (o & -> & [Hnd _]) Hl. rewrite normalize_get by done.
  pose proof (role_not_index l Hl) as Hi. simpl. unfold normal_row.
  assert (Hno : test (oget (oget (JObj o) k) l) = true -> exists o', om_get k o = Some (JObj o')).
  { simpl. destruct (om_get k o) as [w|]; [|cbn [oget]; by rewrite (rt_undef _ _ Ht)].
    destruct w; cbn [oget]; rewrite ?(rt_undef _ _ Ht), ?(rt_name _ _ Ht) by done; try done. by eexists. }
  assert (Hget : forall o', test (oget (JObj (kept_roles test v (JObj o'))) l) = test (oget (JObj o') l)).
  { intros o'. cbn [oget]. rewrite kept_roles_get, bool_decide_eq_true_2 by done. cbn [andb oget].
    destruct (om_get l o') as [w|] eqn:E.
    - destruct (test w) eqn:Ew; [apply Ht | apply Ht].
    - rewrite (rt_undef _ _ Ht). apply (rt_undef _ _ Ht). }
  split.
  - intros (w & Hw & Htw). destruct (om_get k o) as [[]|] eqn:E; try done.
    destruct (kept_roles test v (JObj o0)) eqn:Er; [done|]. apply (inj Some) in Hw as <-.
    by rewrite <- Er, Hget in Htw.
  - intros H. destruct (Hno H) as [o' Ho']. simpl in H. rewrite Ho' in *.
    destruct (kept_roles test v (JObj o')) eqn:Er.
    + rewrite <- Hget, Er in H. simpl in H. by rewrite (rt_undef _ _ Ht) in H.
    + eexists. split; [done|]. by rewrite <- Er, Hget.
Qed.

(** The loop of the merges over a normalized table. *)
Lemma merge_loop test v rules (src res : jsstr -> jsstr) m :
  role_test test v -> rules_wf rules -> matrix m ->
  (forall k, Forall unit_ok k -> Forall unit_ok (src k) /\ Forall unit_ok (res k)) ->
  let m' := fold_left (fun next kv =>
      fold_left (fun next role =>
        if test (oget kv.2 role) then block_cell (src kv.1) (res kv.1) role next else next)
        ACCESS_CONTROL_ROLES next)
      (normalize_rules (kept_roles test v) rules) m in
  matrix m' /\
  forall s r l, l ∈ ACCESS_CONTROL_ROLES ->
    (blocks m' s r l = true <->
     (exists k, (s, r) = (src k, res k) /\ test (oget (oget rules k) l) = true) \/ blocks m s r l = true).
Proof.
  intros Ht Hw Hm Hu. cbv zeta. set (N := normalize_rules (kept_roles test v) rules).
  pose proof Hw as (o & Ho & [_ Hunits]).
  assert (HN : Forall (fun kv : jsstr * jsv => Forall unit_ok kv.1) N)
    by (unfold N; rewrite Ho; by apply normalize_keys_units).
  destruct (fold_adds matrix Cell (fun next kv => fold_left (fun next role =>
        if test (oget kv.2 role) then block_cell (src kv.1) (res kv.1) role next else next)
        ACCESS_CONTROL_ROLES next) (fun kv c => c.1 = (src kv.1, res kv.1) /\ c.2 ∈ ACCESS_CONTROL_ROLES /\
    test (oget kv.2 c.2) = true) N m) as [Hm' Hc]; [|done|].
  - eapply Forall_impl; [exact HN|]. intros kv Hkv m1 Hm1. destruct (Hu kv.1 Hkv) as [Hs Hr].
    by apply (block_roles_adds (fun role => test (oget kv.2 role))).
  - split; [exact Hm'|]. intros s r l Hl. specialize (Hc (s, r, l)). unfold Cell in Hc.
    cbn [fst snd] in Hc. rewrite Hc. clear Hc Hm'. apply or_iff_compat_r.
    assert (HNd : NoDup (N.*1)) by (unfold N; rewrite Ho; apply ordered_NoDup, normalize_ordered).
    split.
    + intros (kv & Hin & Heq & _ & Htest). exists kv.1. split; [done|].
      apply (normalized_entry test v rules kv.1 l Ht Hw Hl). fold N.
      apply (entry_get N kv.1 (fun w => test (oget w l) = true) HNd). by exists kv.
    + intros (k & Heq & Htest). apply (normalized_entry test v rules k l Ht Hw Hl) in Htest.
      fold N in Htest. apply (entry_get N k (fun w => test (oget w l) = true) HNd) in Htest
        as (kv & Hin & Hk & Htest). exists kv. by subst k.
Qed.

(** *** Steps that only add cells *)

Definition adds {C} (I : props -> Prop) (G : props -> C -> Prop) (f : props -> props) (p : C -> Prop) : Prop :=
  forall m, I m -> I (f m) /\ forall c, G (f m) c <-> p c \/ G m c.

Lemma adds_if {C} I (G : props -> C -> Prop) (b : bool) f p :
  adds I G f p -> adds I G (fun m => if b then f m else m) (fun c => b = true /\ p c).
Proof. intros Hf m Hm. destruct b; [destruct (Hf m Hm); naive_solver | naive_solver]. Qed.

Lemma adds_comp {C} I (G : props -> C -> Prop) f g p q :
  adds I G f p -> adds I G g q -> adds I G (fun m => g (f m)) (fun c => p c \/ q c).
Proof.
  intros Hf Hg m Hm. destruct (Hf m Hm) as [Hm1 H1]. destruct (Hg _ Hm1) as [Hm2 H2].
  split; [done|]. intros c. rewrite H2, H1. tauto.
Qed.

Lemma adds_fold {A C} I (G : props -> C -> Prop) (f : props -> A -> props) (p : A -> C -> Prop) l :
  (forall x, x ∈ l -> adds I G (fun m => f m x) (p x)) ->
  adds I G (fun m => fold_left f l m) (fun c => exists x, x ∈ l /\ p x c).
Proof. intros Hf m Hm. apply fold_adds; [|done]. apply Forall_forall. intros x Hx. by apply Hf. Qed.

Ltac lit_units := apply units_okb_ok; vm_compute; reflexivity.
Ltac lit_role := apply (bool_decide_eq_true_1 _); vm_compute; reflexivity.

Lemma adds_cell s r l :
  Forall unit_ok s -> Forall unit_ok r -> l ∈ ACCESS_CONTROL_ROLES ->
  adds matrix Cell (block_cell s r l) (fun c => c = (s, r, l)).
Proof. intros Hs Hr Hl m Hm. by apply block_cell_adds. Qed.

Lemma adds_role s l :
  Forall unit_ok s -> l ∈ ACCESS_CONTROL_ROLES ->
  adds resource_table Geo (block_role s l) (fun c => c = (s, l)).
Proof. intros Hs Hl m Hm. by apply block_role_adds. Qed.

Section Migrated.
Context `{UnicodeCase} (values : props).
Notation on k := (option_on values k = true).

(** The cells that the scoped flags of China mainland stand for. *)
Definition scoped_cells (c : jsstr * jsstr * jsstr) : Prop :=
  on "block_china_mainland_homepage" /\
    (c = (u "china_mainland", u "home", u "guest") \/ c = (u "china_mainland", u "home", u "user")) \/
  on "block_china_mainland_user_sensitive_pages" /\
    exists r, r ∈ [u "token"; u "wallet"; u "billing"] /\ c = (u "china_mainland", r, u "user").

(** The sources and roles that the global flags stand for. *)
Definition legacy_roles (c : jsstr * jsstr) : Prop :=
  (on "block_china_mainland" /\ exists l, l ∈ ACCESS_CONTROL_ROLES /\ c = (u "china_mainland", l)) \/
  (on "block_european_union" /\ exists l, l ∈ ACCESS_CONTROL_ROLES /\ c = (u "european_union", l)) \/
  (on "block_guests" /\ c = (u "all", u "guest")) \/
  (on "block_users" /\ c = (u "all", u "user")) \/
  (on "block_admins" /\
    (c = (u "all", u "audit_admin") \/ c = (u "all", u "admin") \/ c = (u "all", u "root"))).

Lemma adds_sensitive :
  adds matrix Cell
    (fun m => fold_left (fun next r => block_cell (u "china_mainland") r (u "user") next)
       [u "token"; u "wallet"; u "billing"] m)
    (fun c => exists r, r ∈ [u "token"; u "wallet"; u "billing"] /\ c = (u "china_mainland", r, u "user")).
Proof.
  apply (adds_fold matrix Cell (fun next r => block_cell (u "china_mainland") r (u "user") next)
    (fun r c => c = (u "china_mainland", r, u "user"))).
  intros r Hr. apply adds_cell; [lit_units | | lit_role].
  repeat (apply elem_of_cons in Hr as [->|Hr]; [lit_units|]). by apply not_elem_of_nil in Hr.
Qed.

Lemma mergeLegacySource_adds rules :
  matrix_wf rules ->
  matrix (mergeLegacyAccessSourceResourceRules rules values) /\
  forall c, Cell (mergeLegacyAccessSourceResourceRules rules values) c <->
    scoped_cells c \/ Cell (normalizeAccessSourceResourceRules rules) c.
Proof.
  intros Hw. unfold mergeLegacyAccessSourceResourceRules.
  assert (Hhome := adds_comp matrix Cell _ _ _ _
    (adds_cell (u "china_mainland") (u "home") (u "guest") ltac:(lit_units) ltac:(lit_units) ltac:(lit_role))
    (adds_cell (u "china_mainland") (u "home") (u "user") ltac:(lit_units) ltac:(lit_units) ltac:(lit_role))).
  apply (adds_comp matrix Cell _ _ _ _
    (adds_if matrix Cell (option_on values "block_china_mainland_homepage") _ _ Hhome)
    (adds_if matrix Cell (option_on values "block_china_mainland_user_sensitive_pages") _ _ adds_sensitive)).
  by apply normalize_matrix.
Qed.

Lemma adds_all_roles s :
  Forall unit_ok s ->
  adds resource_table Geo (fun m => fold_left (fun next role => block_role s role next) ACCESS_CONTROL_ROLES m)
    (fun c => exists l, l ∈ ACCESS_CONTROL_ROLES /\ c = (s, l)).
Proof.
  intros Hs. apply (adds_fold resource_table Geo (fun next role => block_role s role next)
    (fun role c => c = (s, role))). intros l Hl. by apply adds_role.
Qed.

Lemma mergeLegacyRoles_adds rules :
  rules_wf rules ->
  resource_table (mergeLegacyAccessRoleGeoRules rules values) /\
  forall c, Geo (mergeLegacyAccessRoleGeoRules rules values) c <->
    legacy_roles c \/ Geo (normalizeAccessRoleGeoRules rules) c.
Proof.
  intros (o & -> & Ho). unfold mergeLegacyAccessRoleGeoRules, legacy_roles. cbv zeta.
  assert (Hn : resource_table (normalizeAccessRoleGeoRules (JObj o))) by by apply normalize_inner_table.
  pose (iff b f p := adds_if resource_table Geo (option_on values b) f p).
  assert (H1 := iff "block_china_mainland" _ _ (adds_all_roles (u "china_mainland") ltac:(lit_units))).
  assert (H2 := iff "block_european_union" _ _ (adds_all_roles (u "european_union") ltac:(lit_units))).
  assert (H3 := iff "block_guests" _ _ (adds_role (u "all") (u "guest") ltac:(lit_units) ltac:(lit_role))).
  assert (H4 := iff "block_users" _ _ (adds_role (u "all") (u "user") ltac:(lit_units) ltac:(lit_role))).
  assert (H5 := iff "block_admins" _ _ (adds_comp resource_table Geo _ _ _ _
    (adds_role (u "all") (u "audit_admin") ltac:(lit_units) ltac:(lit_role))
    (adds_comp resource_table Geo _ _ _ _
      (adds_role (u "all") (u "admin") ltac:(lit_units) ltac:(lit_role))
      (adds_role (u "all") (u "root") ltac:(lit_units) ltac:(lit_role))))).
  exact (adds_comp _ _ _ _ _ _ H1 (adds_comp _ _ _ _ _ _ H2 (adds_comp _ _ _ _ _ _ H3
    (adds_comp _ _ _ _ _ _ H4 H5))) _ Hn).
Qed.
End Migrated.

(** ** Reading the options *)

(** The value of an option that was read: missing, or a text. *)
Definition option_text (v : jsv) : Prop := v = JUndef \/ exists t, v = JStr t /\ Forall unit_ok t.

Lemma tidy_matrix_wf o : tidy (JObj o) -> matrix_wf (JObj o).
Proof.
  intros Ht. inversion Ht as [| | | | |? Ho Hf]; subst. exists o. split; [done|]. split.
  - split; [by apply ordered_NoDup|]. eapply Forall_impl; [exact Hf|]. by intros ? [].
  - eapply Forall_impl; [exact Hf|]. intros kv [_ Hkv] o' Ho'. rewrite Ho' in Hkv.
    inversion Hkv as [| | | | |? Ho1 Hf1]; subst. split; [by apply ordered_NoDup|].
    eapply Forall_impl; [exact Hf1|]. by intros ? [].
Qed.

Lemma parse_rules_wf v : option_text v -> matrix_wf (parse_rules v).
Proof.
  assert (Hnil : matrix_wf (JObj [])) by (apply tidy_matrix_wf; repeat constructor).
  intros [->|(t & -> & Ht)]; [done|]. unfold parse_rules. destruct (truthy (JStr t)); [|done].
  simpl. destruct (json_parse t) as [w|] eqn:E; [|done]. destruct w; try done.
  by apply tidy_matrix_wf, (json_parse_tidy t).
Qed.

Lemma matrix_rules_wf v : matrix_wf v -> rules_wf v.
Proof. intros (o & -> & Ho & _). by exists o. Qed.

Lemma mergeRoleGeo_adds m g :
  matrix m -> resource_table g ->
  let m' := mergeAccessRoleGeoRulesIntoSourceResourceRules (JObj m) (JObj g) in
  matrix m' /\
  forall s r l, l ∈ ACCESS_CONTROL_ROLES ->
    (blocks m' s r l = true <->
     (exists k, (s, r) = (k, u "all") /\ is_true (oget (oget (JObj g) k) l) = true) \/
     blocks (normalizeAccessSourceResourceRules (JObj m)) s r l = true).
Proof.
  intros Hm Hg. unfold mergeAccessRoleGeoRulesIntoSourceResourceRules, normalizeAccessRoleGeoRules.
  apply (merge_loop is_true (JBool true) (JObj g) (fun k => k) (fun _ => u "all")).
  - apply true_test.
  - exists g. split; [done | by eapply table_keys_wf].
  - by apply normalize_matrix, matrix_is_wf.
  - intros k Hk. split; [done | lit_units].
Qed.

Lemma mergeResource_adds m rules :
  matrix m -> rules_wf rules ->
  let m' := mergeAccessResourceRulesIntoSourceResourceRules (JObj m) rules in
  matrix m' /\
  forall s r l, l ∈ ACCESS_CONTROL_ROLES ->
    (blocks m' s r l = true <->
     (exists k, (s, r) = (u "all", k) /\ is_false (oget (oget rules k) l) = true) \/
     blocks (normalizeAccessSourceResourceRules (JObj m)) s r l = true).
Proof.
  intros Hm Hr. unfold mergeAccessResourceRulesIntoSourceResourceRules, normalizeAccessResourceRules.
  apply (merge_loop is_false (JBool false) rules (fun _ => u "all") (fun k => k)).
  - apply false_test.
  - done.
  - by apply normalize_matrix, matrix_is_wf.
  - intros k Hk. split; [lit_units | done].
Qed.

Section Merged.
Context `{UnicodeCase} (values : props).
Notation value k := (oget (JObj values) (u k)).
Notation geo := (parse_rules (value "access_control.role_geo_rules")).
Notation sources := (parse_rules (value "access_control.source_resource_rules")).
Notation resources := (parse_rules (value "access_control.resource_rules")).

Hypothesis geo_wf : matrix_wf geo.
Hypothesis source_wf : matrix_wf sources.
Hypothesis resource_wf : matrix_wf resources.

(** The cell is blocked by one of the formats the options may be in. *)
Definition option_blocks (s r l : jsstr) : Prop :=
  accessSourceResourceBlocks sources s r l = true \/
  scoped_cells values (s, r, l) \/
  (r = u "all" /\ (legacy_roles values (s, l) \/ is_true (oget (oget geo s) l) = true)) \/
  (s = u "all" /\ is_false (oget (oget resources r) l) = true).

Lemma merged_spec :
  matrix (merged_access_rules values) /\
  forall s r l, array_index r = None -> l ∈ ACCESS_CONTROL_ROLES ->
    (blocks (merged_access_rules values) s r l = true <-> option_blocks s r l).
Proof using geo_wf source_wf resource_wf.
  unfold merged_access_rules. cbv zeta.
  pose proof geo_wf as Hg. pose proof source_wf as Hs. pose proof resource_wf as Hr.
  destruct (mergeLegacyRoles_adds values geo (matrix_rules_wf _ Hg)) as [Hg1 Hgc].
  destruct (mergeLegacySource_adds values sources Hs) as [Hs1 Hsc].
  set (G := mergeLegacyAccessRoleGeoRules geo values) in *.
  set (M1 := mergeLegacyAccessSourceResourceRules sources values) in *.
  destruct (mergeRoleGeo_adds M1 G Hs1 Hg1) as [Hm2 Hc2].
  set (M2 := mergeAccessRoleGeoRulesIntoSourceResourceRules (JObj M1) (JObj G)) in *.
  destruct (mergeResource_adds M2 resources Hm2 (matrix_rules_wf _ Hr)) as [Hm3 Hc3].
  split; [exact Hm3|]. intros s r l Hi Hl.
  etransitivity; [apply (Hc3 s r l Hl)|]. clear Hc3 Hm3.
  rewrite (normalize_cells (JObj M2)), (matrix_cell M2) by auto using matrix_is_wf.
  rewrite Hc2 by done.
  rewrite (normalize_cells (JObj M1)), (matrix_cell M1) by auto using matrix_is_wf.
  pose proof (Hsc (s, r, l)) as Hsc'. unfold Cell in Hsc'. cbn [fst snd] in Hsc'. rewrite Hsc'.
  rewrite (normalize_cells sources s r l Hs Hi Hl).
  assert (HG : is_true (oget (oget (JObj G) s) l) = true <->
    legacy_roles values (s, l) \/ is_true (oget (oget geo s) l) = true).
  { rewrite (table_oget role_row s G l Hg1). fold (hit (row G s) l).
    pose proof (Hgc (s, l)) as Hgc'. unfold Geo in Hgc'. cbn [fst snd] in Hgc'. rewrite Hgc'.
    unfold normalizeAccessRoleGeoRules. by rewrite one_level_cell by auto using matrix_rules_wf. }
  unfold option_blocks. clear -HG.
  split.
  - intros [(k & [= -> ->] & H1)|[(k & [= <- ->] & H1)|[H1|H1]]]; tauto.
  - intros [H1|[H1|[[-> H1]|[-> H1]]]]; [by right; right; right | by right; right; left | right; left | left].
    + exists s. split; [done|]. tauto.
    + by exists r.
Qed.
End Merged.

(** C31. Loading the options builds a normal matrix that blocks exactly the cells the
    saved options block in any of their formats: the matrix itself, the rules per source
    and role (under the resource all), the rules per resource (under the source all), and
    the older flags. *)
Theorem merged_rules_spec `{UnicodeCase} (values : props) :
  option_text (oget (JObj values) (u "access_control.role_geo_rules")) ->
  option_text (oget (JObj values) (u "access_control.source_resource_rules")) ->
  option_text (oget (JObj values) (u "access_control.resource_rules")) ->
  matrix (merged_access_rules values) /\
  forall s r l, array_index r = None -> l ∈ ACCESS_CONTROL_ROLES ->
    (accessSourceResourceBlocks (JObj (merged_access_rules values)) s r l = true <->
     option_blocks values s r l).
Proof.
  intros Hg Hs Hr. destruct (merged_spec values) as [Hm Hc]; auto using parse_rules_wf.
  split; [done|]. intros s r l Hi Hl. rewrite matrix_cell by done. by apply Hc.
Qed.

Definition example_options : props :=
  [(u "access_control.block_users", JStr (u "true"));
   (u "access_control.role_geo_rules",
     JStr (default [] (stringify (JObj [(u "china_mainland", JObj [(u "guest", JBool true)])]))))].

Lemma merged_rules_spec_witness :
  accessSourceResourceBlocks (JObj (merged_access_rules (H := ascii_case) example_options))
    (u "china_mainland") (u "all") (u "guest") = true.
Proof.
  apply (merged_rules_spec (H := ascii_case) example_options).
  - right. eexists. split; [vm_compute; reflexivity | by apply units_okb_ok].
  - by left.
  - by left.
  - reflexivity.
  - lit_role.
  - right. right. left. split; [reflexivity|]. right. vm_compute. reflexivity.
Defined.
