(* ===== verification/SystemSetting.v ===== *)
(** * The system settings page

    The state and the handlers of web/classic/src/components/settings/SystemSetting.jsx:
    loading the options, the edits of the form and of the access matrix, and the
    buttons that save a group of options.  [inputs] and [originInputs] are references
    into a store of objects, because loading makes them the same object.  The server is
    an argument: [respond] answers each [PUT /api/option/], [None] being a request that
    failed. *)

From S2P Require Import Prelude JsString JsNumber JsNumText JsValue JsJson JsRegex AccessMatrix.

(** ** State *)

Notation props := (list (jsstr * jsv)) (only parsing).

#[projections(primitive)]
Record setting := Setting {
  store : list props;                  (** the objects that hold form values *)
  inputs : nat;                        (** references into the store *)
  originInputs : nat;
  loading : bool;
  isLoaded : bool;
  form : option props;                 (** the values of the form, once it is shown *)
  emailDomainWhitelist : list jsstr;
  showPasswordLoginConfirmModal : bool;
  linuxDOOAuthEnabled : bool;
  emailToAdd : jsstr;
  domainFilterMode : bool;
  ipFilterMode : bool;
  domainList : list jsv;
  ipList : list jsv;
  allowedPorts : list jsv;
  accessSourceResourceRules : props;
  selectedAccessSource : jsstr
}.

(** The updates of the state hooks. *)
Definition set_objects s i o '(Setting _ _ _ a b c d e f g h j k l m n p) := Setting s i o a b c d e f g h j k l m n p.
Definition setLoading v '(Setting s i o _ b c d e f g h j k l m n p) := Setting s i o v b c d e f g h j k l m n p.
Definition setIsLoaded v '(Setting s i o a _ c d e f g h j k l m n p) := Setting s i o a v c d e f g h j k l m n p.
Definition set_form v '(Setting s i o a b _ d e f g h j k l m n p) := Setting s i o a b v d e f g h j k l m n p.
Definition setEmailDomainWhitelist v '(Setting s i o a b c _ e f g h j k l m n p) := Setting s i o a b c v e f g h j k l m n p.
Definition setShowPasswordLoginConfirmModal v '(Setting s i o a b c d _ f g h j k l m n p) := Setting s i o a b c d v f g h j k l m n p.
Definition setLinuxDOOAuthEnabled v '(Setting s i o a b c d e _ g h j k l m n p) := Setting s i o a b c d e v g h j k l m n p.
Definition setEmailToAdd v '(Setting s i o a b c d e f _ h j k l m n p) := Setting s i o a b c d e f v h j k l m n p.
Definition setDomainFilterMode v '(Setting s i o a b c d e f g _ j k l m n p) := Setting s i o a b c d e f g v j k l m n p.
Definition setIpFilterMode v '(Setting s i o a b c d e f g h _ k l m n p) := Setting s i o a b c d e f g h v k l m n p.
Definition setDomainList v '(Setting s i o a b c d e f g h j _ l m n p) := Setting s i o a b c d e f g h j v l m n p.
Definition setIpList v '(Setting s i o a b c d e f g h j k _ m n p) := Setting s i o a b c d e f g h j k v m n p.
Definition setAllowedPorts v '(Setting s i o a b c d e f g h j k l _ n p) := Setting s i o a b c d e f g h j k l v n p.
Definition setAccessSourceResourceRules v '(Setting s i o a b c d e f g h j k l m _ p) := Setting s i o a b c d e f g h j k l m v p.
Definition setSelectedAccessSource v '(Setting s i o a b c d e f g h j k l m n _) := Setting s i o a b c d e f g h j k l m n v.

Definition blank (k : string) : jsstr * jsv := (u k, JStr []).

Definition initial_inputs : props :=
  [blank "PasswordLoginEnabled"; blank "PasswordRegisterEnabled";
   blank "EmailVerificationEnabled"; blank "GitHubOAuthEnabled"; blank "GitHubClientId";
   blank "GitHubClientSecret"; blank "discord.enabled"; blank "discord.client_id";
   blank "discord.client_secret"; blank "oidc.enabled"; blank "oidc.client_id";
   blank "oidc.client_secret"; blank "oidc.well_known"; blank "oidc.authorization_endpoint";
   blank "oidc.token_endpoint"; blank "oidc.user_info_endpoint"; blank "Notice";
   blank "SMTPServer"; blank "SMTPPort"; blank "SMTPAccount"; blank "SMTPFrom";
   blank "SMTPToken"; blank "WorkerUrl"; blank "WorkerValidKey";
   blank "WorkerAllowHttpImageRequestEnabled"; blank "Footer"; blank "WeChatAuthEnabled";
   blank "WeChatServerAddress"; blank "WeChatServerToken"; blank "WeChatAccountQRCodeImageURL";
   blank "TurnstileCheckEnabled"; blank "TurnstileSiteKey"; blank "TurnstileSecretKey";
   blank "RegisterEnabled"; blank "passkey.enabled"; blank "passkey.rp_display_name";
   blank "passkey.rp_id"; (u "passkey.origins", JArr []); blank "passkey.allow_insecure_origin";
   (u "passkey.user_verification", JStr (u "preferred")); blank "passkey.attachment_preference";
   blank "EmailDomainRestrictionEnabled"; blank "EmailAliasRestrictionEnabled";
   blank "SMTPSSLEnabled"; blank "SMTPForceAuthLogin"; (u "EmailDomainWhitelist", JArr []);
   blank "TelegramOAuthEnabled"; blank "TelegramBotToken"; blank "TelegramBotName";
   blank "LinuxDOOAuthEnabled"; blank "LinuxDOClientId"; blank "LinuxDOClientSecret";
   blank "LinuxDOMinimumTrustLevel"; blank "ServerAddress";
   (u "fetch_setting.enable_ssrf_protection", JBool true);
   blank "fetch_setting.allow_private_ip"; (u "fetch_setting.domain_filter_mode", JBool false);
   (u "fetch_setting.ip_filter_mode", JBool false); (u "fetch_setting.domain_list", JArr []);
   (u "fetch_setting.ip_list", JArr []); (u "fetch_setting.allowed_ports", JArr []);
   (u "fetch_setting.apply_ip_filter_for_domain", JBool true);
   blank "access_control.web_policy_enabled"; blank "access_control.api_policy_enabled";
   blank "access_control.block_china_mainland"; blank "access_control.block_european_union";
   blank "access_control.block_china_mainland_homepage";
   blank "access_control.block_china_mainland_user_sensitive_pages";
   blank "access_control.block_guests"; blank "access_control.block_users";
   blank "access_control.block_admins"; blank "access_control.geoip_database_path";
   blank "access_control.role_geo_rules"; blank "access_control.source_resource_rules";
   blank "access_control.resource_rules"].

(** The state of a fresh page; [originInputs] is [{}]. *)
Definition initial_setting : setting :=
  Setting [initial_inputs; []] 0 1 false false None [] false false [] true true [] [] [] [] (u "all").

(** The object a reference denotes, and its property. *)
Definition object (st : setting) (r : nat) : props := default [] (store st !! r).
Definition input (st : setting) (k : jsstr) : jsv := oget (JObj (object st (inputs st))) k.
Definition origin (st : setting) (k : jsstr) : jsv := oget (JObj (object st (originInputs st))) k.

(** [setInputs(o)] with a new object. *)
Definition setInputs (o : props) (st : setting) : setting :=
  set_objects (store st ++ [o]) (length (store st)) (originInputs st) st.

(** [inputs[k] = v], in place. *)
Definition mutate_input (k : jsstr) (v : jsv) (st : setting) : setting :=
  set_objects (<[inputs st := obj_set k v (object st (inputs st))]> (store st))
    (inputs st) (originInputs st) st.

Inductive toast :=
  | showError (m : jsstr)
  | showSuccess (m : jsstr).

(** What a handler leaves: the state, the requests it sent, the messages it showed. *)
Record effect := Effect { e_state : setting; e_sent : list (jsstr * jsv); e_toasts : list toast }.

Section Page.
Context `{UnicodeCase}.

(** ** Loading *)

(** [JSON.stringify(JSON.parse(v), null, 2)]; a text that is no JSON throws. *)
Definition reprint (v : jsv) : exc jsv :=
  match json_parse (to_string v) with
  | Some w => Ret (match stringify2 0 w with Some t => JStr t | None => JUndef end)
  | None => Throw (u "SyntaxError")
  end.

(** The three tables of access rules. *)
Definition load_access_rules (v : jsv) : jsv :=
  if truthy v then match reprint v with Ret w => w | Throw _ => js_or v (JStr (u "{}")) end
  else JStr (u "{}").

(** A list option: [v ? JSON.parse(v) : []] when it is an array. *)
Definition load_list (v : jsv) (fallback : list jsv) : list jsv :=
  if truthy v then
    match json_parse (to_string v) with Some (JArr l) => l | Some _ => [] | None => fallback end
  else [].

Definition boolean_options : list jsstr :=
  [u "fetch_setting.allow_private_ip"; u "fetch_setting.enable_ssrf_protection";
   u "fetch_setting.domain_filter_mode"; u "fetch_setting.ip_filter_mode";
   u "fetch_setting.apply_ip_filter_for_domain";
   u "access_control.web_policy_enabled"; u "access_control.api_policy_enabled";
   u "access_control.block_china_mainland"; u "access_control.block_european_union";
   u "access_control.block_china_mainland_homepage";
   u "access_control.block_china_mainland_user_sensitive_pages";
   u "access_control.block_guests"; u "access_control.block_users"; u "access_control.block_admins";
   u "PasswordLoginEnabled"; u "PasswordRegisterEnabled"; u "EmailVerificationEnabled";
   u "GitHubOAuthEnabled"; u "WeChatAuthEnabled"; u "TelegramOAuthEnabled"; u "RegisterEnabled";
   u "TurnstileCheckEnabled"; u "EmailDomainRestrictionEnabled"; u "EmailAliasRestrictionEnabled";
   u "SMTPSSLEnabled"; u "SMTPForceAuthLogin"; u "LinuxDOOAuthEnabled"; u "discord.enabled";
   u "oidc.enabled"; u "passkey.enabled"; u "passkey.allow_insecure_origin";
   u "WorkerAllowHttpImageRequestEnabled"].

(** One turn of the loop over the received options: the value stored under the key, or
    the exception, and the updates of the other hooks. *)
Definition load_item (key : jsstr) (v : jsv) (st : setting) : setting * exc jsv :=
  let named k := bool_decide (key = u k) in
  if named "TopupGroupRatio"%string then (st, reprint v)
  else if named "access_control.resource_rules"%string || named "access_control.role_geo_rules"%string
  then (st, Ret (load_access_rules v))
  else if named "access_control.source_resource_rules"%string then
    let w := load_access_rules v in
    (setAccessSourceResourceRules (own_props (parseAccessSourceResourceRules w)) st, Ret w)
  else if named "EmailDomainWhitelist"%string then
    if truthy v then
      match v with
      | JStr s => (setEmailDomainWhitelist (split_char 44 s) st, Ret v)
      | _ => (st, Throw (u "TypeError"))
      end
    else (setEmailDomainWhitelist [] st, Ret v)
  else if bool_decide (key ∈ boolean_options) then (st, Ret (JBool (toBoolean v)))
  else if named "fetch_setting.domain_list"%string then (setDomainList (load_list v []) st, Ret v)
  else if named "fetch_setting.ip_list"%string then (setIpList (load_list v []) st, Ret v)
  else if named "fetch_setting.allowed_ports"%string then
    (setAllowedPorts
       (load_list v (JStr <$> [u "80"; u "443"; u "8080"; u "8443"])) st, Ret v)
  else if named "passkey.origins"%string || named "passkey.rp_display_name"%string
       || named "passkey.rp_id"%string || named "passkey.attachment_preference"%string
  then (st, Ret (js_or v (JStr [])))
  else if named "passkey.user_verification"%string then (st, Ret (js_or v (JStr (u "preferred"))))
  else if named "Price"%string || named "MinTopUp"%string
  then (st, Ret (JNum (parse_float (to_string v))))
  else (st, Ret v).

Fixpoint load_items (data : list (jsstr * jsv)) (newInputs : props) (st : setting)
    : setting * exc props :=
  match data with
  | [] => (st, Ret newInputs)
  | (key, v) :: data' =>
      let (st', r) := load_item key v st in
      match r with
      | Ret w => load_items data' (obj_set key w newInputs) st'
      | Throw e => (st', Throw e)
      end
  end.

(** The options after the merge of the older access rules. *)
Definition migrated_inputs (newInputs : props) : props :=
  let merged := merged_access_rules newInputs in
  obj_set (u "access_control.resource_rules") (serializeAccessResourceRules [])
    (obj_set (u "access_control.role_geo_rules") (serializeAccessRoleGeoRules [])
       (obj_set (u "access_control.source_resource_rules")
          (serializeAccessSourceResourceRules merged) newInputs)).

(** [getOptions]: [response] is the body of the answer, its flag, message and options;
    an exception leaves the page loading. *)
Definition getOptions (response : option (bool * jsstr * list (jsstr * jsv))) (st : setting)
    : effect :=
  let st := setLoading true st in
  match response with
  | None => Effect st [] []
  | Some (false, message, _) => Effect (setLoading false st) [] [showError message]
  | Some (true, _, data) =>
      match load_items data [] st with
      | (st, Throw _) => Effect st [] []
      | (st, Ret newInputs) =>
          let merged := merged_access_rules newInputs in
          let newInputs := migrated_inputs newInputs in
          let st := setAccessSourceResourceRules merged st in
          let r := length (store st) in
          let st := set_objects (store st ++ [newInputs]) r r st in
          let at_ k := oget (JObj newInputs) (u k) in
          let st := match at_ "fetch_setting.domain_filter_mode"%string with
                    | JUndef => st | v => setDomainFilterMode (truthy v) st end in
          let st := match at_ "fetch_setting.ip_filter_mode"%string with
                    | JUndef => st | v => setIpFilterMode (truthy v) st end in
          let st := match form st with Some _ => set_form (Some newInputs) st | None => st end in
          Effect (setLoading false (setIsLoaded true st)) [] []
      end
  end.

(** ** Saving *)

Section Requests.
Context (respond : jsstr * jsv -> option (bool * jsstr)).

(** The options whose key ends with "enabled" are saved one after the other, until one is
    refused; [v.toString()] throws on [undefined] and [null]. *)
Inductive outcome := Done | Refused (message : jsstr) | Failed.

Fixpoint put_checkboxes (options : list (jsstr * jsv)) : list (jsstr * jsv) * outcome :=
  match options with
  | [] => ([], Done)
  | (k, v) :: options' =>
      if is_nullish v then ([], Failed)
      else
        let request := (k, JStr (to_string v)) in
        match respond request with
        | None => ([request], Failed)
        | Some (false, message) => ([request], Refused message)
        | Some (true, _) =>
            let (sent, o) := put_checkboxes options' in (request :: sent, o)
        end
  end.

(** The other options are saved together. *)
Definition put_value (v : jsv) : jsv :=
  match v with JBool _ => JStr (to_string v) | _ => v end.
Definition put_others (options : list (jsstr * jsv)) : list (jsstr * jsv) :=
  (fun kv => (kv.1, put_value kv.2)) <$> options.

Definition refusals (requests : list (jsstr * jsv)) : list toast :=
  concat ((fun r => match respond r with Some (false, m) => [showError m] | _ => [] end) <$> requests).

Definition is_checkbox (opt : jsstr * jsv) : bool := endsWith (u "enabled") (toLowerCase opt.1).

Definition updateOptions (options : list (jsstr * jsv)) (st : setting) : effect :=
  let st := setLoading true st in
  let checkboxOptions := List.filter is_checkbox options in
  let otherOptions := List.filter (fun opt => negb (is_checkbox opt)) options in
  match put_checkboxes checkboxOptions with
  | (sent, Failed) => Effect (setLoading false st) sent [showError (u "更新失败")]
  | (sent, Refused message) => Effect st sent [showError message]
  | (sent, Done) =>
      let others := put_others otherOptions in
      if existsb (fun r => match respond r with None => true | Some _ => false end) others
      then Effect (setLoading false st) (sent ++ others) [showError (u "更新失败")]
      else
        Effect (setLoading false (setInputs (obj_merge (object st (inputs st)) options) st))
          (sent ++ others) (refusals others ++ [showSuccess (u "更新成功")])
  end.

(** [if (options.length > 0) await updateOptions(options)] *)
Definition update_some (options : list (jsstr * jsv)) (st : setting) : effect :=
  match options with [] => Effect st [] [] | _ => updateOptions options st end.

Definition handleFormChange (values : props) (st : setting) : effect := Effect (setInputs values st) [] [].

Definition removeTrailingSlash (url : jsv) : exc jsv :=
  if negb (truthy url) then Ret (JStr [])
  else match url with
  | JStr s => Ret (JStr (if endsWith (u "/") s then take (length s - 1) s else s))
  | _ => Throw (u "TypeError")
  end.

(** An option that is saved when it differs from the loaded value, and a secret, which
    in addition must not be empty. *)
Definition changed (st : setting) (k : string) : list (jsstr * jsv) :=
  if strict_eq (origin st (u k)) (input st (u k)) then [] else [(u k, input st (u k))].
Definition changed_secret (st : setting) (k : string) : list (jsstr * jsv) :=
  if negb (strict_eq (origin st (u k)) (input st (u k))) && negb (is_str (input st (u k)) [])
  then [(u k, input st (u k))] else [].

Definition submitWorker (st : setting) : exc effect :=
  WorkerUrl ← removeTrailingSlash (input st (u "WorkerUrl"));
  Ret (updateOptions
    ([(u "WorkerUrl", WorkerUrl);
      (u "WorkerAllowHttpImageRequestEnabled",
        JStr (if truthy (input st (u "WorkerAllowHttpImageRequestEnabled")) then u "true" else u "false"))]
     ++ (if negb (is_str (input st (u "WorkerValidKey")) []) || is_str WorkerUrl []
         then [(u "WorkerValidKey", input st (u "WorkerValidKey"))] else [])) st).

Definition submitServerAddress (st : setting) : exc effect :=
  ServerAddress ← removeTrailingSlash (input st (u "ServerAddress"));
  Ret (updateOptions [(u "ServerAddress", ServerAddress)] st).

Definition submitSMTP (st : setting) : effect :=
  update_some
    (changed st "SMTPServer" ++ changed st "SMTPAccount" ++ changed st "SMTPFrom"
     ++ changed_secret st "SMTPPort" ++ changed_secret st "SMTPToken") st.

Definition submitEmailDomainWhitelist (st : setting) : effect :=
  updateOptions [(u "EmailDomainWhitelist", JStr (join (u ",") (emailDomainWhitelist st)))] st.

Definition json_text (l : list jsv) : jsv :=
  match stringify (JArr l) with Some t => JStr t | None => JUndef end.

Definition submitSSRF (st : setting) : effect :=
  update_some
    [(u "fetch_setting.domain_filter_mode", JBool (domainFilterMode st));
     (u "fetch_setting.domain_list", json_text (domainList st));
     (u "fetch_setting.ip_filter_mode", JBool (ipFilterMode st));
     (u "fetch_setting.ip_list", json_text (ipList st));
     (u "fetch_setting.allowed_ports", json_text (allowedPorts st))] st.

(** [JSON.stringify(rules)] *)
Definition rules_text (rules : props) : jsv :=
  match stringify (JObj rules) with Some t => JStr t | None => JUndef end.

Definition access_options (st : setting) : list (jsstr * jsv) :=
  let sourceResourceRules :=
    normalizeAccessSourceResourceRules (JObj (accessSourceResourceRules st)) in
  let legacyFlags := legacyAccessFlagsFromSourceResourceRules (JObj sourceResourceRules) in
  let legacyScopedFlags :=
    legacyChinaMainlandScopedFlagsFromSourceResourceRules (JObj sourceResourceRules) in
  [(u "access_control.web_policy_enabled",
     JBool (truthy (input st (u "access_control.web_policy_enabled"))));
   (u "access_control.api_policy_enabled",
     JBool (truthy (input st (u "access_control.api_policy_enabled"))));
   (u "access_control.block_china_mainland", JBool (blockChinaMainland legacyFlags));
   (u "access_control.block_european_union", JBool (blockEuropeanUnion legacyFlags));
   (u "access_control.block_china_mainland_homepage", JBool (blockHomepage legacyScopedFlags));
   (u "access_control.block_china_mainland_user_sensitive_pages",
     JBool (blockUserSensitivePages legacyScopedFlags));
   (u "access_control.block_guests", JBool (blockGuests legacyFlags));
   (u "access_control.block_users", JBool (blockUsers legacyFlags));
   (u "access_control.block_admins", JBool (blockAdmins legacyFlags));
   (u "access_control.geoip_database_path",
     js_or (input st (u "access_control.geoip_database_path")) (JStr []));
   (u "access_control.role_geo_rules", rules_text []);
   (u "access_control.source_resource_rules", rules_text sourceResourceRules);
   (u "access_control.resource_rules", rules_text [])].

Definition submitAccessControl (st : setting) : effect := updateOptions (access_options st) st.

(** ** The access matrix *)

(** The values [syncAccessSourceResourceRules] writes into the inputs and the form. *)
Definition synced_values (normalizedRules : props) : list (jsstr * jsv) :=
  let legacyFlags := legacyAccessFlagsFromSourceResourceRules (JObj normalizedRules) in
  let legacyScopedFlags :=
    legacyChinaMainlandScopedFlagsFromSourceResourceRules (JObj normalizedRules) in
  [(u "access_control.source_resource_rules", serializeAccessSourceResourceRules normalizedRules);
   (u "access_control.role_geo_rules", serializeAccessRoleGeoRules []);
   (u "access_control.resource_rules", serializeAccessResourceRules []);
   (u "access_control.block_china_mainland", JBool (blockChinaMainland legacyFlags));
   (u "access_control.block_european_union", JBool (blockEuropeanUnion legacyFlags));
   (u "access_control.block_guests", JBool (blockGuests legacyFlags));
   (u "access_control.block_users", JBool (blockUsers legacyFlags));
   (u "access_control.block_admins", JBool (blockAdmins legacyFlags));
   (u "access_control.block_china_mainland_homepage", JBool (blockHomepage legacyScopedFlags));
   (u "access_control.block_china_mainland_user_sensitive_pages",
     JBool (blockUserSensitivePages legacyScopedFlags))].

Definition syncAccessSourceResourceRules (nextRules : props) (st : setting) : setting :=
  let normalizedRules := normalizeAccessSourceResourceRules (JObj nextRules) in
  let values := synced_values normalizedRules in
  let st := setAccessSourceResourceRules normalizedRules st in
  let st := setInputs (obj_merge (object st (inputs st)) values) st in
  set_form ((fun f => obj_merge f values) <$> form st) st.

Definition setAccessSourceResourceBlocked (sourceKey resourceKey roleKey : jsstr) (blocked : bool)
    (st : setting) : setting :=
  syncAccessSourceResourceRules
    (setAccessSourceResourceBlockedInRules (accessSourceResourceRules st)
       sourceKey resourceKey roleKey blocked) st.

Definition setAccessSourceResourceGroupRoleBlocked (sourceKey : jsstr) (resources : list jsstr)
    (roleKey : jsstr) (blocked : bool) (st : setting) : setting :=
  syncAccessSourceResourceRules
    (setAccessSourceResourceGroupRoleBlockedInRules (accessSourceResourceRules st)
       sourceKey resources roleKey blocked) st.

Definition resetAccessSourceResourceRules (st : setting) : setting := syncAccessSourceResourceRules [] st.

(** What [renderAccessSourceResourceMatrix] shows: the source, and for every group its
    resources with the boxes of the roles. *)
Definition shown_source (st : setting) : jsstr :=
  if bool_decide (selectedAccessSource st ∈ ACCESS_ROLE_GEO_SOURCES) then selectedAccessSource st
  else u "all".

(** [xs.sort()] on strings *)
Fixpoint insert_str (k : jsstr) (l : list jsstr) : list jsstr :=
  match l with
  | [] => [k]
  | x :: l' => if str_cmp x k <=? 0 then x :: insert_str k l' else k :: l
  end.
Definition sort_strings (l : list jsstr) : list jsstr := fold_left (fun acc k => insert_str k acc) l [].

Definition shown_groups (st : setting) : list resource_group :=
  let customResources :=
    sort_strings (List.filter (fun k => negb (bool_decide (k ∈ ACCESS_SOURCE_RESOURCE_KEY_SET)))
      (keys (js_or (oget (JObj (accessSourceResourceRules st)) (shown_source st)) (JObj [])))) in
  if bool_decide (customResources = []) then ACCESS_SOURCE_RESOURCE_GROUPS
  else ACCESS_SOURCE_RESOURCE_GROUPS ++ [{| g_key := u "custom"; g_resources := customResources |}].

Definition cell_checked (st : setting) (resource role : jsstr) : bool :=
  accessSourceResourceBlocks (JObj (accessSourceResourceRules st)) (shown_source st) resource role.

Definition group_allBlocked (st : setting) (g : resource_group) (role : jsstr) : bool :=
  forallb (fun resource => cell_checked st resource role) (g_resources g).
Definition group_someBlocked (st : setting) (g : resource_group) (role : jsstr) : bool :=
  existsb (fun resource => cell_checked st resource role) (g_resources g).
Definition group_indeterminate (st : setting) (g : resource_group) (role : jsstr) : bool :=
  negb (group_allBlocked st g role) && group_someBlocked st g role.

(** ** The e-mail domains *)

Definition is_alnum (c : Z) : bool :=
  is_digit c || ((97 <=? c) && (c <=? 122)) || ((65 <=? c) && (c <=? 90)).
Definition is_letter (c : Z) : bool := ((97 <=? c) && (c <=? 122)) || ((65 <=? c) && (c <=? 90)).

(** [r{0,n}] *)
Fixpoint rupto (n : nat) (r : regex) : regex :=
  match n with O => REps | S n' => ropt (RSeq r (rupto n' r)) end.

Definition domainRegex : regex :=
  (rplus (RChr is_alnum
      · ropt (rupto 61 (RChr (fun c => is_alnum c || (c =? 45))) · RChr is_alnum)
      · rlit ".")
   · (RChr is_letter · rplus (RChr is_letter)) · REnd)%re.

Definition handleAddEmail (st : setting) : effect :=
  let domain := trim (emailToAdd st) in
  if bool_decide (domain = []) then Effect st [] []
  else if negb (rtest domainRegex domain) then
    Effect st [] [showError (u "邮箱域名格式不正确，请输入有效的域名，如 gmail.com")]
  else if bool_decide (domain ∈ emailDomainWhitelist st) then
    Effect st [] [showError (u "该域名已存在于白名单中")]
  else
    Effect (setEmailToAdd [] (setEmailDomainWhitelist (emailDomainWhitelist st ++ [domain]) st)) []
      [showSuccess (u "已添加到白名单")].

(** ** The other groups of options *)

Definition submitWeChat (st : setting) : exc effect :=
  address ←
    (if strict_eq (origin st (u "WeChatServerAddress")) (input st (u "WeChatServerAddress")) then Ret []
     else a ← removeTrailingSlash (input st (u "WeChatServerAddress"));
          Ret [(u "WeChatServerAddress", a)]);
  Ret (update_some
    (address ++ changed st "WeChatAccountQRCodeImageURL" ++ changed_secret st "WeChatServerToken") st).

Definition submitGitHubOAuth (st : setting) : effect :=
  update_some (changed st "GitHubClientId" ++ changed_secret st "GitHubClientSecret") st.

Definition submitDiscordOAuth (st : setting) : effect :=
  update_some (changed st "discord.client_id" ++ changed_secret st "discord.client_secret") st.

Definition oidc_options (st : setting) : list (jsstr * jsv) :=
  changed st "oidc.well_known" ++ changed st "oidc.client_id"
  ++ changed_secret st "oidc.client_secret" ++ changed st "oidc.authorization_endpoint"
  ++ changed st "oidc.token_endpoint" ++ changed st "oidc.user_info_endpoint".

(** [fetched] is the body of the document at the well-known URL, [None] a failure. *)
Definition oidc_fetched (body : jsv) (st : setting) : setting :=
  mutate_input (u "oidc.user_info_endpoint") (body?."userinfo_endpoint")
    (mutate_input (u "oidc.token_endpoint") (body?."token_endpoint")
       (mutate_input (u "oidc.authorization_endpoint") (body?."authorization_endpoint") st)).

Definition submitOIDCSettings (fetched : option jsv) (st : setting) : exc effect :=
  let well_known := input st (u "oidc.well_known") in
  if truthy well_known then
    url ← as_string well_known;
    if negb (startsWith (u "http://") url) && negb (startsWith (u "https://") url) then
      Ret (Effect st [] [showError (u "Well-Known URL 必须以 http:// 或 https:// 开头")])
    else
      let failure :=
        Effect st [] [showError (u "获取 OIDC 配置失败，请检查网络状况和 Well-Known URL 是否正确")] in
      match fetched with
      | None => Ret failure
      | Some body =>
          if is_nullish body then Ret failure
          else
            let st := oidc_fetched body st in
            let e := update_some (oidc_options st) st in
            Ret (Effect (e_state e) (e_sent e)
                   (showSuccess (u "获取 OIDC 配置成功！") :: e_toasts e))
      end
  else Ret (update_some (oidc_options st) st).

Definition submitTelegramSettings (st : setting) : effect :=
  updateOptions [(u "TelegramBotToken", input st (u "TelegramBotToken"));
                 (u "TelegramBotName", input st (u "TelegramBotName"))] st.

Definition submitTurnstile (st : setting) : effect :=
  update_some (changed st "TurnstileSiteKey" ++ changed_secret st "TurnstileSecretKey") st.

Definition submitLinuxDOOAuth (st : setting) : effect :=
  update_some
    (changed st "LinuxDOClientId" ++ changed_secret st "LinuxDOClientSecret"
     ++ changed st "LinuxDOMinimumTrustLevel") st.

Definition submitPasskeySettings (st : setting) : effect :=
  let formValues := JObj (default [] (form st)) in
  let value k d := js_or (oget formValues (u k)) (js_or (input st (u k)) (JStr (u d))) in
  updateOptions
    [(u "passkey.rp_display_name", value "passkey.rp_display_name" "");
     (u "passkey.rp_id", value "passkey.rp_id" "");
     (u "passkey.user_verification", value "passkey.user_verification" "preferred");
     (u "passkey.attachment_preference", value "passkey.attachment_preference" "");
     (u "passkey.origins", value "passkey.origins" "")]%string st.

Definition handleCheckboxChange (optionKey : jsstr) (value : bool) (st : setting) : effect :=
  let e :=
    if bool_decide (optionKey = u "PasswordLoginEnabled") && negb value
    then Effect (setShowPasswordLoginConfirmModal true st) [] []
    else updateOptions [(optionKey, JBool value)] st in
  if bool_decide (optionKey = u "LinuxDOOAuthEnabled")
  then Effect (setLinuxDOOAuthEnabled value (e_state e)) (e_sent e) (e_toasts e)
  else e.

Definition handlePasswordLoginConfirm (st : setting) : effect :=
  let e := updateOptions [(u "PasswordLoginEnabled", JBool false)] st in
  Effect (setShowPasswordLoginConfirmModal false (e_state e)) (e_sent e) (e_toasts e).

(** The modes and lists of the request filter. *)
Definition set_input (k : string) (v : jsv) (st : setting) : setting :=
  setInputs (obj_set (u k) v (object st (inputs st))) st.

Definition change_domain_mode (selected : jsstr) (st : setting) : setting :=
  let isWhitelist := bool_decide (selected = u "whitelist") in
  set_input "fetch_setting.domain_filter_mode" (JBool isWhitelist) (setDomainFilterMode isWhitelist st).
Definition change_domain_list (value : list jsv) (st : setting) : setting :=
  set_input "fetch_setting.domain_list" (JArr value) (setDomainList value st).
Definition change_ip_mode (selected : jsstr) (st : setting) : setting :=
  let isWhitelist := bool_decide (selected = u "whitelist") in
  set_input "fetch_setting.ip_filter_mode" (JBool isWhitelist) (setIpFilterMode isWhitelist st).
Definition change_ip_list (value : list jsv) (st : setting) : setting :=
  set_input "fetch_setting.ip_list" (JArr value) (setIpList value st).
Definition change_ports (value : list jsv) (st : setting) : setting :=
  set_input "fetch_setting.allowed_ports" (JArr value) (setAllowedPorts value st).
End Requests.
End Page.
