(* ===== verification/AccessMigration.v ===== *)
(** * From saved access rules to the matrix, and back to the server

    The server's access settings (setting/access_setting/config.go), the status it
    sends to the pages (controller/misc.go), and how an option that is saved changes
    them (setting/config/config.go); then the composition of the settings page with the
    access policy: loading the settings and saving the access card keeps every
    restriction of a page. *)

From S2P Require Import Prelude JsString JsNumber JsNumText JsValue JsJson JsRegex JsJsonRound JsObject AccessPolicy AccessPolicyThms AccessMatrix AccessMatrixThms SystemSetting.

(** ** The server's settings *)

Record access_setting := {
  webPolicyEnabled : bool;
  apiPolicyEnabled : bool;
  setBlockChinaMainland : bool;
  setBlockEuropeanUnion : bool;
  setBlockChinaMainlandHomepage : bool;
  setBlockChinaMainlandUserSensitivePages : bool;
  setBlockGuests : bool;
  setBlockUsers : bool;
  setBlockAdmins : bool;
  roleGeoRules : jsv;
  sourceResourceRules : jsv;
  resourceRules : jsv
}.

(** What the server knows about a request. *)
Record request := {
  country_known : bool;
  from_china_mainland : bool;
  from_european_union : bool;
  current_role : Z
}.

(** [resourceAllowedForRole]: a role without an entry is allowed. *)
Definition resourceAllowedForRole (s : access_setting) (resource : jsstr) (role : num) : bool :=
  match oget (oget (resourceRules s) resource) (getRoleAccessLevel role) with
  | JBool b => b
  | _ => true
  end.

Definition ResourceAccessForRole (s : access_setting) (role : num) : jsv :=
  JObj ((fun key => (key, JBool (resourceAllowedForRole s key role))) <$> tail ACCESS_RESOURCES).

(** The part of the status the pages read. *)
Definition served_status (s : access_setting) (q : request) : jsv :=
  JObj [(u "access_control", JObj
    [(u "web_policy_enabled", JBool (webPolicyEnabled s));
     (u "api_policy_enabled", JBool (apiPolicyEnabled s));
     (u "block_china_mainland", JBool (setBlockChinaMainland s));
     (u "block_european_union", JBool (setBlockEuropeanUnion s));
     (u "block_china_mainland_homepage", JBool (setBlockChinaMainlandHomepage s));
     (u "block_china_mainland_user_sensitive_pages",
       JBool (setBlockChinaMainlandUserSensitivePages s));
     (u "block_guests", JBool (setBlockGuests s));
     (u "block_users", JBool (setBlockUsers s));
     (u "block_admins", JBool (setBlockAdmins s));
     (u "role_geo_rules", roleGeoRules s);
     (u "source_resource_rules", sourceResourceRules s);
     (u "resource_rules", resourceRules s);
     (u "resource_access", ResourceAccessForRole s (of_Z (current_role q)));
     (u "current_role", JNum (of_Z (current_role q)));
     (u "request_country_known", JBool (country_known q));
     (u "request_from_china_mainland", JBool (from_china_mainland q));
     (u "request_from_european_union", JBool (from_european_union q))])].

(** How [updateConfigFromMap] reads the fields of the access settings.  A flag is the text of
    a boolean ([strconv.ParseBool]).  A table is decoded by [json.Unmarshal] into a fresh map;
    a text that does not decode changes nothing. *)
Definition parse_bool (v : jsv) (old : bool) : bool :=
  if existsb (is_str v) [u "1"; u "t"; u "T"; u "TRUE"; u "true"; u "True"] then true
  else if existsb (is_str v) [u "0"; u "f"; u "F"; u "FALSE"; u "false"; u "False"] then false
  else old.

(** A rule is a struct of five pointers to booleans.  [encoding/json] matches the names of its
    fields without regard to case (the long s folds to s), [null] clears a pointer, another
    value than a boolean is an error, and other names are ignored; [null] for the whole rule is
    the empty rule.  The result is what [json.Marshal] writes for the rule: the fields that are
    set, in the order of the struct. *)
Definition rule_fields : list jsstr := [u "guest"; u "user"; u "audit_admin"; u "admin"; u "root"].
Definition fold_char (c : Z) : Z :=
  if ((65 <=? c) && (c <=? 90))%Z then (c + 32)%Z else if (c =? 383)%Z then 115 else c.
Definition decode_field (rule : option (list (jsstr * jsv))) (kv : jsstr * jsv) : option (list (jsstr * jsv)) :=
  o ← rule;
  let name := fold_char <$> kv.1 in
  if bool_decide (name ∈ rule_fields) then
    match kv.2 with
    | JBool b => Some (obj_set name (JBool b) o)
    | JNull => Some (om_del name o)
    | _ => None
    end
  else Some o.
Definition decode_rule (v : jsv) : option jsv :=
  match v with
  | JNull => Some (JObj [])
  | JObj o =>
      r ← fold_left decode_field o (Some []);
      Some (JObj (omap (fun name => pair name <$> om_get name r) rule_fields))
  | _ => None
  end.

(** A map with values that [decode] reads; [null] is the nil map. *)
Definition decode_map (decode : jsv -> option jsv) (v : jsv) : option jsv :=
  match v with
  | JNull => Some JNull
  | JObj o => JObj <$> mapM (fun kv => pair kv.1 <$> decode kv.2) o
  | _ => None
  end.

Definition parse_table (decode : jsv -> option jsv) (v : jsv) (old : jsv) : jsv :=
  match v with
  | JStr t => default old (json_parse t ≫= decode)
  | _ => old
  end.

(** The boolean and map fields of [AccessControlSetting]; the path of the country database,
    which no page reads, is left out. *)
Definition apply_options (sent : list (jsstr * jsv)) (s : access_setting) : access_setting :=
  let value k := default JUndef (om_get (u "access_control." ++ u k) sent) in
  {| webPolicyEnabled := parse_bool (value "web_policy_enabled"%string) (webPolicyEnabled s);
     apiPolicyEnabled := parse_bool (value "api_policy_enabled"%string) (apiPolicyEnabled s);
     setBlockChinaMainland := parse_bool (value "block_china_mainland"%string) (setBlockChinaMainland s);
     setBlockEuropeanUnion := parse_bool (value "block_european_union"%string) (setBlockEuropeanUnion s);
     setBlockChinaMainlandHomepage :=
       parse_bool (value "block_china_mainland_homepage"%string) (setBlockChinaMainlandHomepage s);
     setBlockChinaMainlandUserSensitivePages :=
       parse_bool (value "block_china_mainland_user_sensitive_pages"%string)
         (setBlockChinaMainlandUserSensitivePages s);
     setBlockGuests := parse_bool (value "block_guests"%string) (setBlockGuests s);
     setBlockUsers := parse_bool (value "block_users"%string) (setBlockUsers s);
     setBlockAdmins := parse_bool (value "block_admins"%string) (setBlockAdmins s);
     roleGeoRules := parse_table (decode_map decode_rule) (value "role_geo_rules"%string) (roleGeoRules s);
     sourceResourceRules := parse_table (decode_map (decode_map decode_rule)) (value "source_resource_rules"%string)
       (sourceResourceRules s);
     resourceRules := parse_table (decode_map decode_rule) (value "resource_rules"%string) (resourceRules s) |}.

(** ** The policy of a served status *)

Definition request_ok (q : request) : Prop :=
  is_finite (of_Z (current_role q)) = true /\
  (from_china_mainland q = true -> country_known q = true) /\
  (from_european_union q = true -> country_known q = true).

Definition level_of (q : request) : jsstr := getRoleAccessLevel (of_Z (current_role q)).

Definition sources_of (q : request) : list jsstr :=
  if country_known q then
    S_ALL :: (if from_china_mainland q then [S_CHINA_MAINLAND] else [])
          ++ (if from_european_union q then [S_EUROPEAN_UNION] else [])
  else [S_ALL; S_UNKNOWN_COUNTRY].

(** The scoped flags of China mainland restrict the route. *)
Definition scoped (home sensitive : bool) (q : request) (path : jsstr) : Prop :=
  from_china_mainland q = true /\ level_of q ∈ [u "guest"; u "user"] /\
  (home = true /\ isWebSPAFallbackPath (normalizeRoutePath path) = true \/
   sensitive = true /\ normalizeRoutePath path ∈ CHINA_MAINLAND_SENSITIVE_WEB_PATHS).

(** A setting restricts a route for a request, layer by layer. *)
Definition restricts (s : access_setting) (q : request) (path : jsstr) : Prop :=
  let keys := getRouteResourceKeys path in
  let level := level_of q in
  (setBlockChinaMainland s = true /\ from_china_mainland q = true) \/
  (setBlockEuropeanUnion s = true /\ from_european_union q = true) \/
  (exists src, src ∈ sources_of q /\ is_true (oget (oget (roleGeoRules s) src) level) = true) \/
  (exists src r, src ∈ sources_of q /\ (r = R_ALL /\ keys <> [] \/ r ∈ keys) /\
     accessSourceResourceBlocks (sourceResourceRules s) src r level = true) \/
  scoped (setBlockChinaMainlandHomepage s) (setBlockChinaMainlandUserSensitivePages s) q path \/
  (exists r, r ∈ keys /\ is_false (oget (oget (resourceRules s) r) level) = true) \/
  (setBlockGuests s = true /\ level = u "guest") \/
  (setBlockUsers s = true /\ level = u "user") \/
  (setBlockAdmins s = true /\ level ∈ [u "audit_admin"; u "admin"; u "root"]).

Section Served.
Context (stored : option jsstr) (s : access_setting) (q : request) (path : jsstr).
Hypothesis Hq : request_ok q.
Hypothesis Hweb : webPolicyEnabled s = true.
Notation status := (served_status s q).
Notation ac := (status?."access_control").

Lemma served_role : getRequestRole stored status JUndef = of_Z (current_role q).
Proof using Hq.
  destruct Hq as (Hf & _). unfold getRequestRole.
  assert (js_nullish JUndef (js_nullish (status?."access_control"?."current_role")
    (JNum (getCurrentUserRole stored))) = JNum (of_Z (current_role q))) as -> by reflexivity.
  simpl. by rewrite Hf.
Qed.

Lemma served_level : getRoleAccessLevel (getRequestRole stored status JUndef) = level_of q.
Proof using Hq. by rewrite served_role. Qed.

Lemma served_sources : getRequestAccessSources ac = sources_of q.
Proof. unfold getRequestAccessSources, sources_of. simpl. by destruct (country_known q). Qed.

Lemma served_on : policy_off status = false.
Proof using Hweb. unfold policy_off. simpl. by rewrite Hweb. Qed.

Lemma level_in_roles r : getRoleAccessLevel r ∈ ACCESS_CONTROL_ROLES.
Proof.
  unfold getRoleAccessLevel, ACCESS_CONTROL_ROLES.
  repeat case_match; apply (bool_decide_eq_true_1 _); vm_compute; reflexivity.
Qed.

Lemma served_resource_access key :
  key ∈ tail ACCESS_RESOURCES ->
  om_get key (own_props (ResourceAccessForRole s (of_Z (current_role q))))
  = Some (JBool (resourceAllowedForRole s key (of_Z (current_role q)))).
Proof.
  intros Hk. unfold ResourceAccessForRole. cbn [own_props]. apply om_in_get.
  - rewrite <- list_fmap_compose. rewrite (list_fmap_ext _ id) by done. rewrite list_fmap_id.
    apply (bool_decide_eq_true_1 _). vm_compute. reflexivity.
  - apply list_elem_of_fmap. by exists key.
Qed.

Lemma served_allowed key :
  key ∈ tail ACCESS_RESOURCES ->
  isResourceAllowed stored status key JUndef
  = negb (is_false (oget (oget (resourceRules s) key) (level_of q))).
Proof using Hq.
  intros Hk. unfold isResourceAllowed. rewrite bool_decide_eq_false_2.
  2: { intros ->. revert Hk. apply (bool_decide_eq_false_1 _). vm_compute. reflexivity. }
  rewrite served_level.
  change (ac?."resource_rules") with (resourceRules s).
  change (ac?."resource_access") with (ResourceAccessForRole s (of_Z (current_role q))).
  set (rule := oget (resourceRules s) key).
  destruct (truthy rule && hasOwnProperty rule (level_of q)) eqn:Hown; [done|].
  pose proof (served_resource_access key Hk) as Hra.
  assert (HR : exists o, ResourceAccessForRole s (of_Z (current_role q)) = JObj o) by by eexists.
  destruct HR as [o Ho]. rewrite Ho in *. cbn [own_props] in Hra. cbn [truthy hasOwnProperty oget andb].
  rewrite Hra. unfold resourceAllowedForRole. fold (level_of q). fold rule.
  by destruct (oget rule (level_of q)) as [| |[]| | | |].
Qed.

Lemma restricted_iff :
  isRouteAccessRestricted stored status path JUndef = true <->
  exists n r, justified stored status path JUndef n r.
Proof.
  unfold isRouteAccessRestricted. rewrite isSome_true.
  pose proof (access_layers stored status path JUndef) as Hl. split.
  - intros [r Hr]. rewrite Hr in Hl. destruct Hl as (n & Hn & _). by exists n, r.
  - intros (n & r & Hj). destruct (getRouteAccessRestrictionReason _ _ _ _) as [r'|]; [by eexists|].
    by destruct (Hl n r).
Qed.

Lemma sensitive_key p :
  p ∈ CHINA_MAINLAND_SENSITIVE_WEB_PATHS <->
  exists key, (p, key) ∈ [(u "/console/token", R_TOKEN); (u "/console/topup", R_WALLET);
                          (u "/console/billing", R_BILLING)].
Proof.
  change CHINA_MAINLAND_SENSITIVE_WEB_PATHS with ([(u "/console/token", R_TOKEN); (u "/console/topup", R_WALLET);
                          (u "/console/billing", R_BILLING)].*1).
  rewrite list_elem_of_fmap. split.
  - intros ([p' key] & -> & H). by exists key.
  - intros (key & H). by exists (p, key).
Qed.

Lemma served_restricts : isRouteAccessRestricted stored status path JUndef = true <-> restricts s q path.
Proof using Hq Hweb.
  rewrite restricted_iff. unfold restricts. cbv zeta. split.
  - intros (n & r & Hj). destruct Hj; rewrite ?served_level in *; rewrite ?served_sources in *.
    + by left.
    + by right; left.
    + right; right; left. by exists source.
    + right; right; right; left. exists source, R_ALL. split; [done|]. split; [by left | done].
    + right; right; right; left. exists source, key. split; [done|]. split; [by right | done].
    + do 4 right. left. rewrite served_role in *. split; [done|]. split; [by apply low_level | by left].
    + do 4 right. left. rewrite served_role in *. split; [done|]. split; [by apply low_level|].
      right. split; [done|]. apply sensitive_key. by exists key.
    + do 5 right. left. exists key. split; [done|]. rewrite served_allowed in *; [by apply negb_false_iff|].
      destruct (route_keys_ok path) as [_ Hall]. rewrite Forall_forall in Hall. by apply Hall.
    + by do 8 right.
    + by do 7 right; left.
    + by do 6 right; left.
  - pose proof served_on as Hon. pose proof served_level as Hlv. pose proof served_sources as Hsr.
    intros [[H1 H2]|[[H1 H2]|[(src & H1 & H2)|[(src & r & H1 & H2 & H3)|[(H1 & H2 & H3)|[(r & H1 & H2)|H]]]]]].
    + exists 1%nat. eexists. by apply J_geo_cn.
    + exists 1%nat. eexists. by apply J_geo_eu.
    + exists 2%nat. eexists. apply (J_role_geo _ _ _ _ src); [by rewrite Hsr|]. by rewrite Hlv.
    + exists 3%nat. destruct H2 as [[-> H2]|H2]; eexists.
      * apply (J_source_all _ _ _ _ src); [done | by rewrite Hsr | by rewrite Hlv].
      * apply (J_source _ _ _ _ src r); [done | by rewrite Hsr | by rewrite Hlv].
    + exists 4%nat. pose proof served_role as Hro.
      assert (num_ge (getRequestRole stored status JUndef) AUDIT_ADMIN = false)
        by (rewrite Hro; by apply low_level).
      destruct H3 as [[H3 H4]|[H3 H4]].
      * eexists. by apply J_home.
      * apply sensitive_key in H4 as [key H4]. eexists. by apply (J_sensitive _ _ _ _ key).
    + exists 5%nat. eexists. apply (J_resource _ _ _ _ r); [done|]. rewrite served_allowed.
      { by apply negb_false_iff. }
      destruct (route_keys_ok path) as [_ Hall]. rewrite Forall_forall in Hall. by apply Hall.
    + exists 6%nat. destruct H as [[H1 H2]|[[H1 H2]|[H1 H2]]]; eexists.
      * apply J_guests; [done | by rewrite Hlv | done].
      * apply J_users; [done | by rewrite Hlv | done].
      * apply J_admins; [done | by rewrite Hlv | done].
Qed.
End Served.

(** ** Loading the settings *)

Definition bool_text (b : bool) : jsstr := if b then u "true" else u "false".
Definition ac_key (k : string) : jsstr := u "access_control." ++ u k.

Definition flags_of (s : access_setting) : list (jsstr * bool) :=
  [(ac_key "web_policy_enabled", webPolicyEnabled s);
   (ac_key "api_policy_enabled", apiPolicyEnabled s);
   (ac_key "block_china_mainland", setBlockChinaMainland s);
   (ac_key "block_european_union", setBlockEuropeanUnion s);
   (ac_key "block_china_mainland_homepage", setBlockChinaMainlandHomepage s);
   (ac_key "block_china_mainland_user_sensitive_pages", setBlockChinaMainlandUserSensitivePages s);
   (ac_key "block_guests", setBlockGuests s);
   (ac_key "block_users", setBlockUsers s);
   (ac_key "block_admins", setBlockAdmins s)].

Definition tables_of (s : access_setting) : list (jsstr * jsv) :=
  [(ac_key "role_geo_rules", roleGeoRules s);
   (ac_key "source_resource_rules", sourceResourceRules s);
   (ac_key "resource_rules", resourceRules s)].

(** The answer of [GET /api/option/] holds the settings: the text of each flag, and for
    each table a JSON text of it. *)
Record serves (s : access_setting) (data : list (jsstr * jsv)) : Prop := {
  sv_nodup : NoDup (data.*1);
  sv_flags : Forall (fun kb => om_get kb.1 data = Some (JStr (bool_text kb.2))) (flags_of s);
  sv_tables : Forall (fun kv => exists t o, om_get kv.1 data = Some (JStr t) /\ t <> [] /\
      kv.2 = JObj o /\ json_ok kv.2 /\ json_parse t = Some kv.2) (tables_of s)
}.

Section Load.
Context `{UnicodeCase}.

Lemma load_item_value key v st st' : (load_item key v st).2 = (load_item key v st').2.
Proof. unfold load_item. repeat case_match; reflexivity. Qed.

Lemma load_items_get data acc st st' n k :
  NoDup (data.*1) -> load_items data acc st = (st', Ret n) ->
  match om_get k data with
  | Some v => exists w, (load_item k v initial_setting).2 = Ret w /\ om_get k n = Some w
  | None => om_get k n = om_get k acc
  end.
Proof.
  revert acc st. induction data as [|[k1 v1] data IH]; intros acc st Hnd Hl.
  { simpl in *. by simplify_eq. }
  rewrite fmap_cons in Hnd. apply NoDup_cons in Hnd as [Hk1 Hnd]. cbn [load_items] in Hl.
  pose proof (load_item_value k1 v1 st initial_setting) as Hv.
  destruct (load_item k1 v1 st) as [st1 r]. cbn [snd] in Hv. destruct r as [w|]; [|done].
  specialize (IH _ _ Hnd Hl). cbn [om_get]. destruct (decide (k = k1)) as [->|Hne].
  - rewrite (proj2 (om_get_None k1 data)) in IH by done. rewrite obj_get_set, decide_True in IH by done.
    by exists w.
  - destruct (om_get k data); [done|]. by rewrite obj_get_set, decide_False in IH.
Qed.

Lemma flag_loaded k b w :
  (k, b) ∈ flags_of w -> forall st, (load_item k (JStr (bool_text b)) st).2 = Ret (JBool b).
Proof.
  intros Hin st. rewrite (load_item_value _ _ _ initial_setting). unfold flags_of in Hin.
  repeat (apply elem_of_cons in Hin as [[= -> ->]|Hin];
    [match goal with |- context [bool_text ?x] => destruct x end; vm_compute; reflexivity|]).
  by apply not_elem_of_nil in Hin.
Qed.

Lemma load_access_text t v :
  t <> [] -> json_ok v -> json_parse t = Some v ->
  exists t', load_access_rules (JStr t) = JStr t' /\ json_parse t' = Some v.
Proof.
  intros Hne Hok Hp. destruct (json_roundtrip2 v Hok) as (t' & Ht' & Hp'). exists t'. split; [|done].
  unfold load_access_rules, reprint. cbn [truthy to_string]. rewrite bool_decide_eq_false_2 by done.
  cbn [negb]. by rewrite Hp, Ht'.
Qed.

Lemma table_loaded k v w t :
  (k, v) ∈ tables_of w -> forall st, (load_item k (JStr t) st).2 = Ret (load_access_rules (JStr t)).
Proof.
  intros Hin st. unfold tables_of in Hin.
  repeat (apply elem_of_cons in Hin as [[= -> ->]|Hin]; [reflexivity|]). by apply not_elem_of_nil in Hin.
Qed.

Lemma parse_rules_text t o : json_parse t = Some (JObj o) -> parse_rules (JStr t) = JObj o.
Proof.
  intros Hp. unfold parse_rules. cbn [truthy to_string]. destruct t as [|c t]; [done|].
  rewrite bool_decide_eq_false_2 by done. cbn [negb]. by rewrite Hp.
Qed.

Lemma json_ok_matrix_wf o : json_ok (JObj o) -> matrix_wf (JObj o).
Proof.
  assert (Hk : forall o, json_ok (JObj o) -> keys_wf o).
  { intros o' Hok. inversion Hok as [| | | | |? Hf Hb]; subst. split.
    - rewrite <- Hb. by apply obj_merge_NoDup; constructor.
    - eapply Forall_impl; [exact Hf|]. by intros ? []. }
  intros Hok. exists o. split; [done|]. split; [by apply Hk|].
  inversion Hok as [| | | | |? Hf Hb]; subst. eapply Forall_impl; [exact Hf|].
  intros kv [_ Hkv] o' Ho'. rewrite Ho' in Hkv. by apply Hk.
Qed.

Section Loaded.
Context (s : access_setting) (data : list (jsstr * jsv)) (n : props) (st st' : setting).
Hypothesis Hs : serves s data.
Hypothesis Hload : load_items data [] st = (st', Ret n).

Lemma loaded_flag k b : (k, b) ∈ flags_of s -> oget (JObj n) k = JBool b.
Proof using Hs Hload.
  intros Hin. destruct Hs as [Hnd Hf _]. rewrite Forall_forall in Hf.
  pose proof (Hf _ Hin) as Hk. cbn [fst snd] in Hk.
  pose proof (load_items_get data [] st st' n k Hnd Hload) as Hg. rewrite Hk in Hg.
  destruct Hg as (w & Hw & Hn). rewrite (flag_loaded k b s Hin) in Hw. apply Ret_inj in Hw as <-.
  cbn [oget]. by rewrite Hn.
Qed.

Lemma loaded_table k v : (k, v) ∈ tables_of s -> parse_rules (oget (JObj n) k) = v /\ matrix_wf v.
Proof using Hs Hload.
  intros Hin. destruct Hs as [Hnd _ Ht]. rewrite Forall_forall in Ht.
  destruct (Ht _ Hin) as (t & o & Hk & Hne & Hv & Hok & Hp). cbn [fst snd] in *.
  pose proof (load_items_get data [] st st' n k Hnd Hload) as Hg. rewrite Hk in Hg.
  destruct Hg as (w & Hw & Hn). rewrite (table_loaded k v s t Hin) in Hw. apply Ret_inj in Hw as <-.
  destruct (load_access_text t v Hne Hok Hp) as (t' & Ht' & Hp'). cbn [oget]. rewrite Hn, Ht'.
  rewrite Hv in *. split; [by apply parse_rules_text | by apply json_ok_matrix_wf].
Qed.

Lemma loaded_option k b : (ac_key k, b) ∈ flags_of s -> option_on n k = b.
Proof using Hs Hload. intros Hin. unfold option_on. fold (ac_key k). by rewrite (loaded_flag _ b Hin). Qed.
End Loaded.
End Load.

(** ** Saving the access card *)

(** The settings a saved matrix stands for. *)
Definition saved_setting (m : props) (web api : bool) : access_setting :=
  let f := legacyAccessFlagsFromSourceResourceRules (JObj m) in
  let c := legacyChinaMainlandScopedFlagsFromSourceResourceRules (JObj m) in
  {| webPolicyEnabled := web;
     apiPolicyEnabled := api;
     setBlockChinaMainland := blockChinaMainland f;
     setBlockEuropeanUnion := blockEuropeanUnion f;
     setBlockChinaMainlandHomepage := blockHomepage c;
     setBlockChinaMainlandUserSensitivePages := blockUserSensitivePages c;
     setBlockGuests := blockGuests f;
     setBlockUsers := blockUsers f;
     setBlockAdmins := blockAdmins f;
     roleGeoRules := JObj [];
     sourceResourceRules := JObj m;
     resourceRules := JObj [] |}.

(** The normal matrix is typed: the server decodes it to itself. *)
Definition decodes (decode : jsv -> option jsv) (o : props) : Prop := decode (JObj o) = Some (JObj o).

Lemma decode_kept rules : decodes decode_rule (kept_roles is_true (JBool true) rules).
Proof.
  unfold decodes, kept_roles, ACCESS_CONTROL_ROLES. cbn [fold_left].
  destruct (is_true (oget rules (u "guest"))), (is_true (oget rules (u "user"))),
    (is_true (oget rules (u "audit_admin"))), (is_true (oget rules (u "admin"))),
    (is_true (oget rules (u "root"))); vm_compute; reflexivity.
Qed.

Lemma decode_table decode o : table (decodes decode) o -> decodes (decode_map decode) o.
Proof.
  intros [_ Ho]. unfold decodes, decode_map.
  assert (mapM (fun kv => pair kv.1 <$> decode kv.2) o = Some o) as ->; [|done].
  induction Ho as [|[k v] o (_ & r & Hr & _ & Hd) _ IH]; [done|]. cbn [fst snd] in *. subst v.
  cbn [mapM]. cbn [fst snd]. unfold decodes in Hd. rewrite Hd. cbn. by rewrite IH.
Qed.

Lemma decode_normal rules :
  matrix_wf rules ->
  decodes (decode_map (decode_map decode_rule)) (normalizeAccessSourceResourceRules rules).
Proof.
  intros (o & -> & [_ Hu] & Hin). apply decode_table, normalize_table.
  apply Forall_forall. intros kv Hkv. rewrite Forall_forall in Hu, Hin.
  split; [by apply Hu|]. intros o' Ho'. destruct (Hin kv Hkv o' Ho') as [_ Hu'].
  apply decode_table, normalize_table. eapply Forall_impl; [exact Hu'|]. intros kv' Hk'.
  split; [done|]. intros o'' _. apply decode_kept.
Qed.

Section Save.
Context `{UnicodeCase} (respond : jsstr * jsv -> option (bool * jsstr)).
Hypothesis accepts : forall r, exists m, respond r = Some (true, m).

Lemma put_checkboxes_all options :
  Forall (fun kv => is_nullish kv.2 = false) options ->
  put_checkboxes respond options = ((fun kv => (kv.1, JStr (to_string kv.2))) <$> options, Done).
Proof using accepts.
  induction 1 as [|[k v] options Hv _ IH]; [done|]. cbn [put_checkboxes fst snd] in *. rewrite Hv.
  destruct (accepts (k, JStr (to_string v))) as [m ->]. by rewrite IH.
Qed.

Lemma put_others_accepted requests :
  existsb (fun r => match respond r with None => true | Some _ => false end) requests = false.
Proof using accepts.
  apply not_true_is_false. rewrite existsb_exists. intros (r & _ & Hr).
  destruct (accepts r) as [m Hm]. by rewrite Hm in Hr.
Qed.

(** Every option is sent when the server accepts them. *)
Lemma updateOptions_sent options st :
  Forall (fun kv => is_nullish kv.2 = false) (List.filter is_checkbox options) ->
  e_sent (updateOptions respond options st) =
    ((fun kv => (kv.1, JStr (to_string kv.2))) <$> List.filter is_checkbox options)
    ++ put_others (List.filter (fun opt => negb (is_checkbox opt)) options).
Proof using accepts.
  intros Hc. unfold updateOptions. rewrite put_checkboxes_all by done. cbv zeta.
  by rewrite put_others_accepted.
Qed.

Lemma parse_bool_text b old : parse_bool (JStr (bool_text b)) old = b.
Proof. by destruct b. Qed.

(** Each option is found under its key. *)
Lemma apply_options_values s v1 v2 v3 v4 v5 v6 v7 v8 v9 v10 v11 v12 v13 :
  apply_options
    [(u "access_control.web_policy_enabled", v1);
     (u "access_control.api_policy_enabled", v2);
     (u "access_control.block_china_mainland", v3);
     (u "access_control.block_european_union", v4);
     (u "access_control.block_china_mainland_homepage", v5);
     (u "access_control.block_china_mainland_user_sensitive_pages", v6);
     (u "access_control.block_guests", v7);
     (u "access_control.block_users", v8);
     (u "access_control.block_admins", v9);
     (u "access_control.geoip_database_path", v10);
     (u "access_control.role_geo_rules", v11);
     (u "access_control.source_resource_rules", v12);
     (u "access_control.resource_rules", v13)] s =
  {| webPolicyEnabled := parse_bool v1 (webPolicyEnabled s);
     apiPolicyEnabled := parse_bool v2 (apiPolicyEnabled s);
     setBlockChinaMainland := parse_bool v3 (setBlockChinaMainland s);
     setBlockEuropeanUnion := parse_bool v4 (setBlockEuropeanUnion s);
     setBlockChinaMainlandHomepage := parse_bool v5 (setBlockChinaMainlandHomepage s);
     setBlockChinaMainlandUserSensitivePages := parse_bool v6 (setBlockChinaMainlandUserSensitivePages s);
     setBlockGuests := parse_bool v7 (setBlockGuests s);
     setBlockUsers := parse_bool v8 (setBlockUsers s);
     setBlockAdmins := parse_bool v9 (setBlockAdmins s);
     roleGeoRules := parse_table (decode_map decode_rule) v11 (roleGeoRules s);
     sourceResourceRules := parse_table (decode_map (decode_map decode_rule)) v12 (sourceResourceRules s);
     resourceRules := parse_table (decode_map decode_rule) v13 (resourceRules s) |}.
Proof.
  unfold apply_options. cbv zeta. f_equal;
    first [apply (f_equal (fun v => parse_bool v _)) | apply (f_equal (fun v => parse_table _ v _))];
    vm_compute; reflexivity.
Qed.

(** The options of the access card, read by the server. *)
Lemma apply_access_options s st web api cn eu home sens guests users admins path t o :
  json_parse t = Some (JObj o) -> decode_map (decode_map decode_rule) (JObj o) = Some (JObj o) ->
  apply_options (e_sent (updateOptions respond
    [(u "access_control.web_policy_enabled", JBool web);
     (u "access_control.api_policy_enabled", JBool api);
     (u "access_control.block_china_mainland", JBool cn);
     (u "access_control.block_european_union", JBool eu);
     (u "access_control.block_china_mainland_homepage", JBool home);
     (u "access_control.block_china_mainland_user_sensitive_pages", JBool sens);
     (u "access_control.block_guests", JBool guests);
     (u "access_control.block_users", JBool users);
     (u "access_control.block_admins", JBool admins);
     (u "access_control.geoip_database_path", path);
     (u "access_control.role_geo_rules", rules_text []);
     (u "access_control.source_resource_rules", JStr t);
     (u "access_control.resource_rules", rules_text [])] st)) s =
  {| webPolicyEnabled := web; apiPolicyEnabled := api; setBlockChinaMainland := cn;
     setBlockEuropeanUnion := eu; setBlockChinaMainlandHomepage := home;
     setBlockChinaMainlandUserSensitivePages := sens; setBlockGuests := guests;
     setBlockUsers := users; setBlockAdmins := admins; roleGeoRules := JObj [];
     sourceResourceRules := JObj o; resourceRules := JObj [] |}.
Proof using accepts.
  intros Ht Hd. set (options := [_; _; _; _; _; _; _; _; _; _; _; _; _]).
  assert (Hcheck : List.filter is_checkbox options = take 2 options) by (vm_compute; reflexivity).
  assert (Hother : List.filter (fun opt => negb (is_checkbox opt)) options = drop 2 options)
    by (vm_compute; reflexivity).
  rewrite updateOptions_sent; rewrite Hcheck; [|by repeat constructor].
  rewrite Hother. unfold options, put_others. cbn [take drop fmap list_fmap fst snd app].
  cbn [put_value]. change (put_value (rules_text [])) with (JStr (u "{}")).
  change (to_string (JBool web)) with (bool_text web). change (to_string (JBool api)) with (bool_text api).
  change (to_string (JBool cn)) with (bool_text cn). change (to_string (JBool eu)) with (bool_text eu).
  change (to_string (JBool home)) with (bool_text home). change (to_string (JBool sens)) with (bool_text sens).
  change (to_string (JBool guests)) with (bool_text guests).
  change (to_string (JBool users)) with (bool_text users).
  change (to_string (JBool admins)) with (bool_text admins).
  rewrite apply_options_values, !parse_bool_text. unfold parse_table at 2. rewrite Ht. cbn [mbind option_bind].
  rewrite Hd. assert (json_parse (u "{}") = Some (JObj [])) as He by (vm_compute; reflexivity).
  unfold parse_table. by rewrite He.
Qed.

Lemma submit_saves s st :
  matrix (accessSourceResourceRules st) ->
  apply_options (e_sent (submitAccessControl respond st)) s =
    saved_setting (normalizeAccessSourceResourceRules (JObj (accessSourceResourceRules st)))
      (truthy (input st (u "access_control.web_policy_enabled")))
      (truthy (input st (u "access_control.api_policy_enabled"))).
Proof using accepts.
  intros Hm. unfold submitAccessControl, access_options.
  set (M := normalizeAccessSourceResourceRules (JObj (accessSourceResourceRules st))).
  assert (HM : matrix M) by by apply normalize_matrix, matrix_is_wf.
  destruct (json_roundtrip (JObj M) (matrix_json M HM)) as (t & Ht & Hp).
  cbv zeta. unfold rules_text at 2. rewrite Ht. apply apply_access_options; [done|]. by apply decode_normal, matrix_is_wf.
Qed.
End Save.

(** ** The routes of the scoped flags *)

Lemma route_cases_check (P : jsstr -> list jsstr -> bool) path ks :
  forallb (fun pk => P pk.1 (fold_left appendResourceKey pk.2 [])) route_cases = true ->
  om_get path route_cases = Some ks -> P path (fold_left appendResourceKey ks []) = true.
Proof.
  intros Hall H%om_get_Some_in. rewrite forallb_forall in Hall.
  exact (Hall _ (proj1 (list_elem_of_In _ _) H)).
Qed.

Lemma sensitive_route path r :
  r ∈ [R_TOKEN; R_WALLET; R_BILLING] -> r ∈ getRouteResourceKeys path ->
  normalizeRoutePath path ∈ CHINA_MAINLAND_SENSITIVE_WEB_PATHS.
Proof.
  unfold getRouteResourceKeys. intros Hr H.
  assert (Hno : forall ks, forallb (fun k => negb (bool_decide (k ∈ [R_TOKEN; R_WALLET; R_BILLING]))) ks = true ->
    r ∈ ks -> False).
  { intros ks Hks Hin. rewrite forallb_forall in Hks. specialize (Hks r (proj1 (list_elem_of_In _ _) Hin)).
    rewrite bool_decide_eq_true_2 in Hks; done. }
  destruct (om_get _ route_cases) as [ks|] eqn:E.
  - apply (route_cases_check (fun p ks =>
      forallb (fun k => negb (bool_decide (k ∈ [R_TOKEN; R_WALLET; R_BILLING]))) ks
      || bool_decide (p ∈ CHINA_MAINLAND_SENSITIVE_WEB_PATHS))) in E; [|vm_compute; reflexivity].
    apply orb_true_iff in E as [E|E]; [by destruct (Hno _ E) | by bool_simp].
  - exfalso. destruct (startsWith _ _ || _); [|destruct (isWebSPAFallbackPath _)].
    + eapply Hno; [|exact H]. vm_compute. reflexivity.
    + eapply Hno; [|exact H]. vm_compute. reflexivity.
    + by apply not_elem_of_nil in H.
Qed.

(** ** The settings before and after *)

(** The cells the settings block, in any of their formats. *)
Definition setting_blocks (s : access_setting) (src r l : jsstr) : Prop :=
  accessSourceResourceBlocks (sourceResourceRules s) src r l = true \/
  (setBlockChinaMainlandHomepage s = true /\
     ((src, r, l) = (u "china_mainland", u "home", u "guest") \/
      (src, r, l) = (u "china_mainland", u "home", u "user"))) \/
  (setBlockChinaMainlandUserSensitivePages s = true /\
     exists k, k ∈ [u "token"; u "wallet"; u "billing"] /\ (src, r, l) = (u "china_mainland", k, u "user")) \/
  (r = u "all" /\
     (setBlockChinaMainland s = true /\ src = u "china_mainland" \/
      setBlockEuropeanUnion s = true /\ src = u "european_union" \/
      setBlockGuests s = true /\ src = u "all" /\ l = u "guest" \/
      setBlockUsers s = true /\ src = u "all" /\ l = u "user" \/
      setBlockAdmins s = true /\ src = u "all" /\ l ∈ [u "audit_admin"; u "admin"; u "root"] \/
      is_true (oget (oget (roleGeoRules s) src) l) = true)) \/
  (src = u "all" /\ is_false (oget (oget (resourceRules s) r) l) = true).

Section Migration.
Context `{UnicodeCase} (s : access_setting) (data : list (jsstr * jsv)) (n : props) (st st' : setting).
Hypothesis Hs : serves s data.
Hypothesis Hload : load_items data [] st = (st', Ret n).

(** The tables of the options are those of the settings. *)
Lemma loaded_tables :
  (parse_rules (oget (JObj n) (u "access_control.source_resource_rules")) = sourceResourceRules s /\
   matrix_wf (sourceResourceRules s)) /\
  (parse_rules (oget (JObj n) (u "access_control.role_geo_rules")) = roleGeoRules s /\
   matrix_wf (roleGeoRules s)) /\
  (parse_rules (oget (JObj n) (u "access_control.resource_rules")) = resourceRules s /\
   matrix_wf (resourceRules s)).
Proof using Hs Hload.
  split; [|split]; apply (loaded_table s data n st st' Hs Hload); unfold tables_of.
  - right. left.
  - left.
  - right. right. left.
Qed.

Lemma option_blocks_setting src r l :
  l ∈ ACCESS_CONTROL_ROLES -> option_blocks n src r l <-> setting_blocks s src r l.
Proof using Hs Hload.
  intros Hl. unfold option_blocks, setting_blocks, scoped_cells, legacy_roles.
  assert (Hon : forall k b, (ac_key k, b) ∈ flags_of s -> option_on n k = b)
    by (intros k b; by apply (loaded_option s data n st st')).
  destruct loaded_tables as ((-> & _) & (-> & _) & (-> & _)).
  rewrite (Hon "block_china_mainland_homepage" (setBlockChinaMainlandHomepage s)) by by do 4 right; left.
  rewrite (Hon "block_china_mainland_user_sensitive_pages" (setBlockChinaMainlandUserSensitivePages s))
    by by do 5 right; left.
  rewrite (Hon "block_china_mainland" (setBlockChinaMainland s)) by by do 2 right; left.
  rewrite (Hon "block_european_union" (setBlockEuropeanUnion s)) by by do 3 right; left.
  rewrite (Hon "block_guests" (setBlockGuests s)) by by do 6 right; left.
  rewrite (Hon "block_users" (setBlockUsers s)) by by do 7 right; left.
  rewrite (Hon "block_admins" (setBlockAdmins s)) by by do 8 right; left.
  clear -Hl.
  assert (E1 : forall k, (exists l0, l0 ∈ ACCESS_CONTROL_ROLES /\ (src, l) = (k, l0)) <-> src = k).
  { intros k. split; [by intros (? & _ & [= -> ->]) | intros ->; by exists l]. }
  assert (E2 : forall a b, (src, l) = (a, b) <-> src = a /\ l = b).
  { intros a b. split; [by intros [= -> ->] | by intros [-> ->]]. }
  assert (E3 : forall a b c : jsstr, l ∈ [a; b; c] <-> l = a \/ l = b \/ l = c).
  { intros a b c. rewrite !elem_of_cons, elem_of_nil. tauto. }
  rewrite !E1, !E2, E3. tauto.
Qed.

(** The matrix that is saved. *)
Definition saved_matrix : props := normalizeAccessSourceResourceRules (JObj (merged_access_rules n)).

Lemma saved_matrix_blocks src r l :
  array_index r = None -> l ∈ ACCESS_CONTROL_ROLES ->
  accessSourceResourceBlocks (JObj saved_matrix) src r l = true <-> setting_blocks s src r l.
Proof using Hs Hload.
  intros Hr Hl.
  destruct loaded_tables as ((E1 & W1) & (E2 & W2) & (E3 & W3)).
  destruct (merged_spec n) as [Hm Hc]; [rewrite E2; exact W2 | rewrite E1; exact W1 | rewrite E3; exact W3 |].
  unfold saved_matrix. rewrite matrix_cell by by apply normalize_matrix, matrix_is_wf.
  rewrite normalize_cells by auto using matrix_is_wf. rewrite matrix_cell by done.
  rewrite Hc by done. by apply option_blocks_setting.
Qed.

Lemma merged_matrix : matrix (merged_access_rules n).
Proof using Hs Hload.
  destruct loaded_tables as ((E1 & W1) & (E2 & W2) & (E3 & W3)).
  apply (merged_spec n); [rewrite E2; exact W2 | rewrite E1; exact W1 | rewrite E3; exact W3].
Qed.
End Migration.

Lemma level_role q : level_of q ∈ ACCESS_CONTROL_ROLES.
Proof. apply level_in_roles. Qed.

Lemma source_cn q : request_ok q -> u "china_mainland" ∈ sources_of q <-> from_china_mainland q = true.
Proof.
  intros (_ & Hcn & _). unfold sources_of. split.
  - destruct (country_known q), (from_china_mainland q), (from_european_union q); try done; intros Hin;
      exfalso; revert Hin; apply (bool_decide_eq_false_1 _); vm_compute; reflexivity.
  - intros H. rewrite (Hcn H), H. right. left.
Qed.

Lemma source_eu q : request_ok q -> u "european_union" ∈ sources_of q <-> from_european_union q = true.
Proof.
  intros (_ & _ & Heu). unfold sources_of. split.
  - destruct (country_known q), (from_china_mainland q), (from_european_union q); try done; intros Hin;
      exfalso; revert Hin; apply (bool_decide_eq_false_1 _); vm_compute; reflexivity.
  - intros H. rewrite (Heu H), H. right. apply elem_of_app. right. left.
Qed.

Lemma source_all q : u "all" ∈ sources_of q.
Proof. unfold sources_of. destruct (country_known q); left. Qed.

Section Compare.
Context (s : access_setting) (m : props) (web api : bool) (q : request) (path : jsstr).
Hypothesis cells : forall src r l, array_index r = None -> l ∈ ACCESS_CONTROL_ROLES ->
  accessSourceResourceBlocks (JObj m) src r l = true <-> setting_blocks s src r l.
Hypothesis Hq : request_ok q.
Hypothesis Hkeys : getRouteResourceKeys path <> [].
Hypothesis Hall : oget (resourceRules s) (u "all") = JUndef.
Notation s' := (saved_setting m web api).
Notation level := (level_of q).

(** A cell of the route is blocked. *)
Definition blocked_cell : Prop :=
  exists src r, src ∈ sources_of q /\ (r = u "all" \/ r ∈ getRouteResourceKeys path) /\
    setting_blocks s src r level.

Lemma key_name r : r = u "all" \/ r ∈ getRouteResourceKeys path -> array_index r = None.
Proof.
  intros [->|H]; [reflexivity|]. apply (resource_name r).
  destruct (route_keys_ok path) as [_ Hf]. rewrite Forall_forall in Hf. by apply Hf.
Qed.

Lemma all_not_key : u "all" ∉ getRouteResourceKeys path.
Proof.
  intros Hin. destruct (route_keys_ok path) as [_ Hf]. rewrite Forall_forall in Hf.
  specialize (Hf _ Hin). revert Hf. apply (bool_decide_eq_false_1 _). vm_compute. reflexivity.
Qed.

Lemma home_names : u "home" <> u "all" /\ u "all" ∉ [u "token"; u "wallet"; u "billing"].
Proof. split; apply (bool_decide_eq_false_1 _); vm_compute; reflexivity. Qed.

Lemma blocked_cell_restricts : blocked_cell -> restricts s q path.
Proof using Hq Hkeys Hall.
  destruct home_names as [Hha Hna]. pose proof all_not_key as Hnk.
  intros (src & r & Hsrc & Hr & [H|[[Hf H]|[[Hf (k & Hk & H)]|[[-> H]|[-> H]]]]]); unfold restricts; cbv zeta.
  - do 3 right. left. exists src, r. split; [done|]. split; [|done].
    destruct Hr as [->|Hr]; [by left | by right].
  - do 4 right. left.
    assert (src = u "china_mainland" /\ r = u "home" /\ level ∈ [u "guest"; u "user"]) as (-> & -> & Hlv).
    { destruct H as [[= -> -> ->]|[= -> -> ->]]; (split; [done|]; split; [done|]); [left | right; left]. }
    split; [by apply source_cn|]. split; [done|]. left. split; [done|].
    apply home_fallback. destruct Hr as [Hr|Hr]; [done | exact Hr].
  - do 4 right. left. injection H as -> -> Hlv.
    split; [by apply source_cn|]. split; [rewrite Hlv; right; left|]. right. split; [done|].
    destruct Hr as [->|Hr]; [done|]. by apply (sensitive_route path k).
  - destruct H as [[H1 ->]|[[H1 ->]|[(H1 & -> & H2)|[(H1 & -> & H2)|[(H1 & -> & H2)|H1]]]]].
    + left. split; [done|]. by apply source_cn.
    + right; left. split; [done|]. by apply source_eu.
    + by do 6 right; left.
    + by do 7 right; left.
    + by do 8 right.
    + do 2 right. left. by exists src.
  - destruct Hr as [->|Hr]; [by rewrite Hall in H|]. do 5 right. left. by exists r.
Qed.

Lemma restricts_blocked :
  restricts s q path ->
  blocked_cell \/ scoped (setBlockChinaMainlandHomepage s) (setBlockChinaMainlandUserSensitivePages s) q path.
Proof using Hq.
  unfold restricts, blocked_cell, setting_blocks. cbv zeta. pose proof (source_all q) as Hsa.
  intros [[H1 H2]|[[H1 H2]|[(src & H1 & H2)|[(src & r & H1 & H2 & H3)|[H|[(r & H1 & H2)|H]]]]]];
    [left..| |left|left]; [..|right; exact H| |].
  - exists (u "china_mainland"), (u "all"). split; [by apply source_cn|]. split; [by left|]. tauto.
  - exists (u "european_union"), (u "all"). split; [by apply source_eu|]. split; [by left|]. tauto.
  - exists src, (u "all"). split; [done|]. split; [by left|]. tauto.
  - exists src, r. split; [done|]. split; [|by left]. destruct H2 as [[H2 _]|H2]; [by left | by right].
  - exists (u "all"), r. split; [done|]. split; [by right|]. tauto.
  - exists (u "all"), (u "all"). split; [done|]. split; [by left|]. tauto.
Qed.

Lemma saved_restricts : restricts s' q path <->
  blocked_cell \/ scoped (setBlockChinaMainlandHomepage s') (setBlockChinaMainlandUserSensitivePages s') q path.
Proof using cells Hq Hkeys.
  pose proof (level_role q) as Hlv. pose proof (source_all q) as Hsa. split.
  - unfold restricts. cbv zeta.
    assert (Hcell : forall src r, src ∈ sources_of q -> (r = u "all" \/ r ∈ getRouteResourceKeys path) ->
      accessSourceResourceBlocks (JObj m) src r level = true -> blocked_cell).
    { intros src r Hsrc Hr Hb. exists src, r. split; [done|]. split; [done|].
      apply cells; [by apply key_name | done | done]. }
    assert (Hevery : forall src, sourceResourceRulesBlockEveryRole (JObj m) src (u "all") = true ->
      accessSourceResourceBlocks (JObj m) src (u "all") level = true).
    { intros src He. unfold sourceResourceRulesBlockEveryRole in He. rewrite forallb_forall in He.
      apply He. by apply list_elem_of_In. }
    intros [[H1 H2]|[[H1 H2]|[(src & H1 & H2)|[(src & r & H1 & H2 & H3)|[H|[(r & H1 & H2)|H]]]]]].
    + left. apply (Hcell (u "china_mainland") (u "all")); [by apply source_cn | by left | by apply Hevery].
    + left. apply (Hcell (u "european_union") (u "all")); [by apply source_eu | by left | by apply Hevery].
    + done.
    + left. apply (Hcell src r); [done | destruct H2 as [[H2 _]|H2]; [by left | by right] | done].
    + by right.
    + done.
    + left. apply (Hcell (u "all") (u "all")); [done | by left |].
      destruct H as [[H1 ->]|[[H1 ->]|[H1 H2]]]; [done | done |].
      cbn [setBlockAdmins saved_setting legacyAccessFlagsFromSourceResourceRules blockAdmins] in H1.
      apply andb_true_iff in H1 as [[Ha Hb]%andb_true_iff Hc].
      repeat (apply elem_of_cons in H2 as [->|H2]; [done|]). by apply not_elem_of_nil in H2.
  - intros [(src & r & H1 & H2 & H3)|H]; unfold restricts; cbv zeta.
    + do 3 right. left. exists src, r. split; [done|]. split; [|apply cells; [by apply key_name|done..]].
      destruct H2 as [->|H2]; [by left | by right].
    + do 4 right. by left.
Qed.

(** The flags stay on. *)
Lemma scoped_kept :
  scoped (setBlockChinaMainlandHomepage s) (setBlockChinaMainlandUserSensitivePages s) q path ->
  scoped (setBlockChinaMainlandHomepage s') (setBlockChinaMainlandUserSensitivePages s') q path.
Proof using cells.
  intros (H1 & H2 & H3). split; [done|]. split; [done|].
  assert (Hg : u "guest" ∈ ACCESS_CONTROL_ROLES) by lit_role.
  assert (Hu : u "user" ∈ ACCESS_CONTROL_ROLES) by lit_role.
  destruct H3 as [[Hf H3]|[Hf H3]]; [left | right]; (split; [|done]).
  - change (accessSourceResourceBlocks (JObj m) (u "china_mainland") (u "home") (u "guest")
      && accessSourceResourceBlocks (JObj m) (u "china_mainland") (u "home") (u "user") = true).
    apply andb_true_iff. split; (apply cells; [reflexivity | done |]); right; left; (split; [done|]);
      [by left | by right].
  - change (forallb (fun r => accessSourceResourceBlocks (JObj m) (u "china_mainland") r (u "user"))
      [u "token"; u "wallet"; u "billing"] = true).
    apply forallb_forall. intros r Hr%list_elem_of_In. apply cells; [| done |].
    + repeat (apply elem_of_cons in Hr as [->|Hr]; [reflexivity|]). by apply not_elem_of_nil in Hr.
    + right; right; left. split; [done|]. by exists r.
Qed.

Lemma saved_compare : restricts s' q path <-> restricts s q path \/
  scoped (setBlockChinaMainlandHomepage s') (setBlockChinaMainlandUserSensitivePages s') q path.
Proof using cells Hq Hkeys Hall.
  rewrite saved_restricts. split.
  - intros [H|H]; [left; by apply blocked_cell_restricts | by right].
  - intros [H|H]; [|by right]. apply restricts_blocked in H as [H|H]; [by left|].
    right. by apply scoped_kept.
Qed.
End Compare.

(** ** Loading the page, then saving the access card *)

Section Reopen.
Context `{UnicodeCase}.

Lemma load_item_isLoaded key v st : isLoaded (load_item key v st).1 = isLoaded st.
Proof. unfold load_item. repeat case_match; reflexivity. Qed.

Lemma load_items_isLoaded data acc st : isLoaded (load_items data acc st).1 = isLoaded st.
Proof.
  revert acc st. induction data as [|[k v] data IH]; intros acc st; [done|]. cbn [load_items].
  pose proof (load_item_isLoaded k v st) as Hi. destruct (load_item k v st) as [st1 [w|e]]; cbn [fst] in *.
  - by rewrite IH.
  - done.
Qed.

(** What a page that has loaded shows. *)
Lemma getOptions_loaded message data st :
  isLoaded st = false ->
  let e := getOptions (Some (true, message, data)) st in
  isLoaded (e_state e) = true ->
  exists st1 n, load_items data [] (setLoading true st) = (st1, Ret n) /\
    accessSourceResourceRules (e_state e) = merged_access_rules n /\
    inputs (e_state e) = originInputs (e_state e) /\
    forall k, input (e_state e) k = oget (JObj (migrated_inputs n)) k.
Proof.
  intros Hst. cbv zeta. unfold getOptions. cbv zeta.
  pose proof (load_items_isLoaded data [] (setLoading true st)) as Hi.
  destruct (load_items data [] (setLoading true st)) as [st1 [n|x]] eqn:E; cbn [fst] in Hi.
  2: { cbn [e_state]. rewrite Hi. cbn. congruence. }
  intros _. exists st1, n. split; [done|].
  assert (Hobj : forall (l : list props) o r, r = length l -> default [] ((l ++ [o]) !! r) = o).
  { intros l o r ->. by rewrite list_lookup_middle. }
  unfold input, object. cbn [e_state].
  repeat case_match; (split; [reflexivity|]; split; [reflexivity|]; intros k; cbn;
    rewrite Hobj by reflexivity; reflexivity).
Qed.
End Reopen.

Lemma migrated_other `{UnicodeCase} n k :
  k ∉ [u "access_control.role_geo_rules"; u "access_control.source_resource_rules";
       u "access_control.resource_rules"] ->
  oget (JObj (migrated_inputs n)) k = oget (JObj n) k.
Proof.
  intros Hk. rewrite !not_elem_of_cons in Hk. destruct Hk as (H1 & H2 & H3 & _).
  unfold migrated_inputs. cbv zeta. cbn [oget]. rewrite !obj_get_set.
  rewrite !decide_False by assumption. reflexivity.
Qed.

(** The settings after opening the page and saving the access card. *)
Section Reopened.
Context `{UnicodeCase} (respond : jsstr * jsv -> option (bool * jsstr)) (s : access_setting)
  (message : jsstr) (data : list (jsstr * jsv)).
Hypothesis Hs : serves s data.
Hypothesis Hweb : webPolicyEnabled s = true.
Hypothesis Hacc : forall r, exists m, respond r = Some (true, m).
Notation loaded := (e_state (getOptions (Some (true, message, data)) initial_setting)).
Hypothesis Hl : isLoaded loaded = true.

Lemma reopen_saves : exists m api,
  apply_options (e_sent (submitAccessControl respond loaded)) s = saved_setting m true api /\
  forall src r l, array_index r = None -> l ∈ ACCESS_CONTROL_ROLES ->
    accessSourceResourceBlocks (JObj m) src r l = true <-> setting_blocks s src r l.
Proof using Hs Hweb Hacc Hl.
  destruct (getOptions_loaded message data initial_setting eq_refl Hl) as (st1 & n & Hload & Hrules & _ & Hin).
  pose proof (merged_matrix s data n _ st1 Hs Hload) as Hm.
  exists (saved_matrix n), (truthy (input loaded (u "access_control.api_policy_enabled"))).
  split; [|intros src r l Hr Hrole; by apply (saved_matrix_blocks s data n _ st1 Hs Hload)].
  rewrite (submit_saves respond Hacc) by by rewrite Hrules.
  rewrite Hrules. fold (saved_matrix n).
  assert (Hw : input loaded (u "access_control.web_policy_enabled") = JBool true).
  { rewrite Hin, migrated_other.
    - rewrite (loaded_flag s data n _ st1 Hs Hload _ (webPolicyEnabled s)); [by rewrite Hweb | left].
    - apply (bool_decide_eq_true_1 _). vm_compute. reflexivity. }
  by rewrite Hw.
Qed.
End Reopened.

(** C32. With the web policy on, opening the system settings and saving the access card keeps
    the restrictions of the pages: a page that belongs to a resource is restricted afterwards
    exactly when it was restricted before, or when the two China-mainland flags the card
    derives from the matrix restrict it.  The server sent its settings as options and accepts
    the requests, a request from China mainland or the European Union has a known country, and
    no resource rule is filed under the pseudo-resource all.  (With the policy off the saved
    card can restrict pages that were open, see [off_switch_activates].) *)
Theorem migration_keeps_restrictions `{UnicodeCase} respond stored s q path message data :
  serves s data -> request_ok q -> webPolicyEnabled s = true ->
  getRouteResourceKeys path <> [] -> oget (resourceRules s) (u "all") = JUndef ->
  (forall r, exists m, respond r = Some (true, m)) ->
  let loaded := e_state (getOptions (Some (true, message, data)) initial_setting) in
  isLoaded loaded = true ->
  let s' := apply_options (e_sent (submitAccessControl respond loaded)) s in
  isRouteAccessRestricted stored (served_status s' q) path JUndef = true <->
  isRouteAccessRestricted stored (served_status s q) path JUndef = true \/
  scoped (setBlockChinaMainlandHomepage s') (setBlockChinaMainlandUserSensitivePages s') q path.
Proof.
  intros Hs Hq Hweb Hkeys Hall Hacc. cbv zeta. intros Hl.
  destruct (reopen_saves respond s message data Hs Hweb Hacc Hl) as (m & api & -> & Hc).
  rewrite !served_restricts by done. by apply saved_compare.
Qed.

(** A matrix that keeps guests and users of China mainland from the home page only,
    once it is saved, keeps them from every public page: the card derives the older
    home-page flag from the two cells, and that flag restricts all pages the server
    renders with the home page's document. *)
Theorem home_rule_spills `{UnicodeCase} respond stored s q path message data :
  serves s data -> request_ok q -> webPolicyEnabled s = true ->
  (forall r, exists m, respond r = Some (true, m)) ->
  accessSourceResourceBlocks (sourceResourceRules s) (u "china_mainland") (u "home") (u "guest") = true ->
  accessSourceResourceBlocks (sourceResourceRules s) (u "china_mainland") (u "home") (u "user") = true ->
  from_china_mainland q = true -> level_of q ∈ [u "guest"; u "user"] ->
  isWebSPAFallbackPath (normalizeRoutePath path) = true ->
  let loaded := e_state (getOptions (Some (true, message, data)) initial_setting) in
  isLoaded loaded = true ->
  let s' := apply_options (e_sent (submitAccessControl respond loaded)) s in
  isRouteAccessRestricted stored (served_status s' q) path JUndef = true.
Proof.
  intros Hs Hq Hweb Hacc Hg Hu Hcn Hlv Hspa. cbv zeta. intros Hl.
  destruct (reopen_saves respond s message data Hs Hweb Hacc Hl) as (m & api & -> & Hc).
  apply served_restricts; [done | done |]. unfold restricts. cbv zeta. do 4 right. left.
  split; [done|]. split; [done|]. left. split; [|done].
  change (accessSourceResourceBlocks (JObj m) (u "china_mainland") (u "home") (u "guest")
    && accessSourceResourceBlocks (JObj m) (u "china_mainland") (u "home") (u "user") = true).
  apply andb_true_iff. split; (apply Hc; [reflexivity | lit_role | by left]).
Qed.

(** A server whose older rules keep guests from China mainland out. *)
Definition example_table (rows : list (string * list string)) : jsv :=
  JObj ((fun r => (u r.1, JObj ((fun l => (u l, JBool true)) <$> r.2))) <$> rows).

Definition example_setting (geo sources : jsv) : access_setting :=
  {| webPolicyEnabled := true; apiPolicyEnabled := false; setBlockChinaMainland := false;
     setBlockEuropeanUnion := false; setBlockChinaMainlandHomepage := false;
     setBlockChinaMainlandUserSensitivePages := false; setBlockGuests := false;
     setBlockUsers := false; setBlockAdmins := false;
     roleGeoRules := geo; sourceResourceRules := sources; resourceRules := JObj [] |}.

Definition example_data (s : access_setting) : list (jsstr * jsv) :=
  ((fun kb => (kb.1, JStr (bool_text kb.2))) <$> flags_of s)
  ++ ((fun kv => (kv.1, JStr (default [] (stringify kv.2)))) <$> tables_of s).

Definition geo_setting : access_setting :=
  example_setting (example_table [("china_mainland", ["guest"])]%string) (JObj []).

Definition home_setting : access_setting :=
  example_setting (JObj [])
    (JObj [(u "china_mainland", example_table [("home", ["guest"; "user"])]%string)]).

Definition china_guest : request :=
  {| country_known := true; from_china_mainland := true; from_european_union := false;
     current_role := 0 |}.

Definition accept_all (r : jsstr * jsv) : option (bool * jsstr) := Some (true, []).

Lemma china_guest_ok : request_ok china_guest.
Proof. split; [vm_compute; reflexivity | done]. Qed.

Lemma example_row_json (l : list string) :
  forallb (fun r => bool_decide (u r ∈ ACCESS_CONTROL_ROLES)) l && bool_decide (NoDup (u <$> l)) = true ->
  json_ok (JObj ((fun r => (u r, JBool true)) <$> l)).
Proof.
  intros [Hl Hn]%andb_true_iff. bool_simp. apply plain_json_ok. split.
  - by rewrite <- list_fmap_compose.
  - apply Forall_forall. intros kv (r & -> & Hr)%list_elem_of_fmap. cbn [fst snd].
    rewrite forallb_forall in Hl. specialize (Hl r (proj1 (list_elem_of_In _ _) Hr)). bool_simp.
    split; [by apply role_not_index|]. split; [by apply roles_units | constructor].
Qed.

Lemma serves_example s :
  Forall (fun kv => (exists o, kv.2 = JObj o) /\ json_ok kv.2) (tables_of s) -> serves s (example_data s).
Proof.
  intros Hok. split.
  - apply (bool_decide_eq_true_1 _). destruct s. vm_compute. reflexivity.
  - unfold example_data, flags_of. repeat (apply List.Forall_cons; [vm_compute; reflexivity|]). constructor.
  - assert (Hget : forall kv, kv ∈ tables_of s ->
      om_get kv.1 (example_data s) = Some (JStr (default [] (stringify kv.2)))).
    { intros kv Hin. unfold tables_of in Hin.
      repeat (apply elem_of_cons in Hin as [->|Hin]; [reflexivity|]). by apply not_elem_of_nil in Hin. }
    apply Forall_forall. intros kv Hin. rewrite Forall_forall in Hok.
    destruct (Hok kv Hin) as [[o Ho] Hj]. destruct (json_roundtrip kv.2 Hj) as (t & Ht & Hp).
    exists t, o. rewrite (Hget kv Hin), Ht. split; [done|]. split; [|done].
    intros ->. by rewrite Ho in Hp.
Qed.

Lemma serves_geo : serves geo_setting (example_data geo_setting).
Proof.
  apply serves_example. repeat apply List.Forall_cons; [..|constructor]; (split; [by eexists|]).
  - apply plain_json_ok. repeat apply plain_cons; [reflexivity | by apply units_okb_ok | | | apply plain_nil].
    + apply (example_row_json ["guest"]%string). vm_compute. reflexivity.
    + by apply not_elem_of_nil.
  - apply plain_json_ok, plain_nil.
  - apply plain_json_ok, plain_nil.
Qed.

Lemma serves_home : serves home_setting (example_data home_setting).
Proof.
  apply serves_example. repeat apply List.Forall_cons; [..|constructor]; (split; [by eexists|]).
  - apply plain_json_ok, plain_nil.
  - apply plain_json_ok. apply plain_cons; [reflexivity | by apply units_okb_ok | | by apply not_elem_of_nil | apply plain_nil].
    apply plain_json_ok. apply plain_cons; [reflexivity | by apply units_okb_ok | | by apply not_elem_of_nil | apply plain_nil].
    apply (example_row_json ["guest"; "user"]%string). vm_compute. reflexivity.
  - apply plain_json_ok, plain_nil.
Qed.

Definition reopened (s : access_setting) : access_setting :=
  apply_options (e_sent (submitAccessControl (H := ascii_case) accept_all
    (e_state (getOptions (H := ascii_case) (Some (true, [], example_data s)) initial_setting)))) s.

Lemma migration_keeps_restrictions_witness :
  isRouteAccessRestricted None (served_status (reopened geo_setting) china_guest) (u "/console") JUndef = true.
Proof.
  apply (migration_keeps_restrictions (H := ascii_case) accept_all None geo_setting china_guest
    (u "/console") [] (example_data geo_setting)).
  - apply serves_geo.
  - apply china_guest_ok.
  - reflexivity.
  - apply (bool_decide_eq_false_1 _). vm_compute. reflexivity.
  - reflexivity.
  - intros r. by exists [].
  - vm_compute. reflexivity.
  - left. vm_compute. reflexivity.
Defined.

Lemma home_rule_spills_witness :
  isRouteAccessRestricted None (served_status home_setting china_guest) (u "/pricing") JUndef = false /\
  isRouteAccessRestricted None (served_status (reopened home_setting) china_guest) (u "/pricing") JUndef = true.
Proof.
  split; [vm_compute; reflexivity|].
  apply (home_rule_spills (H := ascii_case) accept_all None home_setting china_guest
    (u "/pricing") [] (example_data home_setting)).
  - apply serves_home.
  - apply china_guest_ok.
  - reflexivity.
  - intros r. by exists [].
  - vm_compute. reflexivity.
  - vm_compute. reflexivity.
  - reflexivity.
  - apply (bool_decide_eq_true_1 _). vm_compute. reflexivity.
  - vm_compute. reflexivity.
  - vm_compute. reflexivity.
Defined.

(** A rule per source and role restricts the pages that belong to no resource, such as the
    login page; once the settings are saved it no longer does. *)
Lemma keyless_page_opened :
  isRouteAccessRestricted None (served_status geo_setting china_guest) (u "/login") JUndef = true /\
  isRouteAccessRestricted None (served_status (reopened geo_setting) china_guest) (u "/login") JUndef = false.
Proof. split; vm_compute; reflexivity. Qed.

(** With the web policy off, a flag against guests restricts no page; opening the settings and
    saving the access card turns it into a cell of the matrix, which the pages apply although
    the policy stays off. *)
Definition switched_off : access_setting :=
  {| webPolicyEnabled := false; apiPolicyEnabled := false; setBlockChinaMainland := false;
     setBlockEuropeanUnion := false; setBlockChinaMainlandHomepage := false;
     setBlockChinaMainlandUserSensitivePages := false; setBlockGuests := true;
     setBlockUsers := false; setBlockAdmins := false;
     roleGeoRules := JObj []; sourceResourceRules := JObj []; resourceRules := JObj [] |}.

Theorem off_switch_activates :
  isRouteAccessRestricted None (served_status switched_off china_guest) (u "/console") JUndef = false /\
  webPolicyEnabled (reopened switched_off) = false /\
  isRouteAccessRestricted None (served_status (reopened switched_off) china_guest) (u "/console") JUndef = true.
Proof. split_and!; vm_compute; reflexivity. Qed.
