(* ===== verification/SystemSettingThms.v ===== *)
(** * What the system settings page saves

    The access matrix as a set of cells that the edits change, the requests of the save
    buttons, and the cases where a change is not saved. *)

From S2P Require Import Prelude JsString JsNumber JsNumText JsValue JsJson JsRegex JsJsonRound JsObject AccessMatrix AccessMatrixThms SystemSetting AccessMigration.

(** ** Edits of the matrix *)

Inductive edit :=
  | SetCell (s r l : jsstr) (b : bool)
  | SetGroup (s : jsstr) (rs : list jsstr) (l : jsstr) (b : bool)
  | Clear
  | Select (s : jsstr).

Definition run_edit (st : setting) (e : edit) : setting :=
  match e with
  | SetCell s r l b => setAccessSourceResourceBlocked s r l b st
  | SetGroup s rs l b => setAccessSourceResourceGroupRoleBlocked s rs l b st
  | Clear => resetAccessSourceResourceRules st
  | Select s => setSelectedAccessSource s st
  end.

Definition edit_ok (e : edit) : Prop :=
  match e with
  | SetCell s r l _ => Forall unit_ok s /\ Forall unit_ok r /\ l ∈ ACCESS_CONTROL_ROLES
  | SetGroup s rs l _ => Forall unit_ok s /\ Forall (Forall unit_ok) rs /\ l ∈ ACCESS_CONTROL_ROLES
  | Clear | Select _ => True
  end.

(** What an edit means for the set of blocked cells. *)
Definition spec_edit (f : jsstr -> jsstr -> jsstr -> bool) (e : edit) (s r l : jsstr) : bool :=
  match e with
  | SetCell s0 r0 l0 b => if decide (s = s0 /\ r = r0 /\ l = l0) then b else f s r l
  | SetGroup s0 rs l0 b => if decide (s = s0 /\ r ∈ rs /\ l = l0) then b else f s r l
  | Clear => false
  | Select _ => f s r l
  end.

Lemma normalize_matrix_cells m s r l :
  matrix m -> l ∈ ACCESS_CONTROL_ROLES ->
  blocks (normalizeAccessSourceResourceRules (JObj m)) s r l = blocks m s r l.
Proof.
  intros Hm Hl. unfold blocks, normalizeAccessSourceResourceRules.
  rewrite normalize_row by by eapply kw_nodup, table_keys_wf.
  unfold row at 3. unfold normal_row. destruct (om_get s m) as [v|] eqn:E; [|done].
  destruct (table_get resource_table s m v Hm E) as (o & -> & _ & Ho).
  rewrite one_level_cell; [| exists o; split; [done | by eapply table_keys_wf] | done].
  by rewrite (table_oget role_row r o l Ho).
Qed.

(** The state of the card: a normal matrix. *)
Definition card_ok (st : setting) : Prop := matrix (accessSourceResourceRules st).

Lemma sync_rules m st :
  accessSourceResourceRules (syncAccessSourceResourceRules m st) = normalizeAccessSourceResourceRules (JObj m).
Proof. reflexivity. Qed.

Lemma run_edit_spec st e :
  edit_ok e -> card_ok st ->
  card_ok (run_edit st e) /\
  forall s r l, l ∈ ACCESS_CONTROL_ROLES ->
    blocks (accessSourceResourceRules (run_edit st e)) s r l =
    spec_edit (blocks (accessSourceResourceRules st)) e s r l.
Proof.
  intros He Hst. unfold card_ok in *. destruct e as [s r l b|s rs l b| |s]; cbn [run_edit edit_ok] in *.
  - destruct He as (Hs & Hr & Hl). unfold setAccessSourceResourceBlocked. rewrite sync_rules.
    destruct (set_cell_spec _ s r l b Hs Hr Hl Hst) as [Hm Hc].
    split; [by apply normalize_matrix, matrix_is_wf|]. intros s' r' l' Hl'.
    rewrite normalize_matrix_cells by done. apply Hc.
  - destruct He as (Hs & Hr & Hl). unfold setAccessSourceResourceGroupRoleBlocked. rewrite sync_rules.
    destruct (set_group_spec _ s rs l b Hs Hr Hl Hst) as [Hm Hc].
    split; [by apply normalize_matrix, matrix_is_wf|]. intros s' r' l' Hl'.
    rewrite normalize_matrix_cells by done. apply Hc.
  - unfold resetAccessSourceResourceRules. rewrite sync_rules. split; [apply table_nil | done].
  - done.
Qed.

Lemma run_edits_spec es st :
  Forall edit_ok es -> card_ok st ->
  card_ok (fold_left run_edit es st) /\
  forall s r l, l ∈ ACCESS_CONTROL_ROLES ->
    blocks (accessSourceResourceRules (fold_left run_edit es st)) s r l =
    fold_left spec_edit es (blocks (accessSourceResourceRules st)) s r l.
Proof.
  intros Hes. revert st. induction Hes as [|e es He Hes IH]; intros st Hst; [done|]. cbn [fold_left].
  destruct (run_edit_spec st e He Hst) as [Hst1 H1]. destruct (IH _ Hst1) as [Hst2 H2].
  split; [done|]. intros s r l Hl. rewrite H2 by done.
  assert (Hext : forall es f g, (forall s r l, l ∈ ACCESS_CONTROL_ROLES -> f s r l = g s r l) ->
    forall s r l, l ∈ ACCESS_CONTROL_ROLES -> fold_left spec_edit es f s r l = fold_left spec_edit es g s r l).
  { clear. induction es as [|e es IH]; intros f g Hfg; [done|]. cbn [fold_left]. apply IH.
    intros s r l Hl. destruct e; cbn [spec_edit]; rewrite ?Hfg by done; done. }
  by apply Hext.
Qed.

(** C33. The access matrix refines a set of blocked cells: after any edits of cells and of
    groups of cells, and any clearing, the boxes shown for the selected source are
    exactly the cells of the set that the same edits give; and saving the card makes the
    server's rules block exactly these cells, with the older tables emptied. *)
Theorem access_edits_refine `{UnicodeCase} respond es st (setting0 : access_setting) :
  (forall r, exists m, respond r = Some (true, m)) ->
  Forall edit_ok es -> card_ok st ->
  let st' := fold_left run_edit es st in
  let cells := fold_left spec_edit es (blocks (accessSourceResourceRules st)) in
  let saved := apply_options (e_sent (submitAccessControl respond st')) setting0 in
  (forall r l, l ∈ ACCESS_CONTROL_ROLES -> cell_checked st' r l = cells (shown_source st') r l) /\
  (forall s r l, l ∈ ACCESS_CONTROL_ROLES ->
     accessSourceResourceBlocks (sourceResourceRules saved) s r l = cells s r l) /\
  roleGeoRules saved = JObj [] /\ resourceRules saved = JObj [].
Proof.
  intros Hacc Hes Hst. cbv zeta. destruct (run_edits_spec es st Hes Hst) as [Hst' Hc].
  rewrite (submit_saves respond Hacc setting0 _ Hst'). repeat split.
  - intros r l Hl. unfold cell_checked. rewrite matrix_cell by done. by apply Hc.
  - intros s r l Hl. cbn [sourceResourceRules saved_setting].
    rewrite matrix_cell by by apply normalize_matrix, matrix_is_wf.
    rewrite normalize_matrix_cells by done. by apply Hc.
Qed.

Definition example_edits : list edit :=
  [SetCell (u "all") (u "token") (u "guest") true;
   SetGroup (u "all") [u "wallet"; u "billing"] (u "user") true;
   SetCell (u "all") (u "wallet") (u "user") false].

Lemma access_edits_refine_witness :
  let st' := fold_left run_edit example_edits initial_setting in
  cell_checked st' (u "billing") (u "user") = true /\ cell_checked st' (u "wallet") (u "user") = false.
Proof.
  destruct (access_edits_refine (H := ascii_case) accept_all example_edits initial_setting geo_setting)
    as [Hc _].
  - intros r. by exists [].
  - repeat apply List.Forall_cons; [..|constructor]; (split; [by apply units_okb_ok|]; split; [|lit_role]).
    + by apply units_okb_ok.
    + do 2 (apply List.Forall_cons; [by apply units_okb_ok|]). constructor.
    + by apply units_okb_ok.
  - apply table_nil.
  - split; (rewrite Hc; [vm_compute; reflexivity | lit_role]).
Defined.

(** ** Objects and requests *)

Lemma origin_setInputs o st k : (originInputs st < length (store st))%nat -> origin (setInputs o st) k = origin st k.
Proof. intros Hl. unfold origin, object. cbn. by rewrite lookup_app_l. Qed.

Lemma input_setInputs o st k : input (setInputs o st) k = oget (JObj o) k.
Proof. unfold input, object. cbn. by rewrite list_lookup_middle. Qed.

Section Buttons.
Context `{UnicodeCase} (respond : jsstr * jsv -> option (bool * jsstr)).

(** The objects after an update: the loaded one is kept, the inputs may be new. *)
Definition origin_kept (st st' : setting) : Prop :=
  originInputs st' = originInputs st /\ (length (store st) <= length (store st'))%nat /\
  store st' !! originInputs st = store st !! originInputs st.

Lemma origin_kept_refl st : origin_kept st st.
Proof. done. Qed.

Lemma origin_kept_trans st1 st2 st3 : origin_kept st1 st2 -> origin_kept st2 st3 -> origin_kept st1 st3.
Proof.
  intros (H1 & H2 & H3) (H4 & H5 & H6). split; [congruence|]. split; [lia|]. rewrite H1 in H6. congruence.
Qed.

Lemma origin_kept_get st st' k : origin_kept st st' -> origin st' k = origin st k.
Proof. intros (H1 & _ & H3). unfold origin, object. by rewrite H1, H3. Qed.

Definition loaded_object (st : setting) : Prop := (originInputs st < length (store st))%nat.

Lemma loaded_kept st st' : origin_kept st st' -> loaded_object st -> loaded_object st'.
Proof. unfold loaded_object. intros (-> & Hl & _) H0. lia. Qed.

Lemma setInputs_kept o st : loaded_object st -> origin_kept st (setInputs o st).
Proof.
  intros Hl. split; [done|]. cbn. split; [rewrite length_app; lia | by rewrite lookup_app_l].
Qed.

Lemma updateOptions_kept options st :
  loaded_object st -> origin_kept st (e_state (updateOptions respond options st)).
Proof.
  intros Hl. unfold updateOptions. cbv zeta. destruct (put_checkboxes _ _) as [sent o].
  assert (H0 : origin_kept st (setLoading true st)) by done.
  assert (H1 : forall b st', origin_kept st st' -> origin_kept st (setLoading b st')) by done.
  destruct o; cbn [e_state]; [|done|by apply H1].
  destruct (existsb _ _); cbn [e_state]; apply H1; [done|].
  eapply origin_kept_trans; [exact H0|]. by apply setInputs_kept.
Qed.

Lemma update_some_kept options st :
  loaded_object st -> origin_kept st (e_state (update_some respond options st)).
Proof. intros Hl. destruct options; [done|]. by apply updateOptions_kept. Qed.

(** ** A change that is taken back *)

(** The value a server that accepts the requests holds for a key. *)
Definition server_value (sent : list (jsstr * jsv)) (k : jsstr) (v : jsv) : jsv :=
  fold_left (fun acc r => if decide (r.1 = k) then r.2 else acc) sent v.

Lemma server_value_other l k v : Forall (fun r => r.1 <> k) l -> server_value l k v = v.
Proof. unfold server_value. induction 1 as [|r l Hr _ IH]; [done|]. simpl. by rewrite decide_False. Qed.

Lemma server_value_app l l' k v : server_value (l ++ l') k v = server_value l' k (server_value l k v).
Proof. apply fold_left_app. Qed.

(** Options that no checkbox holds are sent as they are. *)
Definition plain_options (l : list (jsstr * jsv)) : Prop := Forall (fun kv => is_checkbox (kv.1, JUndef) = false) l.

Lemma changed_plain st k : is_checkbox (u k, JUndef) = false -> plain_options (changed st k).
Proof. intros Hk. unfold changed. case_match; by repeat constructor. Qed.

Lemma changed_secret_plain st k : is_checkbox (u k, JUndef) = false -> plain_options (changed_secret st k).
Proof. intros Hk. unfold changed_secret. case_match; by repeat constructor. Qed.

Lemma update_some_sent options st :
  plain_options options -> e_sent (update_some respond options st) = put_others options.
Proof.
  intros Hp. assert (Hf : List.filter is_checkbox options = []).
  { induction Hp as [|kv l Hk _ IH]; [done|]. cbn [List.filter].
    change (is_checkbox kv) with (is_checkbox (kv.1, JUndef)). by rewrite Hk. }
  assert (Hg : List.filter (fun opt => negb (is_checkbox opt)) options = options).
  { apply lfilter_id. eapply Forall_impl; [exact Hp|]. intros kv Hk. apply negb_true_iff. exact Hk. }
  destruct options as [|o os]; [done|]. unfold update_some, updateOptions. rewrite Hf, Hg. cbn [put_checkboxes].
  cbv zeta. by destruct (existsb _ _).
Qed.

Lemma changed_keys st k : Forall (fun r => r.1 = u k) (changed st k).
Proof. unfold changed. case_match; by repeat constructor. Qed.

Lemma changed_secret_keys st k : Forall (fun r => r.1 = u k) (changed_secret st k).
Proof. unfold changed_secret. case_match; by repeat constructor. Qed.

Lemma put_others_keys (P : jsstr -> Prop) l : Forall (fun r => P r.1) l -> Forall (fun r => P r.1) (put_others l).
Proof. unfold put_others. induction 1; by constructor. Qed.

(** The options of the mail server. *)
Definition smtp_options (st : setting) : list (jsstr * jsv) :=
  changed st "SMTPServer" ++ changed st "SMTPAccount" ++ changed st "SMTPFrom"
  ++ changed_secret st "SMTPPort" ++ changed_secret st "SMTPToken".

Lemma smtp_sent st : e_sent (submitSMTP respond st) = put_others (smtp_options st).
Proof.
  apply update_some_sent. unfold plain_options, smtp_options. rewrite !Forall_app.
  repeat split; [apply changed_plain.. | apply changed_secret_plain | apply changed_secret_plain];
    vm_compute; reflexivity.
Qed.

(** Only the first of them is the server's name. *)
Lemma smtp_rest st :
  Forall (fun r => r.1 <> u "SMTPServer") (put_others (changed st "SMTPAccount" ++ changed st "SMTPFrom"
    ++ changed_secret st "SMTPPort" ++ changed_secret st "SMTPToken")).
Proof.
  apply (put_others_keys (fun k => k <> u "SMTPServer")). rewrite !Forall_app.
  repeat split; eapply Forall_impl;
    [apply changed_keys | | apply changed_keys | | apply changed_secret_keys | | apply changed_secret_keys |];
    intros r ->; apply (bool_decide_eq_false_1 _); vm_compute; reflexivity.
Qed.
End Buttons.

(** A saved change that is taken back is not saved: after the mail server's name was
    changed from a to b and saved, entering a again and pressing the button sends no
    request for it, since the value is compared with the one that was loaded; the server
    keeps b while the page shows a. *)
Theorem reverted_change_not_saved `{UnicodeCase} respond st a b v1 v2 :
  loaded_object st ->
  origin st (u "SMTPServer") = JStr a -> b <> a ->
  oget (JObj v1) (u "SMTPServer") = JStr b -> oget (JObj v2) (u "SMTPServer") = JStr a ->
  let e1 := submitSMTP respond (e_state (handleFormChange v1 st)) in
  let shown := e_state (handleFormChange v2 (e_state e1)) in
  let e2 := submitSMTP respond shown in
  input shown (u "SMTPServer") = JStr a /\
  Forall (fun r => r.1 <> u "SMTPServer") (e_sent e2) /\
  forall v0, server_value (e_sent e1 ++ e_sent e2) (u "SMTPServer") v0 = JStr b.
Proof.
  intros Hl Ho Hab Hv1 Hv2. cbv zeta.
  set (st1 := e_state (handleFormChange v1 st)).
  assert (K1 : origin_kept st st1) by by apply setInputs_kept.
  set (e1 := submitSMTP respond st1).
  assert (L1 : loaded_object st1) by by eapply loaded_kept.
  assert (K2 : origin_kept st (e_state e1)) by (eapply origin_kept_trans; [exact K1 | by apply update_some_kept]).
  assert (L2 : loaded_object (e_state e1)) by by eapply loaded_kept.
  set (st2 := e_state (handleFormChange v2 (e_state e1))).
  assert (K3 : origin_kept st st2) by (eapply origin_kept_trans; [exact K2 | by apply setInputs_kept]).
  assert (I1 : input st1 (u "SMTPServer") = JStr b) by (unfold st1; cbn [handleFormChange e_state]; by rewrite input_setInputs).
  assert (I2 : input st2 (u "SMTPServer") = JStr a) by (unfold st2; cbn [handleFormChange e_state]; by rewrite input_setInputs).
  assert (C1 : changed st1 "SMTPServer" = [(u "SMTPServer", JStr b)]).
  { unfold changed. rewrite (origin_kept_get _ _ _ K1), Ho, I1. cbn [strict_eq].
    by rewrite bool_decide_eq_false_2 by congruence. }
  assert (C2 : changed st2 "SMTPServer" = []).
  { unfold changed. rewrite (origin_kept_get _ _ _ K3), Ho, I2. cbn [strict_eq].
    by rewrite bool_decide_eq_true_2. }
  assert (S1 : e_sent e1 = put_others (smtp_options st1)) by by apply smtp_sent.
  rewrite (smtp_sent respond st2), S1. unfold smtp_options. rewrite C1, C2. cbn [app].
  split; [done|]. split; [apply smtp_rest|]. intros v0.
  rewrite server_value_app, (server_value_other (put_others (_ ++ _))) by apply smtp_rest.
  unfold server_value. cbn [put_others fmap list_fmap fold_left fst snd put_value].
  rewrite decide_True by done. apply (server_value_other _ (u "SMTPServer") (JStr b)), smtp_rest.
Qed.

Lemma reverted_change_not_saved_witness :
  let v1 := [(u "SMTPServer", JStr (u "b"))] in
  let v2 := [(u "SMTPServer", JStr [])] in
  let st := set_objects [initial_inputs] 0 0 initial_setting in
  let e1 := submitSMTP (H := ascii_case) accept_all (e_state (handleFormChange v1 st)) in
  let shown := e_state (handleFormChange v2 (e_state e1)) in
  let e2 := submitSMTP (H := ascii_case) accept_all shown in
  server_value (e_sent e1 ++ e_sent e2) (u "SMTPServer") (JStr []) = JStr (u "b").
Proof.
  apply (reverted_change_not_saved (H := ascii_case) accept_all
    (set_objects [initial_inputs] 0 0 initial_setting) [] (u "b")
    [(u "SMTPServer", JStr (u "b"))] [(u "SMTPServer", JStr [])]).
  - unfold loaded_object. simpl. lia.
  - vm_compute. reflexivity.
  - done.
  - reflexivity.
  - reflexivity.
Defined.

(** ** The endpoints that are read from the well-known document *)

Lemma input_mutate k v st k' :
  (inputs st < length (store st))%nat ->
  input (mutate_input k v st) k' = if decide (k' = k) then v else input st k'.
Proof.
  intros Hl.
  change (input (mutate_input k v st) k') with (oget (JObj (default []
    (<[inputs st := obj_set k v (object st (inputs st))]> (store st) !! inputs st))) k').
  rewrite list_lookup_insert_eq by done. cbn [default from_option oget id]. rewrite obj_get_set. by case_decide.
Qed.

Lemma mutate_refs k v st :
  inputs (mutate_input k v st) = inputs st /\ originInputs (mutate_input k v st) = originInputs st /\
  length (store (mutate_input k v st)) = length (store st).
Proof. cbn. by rewrite length_insert. Qed.

(** The values the comparison is made for: [v === v]. *)
Definition comparable (v : jsv) : Prop := strict_eq v v = true.

Lemma same_object_unchanged st k : inputs st = originInputs st -> comparable (input st (u k)) ->
  changed st k = [] /\ changed_secret st k = [].
Proof.
  intros Hr Hc. unfold changed, changed_secret. assert (origin st (u k) = input st (u k)) as ->.
  { unfold origin, input. by rewrite Hr. }
  by rewrite Hc.
Qed.

(** While the page has not been edited since it was loaded, the button of the OIDC
    settings reports that the endpoints were read and saves none of them, whatever the
    document says: the loaded values and the inputs are one object, into which the new
    endpoints are written before the comparison. *)
Theorem oidc_refresh_lost `{UnicodeCase} respond body st url :
  inputs st = originInputs st -> (inputs st < length (store st))%nat ->
  input st (u "oidc.well_known") = JStr url -> startsWith (u "https://") url = true ->
  is_nullish body = false ->
  comparable (input st (u "oidc.client_id")) -> comparable (input st (u "oidc.client_secret")) ->
  comparable (body?."authorization_endpoint") -> comparable (body?."token_endpoint") ->
  comparable (body?."userinfo_endpoint") ->
  exists st', submitOIDCSettings respond (Some body) st
    = Ret (Effect st' [] [showSuccess (u "获取 OIDC 配置成功！")]).
Proof.
  intros Hr Hl Hw Hurl Hbody Hid Hsecret Ha Ht Hu. exists (oidc_fetched body st).
  assert (Hwc : comparable (input st (u "oidc.well_known")))
    by (rewrite Hw; by apply bool_decide_eq_true_2).
  unfold submitOIDCSettings. rewrite Hw. cbn [truthy as_string mbind exc_bind].
  rewrite bool_decide_eq_false_2 by (intros ->; done). cbn [negb].
  rewrite Hurl, andb_false_r, Hbody. cbv zeta.
  assert (Hin : forall k, input (oidc_fetched body st) k =
    if decide (k = u "oidc.user_info_endpoint") then body?."userinfo_endpoint"
    else if decide (k = u "oidc.token_endpoint") then body?."token_endpoint"
    else if decide (k = u "oidc.authorization_endpoint") then body?."authorization_endpoint"
    else input st k).
  { intros k. unfold oidc_fetched. rewrite !input_mutate; [done | | |]; cbn; rewrite ?length_insert; done. }
  assert (Hr' : inputs (oidc_fetched body st) = originInputs (oidc_fetched body st)) by done.
  assert (Hsame : forall k, comparable (input (oidc_fetched body st) (u k)) ->
    changed (oidc_fetched body st) k = [] /\ changed_secret (oidc_fetched body st) k = [])
    by (intros k; by apply same_object_unchanged).
  assert (Ho : oidc_options (oidc_fetched body st) = []).
  { unfold oidc_options.
    rewrite (proj1 (Hsame "oidc.well_known" ltac:(rewrite Hin; exact Hwc))).
    rewrite (proj1 (Hsame "oidc.client_id" ltac:(rewrite Hin; exact Hid))).
    rewrite (proj2 (Hsame "oidc.client_secret" ltac:(rewrite Hin; exact Hsecret))).
    rewrite (proj1 (Hsame "oidc.authorization_endpoint" ltac:(rewrite Hin; exact Ha))).
    rewrite (proj1 (Hsame "oidc.token_endpoint" ltac:(rewrite Hin; exact Ht))).
    by rewrite (proj1 (Hsame "oidc.user_info_endpoint" ltac:(rewrite Hin; exact Hu))). }
  by rewrite Ho.
Qed.

Lemma oidc_refresh_lost_witness :
  let st := set_objects [[(u "oidc.well_known", JStr (u "https://id.example/d"))]] 0 0 initial_setting in
  let body := JObj [(u "authorization_endpoint", JStr (u "https://id.example/a"))] in
  exists st', submitOIDCSettings (H := ascii_case) accept_all (Some body) st
    = Ret (Effect st' [] [showSuccess (u "获取 OIDC 配置成功！")]).
Proof.
  cbv zeta. apply (oidc_refresh_lost (H := ascii_case) accept_all
    (JObj [(u "authorization_endpoint", JStr (u "https://id.example/a"))])
    (set_objects [[(u "oidc.well_known", JStr (u "https://id.example/d"))]] 0 0 initial_setting)
    (u "https://id.example/d")); vm_compute; reflexivity.
Defined.

(** ** Secrets *)

Lemma in_changed st k r : r ∈ changed st k -> r.1 = u k.
Proof. intros Hr. pose proof (changed_keys st k) as Hf. rewrite Forall_forall in Hf. by apply Hf. Qed.

(** The key is saved only when its field holds a new, non-empty text. *)
Definition secret_guarded (sent : list (jsstr * jsv)) (st : setting) (k : string) : Prop :=
  forall v, (u k, v) ∈ sent ->
    strict_eq (origin st (u k)) (input st (u k)) = false /\ is_str (input st (u k)) [] = false.

Lemma in_changed_secret st k r :
  r ∈ changed_secret st k ->
  r.1 = u k /\ strict_eq (origin st (u k)) (input st (u k)) = false /\ is_str (input st (u k)) [] = false.
Proof.
  unfold changed_secret. destruct (strict_eq _ _), (is_str _ _); cbn [negb andb]; intros Hr;
    try by apply not_elem_of_nil in Hr.
  by apply list_elem_of_singleton in Hr as ->.
Qed.

Lemma in_put_others k v l : (k, v) ∈ put_others l -> exists r, r ∈ l /\ r.1 = k.
Proof. intros ([k' v'] & [= -> ->] & Hr)%list_elem_of_fmap. by exists (k', v'). Qed.

Section Secrets.
Context `{UnicodeCase} (respond : jsstr * jsv -> option (bool * jsstr)).

(** The options of a card: plain ones, and the secret [k]. *)
Definition card_options (st : setting) (k : string) (l : list (jsstr * jsv)) : Prop :=
  plain_options l /\ forall r, r ∈ l -> r.1 <> u k \/ r ∈ changed_secret st k.

Lemma card_nil st k : card_options st k [].
Proof. split; [constructor|]. intros r Hr. by apply not_elem_of_nil in Hr. Qed.

Lemma card_app st k l l' : card_options st k l -> card_options st k l' -> card_options st k (l ++ l').
Proof.
  intros [Hp Hr] [Hp' Hr']. split; [by apply Forall_app|]. intros r [Hx|Hx]%elem_of_app; auto.
Qed.

Lemma card_one st k k' v : is_checkbox (k', JUndef) = false -> k' <> u k -> card_options st k [(k', v)].
Proof.
  intros Hc Hk. split; [by repeat constructor|]. intros r ->%list_elem_of_singleton. by left.
Qed.

Lemma card_changed st k k' : is_checkbox (u k', JUndef) = false -> u k' <> u k -> card_options st k (changed st k').
Proof. intros Hc Hk. unfold changed. case_match; [apply card_nil | by apply card_one]. Qed.

Lemma card_other st k k' :
  is_checkbox (u k', JUndef) = false -> u k' <> u k -> card_options st k (changed_secret st k').
Proof. intros Hc Hk. unfold changed_secret. case_match; [by apply card_one | apply card_nil]. Qed.

Lemma card_secret st k : is_checkbox (u k, JUndef) = false -> card_options st k (changed_secret st k).
Proof. intros Hk. split; [by apply changed_secret_plain|]. by right. Qed.

Lemma card_guarded st st' k l :
  card_options st k l -> secret_guarded (e_sent (update_some respond l st')) st k.
Proof.
  intros [Hp Hr] v. rewrite update_some_sent by done. intros (r & Hin & Hk)%in_put_others.
  destruct (Hr r Hin) as [Hne|Hs]; [done|]. by apply in_changed_secret in Hs as [_ ?].
Qed.

(** Mutating another property. *)
Lemma origin_mutate k v st k' : k' <> k -> origin (mutate_input k v st) k' = origin st k'.
Proof.
  intros Hne. unfold origin, object. cbn [originInputs mutate_input set_objects store].
  destruct (decide (originInputs st = inputs st)) as [E|E].
  - rewrite E. destruct (decide (inputs st < length (store st))%nat) as [Hl|Hl].
    + rewrite list_lookup_insert_eq by done. cbn [default from_option id oget].
      by rewrite obj_get_set, decide_False.
    + by rewrite list_insert_ge by lia.
  - by rewrite list_lookup_insert_ne.
Qed.

Lemma input_mutate_other k v st k' : k' <> k -> input (mutate_input k v st) k' = input st k'.
Proof.
  intros Hne. unfold input, object. cbn [inputs mutate_input set_objects store].
  destruct (decide (inputs st < length (store st))%nat) as [Hl|Hl].
  - rewrite list_lookup_insert_eq by done. cbn [default from_option id oget].
    by rewrite obj_get_set, decide_False.
  - by rewrite list_insert_ge by lia.
Qed.
End Secrets.

Ltac lit_ne := apply (bool_decide_eq_false_1 _); vm_compute; reflexivity.
Ltac lit_plain := vm_compute; reflexivity.
Ltac card :=
  repeat apply card_app;
  first [apply card_secret; lit_plain | apply card_changed; [lit_plain | lit_ne]
        | apply card_other; [lit_plain | lit_ne]].

(** C34. The cards that hold a secret and a comparison never blank it: the mail, WeChat,
    GitHub, Discord, OIDC, Turnstile and LinuxDO buttons send the secret only when its field
    differs from the loaded value and is not empty, whatever the server answers. *)
Theorem secrets_guarded `{UnicodeCase} respond st :
  secret_guarded (e_sent (submitSMTP respond st)) st "SMTPToken" /\
  (forall e, submitWeChat respond st = Ret e -> secret_guarded (e_sent e) st "WeChatServerToken") /\
  secret_guarded (e_sent (submitGitHubOAuth respond st)) st "GitHubClientSecret" /\
  secret_guarded (e_sent (submitDiscordOAuth respond st)) st "discord.client_secret" /\
  (forall fetched e, submitOIDCSettings respond fetched st = Ret e ->
     secret_guarded (e_sent e) st "oidc.client_secret") /\
  secret_guarded (e_sent (submitTurnstile respond st)) st "TurnstileSecretKey" /\
  secret_guarded (e_sent (submitLinuxDOOAuth respond st)) st "LinuxDOClientSecret".
Proof.
  split; [apply card_guarded; card|]. split; [|split; [apply card_guarded; card|split; [apply card_guarded; card|]]].
  - intros e He. unfold submitWeChat in He.
    destruct (strict_eq _ _) in He.
    + cbn [mbind exc_bind] in He. apply Ret_inj in He as <-. apply card_guarded. cbn [app]. card.
    + destruct (removeTrailingSlash _) as [a|]; [|done]. cbn [mbind exc_bind] in He. apply Ret_inj in He as <-.
      apply card_guarded. apply card_app; [apply card_one; [lit_plain | lit_ne] | card].
  - split; [|split; apply card_guarded; card]. intros fetched e He. unfold submitOIDCSettings in He.
    assert (Hok : secret_guarded (e_sent (update_some respond (oidc_options st) st)) st "oidc.client_secret")
      by (apply card_guarded; card).
    assert (Hnone : secret_guarded [] st "oidc.client_secret") by (intros v Hv; by apply not_elem_of_nil in Hv).
    destruct (truthy _) in He; [|by apply Ret_inj in He as <-].
    destruct (as_string _) as [url|]; [|done]. cbn [mbind exc_bind] in He.
    destruct (negb _ && negb _) in He; [by apply Ret_inj in He as <-|].
    destruct fetched as [body|]; [|by apply Ret_inj in He as <-].
    destruct (is_nullish body); [by apply Ret_inj in He as <-|]. cbv zeta in He.
    apply Ret_inj in He as <-. cbn [e_sent].
    assert (Hg : secret_guarded (e_sent (update_some respond (oidc_options (oidc_fetched body st))
      (oidc_fetched body st))) (oidc_fetched body st) "oidc.client_secret") by (apply card_guarded; card).
    intros v Hv. specialize (Hg v Hv). unfold oidc_fetched in Hg.
    rewrite !origin_mutate in Hg by lit_ne. by rewrite !input_mutate_other in Hg by lit_ne.
Qed.

(** Two cards do not guard their secret: when the field of the token was left alone, so
    that the page has no value for it, the Telegram button and the Worker button still send
    the option, without a value. *)
Theorem blank_secret_sent `{UnicodeCase} respond st url :
  (forall r, exists m, respond r = Some (true, m)) ->
  input st (u "TelegramBotToken") = JUndef -> input st (u "WorkerValidKey") = JUndef ->
  input st (u "WorkerUrl") = JStr url ->
  (u "TelegramBotToken", JUndef) ∈ e_sent (submitTelegramSettings respond st) /\
  exists e, submitWorker respond st = Ret e /\ (u "WorkerValidKey", JUndef) ∈ e_sent e.
Proof.
  intros Hacc Ht Hk Hurl. split.
  - unfold submitTelegramSettings. rewrite Ht.
    change (updateOptions respond ?l st) with (update_some respond l st).
    rewrite update_some_sent by (do 2 (apply List.Forall_cons; [lit_plain|]); constructor). left.
  - unfold submitWorker. rewrite Hurl, Hk.
    assert (exists w, removeTrailingSlash (JStr url) = Ret (JStr w)) as [w ->].
    { unfold removeTrailingSlash. destruct (truthy _); cbn [negb]; by eexists. }
    cbn [mbind exc_bind]. eexists. split; [reflexivity|].
    cbn [is_str negb orb app].
    generalize (if truthy (input st (u "WorkerAllowHttpImageRequestEnabled")) then u "true" else u "false") as b.
    intros b. rewrite (updateOptions_sent respond Hacc).
    + apply elem_of_app. right. apply list_elem_of_fmap. exists (u "WorkerValidKey", JUndef).
      split; [done|]. apply elem_of_lfilter. split; [right; right; left | lit_plain].
    + apply Forall_forall. intros kv [Hin Hc]%elem_of_lfilter.
      apply elem_of_cons in Hin as [->|Hin]; [done|]. apply elem_of_cons in Hin as [->|Hin]; [done|].
      apply list_elem_of_singleton in Hin as ->. exfalso. revert Hc. by vm_compute.
Qed.

Lemma blank_secret_sent_witness :
  (u "TelegramBotToken", JUndef) ∈
    e_sent (submitTelegramSettings (H := ascii_case) accept_all
      (set_objects [[(u "WorkerUrl", JStr [])]] 0 0 initial_setting)).
Proof.
  apply (blank_secret_sent (H := ascii_case) accept_all
    (set_objects [[(u "WorkerUrl", JStr [])]] 0 0 initial_setting) []).
  - intros r. by exists [].
  - vm_compute. reflexivity.
  - vm_compute. reflexivity.
  - vm_compute. reflexivity.
Defined.

(** ** The e-mail domains *)

Definition domain_char (c : Z) : bool := is_alnum c || (c =? 45) || (c =? 46).

Lemma rupto_chars P n r : chars_in P r -> chars_in P (rupto n r).
Proof. intros Hr. induction n; simpl; auto. Qed.

Lemma domain_chars d : rtest domainRegex d = true -> forallb domain_char d = true.
Proof.
  apply rtest_chars. unfold rplus, ropt, rlit. cbn [chars_in].
  assert (Hal : forall x, is_alnum x = true -> domain_char x = true)
    by (intros x Hx; unfold domain_char; by rewrite Hx).
  assert (Hlt : forall x, is_letter x = true -> domain_char x = true).
  { intros x Hx. apply Hal. unfold is_alnum, is_letter in *. destruct (is_digit x); [done|]. exact Hx. }
  assert (Hmid : forall x, is_alnum x || (x =? 45) = true -> domain_char x = true)
    by (intros x Hx; unfold domain_char; by rewrite Hx).
  assert (Hdot : chars_in domain_char (runits (u "."))).
  { cbn. split; [|done]. intros x Hx%Z.eqb_eq. subst. reflexivity. }
  repeat split; auto using rupto_chars; apply Hdot.
Qed.

(** Domains that survive the comma-separated form. *)
Definition domain_ok (d : jsstr) : Prop := 44 ∉ d /\ d <> [].

Lemma valid_domain_ok d : rtest domainRegex d = true -> d <> [] -> domain_ok d.
Proof.
  intros Hd Hne. split; [|done]. intros Hin. apply domain_chars in Hd. rewrite forallb_forall in Hd.
  by specialize (Hd 44 (proj1 (list_elem_of_In _ _) Hin)).
Qed.

(** Typing a text and pressing the add button. *)
Definition add_email (st : setting) (text : jsstr) : setting := e_state (handleAddEmail (setEmailToAdd text st)).

Lemma add_email_list st text :
  emailDomainWhitelist (add_email st text) = emailDomainWhitelist st \/
  (exists d, emailDomainWhitelist (add_email st text) = emailDomainWhitelist st ++ [d] /\
     domain_ok d /\ d ∉ emailDomainWhitelist st).
Proof.
  unfold add_email, handleAddEmail. cbv zeta. cbn [emailToAdd setEmailToAdd].
  case_bool_decide as Hd; [by left|]. destruct (rtest _ _) eqn:Hr; cbn [negb]; [|by left].
  case_bool_decide as Hin; [by left|]. right. exists (trim text).
  split; [done|]. split; [by apply valid_domain_ok | exact Hin].
Qed.

Lemma add_emails_ok texts st :
  NoDup (emailDomainWhitelist st) -> Forall domain_ok (emailDomainWhitelist st) ->
  NoDup (emailDomainWhitelist (fold_left add_email texts st)) /\
  Forall domain_ok (emailDomainWhitelist (fold_left add_email texts st)).
Proof.
  revert st. induction texts as [|t texts IH]; intros st Hn Hf; [done|]. cbn [fold_left].
  apply IH; destruct (add_email_list st t) as [->|(d & -> & Hd & Hin)]; [done | | done |].
  - apply NoDup_app. split; [done|]. split; [|apply NoDup_singleton]. intros x Hx ->%list_elem_of_singleton. done.
  - apply Forall_app. split; [done | by constructor].
Qed.

(** The list of e-mail domains round-trips: whatever texts are added to it, the saved
    option loads back as the list shown, without repetitions. *)
Theorem whitelist_roundtrip `{UnicodeCase} respond texts st st0 :
  NoDup (emailDomainWhitelist st) -> Forall domain_ok (emailDomainWhitelist st) ->
  let st' := fold_left add_email texts st in
  exists v, e_sent (submitEmailDomainWhitelist respond st') = [(u "EmailDomainWhitelist", v)] /\
    load_item (u "EmailDomainWhitelist") v st0
    = (setEmailDomainWhitelist (emailDomainWhitelist st') st0, Ret v) /\
    NoDup (emailDomainWhitelist st').
Proof.
  intros Hn Hf. cbv zeta. destruct (add_emails_ok texts st Hn Hf) as [Hn' Hf'].
  set (l := emailDomainWhitelist (fold_left add_email texts st)) in *.
  exists (JStr (join (u ",") l)). split; [|split; [|done]].
  - unfold submitEmailDomainWhitelist. fold l.
    apply (update_some_sent respond [(u "EmailDomainWhitelist", JStr (join (u ",") l))]).
    repeat constructor.
  - change (load_item (u "EmailDomainWhitelist") (JStr (join (u ",") l)) st0) with
      (if truthy (JStr (join (u ",") l))
       then (setEmailDomainWhitelist (split_char 44 (join (u ",") l)) st0, Ret (JStr (join (u ",") l)))
       else (setEmailDomainWhitelist [] st0, Ret (JStr (join (u ",") l)))).
    change (u ",") with [44]. cbn [truthy]. clear Hn' . destruct l as [|d l]; [done|].
    assert (join [44] (d :: l) <> []).
    { apply Forall_cons in Hf' as [[_ Hd] _]. destruct l; simpl; [done|]. by destruct d. }
    rewrite bool_decide_eq_false_2 by done. cbn [negb].
    rewrite split_join; [done | done |]. eapply Forall_impl; [exact Hf'|]. by intros x [].
Qed.

Lemma whitelist_roundtrip_witness :
  exists v, e_sent (submitEmailDomainWhitelist (H := ascii_case) accept_all
      (fold_left add_email [u " gmail.com "; u "gmail.com"; u "a,b.com"; u "qq.com"] initial_setting))
    = [(u "EmailDomainWhitelist", v)] /\ v = JStr (u "gmail.com,qq.com").
Proof.
  destruct (whitelist_roundtrip (H := ascii_case) accept_all
    [u " gmail.com "; u "gmail.com"; u "a,b.com"; u "qq.com"] initial_setting initial_setting)
    as (v & Hv & _); [constructor | constructor |].
  exists v. split; [exact Hv|].
  assert (Hc : e_sent (submitEmailDomainWhitelist (H := ascii_case) accept_all
      (fold_left add_email [u " gmail.com "; u "gmail.com"; u "a,b.com"; u "qq.com"] initial_setting))
    = [(u "EmailDomainWhitelist", JStr (u "gmail.com,qq.com"))]) by (vm_compute; reflexivity).
  rewrite Hc in Hv. congruence.
Defined.
