(* ===== verification/Think.v ===== *)
(** * Think tags

    The text of a reply may carry the model's reasoning between [<think>] and
    [</think>].  This file models how web/classic/src/helpers/utils.jsx separates the two
    when a reply is complete ([processThinkTags]) or is cut short
    ([processIncompleteThinkTags]), and how
    web/classic/src/components/playground/MessageContent.jsx separates them for display.
    The reference is a reading of the text as tokens: tags and the other characters. *)

From S2P Require Import Prelude JsString JsNumber JsValue.

Definition open_tag : jsstr := Eval vm_compute in u "<think>".
Definition close_tag : jsstr := Eval vm_compute in u "</think>".
(** What joins two thoughts. *)
Definition rule : jsstr := Eval vm_compute in [10; 10] ++ u "---" ++ [10; 10].

(** ** Searching *)

(** The shortest [[\s\S]*?] that is followed by [</think>], and what comes after. *)
Fixpoint until_close (s : jsstr) : option (jsstr * jsstr) :=
  if startsWith close_tag s then Some ([], drop (length close_tag) s)
  else match s with
       | [] => None
       | c :: s' => match until_close s' with Some (g, r) => Some (c :: g, r) | None => None end
       end.

(** [THINK_TAG_REGEX.exec]: the text before the first match, the group, and the
    text after the match. *)
Fixpoint think_exec (s : jsstr) : option (jsstr * jsstr * jsstr) :=
  let advance :=
    match s with
    | [] => None
    | c :: s' =>
        match think_exec s' with Some (b, g, r) => Some (c :: b, g, r) | None => None end
    end in
  if startsWith open_tag s then
    match until_close (drop (length open_tag) s) with
    | Some (g, r) => Some ([], g, r)
    | None => advance
    end
  else advance.

(** The loop over the matches: [replyParts] and [thoughts].  Each match is longer than
    the empty text, so the length of the text bounds the matches. *)
Fixpoint think_split (fuel : nat) (s : jsstr) : list jsstr * list jsstr :=
  match fuel with
  | O => ([s], [])
  | S fuel' =>
      match think_exec s with
      | Some (b, g, r) => let '(parts, thoughts) := think_split fuel' r in (b :: parts, g :: thoughts)
      | None => ([s], [])
      end
  end.
Definition think_parts (s : jsstr) : list jsstr * list jsstr := think_split (length s) s.

(** [s.replace(/<\/?think>/g, '')] *)
Fixpoint strip_fuel (fuel : nat) (s : jsstr) : jsstr :=
  match fuel with
  | O => s
  | S fuel' =>
      if startsWith open_tag s then strip_fuel fuel' (drop (length open_tag) s)
      else if startsWith close_tag s then strip_fuel fuel' (drop (length close_tag) s)
      else match s with [] => [] | c :: s' => c :: strip_fuel fuel' s' end
  end.
Definition strip_tags (s : jsstr) : jsstr := strip_fuel (length s) s.

(** The number of matches of [/<think>/g] or [/<\/think>/g]: a tag does not overlap
    itself. *)
Fixpoint count_tag (tag s : jsstr) : nat :=
  (if startsWith tag s then 1 else 0) + match s with [] => 0 | _ :: s' => count_tag tag s' end.

(** [s.lastIndexOf(tag)] as the split it describes: the text before, and from, the
    last occurrence. *)
Fixpoint split_last (tag s : jsstr) : option (jsstr * jsstr) :=
  match s with
  | [] => None
  | c :: s' =>
      match split_last tag s' with
      | Some (a, b) => Some (c :: a, b)
      | None => if startsWith tag s then Some ([], s) else None
      end
  end.

(** ** helpers/utils.jsx *)

(** What both functions return. *)
Record processed := Processed { p_content : jsv; p_reasoning : jsv }.

(** [x.includes(tag)], on a string or an array. *)
Definition value_includes (tag : jsstr) (v : jsv) : exc bool :=
  match v with
  | JStr s => Ret (includes tag s)
  | JArr l => Ret (existsb (fun x => is_str x tag) l)
  | _ => Throw (u "TypeError")
  end.

(** [`${a}\n\n---\n\n${b}`] *)
Definition ruled (a b : jsv) : jsv := JStr (to_string a ++ rule ++ to_string b).

Definition processThinkTags (content reasoningContent : jsv) : exc processed :=
  if negb (truthy content) then Ret (Processed content reasoningContent)
  else
    has ← value_includes open_tag content;
    if negb has then Ret (Processed content reasoningContent)
    else
      s ← as_string content;
      let '(replyParts, thoughts) := think_parts s in
      let processedContent := trim (strip_tags (join [] replyParts)) in
      let thoughtsStr := JStr (join rule thoughts) in
      Ret (Processed (JStr processedContent)
        (if truthy (js_and reasoningContent thoughtsStr) then ruled reasoningContent thoughtsStr
         else js_or reasoningContent thoughtsStr)).

Definition processIncompleteThinkTags (content reasoningContent : jsv) : exc processed :=
  if negb (truthy content) then Ret (Processed (JStr []) reasoningContent)
  else
    match content with
    | JStr s =>
        match split_last open_tag s with
        | None => processThinkTags content reasoningContent
        | Some (cleanContent, fragmentAfterLastOpen) =>
            if negb (includes close_tag fragmentAfterLastOpen) then
              let unclosedThought := JStr (trim (drop (length open_tag) fragmentAfterLastOpen)) in
              processThinkTags (JStr cleanContent)
                (if truthy unclosedThought then
                   if truthy reasoningContent then ruled reasoningContent unclosedThought
                   else unclosedThought
                 else reasoningContent)
            else processThinkTags content reasoningContent
        end
    | JArr l =>
        (* [lastIndexOf] compares the elements; a hit then has no [substring]. *)
        if existsb (fun x => is_str x open_tag) l then Throw (u "TypeError")
        else processThinkTags content reasoningContent
    | _ => Throw (u "TypeError")
    end.

(** ** components/playground/MessageContent.jsx *)

(** The [getTextContent] of the component. *)
Definition displayText (content : jsv) : jsstr :=
  match content with
  | JArr l =>
      match List.find (fun item => is_str (item?."type") (u "text")) l with
      | Some textItem => match textItem?."text" with JStr s => s | _ => [] end
      | None => []
      end
  | JStr s => s
  | _ => []
  end.

(** What is shown of an assistant message that is not an error: the thinking panel's
    text ([null] when there is none) and the reply. *)
Record shown := Shown { thinking : jsv; reply : jsstr }.

(** [a += '\n\n---\n\n' + b] when [a] has a text, [a = b] otherwise. *)
Definition add_thought (a : jsv) (b : jsstr) : jsv :=
  if truthy a then js_plus a (JStr (rule ++ b)) else JStr b.

Definition displayThink (isThinkingStatus : bool) (content reasoningContent : jsv) : shown :=
  let base := displayText content in
  let combined := if truthy reasoningContent then reasoningContent else JStr [] in
  let '(base, combined) :=
    if includes open_tag base then
      let '(replyParts, thoughts) := think_parts base in
      (join [] replyParts,
       match thoughts with [] => combined | _ => add_thought combined (join rule thoughts) end)
    else (base, combined) in
  let '(base, combined) :=
    if isThinkingStatus then
      match split_last open_tag base with
      | Some (before, fragmentAfterLastOpen) =>
          if negb (includes close_tag fragmentAfterLastOpen) then
            let unclosedThought := trim (drop (length open_tag) fragmentAfterLastOpen) in
            (before, if bool_decide (unclosedThought = []) then combined
                     else add_thought combined unclosedThought)
          else (base, combined)
      | None => (base, combined)
      end
    else (base, combined) in
  Shown (js_or combined JNull) (trim (strip_tags base)).
