(* ===== verification/ThinkThms.v ===== *)
(** * Think tags: the reading of a reply as tokens

    Every text is a list of tokens, tags and other characters ([lex]).  The searches of
    [Think] are the obvious functions on tokens, and separating the thoughts is one pass
    over them. *)

From S2P Require Import Prelude JsString JsNumber JsValue Think.

(** ** Tokens *)

Inductive token :=
  | TOpen
  | TClose
  | TChar (c : Z).

#[export] Instance token_eq_dec : EqDecision token.
Proof. solve_decision. Defined.

Definition tok_text (t : token) : jsstr :=
  match t with TOpen => open_tag | TClose => close_tag | TChar c => [c] end.
Definition flat (ts : list token) : jsstr := concat (tok_text <$> ts).

(** No character of the text is [<]. *)
Definition plain (t : token) : Prop := match t with TChar c => c <> 60 | _ => True end.

#[export] Instance plain_dec t : Decision (plain t).
Proof. destruct t; apply _. Defined.

(** No tag starts at a character. *)
Fixpoint lexed (ts : list token) : Prop :=
  match ts with
  | [] => True
  | TChar c :: ts' =>
      startsWith open_tag (c :: flat ts') = false /\ startsWith close_tag (c :: flat ts') = false /\ lexed ts'
  | _ :: ts' => lexed ts'
  end.

(** The tokens of a text. *)
Fixpoint lex_fuel (fuel : nat) (s : jsstr) : list token :=
  match fuel, s with
  | S fuel', c :: s' =>
      if startsWith open_tag s then TOpen :: lex_fuel fuel' (drop (length open_tag) s)
      else if startsWith close_tag s then TClose :: lex_fuel fuel' (drop (length close_tag) s)
      else TChar c :: lex_fuel fuel' s'
  | _, _ => []
  end.
Definition lex (s : jsstr) : list token := lex_fuel (length s) s.

(** The text with the tags left out. *)
Definition chars_of (ts : list token) : jsstr :=
  concat ((fun t => match t with TChar c => [c] | _ => [] end) <$> ts).

(** One pass: [inside] holds the tokens since the tag that opened the thought, last
    first.  The result is what stays in the reply, and the thoughts. *)
Fixpoint read (inside : option (list token)) (ts : list token) : list token * list jsstr :=
  match ts, inside with
  | [], None => ([], [])
  | [], Some acc => (TOpen :: reverse acc, [])
  | TOpen :: ts', None => read (Some []) ts'
  | TClose :: ts', Some acc => let '(rest, th) := read None ts' in (rest, flat (reverse acc) :: th)
  | t :: ts', None => let '(rest, th) := read None ts' in (t :: rest, th)
  | t :: ts', Some acc => read (Some (t :: acc)) ts'
  end.
Definition reply_of (ts : list token) : list token := (read None ts).1.
Definition thoughts_of (ts : list token) : list jsstr := (read None ts).2.

Lemma flat_app a b : flat (a ++ b) = flat a ++ flat b.
Proof. unfold flat. by rewrite fmap_app, concat_app. Qed.
Lemma flat_cons t ts : flat (t :: ts) = tok_text t ++ flat ts.
Proof. done. Qed.
Lemma chars_app a b : chars_of (a ++ b) = chars_of a ++ chars_of b.
Proof. unfold chars_of. by rewrite fmap_app, concat_app. Qed.

(** ** Searching a flattened text *)

(** The two tags, as tokens. *)
Definition is_tag (t : token) : Prop := t = TOpen \/ t = TClose.

Lemma tag_here t s : is_tag t -> startsWith (tok_text t) (tok_text t ++ s) = true.
Proof. intros _. apply startsWith_app. Qed.

Lemma tag_char t c s : is_tag t -> c <> 60 -> startsWith (tok_text t) (c :: s) = false.
Proof.
  intros Ht Hc. assert (E : (60 =? c) = false) by (apply Z.eqb_neq; congruence).
  destruct Ht as [-> | ->]; cbn [tok_text open_tag close_tag startsWith]; by rewrite E.
Qed.

Lemma tag_lexed t x ts : is_tag t -> lexed (x :: ts) ->
  startsWith (tok_text t) (flat (x :: ts)) = bool_decide (x = t).
Proof.
  intros Ht Hx. rewrite flat_cons. destruct x as [| |c].
  - destruct Ht as [-> | ->]; [apply tag_here; by left|]. cbn. by rewrite bool_decide_false.
  - destruct Ht as [-> | ->]; [|apply tag_here; by right]. cbn. by rewrite bool_decide_false.
  - destruct Hx as (Ho & Hc & _). cbn [tok_text app].
    destruct Ht as [-> | ->]; cbn [tok_text]; rewrite bool_decide_false by done; done.
Qed.

Lemma lexed_cons x ts : lexed (x :: ts) -> lexed ts.
Proof. destruct x; [done..|]. by intros (_ & _ & H). Qed.
Lemma lexed_app a b : lexed (a ++ b) -> lexed b.
Proof. induction a as [|x a IH]; [done|]. intros H. by apply IH, (lexed_cons x). Qed.
Lemma plain_lexed ts : Forall plain ts -> lexed ts.
Proof.
  induction 1 as [|x ts Hx _ IH]; [done|]. destruct x as [| |c]; [done..|]. cbn [lexed].
  split; [by apply (tag_char TOpen); [left|]|]. split; [by apply (tag_char TClose); [right|]|done].
Qed.

Lemma tag_head t x ts : is_tag t -> plain x ->
  startsWith (tok_text t) (flat (x :: ts)) = bool_decide (x = t).
Proof.
  intros Ht Hx. rewrite flat_cons. destruct x as [| |c].
  - destruct Ht as [-> | ->]; [apply tag_here; by left|]. cbn. by rewrite bool_decide_false.
  - destruct Ht as [-> | ->]; [|apply tag_here; by right]. cbn. by rewrite bool_decide_false.
  - cbn [tok_text app]. rewrite tag_char by done.
    rewrite bool_decide_false; [done|]. by destruct Ht as [-> | ->].
Qed.

(** Every text is the text of its tokens. *)
Lemma lex_fuel_spec fuel s :
  (length s <= fuel)%nat -> flat (lex_fuel fuel s) = s /\ lexed (lex_fuel fuel s).
Proof.
  revert s. induction fuel as [|fuel IH]; intros s Hl; [by destruct s; [|cbn in Hl; lia]|].
  destruct s as [|c s]; [done|]. cbn [lex_fuel].
  assert (Htag : forall t, is_tag t -> startsWith (tok_text t) (c :: s) = true ->
    flat (t :: lex_fuel fuel (drop (length (tok_text t)) (c :: s))) = c :: s /\
    lexed (lex_fuel fuel (drop (length (tok_text t)) (c :: s)))).
  { intros t Ht Hs. apply startsWith_iff in Hs as [w Hw]. rewrite Hw, drop_app_length.
    assert (Hlw : (length w <= fuel)%nat).
    { apply (f_equal length) in Hw. rewrite length_app in Hw. cbn [length] in Hw, Hl.
      destruct Ht as [-> | ->]; cbn [tok_text open_tag close_tag length] in Hw; lia. }
    destruct (IH w Hlw) as [E1 E2]. by rewrite flat_cons, E1. }
  destruct (startsWith open_tag (c :: s)) eqn:Eo; [by apply (Htag TOpen); [left|]|].
  destruct (startsWith close_tag (c :: s)) eqn:Ec; [by apply (Htag TClose); [right|]|].
  cbn [length] in Hl. destruct (IH s ltac:(lia)) as [E1 E2]. rewrite flat_cons, E1. cbn [tok_text app lexed].
  by rewrite E1.
Qed.
Lemma flat_lex s : flat (lex s) = s.
Proof. by apply lex_fuel_spec. Qed.
Lemma lexed_lex s : lexed (lex s).
Proof. by apply lex_fuel_spec. Qed.

Lemma tag_nil t : is_tag t -> startsWith (tok_text t) [] = false.
Proof. by intros [-> | ->]. Qed.

(** The characters of a tag after its first are not [<], so a search that steps over
    the first steps over the rest. *)
Definition inner (t : token) : jsstr := drop 1 (tok_text t).
Lemma tok_inner t : exists c, tok_text t = c :: inner t /\ Forall (fun c => c <> 60) (inner t).
Proof.
  destruct t; eexists; (split; [reflexivity|]); repeat constructor; discriminate.
Qed.

Section Walk.
Context (t : token) (Ht : is_tag t).
#[local] Notation tag := (tok_text t).

Lemma includes_skip w s : Forall (fun c => c <> 60) w -> includes tag (w ++ s) = includes tag s.
Proof.
  induction 1 as [|c w Hc _ IH]; [done|]. cbn [includes app]. rewrite tag_char by done. exact IH.
Qed.

Lemma includes_lexed ts : lexed ts -> includes tag (flat ts) = bool_decide (t ∈ ts).
Proof.
  induction ts as [|x ts IH]; intros Hx.
  - cbn. rewrite tag_nil by done. by rewrite bool_decide_false by apply not_elem_of_nil.
  - specialize (IH (lexed_cons _ _ Hx)). destruct (tok_inner x) as (c & E & Hi).
    assert (H0 : includes tag (flat (x :: ts)) = bool_decide (x = t) || includes tag (flat ts)).
    { rewrite <-(tag_lexed t x ts) by done. rewrite flat_cons, E. cbn [app includes].
      by rewrite includes_skip. }
    rewrite H0, IH. destruct (decide (x = t)) as [->|Hn].
    + rewrite (bool_decide_true (t = t)) by done. symmetry.
      apply bool_decide_eq_true. left.
    + rewrite (bool_decide_false (x = t)) by done. cbn [orb].
      apply bool_decide_ext. rewrite elem_of_cons. naive_solver.
Qed.
Lemma includes_flat ts : Forall plain ts -> includes tag (flat ts) = bool_decide (t ∈ ts).
Proof. intros H. by apply includes_lexed, plain_lexed. Qed.

Lemma split_last_skip w s :
  Forall (fun c => c <> 60) w ->
  split_last tag (w ++ s) = (fun '(a, b) => (w ++ a, b)) <$> split_last tag s.
Proof.
  induction 1 as [|c w Hc _ IH]; cbn [app].
  - by destruct (split_last tag s) as [[a b]|].
  - cbn [split_last]. rewrite IH, tag_char by done. by destruct (split_last tag s) as [[a b]|].
Qed.

(** The last tag of a text, if it has one. *)
Lemma split_last_none ts : Forall plain ts -> t ∉ ts -> split_last tag (flat ts) = None.
Proof.
  induction 1 as [|x ts Hx _ IH]; [done|]. intros Hn.
  destruct (tok_inner x) as (c & E & Hi).
  assert (Hh : startsWith tag (flat (x :: ts)) = false)
    by (rewrite tag_head by done; apply bool_decide_eq_false; set_solver).
  rewrite flat_cons, E in *. cbn [app split_last] in *.
  rewrite split_last_skip, IH by (done || set_solver). cbn. by rewrite Hh.
Qed.

Lemma split_last_flat a b :
  Forall plain a -> Forall plain b -> t ∉ b ->
  split_last tag (flat (a ++ t :: b)) = Some (flat a, flat (t :: b)).
Proof.
  intros Ha Hb Hn. induction Ha as [|x a Hx _ IH].
  - assert (Hp : plain t) by (by destruct Ht as [-> | ->]).
    pose proof (tag_head t t b Ht Hp) as Hh. rewrite bool_decide_true in Hh by done.
    cbn [app]. rewrite flat_cons in *. destruct (tok_inner t) as (c & E & Hi).
    rewrite E in Hh |- *. cbn [app split_last] in *. rewrite <-E in *.
    rewrite split_last_skip, split_last_none by done. cbn. by rewrite Hh.
  - destruct (tok_inner x) as (c & E & Hi). cbn [app]. rewrite !(flat_cons x), E.
    cbn [app split_last]. rewrite split_last_skip, IH by done. done.
Qed.
End Walk.

(** ** The regular expression *)

Fixpoint split_close (ts : list token) : option (list token * list token) :=
  match ts with
  | [] => None
  | TClose :: ts' => Some ([], ts')
  | t :: ts' => (fun '(g, r) => (t :: g, r)) <$> split_close ts'
  end.

Lemma until_close_skip w s :
  Forall (fun c => c <> 60) w ->
  until_close (w ++ s) = (fun '(g, r) => (w ++ g, r)) <$> until_close s.
Proof.
  induction 1 as [|c w Hc _ IH]; cbn [app].
  - by destruct (until_close s) as [[g r]|].
  - cbn [until_close]. rewrite (tag_char TClose) by (done || by right).
    rewrite IH. by destruct (until_close s) as [[g r]|].
Qed.

Lemma until_close_flat ts :
  lexed ts ->
  until_close (flat ts) = (fun '(g, r) => (flat g, flat r)) <$> split_close ts.
Proof.
  induction ts as [|x ts IH]; intros Hx; [done|]. specialize (IH (lexed_cons _ _ Hx)).
  pose proof (tag_lexed TClose x ts (or_intror eq_refl) Hx) as Hh.
  destruct (tok_inner x) as (c & E & Hi). rewrite flat_cons, E in Hh |- *.
  cbn [app until_close] in *. change (tok_text TClose) with close_tag in Hh. rewrite Hh.
  destruct x as [| |d].
  2: { cbn. by rewrite drop_0. }
  all: rewrite bool_decide_false by done; rewrite until_close_skip, IH by done;
    cbn [split_close]; destruct (split_close ts) as [[g r]|]; try done;
    unfold fmap, option_fmap, option_map; by rewrite flat_cons, E.
Qed.

Fixpoint tok_exec (ts : list token) : option (list token * list token * list token) :=
  let advance := match ts with
    | [] => None
    | t :: ts' => (fun '(b, g, r) => (t :: b, g, r)) <$> tok_exec ts'
    end in
  match ts with
  | TOpen :: ts' => match split_close ts' with Some (g, r) => Some ([], g, r) | None => advance end
  | _ => advance
  end.

Lemma think_exec_skip w s :
  Forall (fun c => c <> 60) w ->
  think_exec (w ++ s) = (fun '(b, g, r) => (w ++ b, g, r)) <$> think_exec s.
Proof.
  induction 1 as [|c w Hc _ IH]; cbn [app].
  - by destruct (think_exec s) as [[[b g] r]|].
  - cbn [think_exec]. rewrite (tag_char TOpen) by (done || by left).
    rewrite IH. by destruct (think_exec s) as [[[b g] r]|].
Qed.

Lemma think_exec_flat ts :
  lexed ts ->
  think_exec (flat ts) = (fun '(b, g, r) => (flat b, flat g, flat r)) <$> tok_exec ts.
Proof.
  induction ts as [|x ts IH]; intros Hx; [done|]. pose proof (lexed_cons _ _ Hx) as Hts. specialize (IH Hts).
  pose proof (tag_lexed TOpen x ts (or_introl eq_refl) Hx) as Hh.
  destruct (tok_inner x) as (c & E & Hi). rewrite flat_cons, E in Hh |- *.
  cbn [app think_exec] in *. change (tok_text TOpen) with open_tag in Hh. rewrite Hh.
  assert (Ha : match think_exec (inner x ++ flat ts) with
               | Some (b, g, r) => Some (c :: b, g, r) | None => None end
             = (fun '(b, g, r) => (flat b, flat g, flat r)) <$>
                 ((fun '(b, g, r) => (x :: b, g, r)) <$> tok_exec ts)).
  { rewrite think_exec_skip, IH by done. destruct (tok_exec ts) as [[[b g] r]|]; [|done].
    unfold fmap, option_fmap, option_map. by rewrite flat_cons, E. }
  destruct x as [| |d].
  - rewrite bool_decide_true by done. change (drop (length open_tag) (c :: inner TOpen ++ flat ts)) with (flat ts).
    rewrite until_close_flat by done. cbn [tok_exec].
    destruct (split_close ts) as [[g r]|]; [done|exact Ha].
  - rewrite bool_decide_false by done. exact Ha.
  - rewrite bool_decide_false by done. exact Ha.
Qed.

(** ** One pass *)

Lemma split_close_none ts : split_close ts = None <-> TClose ∉ ts.
Proof.
  induction ts as [|[| |c] ts IH]; cbn; [split; [intros _; apply not_elem_of_nil|done]|..].
  1, 3: destruct (split_close ts) as [[g r]|]; cbn; set_solver.
  split; [done|set_solver].
Qed.

Lemma read_inside acc ts :
  read (Some acc) ts =
    match split_close ts with
    | Some (g, r) => (reply_of r, flat (reverse acc ++ g) :: thoughts_of r)
    | None => (TOpen :: reverse acc ++ ts, [])
    end.
Proof.
  revert acc. induction ts as [|x ts IH]; intros acc; [by rewrite app_nil_r|].
  destruct x as [| |c]; cbn [read split_close].
  2: { unfold reply_of, thoughts_of. rewrite app_nil_r. by destruct (read None ts). }
  all: rewrite IH, reverse_cons; destruct (split_close ts) as [[g r]|]; cbn; by rewrite <-app_assoc.
Qed.

Lemma tok_exec_noclose ts : TClose ∉ ts -> tok_exec ts = None.
Proof.
  induction ts as [|x ts IH]; [done|]. intros Hn. assert (Hc : TClose ∉ ts) by set_solver.
  cbn [tok_exec]. rewrite (IH Hc). apply split_close_none in Hc. rewrite Hc. by destruct x.
Qed.

Lemma read_exec ts :
  read None ts =
    match tok_exec ts with
    | Some (b, g, r) => (b ++ reply_of r, flat g :: thoughts_of r)
    | None => (ts, [])
    end.
Proof.
  induction ts as [|x ts IH]; [done|]. destruct x as [| |c]; cbn [read tok_exec].
  - rewrite read_inside. destruct (split_close ts) as [[g r]|] eqn:E; [done|].
    rewrite tok_exec_noclose; [done|]. by apply split_close_none.
  - rewrite IH. by destruct (tok_exec ts) as [[[b g] r]|].
  - rewrite IH. by destruct (tok_exec ts) as [[[b g] r]|].
Qed.

Lemma split_close_length ts g r : split_close ts = Some (g, r) -> (length r < length ts)%nat.
Proof.
  revert g r. induction ts as [|x ts IH]; intros g r E; [done|].
  destruct x; cbn in E; [..|]; try (destruct (split_close ts) as [[g' r']|] eqn:E'; [|done]);
    simplify_eq/=; try specialize (IH _ _ eq_refl); lia.
Qed.

Lemma split_close_app ts g r : split_close ts = Some (g, r) -> ts = g ++ TClose :: r.
Proof.
  revert g r. induction ts as [|x ts IH]; intros g r E; [done|].
  destruct x; cbn in E; try (destruct (split_close ts) as [[g' r']|] eqn:E'; [|done]);
    simplify_eq/=; try done; by rewrite (IH _ _ eq_refl) at 1.
Qed.

Lemma tok_exec_app ts b g r : tok_exec ts = Some (b, g, r) -> exists a, ts = a ++ TClose :: r.
Proof.
  revert b g r. induction ts as [|x ts IH]; intros b g r E; [done|].
  assert (Ha : (fun '(b, g, r) => (x :: b, g, r)) <$> tok_exec ts = Some (b, g, r) ->
    exists a, x :: ts = a ++ TClose :: r).
  { destruct (tok_exec ts) as [[[b' g'] r']|] eqn:E'; [|done]. intros; simplify_eq/=.
    destruct (IH _ _ _ eq_refl) as [a ->]. by exists (x :: a). }
  destruct x; cbn [tok_exec] in E; [|by apply Ha..].
  destruct (split_close ts) as [[g' r']|] eqn:E'; [|by apply Ha]. simplify_eq/=.
  rewrite (split_close_app _ _ _ E'). by exists (TOpen :: g).
Qed.

Lemma tok_exec_lexed ts b g r :
  lexed ts -> tok_exec ts = Some (b, g, r) -> lexed r /\ (length r < length ts)%nat.
Proof.
  intros Hl E. destruct (tok_exec_app _ _ _ _ E) as [a ->]. split.
  - by apply (lexed_app (a ++ [TClose])); rewrite <-app_assoc.
  - rewrite length_app. cbn. lia.
Qed.

Lemma join_nil l : join [] l = concat l.
Proof.
  induction l as [|x l IH]; [done|]. destruct l as [|y l]; [by cbn; rewrite app_nil_r|].
  cbn [join concat] in *. by rewrite IH.
Qed.

(** The loop over the matches is the pass. *)
Lemma think_split_flat fuel ts :
  lexed ts -> (length ts <= fuel)%nat ->
  let '(parts, thoughts) := think_split fuel (flat ts) in
  concat parts = flat (reply_of ts) /\ thoughts = thoughts_of ts.
Proof.
  revert ts. induction fuel as [|fuel IH]; intros ts Hp Hl.
  - destruct ts; [done|cbn in Hl; lia].
  - cbn [think_split]. rewrite think_exec_flat by done. unfold reply_of, thoughts_of.
    rewrite read_exec. destruct (tok_exec ts) as [[[b g] r]|] eqn:E.
    + destruct (tok_exec_lexed _ _ _ _ Hp E) as [Hr Hlr]. unfold fmap, option_fmap, option_map.
      specialize (IH r Hr ltac:(lia)). destruct (think_split fuel (flat r)) as [parts th].
      destruct IH as [IH1 IH2]. cbn [concat fst snd]. by rewrite IH1, IH2, flat_app.
    + cbn. by rewrite app_nil_r.
Qed.

Lemma flat_length ts : (length ts <= length (flat ts))%nat.
Proof.
  induction ts as [|x ts IH]; [done|]. rewrite flat_cons, length_app. cbn [length].
  destruct (tok_inner x) as (c & -> & _). cbn. lia.
Qed.

Lemma think_parts_flat ts :
  lexed ts ->
  join [] (think_parts (flat ts)).1 = flat (reply_of ts) /\
  (think_parts (flat ts)).2 = thoughts_of ts.
Proof.
  intros Hp. pose proof (think_split_flat _ ts Hp (flat_length ts)) as H.
  unfold think_parts. destruct (think_split _ _) as [parts th]. by rewrite join_nil.
Qed.

Lemma strip_fuel_flat fuel ts :
  Forall plain ts -> (length ts <= fuel)%nat -> strip_fuel fuel (flat ts) = chars_of ts.
Proof.
  revert ts. induction fuel as [|fuel IH]; intros ts Hp Hl.
  - destruct ts; [done|cbn in Hl; lia].
  - destruct Hp as [|x ts Hx Hp]; [done|]. cbn [length] in Hl.
    assert (Ho := tag_head TOpen x ts (or_introl eq_refl) Hx).
    assert (Hc := tag_head TClose x ts (or_intror eq_refl) Hx).
    change (tok_text TOpen) with open_tag in Ho. change (tok_text TClose) with close_tag in Hc.
    cbn [strip_fuel]. rewrite Ho, Hc. destruct x as [| |c].
    + rewrite bool_decide_true by done. change (drop _ _) with (flat ts). rewrite IH by (done || lia). done.
    + rewrite bool_decide_false, bool_decide_true by done. change (drop _ _) with (flat ts).
      rewrite IH by (done || lia). done.
    + rewrite !bool_decide_false by done. cbn. f_equal. apply IH; [done|lia].
Qed.

Lemma strip_flat ts : Forall plain ts -> strip_tags (flat ts) = chars_of ts.
Proof. intros Hp. apply strip_fuel_flat; [done|apply flat_length]. Qed.

(** A text without [<] is its own reading. *)
Lemma flat_chars s : flat (TChar <$> s) = s.
Proof. induction s as [|c s IH]; [done|]. rewrite fmap_cons, flat_cons, IH. done. Qed.
Lemma chars_of_chars s : chars_of (TChar <$> s) = s.
Proof. induction s as [|c s IH]; [done|]. unfold chars_of in *. cbn. by rewrite IH. Qed.
Lemma plain_chars s : Forall (fun c => c <> 60) s -> Forall plain (TChar <$> s).
Proof. intros H. by apply Forall_fmap. Qed.

Lemma no_tag_in s : Forall (fun c => c <> 60) s ->
  includes open_tag s = false /\ split_last open_tag s = None /\ strip_tags s = s.
Proof.
  intros H. pose proof (plain_chars s H) as Hp. split_and!.
  - pose proof (includes_flat TOpen (or_introl eq_refl) _ Hp) as E.
    rewrite flat_chars in E. refine (eq_trans E _). apply bool_decide_eq_false. set_solver.
  - pose proof (split_last_none TOpen (or_introl eq_refl) _ Hp) as E.
    rewrite flat_chars in E. apply E. set_solver.
  - pose proof (strip_flat _ Hp) as E. by rewrite flat_chars, chars_of_chars in E.
Qed.

Lemma Forall_dropWhile {A} (P : A -> Prop) p l : Forall P l -> Forall P (dropWhile p l).
Proof. intros H. destruct (dropWhile_suffix p l) as [w E]. rewrite E in H. by apply Forall_app in H as [_ H]. Qed.

Lemma Forall_trim (P : Z -> Prop) s : Forall P s -> Forall P (trim s).
Proof.
  intros H. unfold trim, trimEnd, trimStart.
  apply Forall_reverse, Forall_dropWhile, Forall_reverse, Forall_dropWhile, H.
Qed.

Lemma chars_plain ts : Forall plain ts -> Forall (fun c => c <> 60) (chars_of ts).
Proof.
  induction 1 as [|x ts Hx _ IH]; [constructor|]. unfold chars_of. rewrite fmap_cons. cbn [concat].
  apply Forall_app; split; [|exact IH]. by destruct x; repeat constructor.
Qed.

Lemma read_plain ts st :
  Forall plain ts -> Forall plain (default [] st) -> Forall plain (read st ts).1.
Proof.
  intros H. revert st. induction H as [|x ts Hx _ IH]; intros st Hs.
  - destruct st as [acc|]; [|constructor]. constructor; [done|by apply Forall_reverse].
  - destruct x as [| |c], st as [acc|]; cbn [read].
    all: try (apply IH; cbn; by repeat constructor).
    all: specialize (IH None (List.Forall_nil _)); destruct (read None ts); cbn in *; auto.
Qed.
Lemma reply_plain ts : Forall plain ts -> Forall plain (reply_of ts).
Proof. intros H. apply (read_plain ts None H), List.Forall_nil. Qed.

(** ** What is stored when a reply ends *)

(** The reasoning sent apart, followed by the thoughts of the text. *)
Definition joined (r : jsstr) (thoughts : list jsstr) : jsstr :=
  if bool_decide (r = []) then join rule thoughts
  else if bool_decide (join rule thoughts = []) then r
  else r ++ rule ++ join rule thoughts.

Lemma truthy_str s : truthy (JStr s) = negb (bool_decide (s = [])).
Proof. done. Qed.

Lemma process_lexed ts r :
  lexed ts ->
  processThinkTags (JStr (flat ts)) (JStr r) =
    Ret (if bool_decide (TOpen ∈ ts)
         then Processed (JStr (trim (strip_tags (flat (reply_of ts))))) (JStr (joined r (thoughts_of ts)))
         else Processed (JStr (flat ts)) (JStr r)).
Proof.
  intros Hp. unfold processThinkTags. rewrite truthy_str.
  pose proof (includes_lexed TOpen (or_introl eq_refl) ts Hp) as Hi.
  change (tok_text TOpen) with open_tag in Hi.
  destruct (decide (flat ts = [])) as [E|E].
  - rewrite E in *. rewrite bool_decide_true by done. cbn [negb].
    cbn in Hi. by rewrite <-Hi.
  - rewrite (bool_decide_false (flat ts = [])) by done. cbn [negb value_includes].
    rewrite Hi. unfold mbind, exc_bind. destruct (bool_decide (TOpen ∈ ts)); [|done].
    cbn [negb as_string]. destruct (think_parts_flat ts Hp) as [H1 H2].
    destruct (think_parts (flat ts)) as [parts th]. cbn [fst snd] in *. subst th.
    rewrite H1. do 2 f_equal.
    unfold js_and, js_or, joined, ruled. rewrite !truthy_str.
    destruct (bool_decide_reflect (r = [])) as [->|Hr]; cbn [negb]; [done|].
    rewrite truthy_str. by destruct (bool_decide (join rule (thoughts_of ts) = [])).
Qed.

Lemma process_flat ts r :
  Forall plain ts ->
  processThinkTags (JStr (flat ts)) (JStr r) =
    Ret (if bool_decide (TOpen ∈ ts)
         then Processed (JStr (trim (chars_of (reply_of ts)))) (JStr (joined r (thoughts_of ts)))
         else Processed (JStr (flat ts)) (JStr r)).
Proof.
  intros Hp. rewrite process_lexed by by apply plain_lexed. by rewrite strip_flat by by apply reply_plain.
Qed.

(** C25. Separating a finished reply, on every text: read as tags and characters in one pass,
    where an opening tag starts a thought that the next closing tag ends, [processThinkTags]
    returns the thoughts in their order after the reasoning that was sent apart, and as the
    reply the text outside the thoughts, trimmed, with the tags that are left in it removed
    once the pieces are joined; a text with no opening tag is returned as it is.  When no
    [<] but that of a tag is outside the thoughts, what stays is exactly the characters
    there. *)
Theorem think_tags_spec s r :
  let ts := lex s in
  flat ts = s /\
  processThinkTags (JStr s) (JStr r) =
    Ret (if bool_decide (TOpen ∈ ts)
         then Processed (JStr (trim (strip_tags (flat (reply_of ts))))) (JStr (joined r (thoughts_of ts)))
         else Processed (JStr s) (JStr r)) /\
  (Forall plain (reply_of ts) -> strip_tags (flat (reply_of ts)) = chars_of (reply_of ts)).
Proof.
  intros ts. pose proof (process_lexed ts r (lexed_lex s)) as E. unfold ts in *. rewrite flat_lex in E.
  split; [apply flat_lex|]. split; [exact E|apply strip_flat].
Qed.

(** ** Stopping a reply *)

Lemma read_noopen ts : TOpen ∉ ts -> read None ts = (ts, []).
Proof.
  induction ts as [|x ts IH]; [done|]. intros Hn. rewrite not_elem_of_cons in Hn. destruct Hn as [Hx Hn].
  destruct x; [done|..]; cbn [read]; by rewrite IH.
Qed.

(** A last tag that closes leaves no opening tag in the reply. *)
Lemma read_closed x z st : TOpen ∉ z -> TOpen ∉ (read st (x ++ TClose :: z)).1.
Proof.
  intros Hz. revert st. induction x as [|y x IH]; intros st; cbn [app].
  - destruct st; cbn [read]; rewrite read_noopen by done; cbn; set_solver.
  - destruct y as [| |c], st as [acc|]; cbn [read]; try apply IH.
    all: specialize (IH None); destruct (read None (x ++ TClose :: z)); cbn in *; set_solver.
Qed.

(** A thought left open at the end stays in the reply, after what was before it. *)
Lemma read_unclosed c z st :
  TClose ∉ z ->
  read st (c ++ TOpen :: z) = ((read st c).1 ++ TOpen :: z, (read st c).2).
Proof.
  intros Hz. revert st. induction c as [|y c IH]; intros st; cbn [app].
  - apply split_close_none in Hz. destruct st as [acc|]; cbn [read]; rewrite read_inside, Hz; [|done].
    by rewrite reverse_cons, <-app_assoc.
  - destruct y as [| |d], st as [acc|]; cbn [read]; try apply IH.
    all: rewrite IH; by destruct (read None c).
Qed.

Lemma last_open ts : TOpen ∈ ts -> exists c z, ts = c ++ TOpen :: z /\ TOpen ∉ z.
Proof.
  induction ts as [|x ts IH]; [by intros ?%not_elem_of_nil|]. intros Hin.
  destruct (decide (TOpen ∈ ts)) as [H|H].
  - destruct (IH H) as (c & z & -> & Hz). by exists (x :: c), z.
  - exists [], ts. split; [|done]. apply elem_of_cons in Hin as [<-|?]; done.
Qed.

Lemma add_thought_str a b :
  add_thought (JStr a) b = JStr (if bool_decide (a = []) then b else a ++ rule ++ b).
Proof. unfold add_thought. rewrite truthy_str. by destruct (bool_decide (a = [])). Qed.

(** What is shown while a reply streams, and once it is settled. *)
Lemma display_flat b ts r :
  Forall plain ts -> TOpen ∈ ts ->
  displayThink b (JStr (flat ts)) (JStr r) =
    let combined := match thoughts_of ts with
                    | [] => JStr r | _ => add_thought (JStr r) (join rule (thoughts_of ts)) end in
    match (if b then split_last open_tag (flat (reply_of ts)) else None) with
    | Some (before, f) =>
        if includes close_tag f then
          Shown (js_or combined JNull) (trim (chars_of (reply_of ts)))
        else
          let w := trim (drop (length open_tag) f) in
          Shown (js_or (if bool_decide (w = []) then combined else add_thought combined w) JNull)
            (trim (strip_tags before))
    | None => Shown (js_or combined JNull) (trim (chars_of (reply_of ts)))
    end.
Proof.
  intros Hp Hin. unfold displayThink. cbn [displayText].
  pose proof (includes_flat TOpen (or_introl eq_refl) ts Hp) as Hi.
  change (tok_text TOpen) with open_tag in Hi. rewrite Hi, bool_decide_true by done.
  destruct (think_parts_flat ts (plain_lexed _ Hp)) as [H1 H2].
  destruct (think_parts (flat ts)) as [parts th]. cbn [fst snd] in *. subst th. rewrite H1.
  assert (E : (if truthy (JStr r) then JStr r else JStr []) = JStr r).
  { rewrite truthy_str. by destruct (bool_decide_reflect (r = [])) as [->|]. }
  rewrite E. destruct b; [|by rewrite strip_flat by (by apply reply_plain)].
  destruct (split_last open_tag (flat (reply_of ts))) as [[before f]|];
    [|by rewrite strip_flat by (by apply reply_plain)].
  destruct (includes close_tag f); cbn [negb]; [|done].
  by rewrite strip_flat by (by apply reply_plain).
Qed.

(** The display of what was stored: its text has no [<] left. *)
Lemma display_stored s v :
  Forall (fun c => c <> 60) s ->
  displayThink false (JStr s) v = Shown (js_or (if truthy v then v else JStr []) JNull) (trim s).
Proof.
  intros H. destruct (no_tag_in s H) as (H1 & H2 & H3). unfold displayThink. cbn [displayText].
  by rewrite H1, H3.
Qed.

Lemma stored_reasoning r :
  js_or (if truthy (js_or (JStr r) JNull) then js_or (JStr r) JNull else JStr []) JNull = js_or (JStr r) JNull.
Proof. by destruct r. Qed.

(** The thought the cut leaves open, before or after the closed ones. *)
Definition open_thought (ts : list token) : jsstr :=
  match split_last open_tag (flat ts) with
  | Some (_, f) => if includes close_tag f then [] else trim (drop (length open_tag) f)
  | None => []
  end.

Lemma display_noopen b ts v :
  Forall plain ts -> TOpen ∉ ts ->
  displayThink b (JStr (flat ts)) v =
    Shown (js_or (if truthy v then v else JStr []) JNull) (trim (chars_of ts)).
Proof.
  intros Hp Hn. unfold displayThink. cbn [displayText].
  pose proof (includes_flat TOpen (or_introl eq_refl) ts Hp) as Hi.
  pose proof (split_last_none TOpen (or_introl eq_refl) ts Hp Hn) as Hs.
  change (tok_text TOpen) with open_tag in *. rewrite Hi, bool_decide_false by done.
  destruct b; [rewrite Hs|]; by rewrite strip_flat.
Qed.

Lemma combined_joined r th :
  Forall (fun w => w <> []) th ->
  match th with [] => JStr r | _ => add_thought (JStr r) (join rule th) end = JStr (joined r th).
Proof.
  intros H. unfold joined. destruct H as [|w l Hw _].
  - cbn [join]. rewrite (bool_decide_true ([] = [])) by done.
    by destruct (bool_decide_reflect (r = [])) as [->|].
  - rewrite add_thought_str. rewrite (bool_decide_false (join rule (w :: l) = [])); [done|].
    destruct l, w; done.
Qed.

Lemma plain_split c t z : Forall plain (c ++ t :: z) -> Forall plain c /\ Forall plain z.
Proof. rewrite Forall_app, Forall_cons. tauto. Qed.

(** What stopping stores is what processing stores, the open thought moved to the
    reasoning. *)
Definition kept_display ts r p : Prop :=
  let before := displayThink true (JStr (flat ts)) (JStr r) in
  let after := displayThink false (p_content p) (js_or (p_reasoning p) JNull) in
  reply after = reply before /\
  (Forall (fun w => w <> []) (thoughts_of ts) ->
   thoughts_of ts = [] \/ open_thought ts = [] ->
   thinking after = thinking before).

Lemma str_or_empty r : (if truthy (JStr r) then JStr r else JStr []) = JStr r.
Proof. rewrite truthy_str. by destruct (bool_decide_reflect (r = [])) as [->|]. Qed.

Lemma kept_noopen ts r :
  Forall plain ts -> TOpen ∉ ts -> kept_display ts r (Processed (JStr (flat ts)) (JStr r)).
Proof.
  intros Hp Hn. unfold kept_display. cbn [p_content p_reasoning].
  rewrite !display_noopen, stored_reasoning, str_or_empty by done. done.
Qed.

Lemma kept_closed c z r :
  let ts := c ++ TOpen :: z in
  Forall plain ts -> TOpen ∉ z -> TClose ∈ z ->
  kept_display ts r
    (Processed (JStr (trim (chars_of (reply_of ts)))) (JStr (joined r (thoughts_of ts)))).
Proof.
  intros ts Hp Ho Hc. unfold kept_display. cbn [p_content p_reasoning].
  apply list_elem_of_split in Hc as (z1 & z2 & ->).
  assert (Hr : TOpen ∉ reply_of ts).
  { unfold reply_of, ts. rewrite app_comm_cons, app_assoc. apply read_closed. set_solver. }
  pose proof (split_last_none TOpen (or_introl eq_refl) _ (reply_plain _ Hp) Hr) as Hs.
  change (tok_text TOpen) with open_tag in Hs.
  rewrite display_flat, Hs, display_stored, stored_reasoning, trim_idemp; [|by apply Forall_trim, chars_plain, reply_plain|done|set_solver].
  split; [done|]. intros Hne _. cbn [thinking]. by rewrite combined_joined.
Qed.

(** The open thought joins the reasoning first. *)
Definition with_open (r w : jsstr) : jsstr :=
  if bool_decide (w = []) then r else if bool_decide (r = []) then w else r ++ rule ++ w.

Lemma kept_unclosed c z r :
  let ts := c ++ TOpen :: z in
  let r' := with_open r (trim (flat z)) in
  Forall plain ts -> TOpen ∉ z -> TClose ∉ z ->
  kept_display ts r
    (if bool_decide (TOpen ∈ c)
     then Processed (JStr (trim (chars_of (reply_of c)))) (JStr (joined r' (thoughts_of c)))
     else Processed (JStr (flat c)) (JStr r')).
Proof.
  intros ts r' Hp Ho Hc. destruct (plain_split _ _ _ Hp) as [Hpc Hpz].
  assert (Hin : TOpen ∈ ts) by (unfold ts; set_solver).
  assert (Er : reply_of ts = reply_of c ++ TOpen :: z /\ thoughts_of ts = thoughts_of c)
    by (unfold reply_of, thoughts_of, ts; by rewrite read_unclosed).
  destruct Er as [Er Et].
  pose proof (split_last_flat TOpen (or_introl eq_refl) _ z (reply_plain _ Hpc) Hpz Ho) as Hs.
  pose proof (includes_flat TClose (or_intror eq_refl) (TOpen :: z)
    (Forall_cons_2 plain TOpen z I Hpz)) as Hi.
  rewrite bool_decide_false in Hi by set_solver.
  assert (Hw : open_thought ts = trim (flat z)).
  { unfold open_thought, ts.
    pose proof (split_last_flat TOpen (or_introl eq_refl) c z Hpc Hpz Ho) as Hs'.
    change (tok_text TOpen) with open_tag in Hs'. change (tok_text TClose) with close_tag in Hi.
    by rewrite Hs', Hi. }
  change (tok_text TOpen) with open_tag in Hs. change (tok_text TClose) with close_tag in Hi.
  unfold kept_display. rewrite display_flat, Er, Et, Hs, Hi, Hw, strip_flat by (done || by apply reply_plain).
  change (drop (length open_tag) (flat (TOpen :: z))) with (flat z). cbn zeta. cbn [reply thinking].
  assert (Hth : Forall (fun w => w <> []) (thoughts_of c) -> thoughts_of c = [] \/ trim (flat z) = [] ->
    JStr (joined r' (thoughts_of c)) =
    if bool_decide (trim (flat z) = []) then
      match thoughts_of c with
      | [] => JStr r | _ => add_thought (JStr r) (join rule (thoughts_of c)) end
    else add_thought match thoughts_of c with
      | [] => JStr r | _ => add_thought (JStr r) (join rule (thoughts_of c)) end (trim (flat z))).
  { intros Hne Hor. rewrite combined_joined by done. unfold r', with_open.
    destruct Hor as [-> | ->].
    - rewrite <-!combined_joined by constructor. by rewrite add_thought_str; repeat case_bool_decide.
    - by rewrite bool_decide_true. }
  destruct (bool_decide_reflect (TOpen ∈ c)) as [Hoc|Hoc]; cbn [p_content p_reasoning].
  - rewrite display_stored, stored_reasoning, trim_idemp by (by apply Forall_trim, chars_plain, reply_plain).
    split; [done|]. intros Hne Hor. cbn [thinking]. by rewrite (Hth Hne Hor).
  - rewrite display_noopen, stored_reasoning by done. unfold reply_of. rewrite read_noopen by done.
    split; [done|]. intros Hne Hor. cbn [thinking]. rewrite <-(Hth Hne Hor).
    unfold thoughts_of. rewrite read_noopen by done. by rewrite <-combined_joined by constructor.
Qed.

Lemma stop_flat ts r :
  Forall plain ts ->
  exists p, processIncompleteThinkTags (JStr (flat ts)) (JStr r) = Ret p /\ kept_display ts r p.
Proof.
  intros Hp. unfold processIncompleteThinkTags. rewrite truthy_str.
  destruct (bool_decide_reflect (flat ts = [])) as [E|E]; cbn [negb].
  { exists (Processed (JStr []) (JStr r)). split; [done|]. rewrite <-E. apply kept_noopen; [done|].
    destruct ts; [apply not_elem_of_nil|]. pose proof (flat_length (t :: ts)) as Hl.
    rewrite E in Hl. cbn in Hl. lia. }
  destruct (decide (TOpen ∈ ts)) as [Hin|Hn].
  - destruct (last_open ts Hin) as (c & z & -> & Ho). destruct (plain_split _ _ _ Hp) as [Hpc Hpz].
    pose proof (split_last_flat TOpen (or_introl eq_refl) c z Hpc Hpz Ho) as Hs.
    pose proof (includes_flat TClose (or_intror eq_refl) (TOpen :: z)
      (Forall_cons_2 plain TOpen z I Hpz)) as Hi.
    change (tok_text TOpen) with open_tag in Hs. change (tok_text TClose) with close_tag in Hi.
    rewrite Hs, Hi. destruct (decide (TClose ∈ z)) as [Hc|Hc].
    + rewrite bool_decide_true by set_solver. cbn [negb]. rewrite process_flat by done.
      rewrite bool_decide_true by done. eexists. split; [done|]. by apply kept_closed.
    + rewrite bool_decide_false by set_solver. cbn [negb].
      change (drop (length open_tag) (flat (TOpen :: z))) with (flat z).
      eexists. split; [|by apply kept_unclosed].
      rewrite <-process_flat by done. f_equal. unfold with_open, ruled. rewrite !truthy_str.
      by repeat case_bool_decide.
  - pose proof (split_last_none TOpen (or_introl eq_refl) ts Hp Hn) as Hs.
    change (tok_text TOpen) with open_tag in Hs. rewrite Hs, process_flat, bool_decide_false by done.
    eexists. split; [done|]. by apply kept_noopen.
Qed.

(** Stopping a reply keeps what is on the screen: on every text in which each [<]
    starts a think tag, the reply shown after [processIncompleteThinkTags] stored the
    message is the one shown while it streamed; so is the thinking panel, when no closed
    thought is empty and the text does not have both closed thoughts and an open one. *)
Theorem stop_keeps_display ts r :
  Forall plain ts ->
  exists p,
    processIncompleteThinkTags (JStr (flat ts)) (JStr r) = Ret p /\
    let before := displayThink true (JStr (flat ts)) (JStr r) in
    let after := displayThink false (p_content p) (js_or (p_reasoning p) JNull) in
    reply after = reply before /\
    (Forall (fun w => w <> []) (thoughts_of ts) ->
     thoughts_of ts = [] \/ open_thought ts = [] ->
     thinking after = thinking before).
Proof.
  intros Hp. destruct (stop_flat ts r Hp) as (p & Hr & Hk). by exists p.
Qed.

(** The tokens of [hi<think>why</think> there<think>mo]. *)
Definition sample_tokens : list token :=
  (TChar <$> u "hi") ++ TOpen :: (TChar <$> u "why") ++ TClose :: (TChar <$> u " there") ++
  TOpen :: (TChar <$> u "mo").

Lemma sample_plain : Forall plain sample_tokens.
Proof. apply (bool_decide_eq_true_1 _). vm_compute. reflexivity. Qed.

Lemma think_tags_spec_witness :
  let s := u "if a < b<think>why</think> then </think>stop" in
  processThinkTags (JStr s) (JStr (u "r")) =
    Ret (Processed (JStr (u "if a < b then stop")) (JStr (u "r" ++ rule ++ u "why"))).
Proof.
  intros s. destruct (think_tags_spec s (u "r")) as (_ & E & _). rewrite E. vm_compute. reflexivity.
Defined.

Lemma stop_keeps_display_witness :
  exists p,
    processIncompleteThinkTags (JStr (flat sample_tokens)) (JStr []) = Ret p /\
    reply (displayThink false (p_content p) (js_or (p_reasoning p) JNull)) = u "hi there".
Proof.
  destruct (stop_keeps_display sample_tokens [] sample_plain) as (p & Hp & Hr & _).
  exists p. split; [exact Hp|]. refine (eq_trans Hr _). vm_compute. reflexivity.
Defined.

(** Stopping a reply in a second thought puts the thoughts in the wrong order: while
    [<think>one</think>a<think>two] streams, the thinking panel shows [one] before [two];
    once it is stopped, it shows [two] before [one]. *)
Theorem stop_reorders_thoughts :
  let content := JStr (u "<think>one</think>a<think>two") in
  displayThink true content (JStr []) = Shown (JStr (u "one" ++ rule ++ u "two")) (u "a") /\
  exists p,
    processIncompleteThinkTags content (JStr []) = Ret p /\
    displayThink false (p_content p) (js_or (p_reasoning p) JNull) =
      Shown (JStr (u "two" ++ rule ++ u "one")) (u "a").
Proof.
  split; [vm_compute; reflexivity|].
  exists (Processed (JStr (u "a")) (JStr (u "two" ++ rule ++ u "one"))).
  split; vm_compute; reflexivity.
Qed.
