(* ===== verification/Playground.v ===== *)
(** * The playground: messages, requests and replies

    The conversation of web/classic/src/pages/Playground: the messages and their helpers
    (helpers/utils.jsx, helpers/api.js), the requests and the events that answer them
    (hooks/playground/useApiRequest.jsx), the actions on messages
    (hooks/playground/useMessageActions.jsx, useMessageEdit.jsx).  A message is an object
    with an identity, because the actions look a message up by reference before they
    look at its [id]; no code writes into a message, it makes a new object.

    An updater given to a state hook is applied when it is given, in order.  What the
    program asks for later ([setTimeout]) is a task that runs as a step of its own.  The
    event source, [fetch], the clock, the translations and the texts of the exceptions of
    the engine are arguments: an event carries what the browser delivers. *)

From S2P Require Import Prelude JsString JsNumber JsNumText JsValue JsJson Think.

Notation props := (list (jsstr * jsv)) (only parsing).

(** ** Messages *)

Record message := Message { m_ref : nat; m_props : props }.

#[export] Instance message_ref_eq (a b : message) : Decision (m_ref a = m_ref b) := _.

(** [m.k] *)
Definition field (m : message) (k : string) : jsv := oget (JObj (m_props m)) (u k).

(** The list on the page, and the next identity. *)
Record chat := Chat { msgs : list message; nextRef : nat }.

(** A new object. *)
Definition alloc (o : props) (c : chat) : message * chat :=
  (Message (nextRef c) o, Chat (msgs c) (S (nextRef c))).
Definition setMessage (l : list message) (c : chat) : chat := Chat l (nextRef c).

(** [{ ...m, ...o }] *)
Definition spread_msg (m : message) (o : props) : props := obj_merge (m_props m) o.

(** [[...list.slice(0, -1), { ...m, ...o }]] *)
Definition replace_last (m : message) (o : props) (c : chat) : chat :=
  let '(m', c') := alloc (spread_msg m o) c in
  setMessage (removelast (msgs c) ++ [m']) c'.

(** The tests on roles and states. *)
Definition has_role (r : string) (m : message) : bool := is_str (field m "role") (u r).
Definition has_status (s : string) (m : message) : bool := is_str (field m "status") (u s).
(** LOADING or INCOMPLETE *)
Definition generating (m : message) : bool := has_status "loading" m || has_status "incomplete" m.
(** COMPLETE or ERROR *)
Definition settled (m : message) : bool := has_status "complete" m || has_status "error" m.

(** ** helpers/utils.jsx *)

(** The clock and the texts of the engine at one event. *)
Record env := Env {
  now : num;                 (** [Date.now()] *)
  iso : jsstr;               (** [new Date().toISOString()] *)
  stack : jsv;               (** [error.stack] *)
  errorText : jsstr;         (** the message of an error the engine throws *)
  streamFails : option jsstr (** the error of [source.stream()], if it throws *)
}.

(** The module's counter of message ids. *)
Definition first_message_id : Z := 4.
Definition generateMessageId (messageId : Z) : jsstr * Z := (str_of_Z messageId, messageId + 1).

Definition getTextContent (content : jsv) : jsv :=
  if negb (truthy content) then JStr []
  else match content with
       | JArr l =>
           match List.find (fun item => is_str (item?."type") (u "text")) l with
           | Some textContent => js_or (textContent?."text") (JStr [])
           | None => JStr []
           end
       | JStr s => JStr s
       | _ => JStr []
       end.

(** [url && url.trim() !== ''] *)
Definition url_given (url : jsv) : exc bool :=
  if negb (truthy url) then Ret false
  else s ← as_string url; Ret (negb (bool_decide (trim s = []))).

Fixpoint exc_filter {A : Type} (f : A -> exc bool) (l : list A) : exc (list A) :=
  match l with
  | [] => Ret []
  | x :: l' => b ← f x; r ← exc_filter f l'; Ret (if b : bool then x :: r else r)
  end.

Definition image_part (url : jsv) : exc jsv :=
  s ← as_string url;
  Ret (JObj [(u "type", JStr (u "image_url"));
             (u "image_url", JObj [(u "url", JStr (trim s))])]).

(** [imageUrls] is a list here: its callers filter an array. *)
Definition buildMessageContent (textContent : jsv) (imageUrls : list jsv) (imageEnabled : bool) : exc jsv :=
  if negb (truthy textContent) && bool_decide (imageUrls = []) then Ret (JStr [])
  else
    validImageUrls ← exc_filter url_given imageUrls;
    if imageEnabled && negb (bool_decide (validImageUrls = [])) then
      parts ← exc_map image_part validImageUrls;
      Ret (JArr (JObj [(u "type", JStr (u "text")); (u "text", js_or textContent (JStr []))] :: parts))
    else Ret (js_or textContent (JStr [])).

Definition createMessage (e : env) (role : string) (content : jsv) (options : props) (messageId : Z)
    : props * Z :=
  let '(id, messageId) := generateMessageId messageId in
  (obj_merge [(u "role", JStr (u role)); (u "content", content);
              (u "createAt", JNum (now e)); (u "id", JStr id)] options, messageId).

Definition createLoadingAssistantMessage (e : env) (messageId : Z) : props * Z :=
  createMessage e "assistant" (JStr [])
    [(u "reasoningContent", JStr []); (u "isReasoningExpanded", JBool true);
     (u "isThinkingComplete", JBool false); (u "hasAutoCollapsed", JBool false);
     (u "status", JStr (u "loading"))] messageId.

Definition formatMessageForAPI (m : message) : jsv :=
  JObj [(u "role", field m "role"); (u "content", field m "content")].

Definition isValidMessage (m : message) : bool :=
  truthy (field m "role") && (truthy (field m "content") || is_str (field m "content") []).

(** ** helpers/api.js *)

Definition parameters : list string :=
  ["temperature"; "top_p"; "max_tokens"; "frequency_penalty"; "presence_penalty"; "seed"]%string.

Definition is_number (v : jsv) : bool := match v with JNum _ => true | _ => false end.

(** One enabled parameter. *)
Definition add_parameter (inputs parameterEnabled : props) (payload : props) (key : string) : props :=
  let enabled := oget (JObj parameterEnabled) (u key) in
  let value := oget (JObj inputs) (u key) in
  if negb (truthy enabled) then payload
  else if bool_decide (key = "max_tokens"%string) then
    if is_number value then obj_set (u key) value payload else payload
  else if negb (is_nullish value) then obj_set (u key) value payload
  else payload.

Definition buildApiPayload (messages : list message) (systemPrompt : jsv)
    (inputs parameterEnabled : props) : exc jsv :=
  let processedMessages := formatMessageForAPI <$> List.filter isValidMessage messages in
  sys ← (if truthy systemPrompt then s ← as_string systemPrompt; Ret (trim s) else Ret []);
  let processedMessages :=
    if bool_decide (sys = []) then processedMessages
    else JObj [(u "role", JStr (u "system")); (u "content", JStr sys)] :: processedMessages in
  let payload :=
    [(u "model", oget (JObj inputs) (u "model")); (u "group", oget (JObj inputs) (u "group"));
     (u "messages", JArr processedMessages); (u "stream", oget (JObj inputs) (u "stream"))] in
  Ret (JObj (fold_left (add_parameter inputs parameterEnabled) parameters payload)).

(** [response] is its status and status text. *)
Definition handleApiError (e : env) (message : jsstr) (response : option (num * jsstr)) : props :=
  let errorInfo :=
    [(u "error", JStr (if bool_decide (message = []) then u "未知错误" else message));
     (u "timestamp", JStr (iso e)); (u "stack", stack e)] in
  let errorInfo :=
    match response with
    | Some (status, statusText) =>
        obj_set (u "statusText") (JStr statusText) (obj_set (u "status") (JNum status) errorInfo)
    | None => errorInfo
    end in
  if includes (u "HTTP error") message then
    obj_set (u "details") (JStr (u "服务器返回了错误状态码")) errorInfo
  else if includes (u "Failed to fetch") message then
    obj_set (u "details") (JStr (u "网络连接失败或服务器无响应")) errorInfo
  else errorInfo.

(** [JSON.stringify(v, null, 2)], on a value that is not undefined. *)
Definition pretty (v : jsv) : jsstr := default (u "undefined") (stringify2 0 v).

(** ** useApiRequest.jsx: the updates of the conversation *)

Definition applyAutoCollapseLogic (m : message) (isThinkingComplete : jsv) : props :=
  let shouldAutoCollapse :=
    js_and isThinkingComplete (JBool (negb (truthy (field m "hasAutoCollapsed")))) in
  [(u "isThinkingComplete", isThinkingComplete);
   (u "hasAutoCollapsed", js_or shouldAutoCollapse (field m "hasAutoCollapsed"));
   (u "isReasoningExpanded",
     if truthy shouldAutoCollapse then JBool false else field m "isReasoningExpanded")].

Inductive chunk_type := reasoning | content.

Definition stream_reasoning (m : message) (textChunk : jsv) : props :=
  [(u "reasoningContent", js_plus (js_or (field m "reasoningContent") (JStr [])) textChunk);
   (u "status", JStr (u "incomplete")); (u "isThinkingComplete", JBool false)].

(** [thinkingCompleteFromTags] *)
Definition thinking_from_tags (m : message) (newContent : jsv) : exc jsv :=
  if truthy (field m "isReasoningExpanded") then
    s ← as_string newContent;
    Ret (if includes close_tag s && negb (count_tag open_tag s =? 0)%nat
            && (count_tag open_tag s <=? count_tag close_tag s)%nat
         then JBool true else field m "isThinkingComplete")
  else Ret (field m "isThinkingComplete").

Definition stream_content (m : message) (textChunk : jsv) : exc props :=
  let newContent := js_plus (js_or (field m "content") (JStr [])) textChunk in
  thinkingCompleteFromTags ← thinking_from_tags m newContent;
  let isThinkingComplete :=
    js_or (js_and (field m "reasoningContent") (JBool (negb (truthy (field m "isThinkingComplete")))))
      thinkingCompleteFromTags in
  Ret ([(u "content", newContent); (u "status", JStr (u "incomplete"))]
       ++ applyAutoCollapseLogic m isThinkingComplete).

Definition streamMessageUpdate (textChunk : jsv) (type : chunk_type) (c : chat) : exc chat :=
  match last (msgs c) with
  | None => Ret c
  | Some m =>
      if negb (has_role "assistant" m) then Ret c
      else if has_status "error" m then Ret c
      else if generating m then
        match type with
        | reasoning => Ret (replace_last m (stream_reasoning m textChunk) c)
        | content => o ← stream_content m textChunk; Ret (replace_last m o c)
        end
      else Ret c
  end.

(** What is asked for later.  [onMessageSend] and the regeneration run with the
    settings of the moment they were asked for. *)
Record settings := Settings {
  inputs : props;
  parameterEnabled : props;
  showDebugPanel : jsv;
  customRequestMode : jsv;
  customRequestBody : jsv
}.

Inductive task :=
  | TSave (l : list message)                      (** [saveMessages(l)] *)
  | TSend (cfg : settings) (content : jsv)        (** [onMessageSend(content)] *)
  | TRegenerate (cfg : settings) (l : list message)
  | TImageOff                                     (** [handleInputChange('imageEnabled', false)] *)
  | TDefaults.                                    (** [setMessage(getDefaultMessages(t))] *)

(** [completeMessage(status)]; an empty list has no [status] to read. *)
Definition completeMessage (status : string) (c : chat) : exc (chat * list task) :=
  match last (msgs c) with
  | None => Throw (u "TypeError")
  | Some m =>
      if settled m then Ret (c, [])
      else
        let c' := replace_last m
          ([(u "status", JStr (u status))] ++ applyAutoCollapseLogic m (JBool true)) c in
        Ret (c', if bool_decide (status = "complete"%string) || bool_decide (status = "error"%string)
                 then [TSave (msgs c')] else [])
  end.

(** The last message when it still waits for its reply. *)
Definition update_loading (o : message -> props) (c : chat) : chat :=
  match last (msgs c) with
  | Some m => if has_status "loading" m then replace_last m (o m) c else c
  | None => c
  end.

(** The reply of a request that does not stream. *)
Definition receive_reply (p : processed) : chat -> chat :=
  update_loading (fun m =>
    [(u "content", p_content p); (u "reasoningContent", p_reasoning p);
     (u "status", JStr (u "complete"))] ++ applyAutoCollapseLogic m (JBool true)).

(** [t('请求发生错误: ') + error.message] *)
Definition receive_failure (text : jsstr) (errorCode : jsv) : chat -> chat :=
  update_loading (fun m =>
    [(u "content", JStr text); (u "errorCode", js_or errorCode JNull);
     (u "status", JStr (u "error"))] ++ applyAutoCollapseLogic m (JBool true)).

(** The update of the [error] listener. *)
Definition sse_failure (errorMessage errorCode : jsv) (c : chat) : chat :=
  match last (msgs c) with
  | Some m =>
      if settled m then c
      else replace_last m
        [(u "content", js_plus (js_or (field m "content") (JStr [])) errorMessage);
         (u "errorCode", errorCode); (u "status", JStr (u "error"))] c
  | None => c
  end.

(** The update of [onStopGenerator]. *)
Definition stop_message (c : chat) : exc (chat * list task) :=
  match last (msgs c) with
  | Some m =>
      if generating m then
        p ← processIncompleteThinkTags (js_or (field m "content") (JStr []))
              (js_or (field m "reasoningContent") (JStr []));
        let c' := replace_last m
          ([(u "status", JStr (u "complete")); (u "reasoningContent", js_or (p_reasoning p) JNull);
            (u "content", p_content p)] ++ applyAutoCollapseLogic m (JBool true)) c in
        Ret (c', [TSave (msgs c')])
      else Ret (c, [])
  | None => Ret (c, [])
  end.
