(* ===== verification/PlaygroundPage.v ===== *)
(** * The playground: the page

    The state of the page and its handlers: requests, the events of the event source and
    of [fetch], the actions on messages, and what is kept in the browser's storage
    (web/classic/src/pages/Playground/index.jsx, hooks/playground/,
    components/playground/configStorage.js).  Writing to the storage succeeds. *)

From S2P Require Import Prelude JsString JsNumber JsNumText JsValue JsJson Think Playground.

(** ** State *)

(** What the listeners of one event source share. *)
Record conn := Conn {
  responseData : jsstr;
  hasReceivedFirstResponse : bool;
  isStreamComplete : bool;
  closed : bool                          (** [source.close()] was called *)
}.

Record editing := Editing {
  editingMessageId : jsv;
  editingMessageRef : option message;
  editValue : jsv
}.
Definition not_editing : editing := Editing JNull None (JStr []).

(** The question whether to regenerate, with the list and the index it is about. *)
Record confirm := Confirm { c_settings : settings; c_updated : list message; c_index : nat }.

#[projections(primitive)]
Record page := Page {
  conversation : chat;
  messageId : Z;                         (** the counter of helpers/utils.jsx *)
  config : settings;
  debugData : props;
  activeDebugTab : jsstr;
  conns : list conn;                     (** the event sources opened so far *)
  sseSourceRef : option nat;
  pending : nat;                         (** the calls of [fetch] that wait *)
  sent : list (jsv * bool);              (** the requests: body, streaming *)
  tasks : list task;
  edit : editing;
  asked : option confirm;
  initialMessages : bool;                (** the page found messages when it was opened *)
  storedMessages : option jsstr;         (** localStorage 'playground_messages' *)
  storedConfig : option jsstr            (** localStorage 'playground_config' *)
}.

Definition set_conversation v '(Page _ b c d e f g h i j k l m n o) := Page v b c d e f g h i j k l m n o.
Definition set_messageId v '(Page a _ c d e f g h i j k l m n o) := Page a v c d e f g h i j k l m n o.
Definition set_config v '(Page a b _ d e f g h i j k l m n o) := Page a b v d e f g h i j k l m n o.
Definition set_debugData v '(Page a b c _ e f g h i j k l m n o) := Page a b c v e f g h i j k l m n o.
Definition set_activeDebugTab v '(Page a b c d _ f g h i j k l m n o) := Page a b c d v f g h i j k l m n o.
Definition set_conns v '(Page a b c d e _ g h i j k l m n o) := Page a b c d e v g h i j k l m n o.
Definition set_sseSourceRef v '(Page a b c d e f _ h i j k l m n o) := Page a b c d e f v h i j k l m n o.
Definition set_pending v '(Page a b c d e f g _ i j k l m n o) := Page a b c d e f g v i j k l m n o.
Definition set_sent v '(Page a b c d e f g h _ j k l m n o) := Page a b c d e f g h v j k l m n o.
Definition set_tasks v '(Page a b c d e f g h i _ k l m n o) := Page a b c d e f g h i v k l m n o.
Definition set_edit v '(Page a b c d e f g h i j _ l m n o) := Page a b c d e f g h i j v l m n o.
Definition set_asked v '(Page a b c d e f g h i j k _ m n o) := Page a b c d e f g h i j k v m n o.
Definition set_storedMessages v '(Page a b c d e f g h i j k l m _ o) := Page a b c d e f g h i j k l m v o.
Definition set_storedConfig v '(Page a b c d e f g h i j k l m n _) := Page a b c d e f g h i j k l m n v.

Definition messages (p : page) : list message := msgs (conversation p).

(** [setDebugData((prev) => ({ ...prev, ...o }))] *)
Definition mergeDebug (o : props) (p : page) : page := set_debugData (obj_merge (debugData p) o) p.
Definition setTimeout (l : list task) (p : page) : page := set_tasks (tasks p ++ l) p.

(** An updater of the conversation that also asks for tasks. *)
Definition update (f : chat -> exc (chat * list task)) (p : page) : exc page :=
  r ← f (conversation p);
  Ret (setTimeout r.2 (set_conversation r.1 p)).
Definition update_chat (f : chat -> exc chat) : page -> exc page :=
  update (fun c => c' ← f c; Ret (c', [])).

(** [[...(prev.sseMessages || []), data]] *)
Definition add_sse (data : jsstr) (p : page) : jsv :=
  JArr (arr_or_empty (oget (JObj (debugData p)) (u "sseMessages")) ++ [JStr data]).

Section Page.
Context (t : jsstr -> jsstr).            (** the translations *)

Definition stream (text : jsv) (type : chunk_type) : page -> exc page :=
  update_chat (streamMessageUpdate text type).
Definition complete (status : string) : page -> exc page := update (completeMessage status).

(** ** Requests that stream *)

Definition handleSSE (e : env) (payload : jsv) (p : page) : exc page :=
  let p := mergeDebug [(u "request", payload); (u "timestamp", JStr (iso e)); (u "response", JNull);
                       (u "sseMessages", JArr []); (u "isStreaming", JBool true)] p in
  let p := set_activeDebugTab (u "request") p in
  let p := set_sseSourceRef (Some (length (conns p))) p in
  let p := set_conns (conns p ++ [Conn [] false false false]) p in
  let p := set_sent (sent p ++ [(payload, true)]) p in
  match streamFails e with
  | None => Ret p
  | Some message =>
      let errorInfo := handleApiError e message None in
      let p := mergeDebug [(u "response",
        JStr (u "Stream启动失败:" ++ [10] ++ pretty (JObj errorInfo)))] p in
      let p := set_activeDebugTab (u "response") p in
      p ← stream (JStr (t (u "建立连接时发生错误"))) content p;
      complete "error" p
  end.

Definition set_conn (i : nat) (k : conn) (p : page) : page := set_conns (<[i := k]> (conns p)) p.
Definition close (k : conn) : conn :=
  Conn (responseData k) (hasReceivedFirstResponse k) (isStreamComplete k) true.

(** The [catch] of the [message] listener. *)
Definition bad_data (e : env) (k : conn) (data : jsstr) (p : page) : exc page :=
  let errorInfo := u "解析错误: " ++ errorText e in
  let p := mergeDebug [(u "response", JStr (responseData k ++ [10; 10] ++ u "Error: " ++ errorInfo));
                       (u "sseMessages", add_sse data p); (u "isStreaming", JBool false)] p in
  let p := set_activeDebugTab (u "response") p in
  p ← stream (JStr (t (u "解析响应数据时发生错误"))) content p;
  complete "error" p.

(** The text of one event goes to the last message. *)
Definition stream_delta (delta : jsv) (p : page) : exc page :=
  if negb (truthy delta) then Ret p
  else
    let part k type (p : page) :=
      if truthy (oget delta (u k)) then stream (oget delta (u k)) type p else Ret p in
    p ← part "reasoning_content" reasoning p;
    p ← part "reasoning" reasoning p;
    part "content" content p.

(** The [message] listener of the source [i]. *)
Definition on_message (e : env) (i : nat) (data : jsstr) (p : page) : exc page :=
  match conns p !! i with
  | None => Ret p
  | Some k =>
      if bool_decide (data = u "[DONE]") then
        let p := set_conn i (Conn (responseData k) (hasReceivedFirstResponse k) true true) p in
        let p := set_sseSourceRef None p in
        let p := mergeDebug [(u "response", JStr (responseData k));
                             (u "sseMessages", add_sse data p); (u "isStreaming", JBool false)] p in
        complete "complete" p
      else
        match json_parse data with
        | None => bad_data e k data p
        | Some payload =>
            let k' := Conn (responseData k ++ data ++ [10]) true (isStreamComplete k) (closed k) in
            let p := set_conn i k' p in
            let p := if hasReceivedFirstResponse k then p else set_activeDebugTab (u "response") p in
            let p := mergeDebug [(u "sseMessages", add_sse data p)] p in
            if is_nullish payload then bad_data e k' data p
            else stream_delta ((oget (payload?."choices") (u "0"))?."delta") p
        end
  end.

(** What the [error] listener reads from the event's data. *)
Definition sse_error (data : jsv) : jsv * jsv :=
  let errorMessage := js_or data (JStr (t (u "请求发生错误"))) in
  match data with
  | JStr d =>
      if truthy data then
        match json_parse d with
        | Some errorJson =>
            let err := errorJson?."error" in
            if truthy err then (js_or (err?."message") errorMessage, js_or (err?."code") JNull)
            else (errorMessage, JNull)
        | None => (errorMessage, JNull)
        end
      else (errorMessage, JNull)
  | _ => (errorMessage, JNull)
  end.

(** The [error] listener: [data] is a string or undefined, [readyState] the state of the
    source. *)
Definition on_error (e : env) (i : nat) (data : jsv) (readyState : Z) (p : page) : exc page :=
  match conns p !! i with
  | None => Ret p
  | Some k =>
      if negb (isStreamComplete k) && negb (readyState =? 2) then
        let '(errorMessage, errorCode) := sse_error data in
        let errorInfo := obj_set (u "readyState") (JNum (of_Z readyState))
          (handleApiError e (to_string errorMessage) None) in
        let p := mergeDebug [(u "response",
          JStr (responseData k ++ [10; 10] ++ u "SSE Error:" ++ [10] ++ pretty (JObj errorInfo)))] p in
        let p := set_activeDebugTab (u "response") p in
        p ← update_chat (fun c => Ret (sse_failure errorMessage errorCode c)) p;
        Ret (set_conn i (close k) (set_sseSourceRef None p))
      else Ret p
  end.

(** The [readystatechange] listener: the state in the event, the HTTP status and the
    state of the source. *)
Definition on_readystatechange (e : env) (i : nat) (state : Z) (status : jsv) (readyState : Z)
    (p : page) : exc page :=
  match conns p !! i with
  | None => Ret p
  | Some k =>
      if (2 <=? state) && negb (strict_eq status JUndef) && negb (strict_eq status (JNum (of_Z 200)))
         && negb (isStreamComplete k) then
        let errorInfo := obj_set (u "readyState") (JNum (of_Z readyState))
          (obj_set (u "status") status (handleApiError e (u "HTTP状态错误") None)) in
        let p := mergeDebug [(u "response",
          JStr (responseData k ++ [10; 10] ++ u "HTTP Error:" ++ [10] ++ pretty (JObj errorInfo)))] p in
        let p := set_activeDebugTab (u "response") p in
        let p := set_conn i (close k) p in
        p ← stream (JStr (t (u "连接已断开"))) content p;
        complete "error" p
      else Ret p
  end.

(** ** Requests that do not stream *)

(** Up to the [await] of [fetch]. *)
Definition handleNonStreamRequest (e : env) (payload : jsv) (p : page) : page :=
  let p := mergeDebug [(u "request", payload); (u "timestamp", JStr (iso e)); (u "response", JNull);
                       (u "sseMessages", JNull); (u "isStreaming", JBool false)] p in
  let p := set_activeDebugTab (u "request") p in
  let p := set_sent (sent p ++ [(payload, false)]) p in
  set_pending (S (pending p)) p.

Inductive fetch_outcome :=
  | Rejected (message : jsstr)                              (** [fetch] or [json()] throws *)
  | HttpError (status : num) (statusText : jsstr) (body : option jsstr)
  | Reply (data : jsv).

(** [errorBody] and [parsedError]. *)
Definition error_body (body : option jsstr) : jsstr * jsv :=
  let unreadable := u "无法读取错误响应体" in
  match body with
  | None => (unreadable, JNull)
  | Some b =>
      match json_parse b with
      | None => (if bool_decide (b = []) then unreadable else b, JNull)
      | Some errorJson => (b, if truthy (errorJson?."error") then errorJson?."error" else JNull)
      end
  end.

Definition set_response (text : jsstr) (p : page) : page :=
  set_activeDebugTab (u "response") (mergeDebug [(u "response", JStr text)] p).

(** The [catch] block. *)
Definition request_fails (e : env) (message : jsstr) (errorCode : jsv) (p : page) : exc page :=
  let p := set_response (pretty (JObj (handleApiError e message None))) p in
  update_chat (fun c => Ret (receive_failure (t (u "请求发生错误: ") ++ message) errorCode c)) p.

(** The reply of the first choice. *)
Definition choice_reply (data : jsv) : exc (option processed) :=
  if is_nullish data then Throw (u "TypeError")
  else
    let choice := oget (data?."choices") (u "0") in
    if truthy choice then
      let m := choice?."message" in
      p ← processThinkTags (js_or (m?."content") (JStr []))
            (js_or (m?."reasoning_content") (js_or (m?."reasoning") (JStr [])));
      Ret (Some p)
    else Ret None.

(** After the [await]. *)
Definition fetch_returns (e : env) (o : fetch_outcome) (p : page) : exc page :=
  let p := set_pending (pred (pending p)) p in
  match o with
  | Rejected message => request_fails e message JNull p
  | HttpError status statusText body =>
      let '(errorBody, parsedError) := error_body body in
      let text := u "HTTP error! status: " ++ num_to_string status ++ u ", body: " ++ errorBody in
      let p := set_response (pretty (JObj (handleApiError e text (Some (status, statusText))))) p in
      request_fails e (to_string (js_or (parsedError?."message") (JStr text)))
        (js_or (parsedError?."code") JNull) p
  | Reply data =>
      let p := set_response (pretty data) p in
      match choice_reply data with
      | Throw _ => request_fails e (errorText e) JNull p
      | Ret None => Ret p
      | Ret (Some r) => update_chat (fun c => Ret (receive_reply r c)) p
      end
  end.

Definition sendRequest (e : env) (payload : jsv) (isStream : bool) (p : page) : exc page :=
  if isStream then handleSSE e payload p else Ret (handleNonStreamRequest e payload p).

Definition onStopGenerator (p : page) : exc page :=
  let p := match sseSourceRef p with
           | Some i =>
               let p := match conns p !! i with Some k => set_conn i (close k) p | None => p end in
               set_sseSourceRef None p
           | None => p
           end in
  update stop_message p.

(** ** Sending a message *)

(** Several new objects, in order. *)
Fixpoint alloc_all (l : list props) (c : chat) : list message * chat :=
  match l with
  | [] => ([], c)
  | o :: l' => let '(m, c) := alloc o c in let '(ms, c) := alloc_all l' c in (m :: ms, c)
  end.

(** [setMessage((prev) => [...prev, ...l])] *)
Definition append_messages (l : list props) (p : page) : page :=
  let '(ms, c) := alloc_all l (conversation p) in
  set_conversation (setMessage (msgs c ++ ms) c) p.

Definition input_of (cfg : settings) (k : string) : jsv := oget (JObj (inputs cfg)) (u k).

(** [inputs.imageUrls.filter((url) => url.trim() !== '')] *)
Definition valid_urls (cfg : settings) : exc (list jsv) :=
  match input_of cfg "imageUrls" with
  | JArr l => exc_filter (fun url => s ← as_string url; Ret (negb (bool_decide (trim s = [])))) l
  | _ => Throw (u "TypeError")
  end.

(** Custom mode: the body is sent as it is. *)
Definition send_custom (e : env) (body : jsv) (user loading : props) (p : page) : exc page :=
  text ← as_string body;
  match json_parse text with
  | None => Ret p
  | Some customPayload =>
      if is_nullish customPayload then Throw (u "TypeError")
      else
        let p := append_messages [user; loading] p in
        let newMessages := messages p in
        p ← sendRequest e customPayload (negb (is_false (customPayload?."stream"))) p;
        Ret (setTimeout [TSave newMessages] p)
  end.

(** [onMessageSend(content)] of the render with the settings [cfg]. *)
Definition onMessageSend (e : env) (cfg : settings) (text : jsv) (p : page) : exc page :=
  let '(userMessage, id) := createMessage e "user" text [] (messageId p) in
  let '(loadingMessage, id) := createLoadingAssistantMessage e id in
  if truthy (js_and (customRequestMode cfg) (customRequestBody cfg)) then
    send_custom e (customRequestBody cfg) userMessage loadingMessage (set_messageId id p)
  else
    validImageUrls ← valid_urls cfg;
    messageContent ← buildMessageContent text validImageUrls (truthy (input_of cfg "imageEnabled"));
    let '(userMessageWithImages, id) := createMessage e "user" messageContent [] id in
    let p := set_messageId id p in
    let p1 := append_messages [userMessageWithImages] p in
    payload ← buildApiPayload (messages p1) JNull (inputs cfg) (parameterEnabled cfg);
    let p2 := append_messages [loadingMessage] p1 in
    let messagesWithLoading := messages p2 in
    p ← sendRequest e payload (truthy (input_of cfg "stream")) p2;
    Ret (setTimeout ((if truthy (input_of cfg "imageEnabled") then [TImageOff] else [])
                     ++ [TSave messagesWithLoading]) p).

(** ** useMessageActions.jsx *)

Fixpoint find_index {A : Type} (f : A -> bool) (l : list A) : option nat :=
  match l with
  | [] => None
  | x :: l' => if f x then Some 0%nat else S <$> find_index f l'
  end.

Definition same_id (id : jsv) (m : message) : bool := strict_eq (field m "id") id.

(** By reference, then by id. *)
Definition find_message (ref : option nat) (id : jsv) (l : list message) : option nat :=
  match find_index (fun m => bool_decide (Some (m_ref m) = ref)) l with
  | Some i => Some i
  | None => find_index (same_id id) l
  end.
Definition find_target (target : message) : list message -> option nat :=
  find_message (Some (m_ref target)) (field target "id").

(** The last user message before the index. *)
Fixpoint user_before (l : list message) (i : nat) : option (nat * message) :=
  match i with
  | O => None
  | S i' =>
      match l !! i' with
      | Some m => if has_role "user" m then Some (i', m) else user_before l i'
      | None => user_before l i'
      end
  end.

Definition handleMessageReset (target : message) (p : page) : page :=
  let resend i (m : message) :=
    setTimeout [TSend (config p) (getTextContent (field m "content"))]
      (set_conversation (setMessage (take i (messages p)) (conversation p)) p) in
  match find_target target (messages p) with
  | None => p
  | Some messageIndex =>
      if has_role "user" target then resend messageIndex target
      else if has_role "assistant" target || has_role "system" target then
        match user_before (messages p) messageIndex with
        | Some (i, m) => resend i m
        | None => p
        end
      else p
  end.

(** [list.filter((_, index) => ...)] without two neighbours, and without an id. *)
Definition without_pair (i : nat) (l : list message) : list message := take i l ++ drop (i + 2) l.
Definition without_id (id : jsv) (l : list message) : list message :=
  List.filter (fun m => negb (same_id id m)) l.

(** Once the deletion is confirmed. *)
Definition handleMessageDelete (target : message) (p : page) : page :=
  match find_target target (messages p) with
  | None => p
  | Some messageIndex =>
      let next := messages p !! S messageIndex in
      let updatedMessages :=
        if has_role "user" target && from_option (has_role "assistant") false next
        then without_pair messageIndex (messages p)
        else without_id (field target "id") (messages p) in
      setTimeout [TSave updatedMessages]
        (set_conversation (setMessage updatedMessages (conversation p)) p)
  end.

(** [list.map((m) => cond(m) ? { ...m, ...o(m) } : m)] *)
Fixpoint map_messages (cond : message -> bool) (o : message -> props) (l : list message) (c : chat)
    : list message * chat :=
  match l with
  | [] => ([], c)
  | m :: l' =>
      let '(m', c) := if cond m then alloc (spread_msg m (o m)) c else (m, c) in
      let '(l'', c) := map_messages cond o l' c in (m' :: l'', c)
  end.

Definition set_mapped (cond : message -> bool) (o : message -> props) (p : page) : page :=
  let '(l, c) := map_messages cond o (messages p) (conversation p) in
  set_conversation (setMessage l c) p.

Definition handleRoleToggle (target : message) (p : page) : page :=
  let is_model m := has_role "assistant" m || has_role "system" m in
  if negb (is_model target) then p
  else
    let newRole := if has_role "assistant" target then "system"%string else "assistant"%string in
    let p := set_mapped (fun m => same_id (field target "id") m && is_model m)
               (fun _ => [(u "role", JStr (u newRole))]) p in
    setTimeout [TSave (messages p)] p.

(** ** useMessageEdit.jsx *)

Definition handleMessageEdit (target : message) (p : page) : page :=
  set_edit (Editing (field target "id") (Some target) (getTextContent (field target "content"))) p.
Definition setEditValue (value : jsv) (p : page) : page :=
  set_edit (Editing (editingMessageId (edit p)) (editingMessageRef (edit p)) value) p.
Definition handleEditCancel (p : page) : page := set_edit not_editing p.

Definition edited_content (old : jsv) (value : jsstr) : jsv :=
  match old with
  | JArr l =>
      JArr ((fun item =>
        if is_str (item?."type") (u "text") then JObj (obj_merge (entries item) [(u "text", JStr value)])
        else item) <$> l)
  | _ => JStr value
  end.

Definition handleEditSave (p : page) : exc page :=
  let ed := edit p in
  if negb (truthy (editingMessageId ed)) then Ret p
  else
    text ← as_string (editValue ed);
    let value := trim text in
    if bool_decide (value = []) then Ret p
    else
    let messageIndex :=
      find_message (m_ref <$> editingMessageRef ed) (editingMessageId ed) (messages p) in
    match messageIndex ≫= fun i => (fun m => (i, m)) <$> messages p !! i with
    | None => Throw (u "TypeError")
    | Some (i, target) =>
        let newContent := edited_content (field target "content") value in
        let '(updatedMessages, c) :=
          map_messages (same_id (editingMessageId ed)) (fun _ => [(u "content", newContent)])
            (messages p) (conversation p) in
        let answered :=
          has_role "user" target &&
          from_option (has_role "assistant") false (messages p !! S i) in
        if answered then
          Ret (set_edit not_editing
            (set_asked (Some (Confirm (config p) updatedMessages i)) (set_conversation c p)))
        else
          Ret (set_edit not_editing (setTimeout [TSave updatedMessages]
            (set_conversation (setMessage updatedMessages c) p)))
    end.

(** The answers to the question, if it was asked. *)
Definition regenerate_ok (p : page) : page :=
  match asked p with
  | None => p
  | Some q =>
      let messagesUntilUser := take (S (c_index q)) (c_updated q) in
      setTimeout [TSave messagesUntilUser; TRegenerate (c_settings q) messagesUntilUser]
        (set_conversation (setMessage messagesUntilUser (conversation p)) (set_asked None p))
  end.
Definition regenerate_cancel (p : page) : page :=
  match asked p with
  | None => p
  | Some q =>
      setTimeout [TSave (c_updated q)]
        (set_conversation (setMessage (c_updated q) (conversation p)) (set_asked None p))
  end.

(** The timer of the regeneration. *)
Definition regenerate (e : env) (cfg : settings) (l : list message) (p : page) : exc page :=
  payload ← buildApiPayload l JNull (inputs cfg) (parameterEnabled cfg);
  let '(loadingMessage, id) := createLoadingAssistantMessage e (messageId p) in
  let p := append_messages [loadingMessage] (set_messageId id p) in
  sendRequest e payload (truthy (input_of cfg "stream")) p.

(** ** pages/Playground/index.jsx: the other handlers *)

Definition toggleReasoningExpansion (id : jsv) : page -> page :=
  set_mapped (fun m => same_id id m && has_role "assistant" m)
    (fun m => [(u "isReasoningExpanded", JBool (negb (truthy (field m "isReasoningExpanded"))))]).

Definition handleClearMessages (p : page) : page :=
  setTimeout [TSave []] (set_conversation (setMessage [] (conversation p)) p).

Definition handleInputChange (name : jsstr) (value : jsv) (p : page) : page :=
  let c := config p in
  set_config (Settings (obj_merge (inputs c) [(name, value)]) (parameterEnabled c) (showDebugPanel c)
                (customRequestMode c) (customRequestBody c)) p.

Definition handleParameterToggle (name : jsstr) (p : page) : page :=
  let c := config p in
  set_config (Settings (inputs c)
      (obj_merge (parameterEnabled c)
         [(name, JBool (negb (truthy (oget (JObj (parameterEnabled c)) name))))])
      (showDebugPanel c) (customRequestMode c) (customRequestBody c)) p.

Definition handlePasteImage (base64Data : jsv) (p : page) : page :=
  if negb (truthy (input_of (config p) "imageEnabled")) then p
  else handleInputChange (u "imageUrls")
         (JArr (arr_or_empty (input_of (config p) "imageUrls") ++ [base64Data])) p.

(** ** configStorage.js *)

Definition default_inputs : props :=
  [(u "model", JStr (u "gpt-4o")); (u "group", JStr []); (u "temperature", JNum (num_div (of_Z 7) (of_Z 10)));
   (u "top_p", JNum (of_Z 1)); (u "max_tokens", JNum (of_Z 4096));
   (u "frequency_penalty", JNum (of_Z 0)); (u "presence_penalty", JNum (of_Z 0));
   (u "seed", JNull); (u "stream", JBool true); (u "imageEnabled", JBool false);
   (u "imageUrls", JArr [JStr []])].
Definition default_enabled : props :=
  [(u "temperature", JBool true); (u "top_p", JBool true); (u "max_tokens", JBool false);
   (u "frequency_penalty", JBool true); (u "presence_penalty", JBool true); (u "seed", JBool false)].
Definition DEFAULT_CONFIG : settings :=
  Settings default_inputs default_enabled (JBool false) (JBool false) (JStr []).

(** The objects that are written. *)
Definition saved_messages (e : env) (l : list message) : jsv :=
  JObj [(u "messages", JArr ((fun m => JObj (m_props m)) <$> l)); (u "timestamp", JStr (iso e))].
Definition saved_config (e : env) (c : settings) : jsv :=
  JObj [(u "inputs", JObj (inputs c)); (u "parameterEnabled", JObj (parameterEnabled c));
        (u "showDebugPanel", showDebugPanel c); (u "customRequestMode", customRequestMode c);
        (u "customRequestBody", customRequestBody c); (u "timestamp", JStr (iso e))].

Definition saveMessages (e : env) (l : list message) (p : page) : page :=
  set_storedMessages (stringify (saved_messages e l)) p.
Definition saveConfig (e : env) (p : page) : page :=
  set_storedConfig (stringify (saved_config e (config p))) p.
Definition clearConfig (p : page) : page := set_storedMessages None (set_storedConfig None p).

(** [parseInt(v, 10)] with the value itself when that is no number. *)
Definition max_tokens_of (v : jsv) : jsv :=
  let n := parse_int (to_string v) in if is_nan n then v else JNum n.

Definition loadConfig (stored : option jsstr) : settings :=
  match stored with
  | None => DEFAULT_CONFIG
  | Some text =>
      if bool_decide (text = []) then DEFAULT_CONFIG
      else match json_parse text with
           | None => DEFAULT_CONFIG
           | Some parsed =>
               if is_nullish parsed then DEFAULT_CONFIG
               else Settings
                 (obj_merge (obj_merge default_inputs (entries (parsed?."inputs")))
                    [(u "max_tokens", max_tokens_of ((parsed?."inputs")?."max_tokens"))])
                 (obj_merge default_enabled (entries (parsed?."parameterEnabled")))
                 (js_or (parsed?."showDebugPanel") (showDebugPanel DEFAULT_CONFIG))
                 (js_or (parsed?."customRequestMode") (customRequestMode DEFAULT_CONFIG))
                 (js_or (parsed?."customRequestBody") (customRequestBody DEFAULT_CONFIG))
           end
  end.

Definition loadMessages (stored : option jsstr) : jsv :=
  match stored with
  | None => JNull
  | Some text =>
      if bool_decide (text = []) then JNull
      else match json_parse text with
           | None => JNull
           | Some parsed => if is_nullish parsed then JNull else js_or (parsed?."messages") JNull
           end
  end.

(** ** usePlaygroundState.js *)

Definition getDefaultMessages : list props :=
  [[(u "role", JStr (u "user")); (u "id", JStr (u "2")); (u "createAt", JNum (of_Z 1715676751919));
    (u "content", JStr (t (u "默认用户消息")))];
   [(u "role", JStr (u "assistant")); (u "id", JStr (u "3")); (u "createAt", JNum (of_Z 1715676751919));
    (u "content", JStr (t (u "默认助手消息"))); (u "reasoningContent", JStr []);
    (u "isReasoningExpanded", JBool false)]].

(** [setMessage(l)] with new objects. *)
Definition set_new (l : list props) (p : page) : page :=
  let '(ms, c) := alloc_all l (conversation p) in set_conversation (setMessage ms c) p.

(** The messages of an old version of the page. *)
Definition old_defaults (loaded : list jsv) : bool :=
  match loaded with
  | [a; b] =>
      is_str (a?."id") (u "2") && is_str (b?."id") (u "3") &&
      (is_str (a?."content") (u "你好")
       || is_str (b?."content") (u "你好，请问有什么可以帮助您的吗？")
       || is_str (b?."content") (u "你好！很高兴见到你。有什么我可以帮助你的吗？"))
  | _ => false
  end.

(** A list of objects. *)
Fixpoint objects (l : list jsv) : option (list props) :=
  match l with
  | [] => Some []
  | JObj o :: l' => cons o <$> objects l'
  | _ :: _ => None
  end.

(** The state before the first render; [None] when the storage holds messages that are no
    list of objects, which the page does not expect. *)
Definition first_state (stored storedCfg : option jsstr) : option page :=
  let start initial fresh stored :=
    set_new initial (Page (Chat [] 0) first_message_id (loadConfig storedCfg)
      [(u "request", JNull); (u "response", JNull); (u "timestamp", JNull);
       (u "previewRequest", JNull); (u "previewTimestamp", JNull)]
      (u "preview") [] None 0 [] [] not_editing None fresh stored storedCfg) in
  match loadMessages stored with
  | JNull => Some (start getDefaultMessages false stored)
  | JArr l =>
      if old_defaults l then Some (start getDefaultMessages false None)
      else (fun os => start os true stored) <$> objects l
  | _ => None
  end.

(** A reply that was cut by leaving the page is completed. *)
Definition fix_last (c : chat) : exc (chat * list task) :=
  match last (msgs c) with
  | Some m =>
      if generating m then
        p ← processIncompleteThinkTags (js_or (field m "content") (JStr []))
              (js_or (field m "reasoningContent") (JStr []));
        let c' := replace_last m
          [(u "status", JStr (u "complete")); (u "content", p_content p);
           (u "reasoningContent", js_or (p_reasoning p) JNull);
           (u "isThinkingComplete", JBool true)] c in
        Ret (c', [TSave (msgs c')])
      else Ret (c, [])
  | None => Ret (c, [])
  end.

(** The effect on the language: it runs on opening and whenever [t] changes. *)
Definition language_effect (p : page) : page :=
  if initialMessages p then p else set_new getDefaultMessages p.

(** Opening the page. *)
Definition mount (stored storedCfg : option jsstr) : option (exc page) :=
  (fun p => update fix_last (language_effect p)) <$> first_state stored storedCfg.

(** Importing a configuration, once it is confirmed; [None] when its messages are no list
    of objects. *)
Definition handleConfigImport (imported : jsv) (p : page) : option page :=
  let c := config p in
  let ins := imported?."inputs" in
  let en := imported?."parameterEnabled" in
  let c' := Settings
    (if truthy ins then
       obj_merge (obj_merge (inputs c) (entries ins)) [(u "max_tokens", max_tokens_of (ins?."max_tokens"))]
     else inputs c)
    (if truthy en then obj_merge (parameterEnabled c) (entries en) else parameterEnabled c)
    (match imported?."showDebugPanel" with JBool b => JBool b | _ => showDebugPanel c end)
    (js_or (imported?."customRequestMode") (customRequestMode c))
    (js_or (imported?."customRequestBody") (customRequestBody c)) in
  let p := set_config c' p in
  match imported?."messages" with
  | JArr l => (fun os => set_new os p) <$> objects l
  | _ => Some p
  end.

Definition handleConfigReset (resetMessages : bool) (p : page) : page :=
  let p := set_config DEFAULT_CONFIG p in
  if resetMessages then setTimeout [TDefaults] (set_conversation (setMessage [] (conversation p)) p)
  else p.

(** ** Tasks *)

Definition run_task (e : env) (k : task) (p : page) : exc page :=
  match k with
  | TSave l => Ret (saveMessages e l p)
  | TSend cfg text => onMessageSend e cfg text p
  | TRegenerate cfg l => regenerate e cfg l p
  | TImageOff => Ret (handleInputChange (u "imageEnabled") (JBool false) p)
  | TDefaults => Ret (set_new getDefaultMessages p)
  end.

(** The first task that waits. *)
Definition run_next (e : env) (p : page) : exc page :=
  match tasks p with
  | [] => Ret p
  | k :: rest => run_task e k (set_tasks rest p)
  end.

(** ** Events *)

(** What the network delivers. *)
Inductive net_event :=
  | SseMessage (i : nat) (data : jsstr)
  | SseError (i : nat) (data : jsv) (readyState : Z)
  | SseState (i : nat) (state : Z) (status : jsv) (readyState : Z)
  | Fetched (o : fetch_outcome).

Definition net_step (e : env) (ev : net_event) (p : page) : exc page :=
  match ev with
  | SseMessage i data => on_message e i data p
  | SseError i data rs => on_error e i data rs p
  | SseState i st status rs => on_readystatechange e i st status rs p
  | Fetched o => fetch_returns e o p
  end.

Fixpoint net_steps (l : list (env * net_event)) (p : page) : exc page :=
  match l with
  | [] => Ret p
  | (e, ev) :: l' => p ← net_step e ev p; net_steps l' p
  end.
End Page.
