(* ===== verification/PlaygroundThms.v ===== *)
(** * The playground: replies

    What the events of the network do to the conversation: they change the last message
    only, a settled reply stays as it is, and a streamed reply is the text of its
    events. *)

From S2P Require Import Prelude JsString JsNumber JsNumText JsValue JsJson Think Playground PlaygroundPage.

(** ** Fields of a new object *)

(** Look a literal key up in a list of literal keys. *)
Ltac literal_keys :=
  cbn [om_get fst snd app];
  repeat match goal with
  | |- context [decide (u ?a = u ?a)] => rewrite (decide_True (P := u a = u a)) by reflexivity
  | |- context [decide (u ?a = u ?b)] =>
      rewrite (decide_False (P := u a = u b)) by (let H := fresh in intros H; vm_compute in H; discriminate H)
  end.
Ltac distinct_keys :=
  cbn [app fmap list_fmap fst];
  apply (bool_decide_eq_true_1 _); vm_compute; reflexivity.

Lemma field_spread r m o k :
  NoDup (o.*1) ->
  field (Message r (spread_msg m o)) k = match om_get (u k) o with Some v => v | None => field m k end.
Proof.
  intros Hn. unfold field, spread_msg. cbn [m_props oget]. rewrite obj_get_merge by done.
  by destruct (om_get (u k) o).
Qed.

Definition collapse_keys : list jsstr :=
  [u "isThinkingComplete"; u "hasAutoCollapsed"; u "isReasoningExpanded"].

(** The updates of a reply write these fields only. *)
Definition reply_keys : list jsstr :=
  [u "content"; u "reasoningContent"; u "status"; u "errorCode"] ++ collapse_keys.

(** ** The last message *)

Lemma replace_last_msgs l m o c :
  msgs c = l ++ [m] ->
  msgs (replace_last m o c) = l ++ [Message (nextRef c) (spread_msg m o)].
Proof.
  intros E. unfold replace_last, alloc. cbn. by rewrite E, removelast_last.
Qed.

Lemma status_one s s' m : u s <> u s' -> has_status s m = true -> has_status s' m = false.
Proof.
  unfold has_status. intros Hn Hs. apply is_str_iff in Hs. rewrite Hs. cbn.
  by apply bool_decide_eq_false.
Qed.

Ltac unequal := let H := fresh in intros H; vm_compute in H; discriminate H.

Lemma settled_not_generating m : settled m = true -> generating m = false.
Proof.
  unfold settled, generating. intros [H|H]%orb_true_iff; apply orb_false_iff; split;
    (eapply status_one; [|exact H]); unequal.
Qed.

(** ** A settled reply stays *)

Section Settled.
Context (m : message) (Hm : settled m = true).

Lemma stream_settled v ty c : last (msgs c) = Some m -> streamMessageUpdate v ty c = Ret c.
Proof.
  intros E. unfold streamMessageUpdate. rewrite E, (settled_not_generating m Hm).
  by destruct (negb (has_role "assistant" m)), (has_status "error" m).
Qed.
Lemma complete_settled s c : last (msgs c) = Some m -> completeMessage s c = Ret (c, []).
Proof. intros E. unfold completeMessage. by rewrite E, Hm. Qed.
Lemma loading_settled o c : last (msgs c) = Some m -> update_loading o c = c.
Proof.
  intros E. unfold update_loading. rewrite E.
  assert (H : generating m = false) by (by apply settled_not_generating).
  unfold generating in H. apply orb_false_iff in H as [-> _]. done.
Qed.
Lemma failure_settled a b c : last (msgs c) = Some m -> sse_failure a b c = c.
Proof. intros E. unfold sse_failure. by rewrite E, Hm. Qed.
End Settled.

(** The page around the conversation, which an event may change: the panel, the
    connections. *)
Record same_chat (p p' : page) : Prop := {
  sc_conversation : conversation p' = conversation p;
  sc_tasks : tasks p' = tasks p;
  sc_config : config p' = config p;
  sc_stored : storedMessages p' = storedMessages p
}.

Lemma same_chat_refl p : same_chat p p.
Proof. by split. Qed.
Lemma same_chat_trans p q r : same_chat p q -> same_chat q r -> same_chat p r.
Proof. intros [] []. split; congruence. Qed.

Lemma same_chat_last p q : same_chat p q -> last (messages q) = last (messages p).
Proof. intros H. unfold messages. by rewrite (sc_conversation _ _ H). Qed.

(** ** Reactions

    The listeners are built from five updates of the conversation.  What the updates
    respect, every event respects: [R] relates the page before and after, on the pages
    that satisfy [P], and [F] says whether an update may throw. *)

Section Respect.
Context (P : page -> Prop) (R : page -> page -> Prop) (F : Prop).

Definition respects (f : page -> exc page) : Prop :=
  forall p, P p -> match f p with Ret p' => R p p' | Throw _ => F end.
End Respect.

Class Reaction (P : page -> Prop) (R : page -> page -> Prop) (F : Prop) : Prop := {
  re_trans p q r : R p q -> R q r -> R p r;
  re_same p q : same_chat p q -> R p q;
  re_keep p q : P p -> R p q -> P q;
  re_stream v ty : respects P R F (stream v ty);
  re_complete s : respects P R F (complete s);
  re_failure text code : respects P R F (update_chat (fun c => Ret (receive_failure text code c)));
  re_reply r : respects P R F (update_chat (fun c => Ret (receive_reply r c)));
  re_sse text code : respects P R F (update_chat (fun c => Ret (sse_failure text code c)))
}.

Section Events.
Context (t : jsstr -> jsstr) {P R F} `{HR : !Reaction P R F}.
#[local] Notation respects := (respects P R F).

Lemma respects_at f p q : respects f -> P p -> same_chat p q ->
  match f q with Ret p' => R p p' | Throw _ => F end.
Proof.
  intros Hf Hp Hq. apply re_same in Hq. pose proof (Hf q (re_keep _ _ Hp Hq)) as H.
  destruct (f q); [by eapply re_trans|done].
Qed.

Lemma respects_ret : respects Ret.
Proof. intros p _. apply re_same, same_chat_refl. Qed.

Lemma respects_bind f g : respects f -> respects g -> respects (fun p => q ← f p; g q).
Proof.
  intros Hf Hg p Hp. pose proof (Hf p Hp) as H. destruct (f p) as [q|]; [|done].
  pose proof (Hg q (re_keep _ _ Hp H)) as H'. unfold mbind, exc_bind.
  destruct (g q); [by eapply re_trans|done].
Qed.

Lemma respects_stream_complete v ty s : respects (fun p => q ← stream v ty p; complete s q).
Proof. apply respects_bind; [apply re_stream|apply re_complete]. Qed.

Lemma respects_bad_data e k data : respects (bad_data t e k data).
Proof.
  intros p E. unfold bad_data.
  apply (respects_at (fun p => q ← stream _ _ p; complete _ q)); [apply respects_stream_complete|done|].
  by split.
Qed.

Lemma respects_delta d : respects (stream_delta d).
Proof.
  unfold stream_delta. destruct (negb (truthy d)); [apply respects_ret|].
  apply respects_bind; [|apply respects_bind];
    (intros p E; destruct (truthy _); [by apply re_stream|by apply respects_ret]).
Qed.

Lemma respects_message e i data : respects (on_message t e i data).
Proof.
  intros p E. unfold on_message. destruct (conns p !! i) as [k|]; [|by apply respects_ret].
  destruct (bool_decide _).
  { apply (respects_at (complete "complete")); [apply re_complete|done|by split]. }
  destruct (json_parse data) as [payload|]; [|by apply respects_bad_data].
  destruct (is_nullish payload).
  - apply (respects_at (bad_data t e _ data)); [apply respects_bad_data|done|].
    split; by destruct (hasReceivedFirstResponse k).
  - apply (respects_at (stream_delta _)); [apply respects_delta|done|].
    split; by destruct (hasReceivedFirstResponse k).
Qed.

Lemma respects_error e i data rs : respects (on_error t e i data rs).
Proof.
  intros p E. unfold on_error. destruct (conns p !! i) as [k|]; [|by apply respects_ret].
  destruct (_ && _); [|by apply respects_ret]. destruct (sse_error t data) as [text code].
  apply (respects_at (fun q => q' ← update_chat (fun c => Ret (sse_failure text code c)) q;
    Ret (set_conn i (close k) (set_sseSourceRef None q')))); [|done|by split].
  apply respects_bind; [apply re_sse|]. intros q _. apply re_same. by split.
Qed.

Lemma respects_state e i st status rs : respects (on_readystatechange t e i st status rs).
Proof.
  intros p E. unfold on_readystatechange. destruct (conns p !! i) as [k|]; [|by apply respects_ret].
  destruct (_ && _); [|by apply respects_ret].
  apply (respects_at (fun p => q ← stream _ _ p; complete _ q)); [apply respects_stream_complete|done|].
  by split.
Qed.

Lemma respects_fails e text code : respects (request_fails t e text code).
Proof.
  intros p E. unfold request_fails.
  apply (respects_at (update_chat (fun c => Ret (receive_failure _ _ c)))); [apply re_failure|done|by split].
Qed.

Lemma respects_fetch e o : respects (fetch_returns t e o).
Proof.
  intros p E. unfold fetch_returns. destruct o as [text|status st body|data].
  - apply (respects_at (request_fails t e text JNull)); [apply respects_fails|done|by split].
  - destruct (error_body body).
    apply (respects_at (request_fails t e _ _)); [apply respects_fails|done|by split].
  - destruct (choice_reply data) as [[r|]|].
    + apply (respects_at (update_chat (fun c => Ret (receive_reply r c)))); [apply re_reply|done|by split].
    + apply re_same. by split.
    + apply (respects_at (request_fails t e _ _)); [apply respects_fails|done|by split].
Qed.

Lemma respects_net_steps l : respects (net_steps t l).
Proof.
  induction l as [|[e ev] l IH]; [apply respects_ret|].
  apply (respects_bind (net_step t e ev) (net_steps t l)); [|exact IH].
  destruct ev; [apply respects_message|apply respects_error|apply respects_state|apply respects_fetch].
Qed.
End Events.

(** *** A settled reply *)

#[export] Instance settled_reaction m (Hm : settled m = true) :
  Reaction (fun p => last (messages p) = Some m) same_chat False.
Proof.
  assert (Hu : forall f, (forall c, last (msgs c) = Some m -> f c = Ret (c, [])) ->
    respects (fun p => last (messages p) = Some m) same_chat False (update f)).
  { intros f H p E. unfold update. rewrite (H _ E). split; try done. cbn. by rewrite app_nil_r. }
  split.
  - intros p q r. apply same_chat_trans.
  - done.
  - intros p q E H. by rewrite (same_chat_last _ _ H).
  - intros v ty. apply Hu. intros c E. by rewrite (stream_settled m Hm).
  - intros s. apply Hu. intros c E. by apply (complete_settled m Hm).
  - intros text code. apply Hu. intros c E. unfold receive_failure. by rewrite (loading_settled m Hm).
  - intros r. apply Hu. intros c E. unfold receive_reply. by rewrite (loading_settled m Hm).
  - intros text code. apply Hu. intros c E. by rewrite (failure_settled m Hm).
Qed.

(** C17. A settled reply is final: once the last message is complete or an error, any
    sequence of late events of any connection and of any pending request is handled
    without an exception and changes neither the conversation, nor the tasks, nor the
    settings, nor the stored messages.  The debug panel and the connection still follow the
    events. *)
Theorem settled_reply_final t m l p :
  last (messages p) = Some m -> settled m = true ->
  exists p', net_steps t l p = Ret p' /\ conversation p' = conversation p /\ tasks p' = tasks p /\
    config p' = config p /\ storedMessages p' = storedMessages p.
Proof.
  intros E Hm. pose proof (respects_net_steps t (HR := settled_reaction m Hm) l p E) as H.
  destruct (net_steps t l p) as [p'|]; [|done]. destruct H. by exists p'.
Qed.

(** *** The last message only *)

(** A later version of a message: the fields that identify it stay, a settled one is the
    same object, and the thinking panel is not collapsed by itself twice. *)
Record evolves (m m' : message) : Prop := {
  ev_role : field m' "role" = field m "role";
  ev_id : field m' "id" = field m "id";
  ev_time : field m' "createAt" = field m "createAt";
  ev_settled : settled m = true -> m' = m;
  ev_collapsed : truthy (field m "hasAutoCollapsed") = true -> truthy (field m' "hasAutoCollapsed") = true
}.

Lemma evolves_refl m : evolves m m.
Proof. by split. Qed.
Lemma evolves_trans m1 m2 m3 : evolves m1 m2 -> evolves m2 m3 -> evolves m1 m3.
Proof.
  intros [] H. split; [destruct H; congruence..| |destruct H; by auto].
  intros Hs. rewrite <-(ev_settled0 Hs). apply (ev_settled _ _ H). by rewrite (ev_settled0 Hs).
Qed.

Definition list_evolves (l l' : list message) : Prop :=
  match last l with
  | None => l' = l
  | Some m => exists m', l' = removelast l ++ [m'] /\ evolves m m'
  end.

Lemma last_split {A} (l : list A) x : last l = Some x -> l = removelast l ++ [x].
Proof.
  intros H. destruct l as [|y l _] using rev_ind; [done|].
  rewrite last_snoc in H. injection H as ->. by rewrite removelast_last.
Qed.

Lemma list_evolves_refl l : list_evolves l l.
Proof.
  unfold list_evolves. destruct (last l) as [m|] eqn:E; [|done].
  exists m. split; [by apply last_split|apply evolves_refl].
Qed.
Lemma list_evolves_trans l1 l2 l3 : list_evolves l1 l2 -> list_evolves l2 l3 -> list_evolves l1 l3.
Proof.
  unfold list_evolves. destruct (last l1) as [m1|] eqn:E1.
  - intros (m2 & -> & H12). rewrite last_snoc, removelast_last. intros (m3 & -> & H23).
    exists m3. split; [done|by eapply evolves_trans].
  - intros ->. by rewrite E1.
Qed.

Definition is_save (k : task) : bool := match k with TSave _ => true | _ => false end.

Record page_evolves (p p' : page) : Prop := {
  pe_messages : list_evolves (messages p) (messages p');
  pe_tasks : exists l, tasks p' = tasks p ++ l /\ forallb is_save l = true;
  pe_config : config p' = config p;
  pe_stored : storedMessages p' = storedMessages p
}.

(** The fields of an update. *)
Record reply_update (m : message) (o : props) : Prop := {
  ru_nodup : NoDup (o.*1);
  ru_role : om_get (u "role") o = None;
  ru_id : om_get (u "id") o = None;
  ru_time : om_get (u "createAt") o = None;
  ru_collapsed : truthy (field m "hasAutoCollapsed") = true ->
    from_option truthy true (om_get (u "hasAutoCollapsed") o) = true
}.

Lemma replace_last_evolves m o c :
  last (msgs c) = Some m -> settled m = false -> reply_update m o ->
  list_evolves (msgs c) (msgs (replace_last m o c)).
Proof.
  intros E Hs [Hn Hr Hi Ht Hc]. unfold list_evolves. rewrite E.
  exists (Message (nextRef c) (spread_msg m o)). split; [by apply replace_last_msgs, last_split|].
  split; try (rewrite field_spread by done).
  - by rewrite Hr.
  - by rewrite Hi.
  - by rewrite Ht.
  - congruence.
  - intros H. specialize (Hc H).
    by destruct (om_get (u "hasAutoCollapsed") o).
Qed.

(** The updates of the listeners. *)
Ltac reply_fields :=
  split; [distinct_keys|unfold applyAutoCollapseLogic; literal_keys; reflexivity..|
    intros Hc; unfold applyAutoCollapseLogic; literal_keys; cbn [from_option]; try reflexivity].

Lemma update_reasoning m v : reply_update m (stream_reasoning m v).
Proof. unfold stream_reasoning. reply_fields. Qed.

Lemma update_collapsing m (v w : jsv) a b c :
  reply_update m ([(u "content", v); (u "status", w)] ++ applyAutoCollapseLogic m a) /\
  reply_update m ([(u "status", w)] ++ applyAutoCollapseLogic m a) /\
  reply_update m ([(u "content", v); (u "reasoningContent", b); (u "status", w)] ++ applyAutoCollapseLogic m a) /\
  reply_update m ([(u "content", v); (u "errorCode", c); (u "status", w)] ++ applyAutoCollapseLogic m a).
Proof. split_and!; reply_fields; by rewrite truthy_or, Hc, orb_true_r. Qed.

Lemma update_failing m (v w x : jsv) :
  reply_update m [(u "content", v); (u "errorCode", x); (u "status", w)].
Proof. reply_fields. Qed.

(** A branch that returns its argument. *)
Ltac unchanged E := injection E as <- <-; split; [apply list_evolves_refl|done].

Section Evolve.
#[local] Notation sound := (respects (fun _ => True) page_evolves True).

Lemma evolve_update f :
  (forall c c' l, f c = Ret (c', l) -> list_evolves (msgs c) (msgs c') /\ forallb is_save l = true) ->
  sound (update f).
Proof.
  intros H p _. unfold update. destruct (f (conversation p)) as [[c' l]|] eqn:E; [|done].
  destruct (H _ _ _ E). split; try done. by exists l.
Qed.

Lemma evolve_update_chat f :
  (forall c, list_evolves (msgs c) (msgs (f c))) -> sound (update_chat (fun c => Ret (f c))).
Proof. intros H. apply evolve_update. intros c c' l [= <- <-]. by split. Qed.

Lemma evolve_stream v ty : sound (stream v ty).
Proof.
  apply evolve_update. intros c c' l E. unfold streamMessageUpdate in E.
  destruct (last (msgs c)) as [m|] eqn:El; [|unchanged E].
  destruct (negb (has_role "assistant" m)); [injection E as <- <-; split; [apply list_evolves_refl|done]|].
  destruct (has_status "error" m) eqn:Ee; [injection E as <- <-; split; [apply list_evolves_refl|done]|].
  destruct (generating m) eqn:Eg; [|unchanged E].
  assert (Hs : settled m = false).
  { destruct (settled m) eqn:Hs; [|done]. by rewrite settled_not_generating in Eg. }
  destruct ty.
  - injection E as <- <-. split; [|done]. apply replace_last_evolves; [done..|apply update_reasoning].
  - unfold stream_content in E. destruct (thinking_from_tags m _); [|done]. injection E as <- <-.
    split; [|done]. apply replace_last_evolves; [done..|]. by apply (update_collapsing m _ _ _ JNull JNull).
Qed.

Lemma evolve_loading o : (forall m, reply_update m (o m)) -> forall c, list_evolves (msgs c) (msgs (update_loading o c)).
Proof.
  intros H c. unfold update_loading. destruct (last (msgs c)) as [m|] eqn:E; [|apply list_evolves_refl].
  destruct (has_status "loading" m) eqn:Es; [|apply list_evolves_refl].
  apply replace_last_evolves; [done| |done]. destruct (settled m) eqn:Hs; [|done].
  apply settled_not_generating in Hs. unfold generating in Hs. by rewrite Es in Hs.
Qed.

#[export] Instance evolve_reaction : Reaction (fun _ => True) page_evolves True.
Proof.
  split.
  - intros p q r [M1 (l1 & T1 & S1) C1 D1] [M2 (l2 & T2 & S2) C2 D2].
    split; [by eapply list_evolves_trans| |congruence..].
    exists (l1 ++ l2). rewrite T2, T1, <-app_assoc, forallb_app. by rewrite S1, S2.
  - intros p q [Hc Ht Hf Hs]. split; [|exists []|done..].
    + unfold messages. rewrite Hc. apply list_evolves_refl.
    + by rewrite app_nil_r.
  - done.
  - apply evolve_stream.
  - intros s. apply evolve_update. intros c c' l E. unfold completeMessage in E.
    destruct (last (msgs c)) as [m|] eqn:El; [|done].
    destruct (settled m) eqn:Hs; [injection E as <- <-; split; [apply list_evolves_refl|done]|].
    injection E as <- <-. split; [|by destruct (_ || _)].
    apply replace_last_evolves; [done..|]. by apply (update_collapsing m JNull _ _ JNull JNull).
  - intros text code. apply evolve_update_chat, evolve_loading. intros m.
    by apply (update_collapsing m _ _ _ JNull _).
  - intros r. apply evolve_update_chat, evolve_loading. intros m.
    by apply (update_collapsing m _ _ _ _ JNull).
  - intros text code. apply evolve_update_chat. intros c. unfold sse_failure.
    destruct (last (msgs c)) as [m|] eqn:El; [|apply list_evolves_refl].
    destruct (settled m) eqn:Hs; [apply list_evolves_refl|].
    apply replace_last_evolves; [done..|apply update_failing].
Qed.
End Evolve.

(** C18. Replies touch the last message only: whatever sequence of events the network
    delivers, on any connection and in any order, the messages before the last are the same
    objects and the last keeps its role, its id and its time; a message that was settled is
    not changed; a thinking panel that has collapsed by itself is still marked so; the only
    tasks asked for save the conversation; the settings and the storage are left alone. *)
Theorem replies_touch_last t l p p' :
  net_steps t l p = Ret p' ->
  list_evolves (messages p) (messages p') /\
  (exists k, tasks p' = tasks p ++ k /\ forallb is_save k = true) /\
  config p' = config p /\ storedMessages p' = storedMessages p.
Proof.
  intros E. pose proof (respects_net_steps t (HR := evolve_reaction) l p I) as H.
  rewrite E in H. by destruct H.
Qed.

(** ** A streamed reply *)

(** The last message [m] receives a reply: [c] and [r] are the text and the reasoning so
    far. *)
Record receiving (l : list message) (c r : jsstr) (p : page) : Prop := {
  rc_msgs : exists m, messages p = l ++ [m] /\ has_role "assistant" m = true /\ generating m = true /\
    field m "content" = JStr c /\ field m "reasoningContent" = JStr r
}.

(** The connections and the tasks are the same. *)
Definition quiet (p p' : page) : Prop := conns p' = conns p /\ tasks p' = tasks p.

Lemma plus_text c s : js_plus (js_or (JStr c) (JStr [])) (JStr s) = JStr (c ++ s).
Proof. by destruct c. Qed.

Lemma generating_incomplete m : field m "status" = JStr (u "incomplete") -> generating m = true.
Proof.
  intros E. unfold generating, has_status. rewrite E. apply orb_true_iff. right. by apply is_str_iff.
Qed.

Lemma receiving_replace l m o c r p :
  messages p = l ++ [m] -> has_role "assistant" m = true -> reply_update m o ->
  om_get (u "status") o = Some (JStr (u "incomplete")) ->
  from_option id (field m "content") (om_get (u "content") o) = JStr c ->
  from_option id (field m "reasoningContent") (om_get (u "reasoningContent") o) = JStr r ->
  receiving l c r (set_conversation (replace_last m o (conversation p)) p).
Proof.
  intros E Hr Ho Hs Hc Hrc. split. eexists. split; [by apply replace_last_msgs|].
  unfold has_role in *. rewrite !field_spread by apply Ho. rewrite (ru_role _ _ Ho).
  split_and!; [done| |..].
  - apply generating_incomplete. rewrite field_spread by apply Ho. by rewrite Hs.
  - by destruct (om_get (u "content") o).
  - by destruct (om_get (u "reasoningContent") o).
Qed.

Lemma stream_text ty l c r p s :
  receiving l c r p ->
  exists p', stream (JStr s) ty p = Ret p' /\ quiet p p' /\
    match ty with content => receiving l (c ++ s) r p' | reasoning => receiving l c (r ++ s) p' end.
Proof.
  intros [(m & E & Hr & Hg & Hc & Hrc)].
  assert (El : last (msgs (conversation p)) = Some m) by (fold (messages p); rewrite E; apply last_snoc).
  assert (Hne : has_status "error" m = false).
  { destruct (has_status "error" m) eqn:Hs; [|done].
    assert (settled m = true) as Hx by (unfold settled; by rewrite Hs, orb_true_r).
    by rewrite settled_not_generating in Hg. }
  unfold stream, update_chat, update, streamMessageUpdate. rewrite El, Hr, Hne, Hg. cbn [negb].
  destruct ty.
  - eexists. split; [reflexivity|]. split; [by split; cbn; rewrite ?app_nil_r|].
    apply (receiving_replace l m _ c (r ++ s) (setTimeout [] p));
      [done|done|apply update_reasoning|unfold stream_reasoning; literal_keys; done..|].
    unfold stream_reasoning. literal_keys. cbn [from_option id]. rewrite Hrc. apply plus_text.
  - unfold stream_content. rewrite Hc, plus_text. unfold thinking_from_tags.
    match goal with |- context [(if ?x then _ else _) ≫= _] =>
      set (th := if x then _ else Ret (field m "isThinkingComplete")) end.
    assert (Hth : exists v, th = Ret v) by (unfold th; destruct (truthy _); eexists; reflexivity).
    destruct Hth as [v ->]. eexists. split; [reflexivity|].
    split; [by split; cbn; rewrite ?app_nil_r|].
    apply (receiving_replace l m _ (c ++ s) r (setTimeout [] p));
      [done|done|by apply (update_collapsing m _ _ _ JNull JNull)|
       unfold applyAutoCollapseLogic; literal_keys; done..].
Qed.

(** The text of a field, when it is a text or absent. *)
Definition text_field (v : jsv) : bool := match v with JStr _ | JUndef | JNull => true | _ => false end.
Definition field_text (v : jsv) : jsstr := match v with JStr s => s | _ => [] end.

Definition delta_of (payload : jsv) : jsv := (oget (payload?."choices") (u "0"))?."delta".

(** An event of the stream that is JSON and whose delta [d] carries texts. *)
Record text_event (data : jsstr) (d : jsv) : Prop := {
  te_open : data <> u "[DONE]";
  te_delta : exists payload, json_parse data = Some payload /\ is_nullish payload = false /\ delta_of payload = d;
  te_texts : text_field (d?."reasoning_content") = true /\ text_field (d?."reasoning") = true /\
    text_field (d?."content") = true
}.
Definition delta_reasoning (d : jsv) : jsstr := field_text (d?."reasoning_content") ++ field_text (d?."reasoning").
Definition delta_content (d : jsv) : jsstr := field_text (d?."content").

Lemma quiet_trans p q r : quiet p q -> quiet q r -> quiet p r.
Proof. intros [] []. split; congruence. Qed.

Lemma delta_part_text ty v l c r p :
  text_field v = true -> receiving l c r p ->
  exists p', (if truthy v then stream v ty p else Ret p) = Ret p' /\ quiet p p' /\
    match ty with
    | content => receiving l (c ++ field_text v) r p' | reasoning => receiving l c (r ++ field_text v) p' end.
Proof.
  intros Hv Hp. destruct (truthy v) eqn:Ht.
  - destruct v; try done. by apply stream_text.
  - exists p. assert (field_text v = []) as -> by (destruct v as [| | | |[|]| |]; done).
    rewrite !app_nil_r. by destruct ty.
Qed.

Lemma falsy_get d k : truthy d = false -> field_text (oget d (u k)) = [].
Proof.
  destruct d as [| |[]|n|[|x s]| |]; try done. intros _. unfold oget, list_get. cbn.
  destruct (array_index (u k)); [by rewrite lookup_nil|].
  by destruct (bool_decide _).
Qed.

Lemma delta_step d l c r p :
  text_field (d?."reasoning_content") = true -> text_field (d?."reasoning") = true ->
  text_field (d?."content") = true -> receiving l c r p ->
  exists p', stream_delta d p = Ret p' /\ quiet p p' /\
    receiving l (c ++ delta_content d) (r ++ delta_reasoning d) p'.
Proof.
  intros H1 H2 H3 Hp. unfold stream_delta, delta_content, delta_reasoning.
  destruct (truthy d) eqn:Hd; cbn [negb].
  - destruct (delta_part_text reasoning _ l c r p H1 Hp) as (p1 & -> & Q1 & R1).
    destruct (delta_part_text reasoning _ l _ _ p1 H2 R1) as (p2 & E2 & Q2 & R2).
    destruct (delta_part_text content _ l _ _ p2 H3 R2) as (p3 & E3 & Q3 & R3).
    exists p3. unfold mbind, exc_bind. rewrite E2, E3. split; [done|].
    split; [by eapply quiet_trans; [|eapply quiet_trans]|]. by rewrite app_assoc.
  - exists p. rewrite !falsy_get by done. rewrite !app_nil_r. by split_and!.
Qed.

Lemma message_step t e i k data d l c r p :
  conns p !! i = Some k -> text_event data d -> receiving l c r p ->
  exists p' k', on_message t e i data p = Ret p' /\ conns p' !! i = Some k' /\ tasks p' = tasks p /\
    receiving l (c ++ delta_content d) (r ++ delta_reasoning d) p'.
Proof.
  intros Hk [Hne (payload & Hj & Hn & Hd) (T1 & T2 & T3)] Hp.
  unfold on_message. rewrite Hk, bool_decide_false, Hj, Hn by done. fold (delta_of payload). rewrite Hd.
  set (k' := Conn _ true _ _).
  match goal with |- context [stream_delta d ?q] => set (q0 := q) end.
  assert (Hq : receiving l c r q0 /\ conns q0 = <[i := k']> (conns p) /\ tasks q0 = tasks p).
  { unfold q0. destruct (hasReceivedFirstResponse k); (split; [|done]); destruct Hp as [Hm];
      split; exact Hm. }
  destruct Hq as (Hq & Hcq & Htq). clearbody q0.
  destruct (delta_step d l c r q0 T1 T2 T3 Hq) as (p' & -> & [Q1 Q2] & R').
  exists p', k'. split_and!; [done| |congruence|done].
  rewrite Q1, Hcq. apply list_lookup_insert_eq. by eapply lookup_lt_Some.
Qed.

Lemma messages_steps t i es ds l c r p k :
  conns p !! i = Some k -> Forall2 (fun ed d => text_event ed.2 d) es ds -> receiving l c r p ->
  exists p' k',
    net_steps t ((fun ed => (ed.1, SseMessage i ed.2)) <$> es) p = Ret p' /\
    conns p' !! i = Some k' /\ tasks p' = tasks p /\
    receiving l (c ++ concat (delta_content <$> ds)) (r ++ concat (delta_reasoning <$> ds)) p'.
Proof.
  intros Hk H. revert c r p k Hk. induction H as [|[e data] d es ds Hd _ IH]; intros c r p k Hk Hp.
  - exists p, k. cbn. by rewrite !app_nil_r.
  - destruct (message_step t e i k data d l c r p Hk Hd Hp) as (q & kq & Eq & Hkq & Tq & Rq).
    destruct (IH _ _ q kq Hkq Rq) as (p' & k' & E' & Hk' & T' & R').
    exists p', k'. csimpl. rewrite Eq. split_and!; [exact E'|done|congruence|].
    cbn [concat]. by rewrite !app_assoc.
Qed.

Lemma net_steps_app t l1 l2 p : net_steps t (l1 ++ l2) p = (q ← net_steps t l1 p; net_steps t l2 q).
Proof.
  revert p. induction l1 as [|[e ev] l1 IH]; intros p; [done|]. csimpl.
  destruct (net_step t e ev p); [apply IH|done].
Qed.

Lemma done_step t e i k l c r p :
  conns p !! i = Some k -> receiving l c r p ->
  exists p' m', on_message t e i (u "[DONE]") p = Ret p' /\ messages p' = l ++ [m'] /\
    field m' "content" = JStr c /\ field m' "reasoningContent" = JStr r /\
    field m' "status" = JStr (u "complete") /\ has_role "assistant" m' = true /\
    sseSourceRef p' = None /\ tasks p' = tasks p ++ [TSave (messages p')].
Proof.
  intros Hk [(m & E & Hr & Hg & Hc & Hrc)]. unfold on_message. rewrite Hk, bool_decide_true by done.
  assert (Hs : settled m = false).
  { destruct (settled m) eqn:Hs; [|done]. by rewrite settled_not_generating in Hg. }
  match goal with |- context [complete "complete" ?q] => set (q0 := q) end.
  assert (Hq : messages q0 = l ++ [m] /\ tasks q0 = tasks p /\ sseSourceRef q0 = None) by done.
  clearbody q0. destruct Hq as (Eq & Tq & Sq).
  unfold complete, update, completeMessage. fold (messages q0). rewrite Eq, last_snoc, Hs.
  eexists _, _. split; [reflexivity|]. cbn [mbind exc_bind fst snd].
  assert (Hu := proj1 (proj2 (update_collapsing m JNull (JStr (u "complete")) (JBool true) JNull JNull))).
  split; [apply replace_last_msgs; exact Eq|].
  unfold has_role in *. rewrite !field_spread by apply Hu. rewrite (ru_role _ _ Hu).
  unfold applyAutoCollapseLogic at 1 2 3. literal_keys.
  split_and!; [done..|]. rewrite <-Tq. reflexivity.
Qed.

(** The events of a stream on connection [i], and its end mark. *)
Definition stream_events (i : nat) (es : list (env * jsstr)) (e : env) : list (env * net_event) :=
  ((fun ed => (ed.1, SseMessage i ed.2)) <$> es) ++ [(e, SseMessage i (u "[DONE]"))].

(** A streamed reply is the text of its events: if the last message waits for a reply
    on connection [i], then after any number of JSON events and the end mark it holds, after
    what it held before, the contents of the events in their order, and in the reasoning the
    reasoning of the events; it is complete, the messages before it are the same, and saving
    exactly this conversation has been asked for. *)
Lemma streamed_reply t i k es ds e l m c r p :
  conns p !! i = Some k ->
  messages p = l ++ [m] -> has_role "assistant" m = true -> generating m = true ->
  field m "content" = JStr c -> field m "reasoningContent" = JStr r ->
  Forall2 (fun ed d => text_event ed.2 d) es ds ->
  exists p' m',
    net_steps t (stream_events i es e) p = Ret p' /\
    messages p' = l ++ [m'] /\
    field m' "content" = JStr (c ++ concat (delta_content <$> ds)) /\
    field m' "reasoningContent" = JStr (r ++ concat (delta_reasoning <$> ds)) /\
    field m' "status" = JStr (u "complete") /\
    tasks p' = tasks p ++ [TSave (messages p')].
Proof.
  intros Hk E Hr Hg Hc Hrc Hes.
  assert (Hp : receiving l c r p) by (split; by exists m).
  destruct (messages_steps t i es ds l c r p k Hk Hes Hp) as (q & kq & Eq & Hkq & Tq & Rq).
  destruct (done_step t e i kq _ _ _ q Hkq Rq) as (p' & m' & E' & M' & C' & R' & S' & _ & _ & T').
  exists p', m'. unfold stream_events. rewrite net_steps_app, Eq. unfold mbind, exc_bind. cbn [net_steps net_step].
  rewrite E'. split_and!; [done..|]. by rewrite T', Tq.
Qed.

(** ** A turn of the conversation *)

Lemma created_field e role text o id k :
  NoDup (o.*1) ->
  oget (JObj (createMessage e role text o id).1) (u k) =
    match om_get (u k) o with
    | Some v => v
    | None => oget (JObj [(u "role", JStr (u role)); (u "content", text);
                          (u "createAt", JNum (now e)); (u "id", JStr (str_of_Z id))]) (u k)
    end.
Proof.
  intros Hn. unfold createMessage, generateMessageId. cbn [fst oget]. rewrite obj_get_merge by done.
  by destruct (om_get (u k) o).
Qed.

(** The message a reply is written to. *)
Lemma loading_fields r e id :
  let m := Message r (createLoadingAssistantMessage e id).1 in
  has_role "assistant" m = true /\ generating m = true /\
  field m "content" = JStr [] /\ field m "reasoningContent" = JStr [].
Proof.
  unfold generating, has_role, has_status, field, createLoadingAssistantMessage. cbn [m_props].
  rewrite !created_field by distinct_keys. cbn [oget]. literal_keys.
  by split_and!.
Qed.

(** What [onMessageSend] leaves, in the mode that builds the request from the settings. *)
Record sent_turn (e : env) (cfg : settings) (mc : jsv) (p p' : page) (mu ml : message) : Prop := {
  st_messages : messages p' = messages p ++ [mu; ml];
  st_user : field mu "role" = JStr (u "user") /\ field mu "content" = mc;
  st_loading : has_role "assistant" ml = true /\ generating ml = true /\
    field ml "content" = JStr [] /\ field ml "reasoningContent" = JStr [];
  st_sent : exists payload, sent p' = sent p ++ [(payload, true)] /\
    buildApiPayload (messages p ++ [mu]) JNull (inputs cfg) (parameterEnabled cfg) = Ret payload;
  st_conn : conns p' = conns p ++ [Conn [] false false false]
}.

Lemma payload_total l cfg : exists v,
  buildApiPayload l JNull (inputs cfg) (parameterEnabled cfg) = Ret v.
Proof. eexists. reflexivity. Qed.

Lemma send_starts_reply t e cfg text urls mc p :
  truthy (customRequestMode cfg) = false -> truthy (input_of cfg "stream") = true ->
  valid_urls cfg = Ret urls ->
  buildMessageContent text urls (truthy (input_of cfg "imageEnabled")) = Ret mc ->
  streamFails e = None ->
  exists p' mu ml, onMessageSend t e cfg text p = Ret p' /\ sent_turn e cfg mc p p' mu ml.
Proof.
  intros Hm Hs Hu Hb Hf. unfold onMessageSend.
  destruct (createMessage e "user" text [] (messageId p)) as [um id1].
  destruct (createLoadingAssistantMessage e id1) as [lm id2] eqn:El.
  unfold js_and. rewrite Hm, Hu. unfold mbind, exc_bind. rewrite Hb, Hm.
  pose proof (created_field e "user" mc [] id2) as Hmu.
  destruct (createMessage e "user" mc [] id2) as [wm id3] eqn:Ew. cbn [fst] in Hmu.
  match goal with |- context [buildApiPayload ?l] => destruct (payload_total l cfg) as [v Hv] end.
  rewrite Hv, Hs. unfold sendRequest, handleSSE. rewrite Hf.
  eexists _, (Message _ wm), (Message _ lm). split; [reflexivity|]. split.
  - cbn. by rewrite <-app_assoc.
  - unfold field. cbn [m_props]. rewrite !Hmu by constructor. cbn [om_get oget]. literal_keys. done.
  - pose proof (loading_fields (S (nextRef (conversation p))) e id1) as H. rewrite El in H. exact H.
  - exists v. split; [reflexivity|]. exact Hv.
  - done.
Qed.

(** C16. A turn of the conversation: sending a message in the mode that builds the request
    from the settings adds the user's message and an empty reply, and sends the request made
    of the conversation up to the user's message; when the connection then delivers JSON
    events and the end mark, the reply is complete and holds exactly the contents and the
    reasoning of the events in order, the earlier messages are the same objects, and the
    last task asked for saves the conversation as it is then shown. *)
Theorem turn_completes t e cfg text urls mc es ds e' p :
  truthy (customRequestMode cfg) = false -> truthy (input_of cfg "stream") = true ->
  valid_urls cfg = Ret urls ->
  buildMessageContent text urls (truthy (input_of cfg "imageEnabled")) = Ret mc ->
  streamFails e = None ->
  Forall2 (fun ed d => text_event ed.2 d) es ds ->
  exists p1 p2 mu ml mr,
    onMessageSend t e cfg text p = Ret p1 /\ sent_turn e cfg mc p p1 mu ml /\
    net_steps t (stream_events (length (conns p)) es e') p1 = Ret p2 /\
    messages p2 = messages p ++ [mu; mr] /\
    field mr "content" = JStr (concat (delta_content <$> ds)) /\
    field mr "reasoningContent" = JStr (concat (delta_reasoning <$> ds)) /\
    field mr "status" = JStr (u "complete") /\
    last (tasks p2) = Some (TSave (messages p2)).
Proof.
  intros Hm Hs Hu Hb Hf Hes.
  destruct (send_starts_reply t e cfg text urls mc p Hm Hs Hu Hb Hf) as (p1 & mu & ml & E1 & H1).
  destruct (st_loading _ _ _ _ _ _ _ H1) as (Hr & Hg & Hc & Hrc).
  assert (Hk : conns p1 !! length (conns p) = Some (Conn [] false false false)).
  { rewrite (st_conn _ _ _ _ _ _ _ H1). by apply list_lookup_middle. }
  assert (El : messages p1 = (messages p ++ [mu]) ++ [ml]).
  { rewrite (st_messages _ _ _ _ _ _ _ H1). by rewrite <-app_assoc. }
  destruct (streamed_reply t (length (conns p)) _ es ds e' _ ml [] [] p1 Hk El Hr Hg Hc Hrc Hes)
    as (p2 & mr & E2 & M2 & C2 & R2 & S2 & T2).
  exists p1, p2, mu, ml, mr. split_and!; try done.
  - by rewrite M2, <-app_assoc.
  - by rewrite T2, last_snoc.
Qed.
