(* ===== verification/PlaygroundStore.v ===== *)
(** * The playground: reopening the page, and the actions on messages

    What the storage brings back when the page is opened again, what deleting and editing
    do, and the runs that show where they go wrong. *)

From S2P Require Import Prelude JsString JsNumber JsNumText JsValue JsJson JsJsonRound Think Playground PlaygroundPage PlaygroundThms.

(** ** Saving and reopening *)

Lemma alloc_all_props l c :
  m_props <$> (alloc_all l c).1 = l /\ msgs (alloc_all l c).2 = msgs c.
Proof.
  revert c. induction l as [|o l IH]; intros c; [done|]. cbn [alloc_all alloc].
  specialize (IH (Chat (msgs c) (S (nextRef c)))).
  destruct (alloc_all l _) as [ms c']. cbn in *. destruct IH as [-> ->]. done.
Qed.

Lemma set_new_props l p : m_props <$> messages (set_new l p) = l.
Proof.
  unfold set_new. pose proof (proj1 (alloc_all_props l (conversation p))) as H.
  by destruct (alloc_all l (conversation p)) as [ms c].
Qed.

Lemma objects_props (l : list props) : objects (JObj <$> l) = Some l.
Proof. induction l as [|o l IH]; [done|]. csimpl. by rewrite IH. Qed.

Lemma generating_props m m' : m_props m = m_props m' -> generating m = generating m'.
Proof. intros E. unfold generating, has_status, field. by rewrite E. Qed.

Lemma last_props (l l' : list message) :
  m_props <$> l = m_props <$> l' ->
  from_option generating false (last l) = from_option generating false (last l').
Proof.
  intros E. assert (H : m_props <$> last l = m_props <$> last l') by (by rewrite <-!fmap_last, E).
  destruct (last l), (last l'); try done. injection H as H. by apply generating_props.
Qed.

Lemma saved_json_ok e l :
  Forall unit_ok (iso e) -> Forall (fun m => json_ok (JObj (m_props m))) l ->
  json_ok (saved_messages e l).
Proof.
  intros Hi Hl. apply plain_json_ok.
  apply plain_cons; [vm_compute; reflexivity|apply units_okb_ok; vm_compute; reflexivity| |
    cbn [fmap list_fmap fst]; apply (bool_decide_eq_false_1 _); vm_compute; reflexivity|].
  { apply ok_arr. by apply Forall_fmap. }
  apply plain_cons; [vm_compute; reflexivity|apply units_okb_ok; vm_compute; reflexivity|by apply ok_str|
    apply not_elem_of_nil|apply plain_nil].
Qed.

Lemma loaded_saved e l :
  Forall unit_ok (iso e) -> Forall (fun m => json_ok (JObj (m_props m))) l ->
  loadMessages (stringify (saved_messages e l)) = JArr (JObj <$> (m_props <$> l)).
Proof.
  intros Hi Hl. destruct (json_roundtrip _ (saved_json_ok e l Hi Hl)) as (text & -> & Hp).
  unfold loadMessages. rewrite bool_decide_false by (by intros ->). rewrite Hp.
  unfold saved_messages. cbn [is_nullish oget]. literal_keys. cbn. by rewrite <-list_fmap_compose.
Qed.

Lemma fix_last_settled c : from_option generating false (last (msgs c)) = false -> fix_last c = Ret (c, []).
Proof. intros H. unfold fix_last. destruct (last (msgs c)) as [m|]; [|done]. cbn in H. by rewrite H. Qed.

(** C26. Reopening the page restores a settled conversation: once a conversation whose
    messages are JSON and whose last message is not being generated is saved, opening the page
    on that storage shows exactly its messages (unless it is the greeting of an old version)
    and asks for no task.  A reply that is still loading is rewritten when the page opens. *)
Theorem reload_restores t e l p :
  Forall unit_ok (iso e) -> Forall (fun m => json_ok (JObj (m_props m))) l ->
  from_option generating false (last l) = false ->
  old_defaults (JObj <$> (m_props <$> l)) = false ->
  exists p1 p2,
    run_task t e (TSave l) p = Ret p1 /\
    mount t (storedMessages p1) (storedConfig p1) = Some (Ret p2) /\
    m_props <$> messages p2 = m_props <$> l /\ tasks p2 = [].
Proof.
  intros Hi Hl Hg Ho. exists (saveMessages e l p). cbn [run_task].
  assert (Hs : storedMessages (saveMessages e l p) = stringify (saved_messages e l)) by done.
  unfold mount, first_state. rewrite Hs, loaded_saved by done. rewrite Ho, objects_props.
  cbn [fmap option_fmap option_map].
  match goal with |- context [set_new _ ?q] => set (q0 := q) end.
  assert (Hn : from_option generating false (last (msgs (conversation (set_new (m_props <$> l) q0)))) = false).
  { refine (eq_trans _ Hg). apply last_props. exact (set_new_props _ q0). }
  assert (Hf : language_effect t (set_new (m_props <$> l) q0) = set_new (m_props <$> l) q0).
  { unfold language_effect. assert (initialMessages (set_new (m_props <$> l) q0) = true) as ->; [|done].
    unfold set_new. by destruct (alloc_all _ _). }
  assert (Ht : tasks (set_new (m_props <$> l) q0) = []).
  { unfold set_new. by destruct (alloc_all _ _). }
  eexists. split; [reflexivity|]. rewrite Hf. unfold update. rewrite fix_last_settled by done.
  split; [reflexivity|]. split.
  - exact (set_new_props _ q0).
  - refine (eq_trans _ Ht). apply app_nil_r.
Qed.

(** Nothing waits when the page opens: whatever is stored, if the page opens, its last
    message is not left in a state that waits for a reply. *)
Theorem mount_settles t stored cfg p :
  mount t stored cfg = Some (Ret p) -> from_option generating false (last (messages p)) = false.
Proof.
  unfold mount. destruct (first_state t stored cfg) as [q|]; [|done]. cbn. intros [= E].
  revert E. generalize (language_effect t q). clear q. intros q E. unfold update, fix_last in E.
  fold (messages q) in E. destruct (last (messages q)) as [m|] eqn:El.
  - destruct (generating m) eqn:Hg.
    + destruct (processIncompleteThinkTags _ _) as [r|]; [|done]. injection E as <-.
      match goal with |- context [replace_last m ?o ?c] =>
        pose proof (replace_last_msgs (removelast (messages q)) m o c (last_split _ _ El)) as Hm;
        set (o0 := o) in * end.
      assert (Hx : forall x, messages (setTimeout x (set_conversation
        (replace_last m o0 (conversation q)) q)) = removelast (messages q) ++
          [Message (nextRef (conversation q)) (spread_msg m o0)]) by (intros x; exact Hm).
      cbn [fst snd]. rewrite Hx, last_snoc. cbn [from_option].
      unfold generating, has_status. rewrite field_spread by (unfold o0; distinct_keys).
      unfold o0. literal_keys. done.
    + injection E as <-. unfold messages. cbn. fold (messages q). by rewrite El.
  - injection E as <-. unfold messages. cbn. fold (messages q). by rewrite El.
Qed.

(** ** Deleting *)

Lemma find_index_app {A} (f : A -> bool) a x b :
  Forall (fun y => f y = false) a -> f x = true -> find_index f (a ++ x :: b) = Some (length a).
Proof.
  intros Ha Hx. induction Ha as [|y a Hy _ IH]; cbn; [by rewrite Hx|]. by rewrite Hy, IH.
Qed.

Lemma find_target_here target a b :
  m_ref target ∉ m_ref <$> a -> find_target target (a ++ target :: b) = Some (length a).
Proof.
  intros Hn. unfold find_target, find_message.
  rewrite (find_index_app _ a target b); [done| |by apply bool_decide_eq_true].
  apply Forall_forall. intros m Hm. apply bool_decide_eq_false. intros [= E].
  apply Hn. rewrite <-E. apply list_elem_of_fmap. by exists m.
Qed.

Lemma without_id_none id l : Forall (fun m => same_id id m = false) l -> without_id id l = l.
Proof.
  unfold without_id. induction 1 as [|m l Hm _ IH]; [done|]. cbn. by rewrite Hm, IH.
Qed.

(** A message and, after a message of the user, the reply to it. *)
Definition without_target (target : message) (rest : list message) : list message :=
  match rest with
  | m :: rest' => if has_role "user" target && has_role "assistant" m then rest' else rest
  | [] => []
  end.

(** C29. Deleting a message: when the ids of the conversation are distinct, deleting a message
    removes it, and with a message of the user the reply that follows it, keeps every other
    message in place, and asks to save exactly the list that is then shown. *)
Theorem delete_spec target a b p :
  messages p = a ++ target :: b -> m_ref target ∉ m_ref <$> a ->
  same_id (field target "id") target = true ->
  Forall (fun m => same_id (field target "id") m = false) (a ++ b) ->
  let p' := handleMessageDelete target p in
  messages p' = a ++ without_target target b /\ tasks p' = tasks p ++ [TSave (messages p')].
Proof.
  intros E Hr Hi Hd p'. subst p'. unfold handleMessageDelete. rewrite E, find_target_here by done.
  cbv zeta. split; [|done]. cbn [messages conversation set_conversation setTimeout set_tasks setMessage msgs].
  assert (Hs : (a ++ target :: b) !! S (length a) = head b).
  { rewrite lookup_app_r by lia. replace (S (length a) - length a)%nat with 1%nat by lia. by destruct b. }
  assert (Hw : without_id (field target "id") (a ++ target :: b) = a ++ b).
  { apply Forall_app in Hd as [Ha Hb]. unfold without_id. rewrite List.filter_app. cbn [List.filter].
    rewrite Hi. cbn [negb]. fold (without_id (field target "id") a) (without_id (field target "id") b).
    by rewrite (without_id_none _ a Ha), (without_id_none _ b Hb). }
  rewrite Hs. unfold without_target. destruct b as [|m b]; cbn [head from_option].
  - by rewrite andb_false_r, Hw.
  - destruct (_ && _); [|by rewrite Hw]. unfold without_pair.
    rewrite take_app_length. f_equal. rewrite <-drop_drop, drop_app_length. done.
Qed.

(** ** What a cleared conversation does to an edit and to a reply *)

(** Clearing the conversation while a message is edited breaks the edit: whatever the
    page, saving the edit afterwards with any text throws, because the message looked up is
    not there. *)
Theorem edit_after_clear_throws target text p :
  truthy (field target "id") = true -> trim text <> [] ->
  handleEditSave (handleClearMessages (setEditValue (JStr text) (handleMessageEdit target p)))
    = Throw (u "TypeError").
Proof.
  intros Hi Ht. unfold handleEditSave.
  change (edit (handleClearMessages (setEditValue (JStr text) (handleMessageEdit target p))))
    with (Editing (field target "id") (Some target) (JStr text)).
  cbn [editingMessageId editValue editingMessageRef]. rewrite Hi. cbn [negb as_string mbind exc_bind].
  by rewrite bool_decide_false.
Qed.

(** Clearing the conversation while a reply streams breaks the page: the connection is
    not closed, and its end mark then throws, because there is no last message. *)
Theorem clear_while_streaming_throws t e i k p :
  conns p !! i = Some k ->
  conns (handleClearMessages p) !! i = Some k /\
  on_message t e i (u "[DONE]") (handleClearMessages p) = Throw (u "TypeError").
Proof.
  intros Hk. split; [exact Hk|]. unfold on_message.
  change (conns (handleClearMessages p)) with (conns p).
  by rewrite Hk, bool_decide_true.
Qed.

(** ** Regenerating a reply *)

Lemma user_before_here l i m n :
  l !! i = Some m -> has_role "user" m = true ->
  (forall j x, (i < j < i + S n)%nat -> l !! j = Some x -> has_role "user" x = false) ->
  user_before l (i + S n) = Some (i, m).
Proof.
  intros Hi Hu. induction n as [|n IH]; intros Hn; rewrite Nat.add_succ_r; cbn [user_before].
  - by rewrite Nat.add_0_r, Hi, Hu.
  - destruct (l !! (i + S n)%nat) as [x|] eqn:E.
    + rewrite (Hn (i + S n)%nat x) by (done || lia). apply IH. intros j y Hj. apply Hn. lia.
    + apply IH. intros j y Hj. apply Hn. lia.
Qed.

(** Regenerating a reply: resetting a message of the assistant or of the system cuts the
    conversation before the user's message it answers, and asks to send the text of that
    message again with the settings of the page; nothing else changes. *)
Theorem reset_resends a mu mid target b p :
  messages p = a ++ mu :: mid ++ target :: b ->
  has_role "user" mu = true -> Forall (fun m => has_role "user" m = false) mid ->
  has_role "user" target = false -> has_role "assistant" target || has_role "system" target = true ->
  m_ref target ∉ m_ref <$> (a ++ mu :: mid) ->
  let p' := handleMessageReset target p in
  messages p' = a /\
  tasks p' = tasks p ++ [TSend (config p) (getTextContent (field mu "content"))] /\
  config p' = config p /\ sent p' = sent p.
Proof.
  intros E Hu Hmid Ht Hr Hn p'. subst p'. unfold handleMessageReset.
  rewrite E. replace (a ++ mu :: mid ++ target :: b) with ((a ++ mu :: mid) ++ target :: b)
    by (by rewrite <-app_assoc).
  rewrite find_target_here, Ht, Hr by done. rewrite <-app_assoc. cbn [app].
  rewrite length_app. cbn [length].
  rewrite (user_before_here _ (length a) mu (length mid)); [|by apply list_lookup_middle|done|].
  - split_and!; [exact (take_app_length a _)|done..].
  - intros j x Hj Hx. rewrite lookup_app_r in Hx by lia.
    rewrite lookup_cons_ne_0, lookup_app_l in Hx by lia. by apply (proj1 (Forall_lookup _ _) Hmid _ _ Hx).
Qed.

(** ** The request *)

(** A parameter is sent when it is enabled and has a value; the limit must be a number. *)
Definition given (ins en : props) (key : string) : bool :=
  let v := oget (JObj ins) (u key) in
  truthy (oget (JObj en) (u key)) &&
  (if bool_decide (key = "max_tokens"%string) then is_number v else negb (is_nullish v)).

Lemma add_parameter_get ins en o key k :
  om_get k (add_parameter ins en o key) =
    if decide (k = u key) then
      if given ins en key then Some (oget (JObj ins) (u key)) else om_get k o
    else om_get k o.
Proof.
  unfold add_parameter, given. destruct (truthy _); cbn [negb andb]; [|by destruct (decide _)].
  destruct (bool_decide (key = _)); [destruct (is_number _)|destruct (is_nullish _)]; cbn [negb];
    rewrite ?obj_get_set; by destruct (decide (k = u key)).
Qed.

Lemma add_parameters_other ins en ks o k :
  k ∉ u <$> ks -> om_get k (fold_left (add_parameter ins en) ks o) = om_get k o.
Proof.
  revert o. induction ks as [|key ks IH]; intros o Hn; [done|]. csimpl. csimpl in Hn.
  rewrite not_elem_of_cons in Hn. destruct Hn as [Hk Hn]. rewrite IH by done.
  rewrite add_parameter_get. by rewrite decide_False.
Qed.

Lemma add_parameters_get ins en ks o key :
  NoDup (u <$> ks) -> key ∈ ks -> om_get (u key) o = None ->
  om_get (u key) (fold_left (add_parameter ins en) ks o) =
    if given ins en key then Some (oget (JObj ins) (u key)) else None.
Proof.
  revert o. induction ks as [|k ks IH]; intros o Hn Hin Ho; [by apply not_elem_of_nil in Hin|].
  csimpl in Hn. apply NoDup_cons in Hn as [Hk Hn]. csimpl. apply elem_of_cons in Hin as [<-|Hin].
  - rewrite add_parameters_other by done. rewrite add_parameter_get, decide_True by done.
    by rewrite Ho.
  - apply IH; [done..|]. rewrite add_parameter_get, decide_False; [done|].
    intros E. apply Hk. rewrite <-E. apply list_elem_of_fmap. by exists key.
Qed.

(** The request of a conversation: it carries the model, the group, the stream flag, the
    role and content of every valid message in order, each parameter exactly when it is
    enabled and has a value (the token limit only when it is a number), and nothing else. *)
Theorem payload_spec l ins en :
  exists o, buildApiPayload l JNull ins en = Ret (JObj o) /\
    om_get (u "messages") o = Some (JArr (formatMessageForAPI <$> List.filter isValidMessage l)) /\
    om_get (u "model") o = Some (oget (JObj ins) (u "model")) /\
    om_get (u "group") o = Some (oget (JObj ins) (u "group")) /\
    om_get (u "stream") o = Some (oget (JObj ins) (u "stream")) /\
    Forall (fun key => om_get (u key) o =
      if given ins en key then Some (oget (JObj ins) (u key)) else None) parameters /\
    forall k, k ∉ [u "model"; u "group"; u "messages"; u "stream"] ++ (u <$> parameters) ->
      om_get k o = None.
Proof.
  eexists. split; [reflexivity|].
  do 4 (split; [rewrite add_parameters_other by
    (apply (bool_decide_eq_false_1 _); vm_compute; reflexivity); literal_keys; reflexivity|]).
  split.
  - assert (Hn : NoDup (u <$> parameters)) by (apply (bool_decide_eq_true_1 _); vm_compute; reflexivity).
    apply Forall_forall. intros key Hin. apply add_parameters_get; [exact Hn|exact Hin|].
    repeat (apply elem_of_cons in Hin as [->|Hin]; [literal_keys; reflexivity|]).
    by apply not_elem_of_nil in Hin.
  - intros k Hk. apply not_elem_of_app in Hk as [Hk Hp]. rewrite add_parameters_other by done.
    rewrite !not_elem_of_cons in Hk. destruct Hk as (H1 & H2 & H3 & H4 & _).
    cbn [om_get]. by rewrite !decide_False by done.
Qed.
