(* ===== verification/PlaygroundSync.v ===== *)
(** * The playground: the custom request body

    In custom mode the page keeps the conversation and the text of the request body in step
    (web/classic/src/hooks/playground/useSyncMessageAndCustomBody.js).  Two effects run after
    a render: the first after every render, the second when the body or the mode changed.
    Both read the values of that render; the hashes they remember are references, so the
    second sees what the first just wrote.  The flags that keep one function from running
    inside the other are false whenever an effect starts. *)

From S2P Require Import Prelude JsString JsNumber JsNumText JsValue JsJson JsJsonRound JsObject Think Playground PlaygroundPage PlaygroundThms.

Record synced := Synced {
  s_page : page;
  lastMessageHash : jsstr;
  lastCustomBodyHash : jsstr;
  seen : option (jsv * jsv)          (** the mode and the body of the previous render *)
}.

Definition set_body (b : jsv) (p : page) : page :=
  let c := config p in
  set_config (Settings (inputs c) (parameterEnabled c) (showDebugPanel c) (customRequestMode c) b) p.
Definition body_of (s : synced) : jsv := customRequestBody (config (s_page s)).
Definition mode_of (s : synced) : jsv := customRequestMode (config (s_page s)).

Definition getMessageHash (l : list message) : jsstr :=
  default [] (stringify (JArr ((fun m =>
    JObj [(u "id", field m "id"); (u "role", field m "role"); (u "content", field m "content")]) <$> l))).

Definition getCustomBodyHash (customBody : jsv) : jsstr :=
  match json_parse (to_string customBody) with
  | Some parsed =>
      if is_nullish parsed then []
      else default [] (stringify (js_or (parsed?."messages") (JArr [])))
  | None => []
  end.

(** [JSON.parse(body || '{}')] *)
Definition parse_body (b : jsv) : option jsv := json_parse (to_string (js_or b (JStr (u "{}")))).

(** The payload for a body that is no JSON. *)
Definition fallback_payload (ins : props) : jsv :=
  JObj [(u "model", js_or (oget (JObj ins) (u "model")) (JStr (u "gpt-4o"))); (u "messages", JArr []);
        (u "temperature", js_or (oget (JObj ins) (u "temperature")) (JNum (num_div (of_Z 7) (of_Z 10))));
        (u "stream", JBool (negb (is_false (oget (JObj ins) (u "stream")))))].

(** [payload.messages = l]; a property of an array is not written out, and a value that is
    no object takes none. *)
Definition set_messages (payload : jsv) (l : jsv) : exc jsv :=
  match payload with
  | JObj o => Ret (JObj (obj_set (u "messages") l o))
  | JArr a => Ret (JArr a)
  | _ => Throw (u "TypeError")
  end.

Definition written_body (p : page) (b : jsv) : exc jsv :=
  payload ← set_messages (default (fallback_payload (inputs (config p))) (parse_body b))
              (JArr (formatMessageForAPI <$> messages p));
  Ret (JStr (pretty payload)).

Definition syncMessageToCustomBody (s : synced) : exc synced :=
  if negb (truthy (mode_of s)) then Ret s
  else
    let currentMessageHash := getMessageHash (messages (s_page s)) in
    if bool_decide (currentMessageHash = lastMessageHash s) then Ret s
    else
      newCustomBody ← written_body (s_page s) (body_of s);
      Ret (Synced (set_body newCustomBody (s_page s)) currentMessageHash
             (getCustomBodyHash newCustomBody) (seen s)).

(** One message of the body. *)
Definition body_message (e : env) (i : Z) (msg : jsv) : exc props :=
  if is_nullish msg then Throw (u "TypeError")
  else Ret ([(u "id", js_or (msg?."id") (JStr (str_of_Z (i + 1))));
             (u "role", js_or (msg?."role") (JStr (u "user")));
             (u "content", js_or (msg?."content") (JStr []));
             (u "createAt", JNum (now e))] ++
            (if is_str (msg?."role") (u "assistant")
             then [(u "reasoningContent", js_or (msg?."reasoningContent") (JStr []));
                   (u "isReasoningExpanded", JBool false)] else [])).

(** The messages of a body, if it has a list of them that can be read. *)
Definition body_messages (e : env) (b : jsv) : option (list props) :=
  match parse_body b with
  | Some (JObj o) =>
      match oget (JObj o) (u "messages") with
      | JArr l =>
          match exc_map id (mapi (body_message e) l) with Ret os => Some os | Throw _ => None end
      | _ => None
      end
  | _ => None
  end.

(** [body] is the body of the render, the state may already be newer. *)
Definition syncCustomBodyToMessage (e : env) (mode body : jsv) (s : synced) : synced :=
  if negb (truthy mode) then s
  else
    let currentCustomBodyHash := getCustomBodyHash body in
    if bool_decide (currentCustomBodyHash = lastCustomBodyHash s) then s
    else match body_messages e body with
         | Some newMessages =>
             let p := set_new newMessages (s_page s) in
             Synced p (getMessageHash (messages p)) currentCustomBodyHash (seen s)
         | None => s
         end.

(** The dependencies of the second effect are those of the previous render (neither is an
    object). *)
Definition unchanged_since (old : option (jsv * jsv)) (mode body : jsv) : bool :=
  match old with Some (m, b) => strict_eq m mode && strict_eq b body | None => false end.

(** The effects after a render. *)
Definition commit (e : env) (s : synced) : exc synced :=
  let mode := mode_of s in
  let body := body_of s in
  s1 ← syncMessageToCustomBody s;
  let s2 := if unchanged_since (seen s) mode body then s1
            else syncCustomBodyToMessage e mode body s1 in
  Ret (Synced (s_page s2) (lastMessageHash s2) (lastCustomBodyHash s2) (Some (mode, body))).

(** ** The effects settle *)

(** Nothing is left to do for either effect. *)
Record settled_sync (e : env) (s : synced) : Prop := {
  ss_first : truthy (mode_of s) = true -> getMessageHash (messages (s_page s)) = lastMessageHash s;
  ss_second : truthy (mode_of s) = true ->
    unchanged_since (seen s) (mode_of s) (body_of s) = true \/
    getCustomBodyHash (body_of s) = lastCustomBodyHash s \/
    body_messages e (body_of s) = None
}.

Lemma commit_settled e s :
  settled_sync e s ->
  commit e s = Ret (Synced (s_page s) (lastMessageHash s) (lastCustomBodyHash s)
                      (Some (mode_of s, body_of s))).
Proof.
  intros [H1 H2]. unfold commit, syncMessageToCustomBody, syncCustomBodyToMessage.
  destruct (truthy (mode_of s)); cbn [negb mbind exc_bind].
  - rewrite bool_decide_true by auto. cbn [mbind exc_bind].
    destruct (unchanged_since _ _ _) eqn:Eu; [done|].
    destruct (H2 eq_refl) as [?|[-> | ->]]; [congruence| |]; [by rewrite bool_decide_true|].
    by destruct (bool_decide _).
  - by destruct (unchanged_since _ _ _).
Qed.

Lemma set_new_config l p : config (set_new l p) = config p.
Proof. unfold set_new. by destruct (alloc_all l (conversation p)). Qed.

Definition hashed (s : synced) : Prop := getMessageHash (messages (s_page s)) = lastMessageHash s.

Lemma second_hashed e mode body s :
  hashed s -> let s' := syncCustomBodyToMessage e mode body s in
  hashed s' /\ config (s_page s') = config (s_page s).
Proof.
  intros H. unfold syncCustomBodyToMessage. destruct (negb (truthy mode)); [done|].
  destruct (bool_decide _); [done|]. destruct (body_messages e body); [|done].
  split; [done|apply set_new_config].
Qed.

Lemma first_hashed s s1 :
  truthy (mode_of s) = true -> syncMessageToCustomBody s = Ret s1 ->
  hashed s1 /\ mode_of s1 = mode_of s /\ (hashed s -> s1 = s).
Proof.
  intros Hm. unfold syncMessageToCustomBody. rewrite Hm. cbn [negb].
  destruct (bool_decide_reflect (getMessageHash (messages (s_page s)) = lastMessageHash s)) as [E|E].
  - intros [= <-]. done.
  - destruct (written_body _ _) as [b|]; [|done]. intros [= <-]. split_and!; [done..|].
    intros H. by exfalso.
Qed.

Lemma commit_spec e s s1 :
  truthy (mode_of s) = true -> commit e s = Ret s1 ->
  hashed s1 /\ mode_of s1 = mode_of s /\ seen s1 = Some (mode_of s, body_of s) /\
  (hashed s -> body_of s1 = body_of s).
Proof.
  intros Hm. unfold commit. destruct (syncMessageToCustomBody s) as [s'|] eqn:E; [|done].
  destruct (first_hashed s s' Hm E) as (H1 & H2 & H3). cbn [mbind exc_bind]. intros [= <-].
  destruct (second_hashed e (mode_of s) (body_of s) s' H1) as [H4 H5].
  unfold mode_of, body_of in *. destruct (unchanged_since _ _ _); cbn [s_page seen].
  - split_and!; [done..|]. intros H. by rewrite (H3 H).
  - split_and!; [done|by rewrite H5|done|]. intros H. rewrite H5. by rewrite (H3 H).
Qed.

(** C27. The conversation and the custom body come to rest: in custom mode, from any state of
    the page and of the remembered hashes, two rounds of the effects reach a state that a
    further round leaves as it is, conversation, body and hashes: the effects do not feed
    each other forever. *)
Theorem sync_settles e1 e2 e3 b s s1 s2 :
  mode_of s = JBool true -> commit e1 s = Ret s1 -> body_of s1 = JStr b -> commit e2 s1 = Ret s2 ->
  exists s3, commit e3 s2 = Ret s3 /\ s_page s3 = s_page s2 /\
    lastMessageHash s3 = lastMessageHash s2 /\ lastCustomBodyHash s3 = lastCustomBodyHash s2.
Proof.
  intros Hm E1 Hb E2.
  destruct (commit_spec e1 s s1) as (H1 & M1 & _ & _); [by rewrite Hm|done|].
  destruct (commit_spec e2 s1 s2) as (H2 & M2 & S2 & B2); [by rewrite M1, Hm|done|].
  eexists. split; [apply commit_settled; split|]; [by intros _|intros _; left|done].
  rewrite S2, M2, M1, Hm, (B2 H1), Hb. cbn. by apply bool_decide_eq_true.
Qed.

(** ** The body mirrors the conversation *)

(** The custom body follows the conversation: when the conversation changed and the body
    is a JSON object that did not, one round of the effects leaves the conversation alone and
    writes a body that reads back as the same object with exactly the roles and contents of
    the messages in [messages]. *)
Theorem body_mirrors e s text o :
  mode_of s = JBool true -> body_of s = JStr text -> text <> [] ->
  json_parse text = Some (JObj o) -> ordered o ->
  Forall (fun kv => Forall unit_ok kv.1 /\ json_ok kv.2) o ->
  Forall (fun m => json_ok (formatMessageForAPI m)) (messages (s_page s)) ->
  ~ hashed s -> unchanged_since (seen s) (mode_of s) (body_of s) = true ->
  exists s1 text1,
    commit e s = Ret s1 /\ messages (s_page s1) = messages (s_page s) /\ body_of s1 = JStr text1 /\
    json_parse text1 =
      Some (JObj (obj_set (u "messages") (JArr (formatMessageForAPI <$> messages (s_page s))) o)).
Proof.
  intros Hm Hb Hne Hp Ho Hok Hms Hh Hu.
  assert (Hj : json_ok (JObj (obj_set (u "messages") (JArr (formatMessageForAPI <$> messages (s_page s))) o))).
  { apply ordered_json_ok; [by apply obj_set_ordered|]. apply obj_set_Forall; [|done].
    split; [apply units_okb_ok; vm_compute; reflexivity|]. apply ok_arr. by apply Forall_fmap. }
  destruct (json_roundtrip2 _ Hj) as (text1 & Hs & Hr).
  eexists _, text1. unfold commit, syncMessageToCustomBody. rewrite Hm. cbn [truthy negb].
  rewrite bool_decide_false by exact Hh.
  assert (Hw : written_body (s_page s) (body_of s) = Ret (JStr text1)).
  { unfold written_body, parse_body. rewrite Hb. unfold js_or. cbn [truthy]. rewrite bool_decide_false by done. cbn [negb to_string]. rewrite Hp.
    cbn [from_option id set_messages mbind exc_bind]. unfold pretty. by rewrite Hs. }
  rewrite Hw. cbn [mbind exc_bind]. rewrite <-Hm, Hu.
  split; [reflexivity|]. split; [done|]. split; [done|exact Hr].
Qed.

(** ** Sending in custom mode *)

(** In custom mode the question is not in the request: whatever the page, sending a
    message sends the body as it stands, which mirrors the conversation before the message,
    while the conversation shown gets the question and an empty reply. *)
Theorem custom_send_is_body t e cfg text body o p :
  truthy (customRequestMode cfg) = true -> customRequestBody cfg = JStr body -> body <> [] ->
  json_parse body = Some (JObj o) -> streamFails e = None ->
  exists p' mu ml,
    onMessageSend t e cfg text p = Ret p' /\
    sent p' = sent p ++ [(JObj o, negb (is_false (oget (JObj o) (u "stream"))))] /\
    messages p' = messages p ++ [mu; ml] /\
    field mu "content" = text /\ field ml "content" = JStr [].
Proof.
  intros Hm Hb Hne Hp Hf. unfold onMessageSend.
  pose proof (created_field e "user" text [] (messageId p)) as Hmu.
  destruct (createMessage e "user" text [] (messageId p)) as [um id1]. cbn [fst] in Hmu.
  pose proof (loading_fields (S (nextRef (conversation p))) e id1) as Hml.
  destruct (createLoadingAssistantMessage e id1) as [lm id2]. cbn [fst] in Hml.
  unfold js_and. rewrite Hm, Hb. cbn [truthy]. rewrite bool_decide_false by done. cbn [negb].
  unfold send_custom. cbn [as_string mbind exc_bind]. rewrite Hp. cbn [is_nullish].
  destruct (negb (is_false _)); unfold sendRequest, handleSSE; rewrite ?Hf;
    (eexists _, (Message _ um), (Message _ lm); split; [reflexivity|]; split; [reflexivity|];
     split; [reflexivity|]; split;
     [unfold field; cbn [m_props]; rewrite Hmu by constructor; cbn [om_get oget]; literal_keys; done|
      apply Hml]).
Qed.
