(* ===== verification/PlaygroundPanel.v ===== *)
(** * The playground: the panels

    What surrounds the conversation: the preview of the request
    (web/classic/src/pages/Playground/index.jsx), the editor of the custom body
    (components/playground/CustomRequestEditor.jsx), the lists of models and groups
    (hooks/playground/useDataLoader.js, helpers/api.js), export and import of the
    configuration (components/playground/configStorage.js) and when the actions on a message
    are offered (components/playground/MessageActions.jsx). *)

From S2P Require Import Prelude JsString JsNumber JsNumText JsValue JsJson JsJsonRound Think Playground PlaygroundPage PlaygroundThms PlaygroundStore PlaygroundSync.

(** ** The preview *)

(** The last message of the user, with its index. *)
Definition last_user (l : list message) : option (nat * message) := user_before l (length l).

(** The images of the settings in the last message of the user. *)
Definition with_images (cfg : settings) (l : list message) : exc (list message) :=
  match last_user l with
  | None => Ret l
  | Some (i, m) =>
      if truthy (js_and (input_of cfg "imageEnabled") (input_of cfg "imageUrls")) then
        validImageUrls ← valid_urls cfg;
        if bool_decide (validImageUrls = []) then Ret l
        else
          c ← buildMessageContent (js_or (getTextContent (field m "content")) (JStr (u "示例消息")))
                validImageUrls true;
          Ret (<[i := Message (m_ref m) (spread_msg m [(u "content", c)])]> l)
      else Ret l
  end.

Definition default_preview (cfg : settings) (l : list message) : jsv :=
  match (l' ← with_images cfg l; buildApiPayload l' JNull (inputs cfg) (parameterEnabled cfg)) with
  | Ret v => v
  | Throw _ => JNull
  end.

Definition constructPreviewPayload (cfg : settings) (l : list message) : jsv :=
  if truthy (js_and (customRequestMode cfg) (customRequestBody cfg)) then
    match customRequestBody cfg with
    | JStr b =>
        if bool_decide (trim b = []) then default_preview cfg l
        else match json_parse b with Some v => v | None => default_preview cfg l end
    | _ => JNull
    end
  else default_preview cfg l.

(** The timer of the preview. *)
Definition show_preview (e : env) (p : page) : page :=
  let preview := constructPreviewPayload (config p) (messages p) in
  mergeDebug [(u "previewRequest", if truthy preview then JStr (pretty preview) else JNull);
              (u "previewTimestamp", if truthy preview then JStr (iso e) else JNull)] p.

(** ** The editor of the custom body *)

Record body_editor := BodyEditor { isValid : bool; errorMessage : jsstr; localValue : jsv }.

Section Editor.
Context (t : jsstr -> jsstr).

Definition validateJson (e : env) (value : jsstr) (ed : body_editor) : body_editor :=
  if bool_decide (trim value = []) then BodyEditor true [] (localValue ed)
  else match json_parse value with
       | Some _ => BodyEditor true [] (localValue ed)
       | None => BodyEditor false (t (u "JSON格式错误") ++ u ": " ++ errorText e) (localValue ed)
       end.

Definition setLocalValue (v : jsv) (ed : body_editor) : body_editor :=
  BodyEditor (isValid ed) (errorMessage ed) v.

Definition handleValueChange (e : env) (value : jsstr) (ep : body_editor * page) : body_editor * page :=
  (validateJson e value (setLocalValue (JStr value) ep.1), set_body (JStr value) ep.2).

Definition set_mode (b : bool) (p : page) : page :=
  let c := config p in
  set_config (Settings (inputs c) (parameterEnabled c) (showDebugPanel c) (JBool b) (customRequestBody c)) p.

Definition handleModeToggle (enabled : bool) (defaultPayload : jsv) (ep : body_editor * page)
    : body_editor * page :=
  let p := set_mode enabled ep.2 in
  if enabled && truthy defaultPayload then
    let defaultJson := JStr (pretty defaultPayload) in
    (setLocalValue defaultJson ep.1, set_body defaultJson p)
  else (ep.1, p).

Definition format_body (ep : body_editor * page) : body_editor * page :=
  match json_parse (to_string (localValue ep.1)) with
  | Some parsed =>
      let formatted := JStr (pretty parsed) in
      (BodyEditor true [] formatted, set_body formatted ep.2)
  | None => ep
  end.

(** The effect that fills an empty body, and the one that follows the page. *)
Definition fill_body (defaultPayload : jsv) (ep : body_editor * page) : body_editor * page :=
  let cfg := config ep.2 in
  let empty := negb (truthy (customRequestBody cfg))
               || bool_decide (trim (to_string (customRequestBody cfg)) = []) in
  if truthy (customRequestMode cfg) && empty then
    let defaultJson := JStr (if truthy defaultPayload then pretty defaultPayload else []) in
    (setLocalValue defaultJson ep.1, set_body defaultJson ep.2)
  else ep.
Definition follow_body (e : env) (ep : body_editor * page) : body_editor * page :=
  let b := customRequestBody (config ep.2) in
  if strict_eq b (localValue ep.1) then ep
  else
    let v := js_or b (JStr []) in
    (validateJson e (to_string v) (setLocalValue v ep.1), ep.2).
End Editor.

(** ** Models and groups *)

Definition processModelsData (data : list jsv) (currentModel : jsv) : list jsv * jsv :=
  let modelOptions := (fun model => JObj [(u "label", model); (u "value", model)]) <$> data in
  let hasCurrentModel := existsb (fun option => strict_eq (option?."value") currentModel) modelOptions in
  (modelOptions,
   if hasCurrentModel && negb (bool_decide (modelOptions = [])) then currentModel
   else match modelOptions with option :: _ => option?."value" | [] => JUndef end).

(** One group: its description is cut after 20 units. *)
Definition group_option (kv : jsstr * jsv) : exc jsv :=
  desc ← as_string ((kv.2)?."desc");
  Ret (JObj [(u "label", JStr (if (20 <? Z.of_nat (length desc)) then take 20 desc ++ u "..." else desc));
             (u "value", JStr kv.1); (u "ratio", (kv.2)?."ratio"); (u "fullLabel", JStr desc)]).

(** [options.splice(i, 1)], [options.unshift(...)] *)
Definition move_to_front (i : nat) (l : list jsv) : list jsv :=
  match l !! i with Some x => x :: take i l ++ drop (S i) l | None => l end.

Definition processGroupsData (data : jsv) (userGroup : jsv) : exc (list jsv) :=
  groupOptions ← exc_map group_option (entries data);
  match groupOptions with
  | [] => Ret [JObj [(u "label", JStr (u "用户分组")); (u "value", JStr []); (u "ratio", JNum (of_Z 1))]]
  | _ =>
      if truthy userGroup then
        match find_index (fun g => strict_eq (g?."value") userGroup) groupOptions with
        | Some i => Ret (move_to_front i groupOptions)
        | None => Ret groupOptions
        end
      else Ret groupOptions
  end.

(** [loadModels] and [loadGroups] once a successful response is there: the options, and the
    page with a choice that exists. *)
Definition loadModels (data : list jsv) (p : page) : list jsv * page :=
  let '(modelOptions, selectedModel) := processModelsData data (input_of (config p) "model") in
  (modelOptions,
   if strict_eq selectedModel (input_of (config p) "model") then p
   else handleInputChange (u "model") selectedModel p).

Definition loadGroups (data userGroup : jsv) (p : page) : exc (list jsv * page) :=
  groupOptions ← processGroupsData data userGroup;
  let hasCurrentGroup :=
    existsb (fun option => strict_eq (option?."value") (input_of (config p) "group")) groupOptions in
  Ret (groupOptions,
       if hasCurrentGroup then p
       else handleInputChange (u "group")
              (js_or (match groupOptions with g :: _ => g?."value" | [] => JUndef end) (JStr [])) p).

(** ** Export and import *)

(** The text of the exported file. *)
Definition exported (e : env) (c : settings) (l : list message) : jsv :=
  JObj [(u "inputs", JObj (inputs c)); (u "parameterEnabled", JObj (parameterEnabled c));
        (u "showDebugPanel", showDebugPanel c); (u "customRequestMode", customRequestMode c);
        (u "customRequestBody", customRequestBody c);
        (u "messages", JArr ((fun m => JObj (m_props m)) <$> l));
        (u "exportTime", JStr (iso e)); (u "version", JStr (u "1.0"))].
(** [handleExport] also stores the configuration. *)
Definition handleExport (e : env) (p : page) : jsstr * page :=
  (pretty (exported e (config p) (messages p)), saveConfig e p).

(** [importConfig]: the configuration of the file, whose messages are stored at once. *)
Definition importConfig (e : env) (text : jsstr) (p : page) : exc (jsv * page) :=
  match json_parse text with
  | None => Throw (u "解析配置文件失败: " ++ errorText e)
  | Some imported =>
      if is_nullish imported then Throw (u "解析配置文件失败: " ++ errorText e)
      else if truthy (imported?."inputs") && truthy (imported?."parameterEnabled") then
        Ret (imported,
          match imported?."messages" with
          | JArr l =>
              set_storedMessages (stringify (JObj [(u "messages", JArr l); (u "timestamp", JStr (iso e))])) p
          | _ => p
          end)
      else Throw (u "配置文件格式无效")
  end.

(** ** The actions on a message *)

Definition isAnyMessageGenerating (l : list message) : bool := existsb generating l.
Definition shouldDisableActions (l : list message) (isEditing : bool) : bool :=
  isAnyMessageGenerating l || isEditing.
Definition canToggleRole (m : message) : bool := has_role "assistant" m || has_role "system" m.
Definition canEdit (m : message) (isEditing : bool) : bool :=
  negb (generating m) && truthy (field m "content") && negb isEditing.

(** ** Importing what was exported *)

(** A key of a literal table of JSON values. *)
Ltac plain_entry :=
  apply plain_cons; [vm_compute; reflexivity|apply units_okb_ok; vm_compute; reflexivity| |
    cbn [fmap list_fmap fst]; apply (bool_decide_eq_false_1 _); vm_compute; reflexivity|].

(** The settings and the messages are JSON. *)
Record exportable (c : settings) (l : list message) : Prop := {
  ex_inputs : plain_props (inputs c);
  ex_enabled : plain_props (parameterEnabled c);
  ex_flags : json_ok (showDebugPanel c) /\ json_ok (customRequestMode c) /\ json_ok (customRequestBody c);
  ex_messages : Forall (fun m => json_ok (JObj (m_props m))) l
}.

Lemma exported_ok e c l : Forall unit_ok (iso e) -> exportable c l -> json_ok (exported e c l).
Proof.
  intros Hi [H1 H2 (H3 & H4 & H5) H6]. apply plain_json_ok.
  plain_entry; [by apply plain_json_ok|]. plain_entry; [by apply plain_json_ok|].
  plain_entry; [done|]. plain_entry; [done|]. plain_entry; [done|].
  plain_entry; [apply ok_arr; by apply Forall_fmap|]. plain_entry; [by apply ok_str|].
  plain_entry; [apply ok_str, units_okb_ok; vm_compute; reflexivity|apply plain_nil].
Qed.

(** The fields of an exported configuration. *)
Lemma exported_fields e c l :
  let v := exported e c l in
  v?."inputs" = JObj (inputs c) /\ v?."parameterEnabled" = JObj (parameterEnabled c) /\
  v?."showDebugPanel" = showDebugPanel c /\ v?."customRequestMode" = customRequestMode c /\
  v?."customRequestBody" = customRequestBody c /\
  v?."messages" = JArr (JObj <$> (m_props <$> l)).
Proof.
  unfold exported. cbn [oget]. literal_keys. split_and!; try done. by rewrite <-list_fmap_compose.
Qed.

Lemma import_exported e e' c l p :
  Forall unit_ok (iso e) -> exportable c l ->
  importConfig e' (pretty (exported e c l)) p =
    Ret (exported e c l, set_storedMessages
      (stringify (JObj [(u "messages", JArr (JObj <$> (m_props <$> l))); (u "timestamp", JStr (iso e'))])) p).
Proof.
  intros Hi Hx. destruct (json_roundtrip2 _ (exported_ok e c l Hi Hx)) as (text & Hs & Hp).
  unfold importConfig, pretty. rewrite Hs. cbn [from_option id]. rewrite Hp.
  destruct (exported_fields e c l) as (E1 & E2 & _ & _ & _ & E6).
  change (is_nullish (exported e c l)) with false. cbn iota. rewrite E1, E2, E6. done.
Qed.

Lemma get_merged k v o p :
  NoDup (p.*1) -> om_get k p = Some v -> om_get k (obj_merge o p : props) = Some v.
Proof. intros Hn E. rewrite obj_get_merge by done. by rewrite E. Qed.

(** C28. An exported configuration can be imported: when the settings and the messages of a
    page are JSON, importing on any page the file it exports succeeds, brings back its
    messages, and sets every input (the token limit read as an integer), every parameter
    switch and the switch of the debug panel to the exported value.  Custom mode and its body
    are set when they are on and not empty in the file; otherwise the importing page keeps its
    own, see [import_keeps_custom_mode]. *)
Theorem import_restores e e' q p :
  Forall unit_ok (iso e) -> exportable (config q) (messages q) ->
  exists imported p1 p2,
    importConfig e' (handleExport e q).1 p = Ret (imported, p1) /\
    handleConfigImport imported p1 = Some p2 /\
    m_props <$> messages p2 = m_props <$> messages q /\
    (forall k v, om_get k (inputs (config q)) = Some v -> k <> u "max_tokens" ->
       om_get k (inputs (config p2)) = Some v) /\
    om_get (u "max_tokens") (inputs (config p2)) =
      Some (max_tokens_of (input_of (config q) "max_tokens")) /\
    (forall k v, om_get k (parameterEnabled (config q)) = Some v ->
       om_get k (parameterEnabled (config p2)) = Some v) /\
    (forall b, showDebugPanel (config q) = JBool b -> showDebugPanel (config p2) = JBool b) /\
    customRequestMode (config p2) = js_or (customRequestMode (config q)) (customRequestMode (config p)) /\
    customRequestBody (config p2) = js_or (customRequestBody (config q)) (customRequestBody (config p)).
Proof.
  intros Hi Hx. destruct (exported_fields e (config q) (messages q)) as (E1 & E2 & E3 & E4 & E5 & E6).
  eexists _, _, _. split; [by apply import_exported|].
  unfold handleConfigImport. rewrite E1, E2, E3, E4, E5, E6, objects_props.
  split; [reflexivity|]. split; [apply set_new_props|]. rewrite set_new_config.
  assert (Hn : NoDup ([(u "max_tokens", max_tokens_of (input_of (config q) "max_tokens"))].*1))
    by (apply NoDup_singleton).
  split_and!.
  - intros k v Hk Hne. cbn [config set_config inputs truthy entries].
    rewrite obj_get_merge by exact Hn. cbn [om_get]. rewrite decide_False by done.
    apply get_merged; [apply Hx|done].
  - cbn [config set_config inputs truthy entries]. apply get_merged; [exact Hn|].
    cbn [om_get]. by rewrite decide_True.
  - intros k v Hk. cbn [config set_config parameterEnabled truthy entries].
    apply get_merged; [apply Hx|done].
  - intros b Hb. cbn [config set_config showDebugPanel]. by rewrite Hb.
  - done.
  - done.
Qed.

(** Importing does not leave custom mode: a file exported with custom mode off and
    imported on a page in custom mode leaves that page in custom mode with its own body, so
    the imported settings are not the ones used to send. *)
Theorem import_keeps_custom_mode e e' q p :
  Forall unit_ok (iso e) -> exportable (config q) (messages q) ->
  customRequestMode (config q) = JBool false -> customRequestBody (config q) = JStr [] ->
  exists imported p1 p2,
    importConfig e' (handleExport e q).1 p = Ret (imported, p1) /\
    handleConfigImport imported p1 = Some p2 /\
    customRequestMode (config p2) = customRequestMode (config p) /\
    customRequestBody (config p2) = customRequestBody (config p).
Proof.
  intros Hi Hx Hm Hb.
  destruct (exported_fields e (config q) (messages q)) as (E1 & E2 & E3 & E4 & E5 & E6).
  eexists _, _, _. split; [by apply import_exported|].
  unfold handleConfigImport. rewrite E1, E2, E3, E4, E5, E6, objects_props, Hm, Hb.
  split; [reflexivity|]. by rewrite !set_new_config.
Qed.

(** ** Groups *)

Lemma move_to_front_perm i l : move_to_front i l ≡ₚ l.
Proof.
  unfold move_to_front. destruct (l !! i) as [x|] eqn:E; [|done].
  rewrite <-(take_drop_middle l i x E) at 3. by rewrite Permutation_middle.
Qed.

Lemma find_index_Some {A} (f : A -> bool) l i :
  find_index f l = Some i -> exists x, l !! i = Some x /\ f x = true.
Proof.
  revert i. induction l as [|y l IH]; intros i E; [done|]. cbn in E. destruct (f y) eqn:Hy.
  - injection E as <-. by exists y.
  - destruct (find_index f l) as [j|]; [|done]. injection E as <-. by apply IH.
Qed.

Lemma find_index_None {A} (f : A -> bool) l : find_index f l = None -> forallb (fun x => negb (f x)) l = true.
Proof.
  induction l as [|y l IH]; intros E; [done|]. cbn in E |- *. destruct (f y); [done|].
  destruct (find_index f l); [done|]. by rewrite IH.
Qed.

(** The list of groups: with at least one group, the options are those of the groups in
    another order at most, and the group of the user comes first whenever it is one of
    them. *)
Theorem groups_listed data userGroup options l :
  exc_map group_option (entries data) = Ret options -> options <> [] ->
  truthy userGroup = true -> processGroupsData data userGroup = Ret l ->
  l ≡ₚ options /\
  (existsb (fun g => strict_eq (g?."value") userGroup) options = true ->
   exists g, head l = Some g /\ strict_eq (g?."value") userGroup = true).
Proof.
  intros Ho Hne Hu. unfold processGroupsData. rewrite Ho. unfold mbind, exc_bind.
  destruct options as [|g0 options]; [done|]. rewrite Hu.
  destruct (find_index _ _) as [i|] eqn:E; intros [= <-].
  - split; [apply move_to_front_perm|]. intros _. apply find_index_Some in E as (g & Hg & Hs).
    exists g. unfold move_to_front. by rewrite Hg.
  - split; [done|]. apply find_index_None in E. intros H. exfalso.
    rewrite forallb_forall in E. apply existsb_exists in H as (g & Hin & Hs).
    specialize (E g Hin). by rewrite Hs in E.
Qed.
