(* ===== verification/PlaygroundRuns.v ===== *)
(** * The playground: runs

    Concrete visits to the page: the hypotheses of the theorems hold on them, and they show
    what happens to a conversation over several visits. *)

From S2P Require Import Prelude JsString JsNumber JsNumText JsValue JsJson JsJsonRound JsObject Think Playground PlaygroundPage PlaygroundThms PlaygroundStore PlaygroundSync PlaygroundPanel.

(** ** A visit *)

Definition t0 (s : jsstr) : jsstr := s.
Definition e0 : env := Env (of_Z 1700000000000) (u "2025-01-01T00:00:00.000Z") JUndef (u "error") None.

Definition open_page (stored cfg : option jsstr) : exc page :=
  match mount t0 stored cfg with Some r => r | None => Throw [] end.

(** Run the tasks that wait, and those they ask for, up to [n]. *)
Fixpoint run_tasks (n : nat) (p : page) : exc page :=
  match n with O => Ret p | S n' => p ← run_next t0 e0 p; run_tasks n' p end.

Definition say (text : string) (p : page) : exc page :=
  onMessageSend t0 e0 (config p) (JStr (u text)) p.

(** An event of the stream: [{"choices":[{"delta":{"content":...}}]}] *)
Definition delta_json (text : string) : jsv := JObj [(u "content", JStr (u text))].
Definition event_json (text : string) : jsv :=
  JObj [(u "choices", JArr [JObj [(u "delta", delta_json text)]])].
Definition event_text (text : string) : jsstr := default [] (stringify (event_json text)).

Definition answer (text : string) (p : page) : exc page :=
  net_steps t0 (stream_events (pred (length (conns p))) [(e0, event_text text)] e0) p.

Definition turn (question reply : string) (p : page) : exc page :=
  p ← say question p; p ← answer reply p; run_tasks 8 p.

Definition reopen (p : page) : exc page := open_page (storedMessages p) (storedConfig p).

Definition texts (p : page) : list jsstr := (fun m => field_text (field m "content")) <$> messages p.
Definition ids (p : page) : list jsstr := (fun m => field_text (field m "id")) <$> messages p.
(** What holds of the page a run ends in. *)
Definition ends (r : exc page) (Q : page -> Prop) : Prop := match r with Ret p => Q p | Throw _ => False end.
Definition delete_last (p : page) : page :=
  match last (messages p) with Some m => handleMessageDelete m p | None => p end.

(** The greeting of a page without stored messages, in the language [t0]. *)
Definition greeting : list jsstr := [u "默认用户消息"; u "默认助手消息"].

(** Message ids repeat over visits: the counter starts again at 4 on every visit, so
    after one turn, a new visit and another turn, the two questions share one id and the two
    replies another; deleting the last reply deletes the reply of the first visit too. *)
Theorem reload_reuses_ids :
  ends (p ← open_page None None; p ← turn "one" "first" p; p ← reopen p; turn "two" "second" p)
    (fun p => ids p = [u "2"; u "3"; u "6"; u "5"; u "6"; u "5"] /\
      texts p = greeting ++ [u "one"; u "first"; u "two"; u "second"] /\
      texts (delete_last p) = greeting ++ [u "one"; u "two"]).
Proof. vm_compute. split_and!; reflexivity. Qed.

(** A reply that does not stream: [{"choices":[{"message":{"content":...}}]}] *)
Definition reply_json (text : string) : jsv :=
  JObj [(u "choices", JArr [JObj [(u "message", JObj [(u "content", JStr (u text))])]])].

Definition fetched_turn (question reply : string) (p : page) : exc page :=
  p ← say question (handleInputChange (u "stream") (JBool false) p);
  p ← run_tasks 8 p;
  p ← fetch_returns t0 e0 (Reply (reply_json reply)) p;
  run_tasks 8 p.

(** A reply that does not stream is lost on reload: it is shown, but nothing saves it, so
    the storage still holds the empty reply that was waiting, and opening the page again
    shows the question with an empty reply. *)
Theorem fetched_reply_lost :
  ends (p ← open_page None None; fetched_turn "one" "first" p)
    (fun p => texts p = greeting ++ [u "one"; u "first"] /\
      ends (reopen p) (fun p' => texts p' = greeting ++ [u "one"; []])).
Proof. vm_compute. split_and!; reflexivity. Qed.

(** Changing the language loses the conversation: on a visit that found no stored
    messages, the change replaces the conversation by the greeting, and the next turn stores
    the greeting and that turn over the messages that were saved. *)
Theorem language_change_discards :
  ends (p ← open_page None None; turn "one" "first" p)
    (fun p => texts p = greeting ++ [u "one"; u "first"] /\
      texts (language_effect t0 p) = greeting /\
      ends (p ← turn "two" "second" (language_effect t0 p); reopen p)
        (fun p' => texts p' = greeting ++ [u "two"; u "second"])).
Proof. vm_compute. split_and!; reflexivity. Qed.

(** ** The hypotheses of the theorems hold *)

Definition blank_page : page :=
  Page (Chat [] 0) first_message_id DEFAULT_CONFIG [] [] [] None 0 [] [] not_editing None false None None.
Definition ended (r : exc page) : page := match r with Ret p => p | Throw _ => blank_page end.

Definition first_page : page := Eval vm_compute in ended (open_page None None).
Definition asked_page : page := Eval vm_compute in ended (say "hi" first_page).
Definition answered_page : page := Eval vm_compute in ended (answer "hello" asked_page).

Definition message_at (i : nat) (p : page) : message := default (Message 0 []) (messages p !! i).

Lemma hello_event : text_event (event_text "hello") (delta_json "hello").
Proof.
  split.
  - intros H. vm_compute in H. discriminate H.
  - exists (event_json "hello"). split_and!; vm_compute; reflexivity.
  - split_and!; vm_compute; reflexivity.
Qed.

Lemma turn_completes_witness :
  exists p1 p2 mu mr,
    onMessageSend t0 e0 (config first_page) (JStr (u "hi")) first_page = Ret p1 /\
    net_steps t0 (stream_events 0 [(e0, event_text "hello")] e0) p1 = Ret p2 /\
    messages p2 = messages first_page ++ [mu; mr] /\
    field mr "content" = JStr (u "hello").
Proof.
  destruct (turn_completes t0 e0 (config first_page) (JStr (u "hi")) [] (JStr (u "hi"))
    [(e0, event_text "hello")] [delta_json "hello"] e0 first_page)
    as (p1 & p2 & mu & ml & mr & E1 & _ & E2 & M & C & _).
  1-5: vm_compute; reflexivity.
  { apply List.Forall2_cons; [exact hello_event|apply List.Forall2_nil]. }
  exists p1, p2, mu, mr. split; [exact E1|]. split; [exact E2|]. split; [exact M|].
  refine (eq_trans C _). vm_compute. reflexivity.
Defined.

Lemma settled_reply_final_witness :
  exists p', net_steps t0 [(e0, SseMessage 0 (event_text "late")); (e0, SseError 0 JUndef 1)] answered_page
      = Ret p' /\ conversation p' = conversation answered_page.
Proof.
  destruct (settled_reply_final t0 (message_at 3 answered_page)
    [(e0, SseMessage 0 (event_text "late")); (e0, SseError 0 JUndef 1)] answered_page)
    as (p' & E & H & _); [vm_compute; reflexivity..|].
  exists p'. split; [exact E|exact H].
Defined.

Lemma replies_touch_last_witness :
  list_evolves (messages asked_page) (messages answered_page).
Proof.
  refine (proj1 (replies_touch_last t0 (stream_events 0 [(e0, event_text "hello")] e0)
    asked_page answered_page _)).
  vm_compute. reflexivity.
Defined.

(** A literal table of texts, switches and numbers. *)
Ltac plain_table :=
  repeat plain_entry; try apply plain_nil; try apply ok_null; try apply ok_bool;
  try (apply ok_str, units_okb_ok; vm_compute; reflexivity);
  try (apply json_num_reads; vm_compute; reflexivity).

(** The messages of the greeting are JSON. *)
Lemma greeting_json : Forall (fun m => json_ok (JObj (m_props m))) (messages first_page).
Proof.
  repeat apply Forall_cons_2; try apply Forall_nil_2; apply plain_json_ok; plain_table.
Qed.

Lemma reload_restores_witness :
  exists p1 p2,
    run_task t0 e0 (TSave (messages first_page)) blank_page = Ret p1 /\
    mount t0 (storedMessages p1) (storedConfig p1) = Some (Ret p2) /\
    m_props <$> messages p2 = m_props <$> messages first_page.
Proof.
  destruct (reload_restores t0 e0 (messages first_page) blank_page) as (p1 & p2 & E1 & E2 & E3 & _).
  - apply units_okb_ok. vm_compute. reflexivity.
  - exact greeting_json.
  - vm_compute. reflexivity.
  - vm_compute. reflexivity.
  - exists p1, p2. split; [exact E1|]. split; [exact E2|exact E3].
Defined.

Lemma mount_settles_witness :
  from_option generating false (last (messages first_page)) = false.
Proof. apply (mount_settles t0 None None). vm_compute. reflexivity. Defined.

Lemma delete_spec_witness :
  let target := message_at 2 answered_page in
  messages (handleMessageDelete target answered_page) = take 2 (messages answered_page).
Proof.
  refine (proj1 (delete_spec (message_at 2 answered_page) (take 2 (messages answered_page))
    [message_at 3 answered_page] answered_page _ _ _ _)).
  - vm_compute. reflexivity.
  - apply (bool_decide_eq_false_1 _). vm_compute. reflexivity.
  - vm_compute. reflexivity.
  - apply Forall_cons_2; [vm_compute; reflexivity|]. apply Forall_cons_2; [vm_compute; reflexivity|].
    apply Forall_cons_2; [vm_compute; reflexivity|]. apply Forall_nil_2.
Defined.

Lemma edit_after_clear_throws_witness :
  handleEditSave (handleClearMessages (setEditValue (JStr (u "new"))
    (handleMessageEdit (message_at 2 answered_page) answered_page))) = Throw (u "TypeError").
Proof.
  apply (edit_after_clear_throws (message_at 2 answered_page) (u "new") answered_page).
  - vm_compute. reflexivity.
  - intros H. vm_compute in H. discriminate H.
Defined.

Lemma clear_while_streaming_throws_witness :
  on_message t0 e0 0 (u "[DONE]") (handleClearMessages asked_page) = Throw (u "TypeError").
Proof.
  refine (proj2 (clear_while_streaming_throws t0 e0 0 (Conn [] false false false) asked_page _)).
  vm_compute. reflexivity.
Defined.

Lemma reset_resends_witness :
  messages (handleMessageReset (message_at 3 answered_page) answered_page) = take 2 (messages answered_page).
Proof.
  refine (proj1 (reset_resends (take 2 (messages answered_page)) (message_at 2 answered_page) []
    (message_at 3 answered_page) [] answered_page _ _ _ _ _ _)).
  1, 2, 4, 5: vm_compute; reflexivity.
  - apply Forall_nil_2.
  - apply (bool_decide_eq_false_1 _). vm_compute. reflexivity.
Defined.

(** ** Custom mode *)

Definition custom_settings (body : jsv) : settings :=
  Settings default_inputs default_enabled (JBool false) (JBool true) body.
Definition custom_object : list (jsstr * jsv) := [(u "model", JStr (u "m")); (u "messages", JArr [])].
Definition custom_text : jsstr := Eval vm_compute in default [] (stringify (JObj custom_object)).
Definition custom_page : page := set_config (custom_settings (JStr custom_text)) first_page.
Definition custom_start : synced := Synced custom_page [] [] None.
Definition committed (s : synced) : synced := match commit e0 s with Ret s' => s' | Throw _ => s end.

Lemma sync_settles_witness :
  exists s3, commit e0 (committed (committed custom_start)) = Ret s3 /\
    s_page s3 = s_page (committed (committed custom_start)).
Proof.
  destruct (sync_settles e0 e0 e0 (to_string (body_of (committed custom_start))) custom_start
    (committed custom_start) (committed (committed custom_start)))
    as (s3 & E & P & _); [vm_compute; reflexivity..|].
  exists s3. split; [exact E|exact P].
Defined.

(** The body was read on an earlier render. *)
Definition custom_later : synced := Synced custom_page [] [] (Some (JBool true, JStr custom_text)).

Lemma custom_props :
  ordered custom_object /\ Forall (fun kv => Forall unit_ok kv.1 /\ json_ok kv.2) custom_object.
Proof.
  split.
  - apply ordered_cons. split; [|apply ordered_cons; split; [apply Forall_nil_2|apply ordered_nil]].
    apply Forall_cons_2; [|apply Forall_nil_2]. vm_compute. intros H; discriminate H.
  - apply Forall_cons_2; [split|apply Forall_cons_2; [split|apply Forall_nil_2]].
    + apply units_okb_ok. vm_compute. reflexivity.
    + apply ok_str, units_okb_ok. vm_compute. reflexivity.
    + apply units_okb_ok. vm_compute. reflexivity.
    + apply ok_arr, Forall_nil_2.
Qed.

Lemma body_mirrors_witness :
  exists s1 text1,
    commit e0 custom_later = Ret s1 /\ body_of s1 = JStr text1 /\
    json_parse text1 = Some (JObj (obj_set (u "messages")
      (JArr (formatMessageForAPI <$> messages custom_page)) custom_object)).
Proof.
  destruct (body_mirrors e0 custom_later custom_text custom_object) as (s1 & text1 & E & _ & B & J).
  1, 2, 4, 9: vm_compute; reflexivity.
  - intros H. vm_compute in H. discriminate H.
  - exact (proj1 custom_props).
  - exact (proj2 custom_props).
  - repeat apply Forall_cons_2; try apply Forall_nil_2; apply plain_json_ok; plain_table.
  - intros H. vm_compute in H. discriminate H.
  - exists s1, text1. split; [exact E|]. split; [exact B|exact J].
Defined.

Lemma custom_send_is_body_witness :
  exists p' mu ml,
    onMessageSend t0 e0 (config custom_page) (JStr (u "hi")) custom_page = Ret p' /\
    sent p' = [(JObj custom_object, true)] /\ messages p' = messages custom_page ++ [mu; ml].
Proof.
  destruct (custom_send_is_body t0 e0 (config custom_page) (JStr (u "hi")) custom_text custom_object custom_page)
    as (p' & mu & ml & E & S & M & _).
  1, 2, 4, 5: vm_compute; reflexivity.
  - intros H. vm_compute in H. discriminate H.
  - exists p', mu, ml. split; [exact E|]. split; [exact S|exact M].
Defined.

(** ** The panels *)

Lemma first_exportable : exportable (config first_page) (messages first_page).
Proof.
  split.
  - plain_table. apply ok_arr, Forall_cons_2; [apply ok_str, Forall_nil_2|apply Forall_nil_2].
  - plain_table.
  - split_and!; [apply ok_bool|apply ok_bool|apply ok_str, Forall_nil_2].
  - exact greeting_json.
Qed.

Lemma clock_units : Forall unit_ok (iso e0).
Proof. apply units_okb_ok. vm_compute. reflexivity. Qed.

Lemma import_restores_witness :
  exists imported p1 p2,
    importConfig e0 (handleExport e0 first_page).1 custom_page = Ret (imported, p1) /\
    handleConfigImport imported p1 = Some p2 /\
    m_props <$> messages p2 = m_props <$> messages first_page.
Proof.
  destruct (import_restores e0 e0 first_page custom_page clock_units first_exportable)
    as (imported & p1 & p2 & E1 & E2 & E3 & _).
  exists imported, p1, p2. split; [exact E1|]. split; [exact E2|exact E3].
Defined.

Lemma import_keeps_custom_mode_witness :
  exists imported p1 p2,
    importConfig e0 (handleExport e0 first_page).1 custom_page = Ret (imported, p1) /\
    handleConfigImport imported p1 = Some p2 /\ customRequestMode (config p2) = JBool true.
Proof.
  destruct (import_keeps_custom_mode e0 e0 first_page custom_page clock_units first_exportable)
    as (imported & p1 & p2 & E1 & E2 & E3 & _); [vm_compute; reflexivity..|].
  exists imported, p1, p2. split; [exact E1|]. split; [exact E2|exact E3].
Defined.

Definition two_groups : jsv :=
  JObj [(u "default", JObj [(u "desc", JStr (u "all")); (u "ratio", JNum (of_Z 1))]);
        (u "vip", JObj [(u "desc", JStr (u "paying")); (u "ratio", JNum (of_Z 2))])].
Definition returned {A} (d : A) (r : exc A) : A := match r with Ret a => a | Throw _ => d end.

Lemma groups_listed_witness :
  exists g, head (returned [] (processGroupsData two_groups (JStr (u "vip")))) = Some g /\
    strict_eq (g?."value") (JStr (u "vip")) = true.
Proof.
  refine (proj2 (groups_listed two_groups (JStr (u "vip"))
    (returned [] (exc_map group_option (entries two_groups)))
    (returned [] (processGroupsData two_groups (JStr (u "vip")))) _ _ _ _) _).
  1, 3, 4, 5: vm_compute; reflexivity.
  intros H. vm_compute in H. discriminate H.
Defined.
