(* ===== verification/Channels.v ===== *)
(** * The channel table: loading and formatting

    The list of channels of web/classic/src/hooks/channels/useChannelsData.jsx: how a page of
    channels from the server becomes rows, in tag mode one row per tag, and how the requests
    for a page or a search are answered while others wait.  Rows are references to objects in
    a store, because the handlers write into the objects they hold.

    A function that awaits a response is split there: a [call] is what it remembers, and its
    response is an event.  Responses come in any order.  The objects of the server have no
    [children] property; messages shown to the user are left out. *)

From S2P Require Import Prelude JsString JsNumber JsNumText JsValue JsJson.

Notation props := (list (jsstr * jsv)) (only parsing).

(** ** upstreamUpdateUtils.js *)

(** [Array.from(new Set(l))] on strings. *)
Fixpoint unique_strings (l : list jsstr) : list jsstr :=
  match l with
  | [] => []
  | x :: l' => x :: List.filter (fun y => negb (bool_decide (y = x))) (unique_strings l')
  end.

(** [models] is an array, or falsy. *)
Definition normalizeModelList (models : jsv) : exc (list jsstr) :=
  match js_or models (JArr []) with
  | JArr l =>
      Ret (unique_strings (List.filter (fun s => negb (bool_decide (s = [])))
        ((fun m => trim (to_string (js_or m (JStr [])))) <$> l)))
  | _ => Throw (u "TypeError")
  end.

Definition update_meta (enabled : bool) (add remove : list jsstr) : jsv :=
  JObj [(u "enabled", JBool enabled); (u "pendingAddModels", JArr (JStr <$> add));
        (u "pendingRemoveModels", JArr (JStr <$> remove))].

Definition parseUpstreamUpdateMeta (settings : jsv) : exc jsv :=
  let parsed :=
    match settings with
    | JArr _ | JObj _ => settings
    | JStr s => default JNull (json_parse s)
    | _ => JNull
    end in
  if is_object parsed then
    add ← normalizeModelList (parsed?."upstream_model_update_last_detected_models");
    remove ← normalizeModelList (parsed?."upstream_model_update_last_removed_models");
    Ret (update_meta (is_true (parsed?."upstream_model_update_check_enabled")) add remove)
  else Ret (update_meta false [] []).

(** ** Rows *)

Inductive row :=
  | RChannel (r : nat)
  | RTag (r : nat) (children : list nat).

Definition row_ref (w : row) : nat := match w with RChannel r | RTag r _ => r end.

(** The store of objects. *)
Notation store := (list props) (only parsing).
Definition object_at (h : store) (r : nat) : props := default [] (h !! r).
Definition get_prop (h : store) (r : nat) (k : string) : jsv := oget (JObj (object_at h r)) (u k).
Definition put_prop (r : nat) (k : string) (v : jsv) (h : store) : store :=
  <[r := obj_set (u k) v (object_at h r)]> h.

(** The names every object inherits: [table[name]] is not undefined for them. *)
Definition inherited_names : list jsstr :=
  u <$> ["constructor"; "hasOwnProperty"; "isPrototypeOf"; "propertyIsEnumerable"; "toLocaleString";
         "toString"; "valueOf"; "__defineGetter__"; "__defineSetter__"; "__lookupGetter__";
         "__lookupSetter__"; "__proto__"]%string.

(** [channels[i].tag ? channels[i].tag : ''] *)
Definition tag_of (h : store) (r : nat) : jsv :=
  if truthy (get_prop h r "tag") then get_prop h r "tag" else JStr [].

Definition tag_object (tag : jsv) : props :=
  [(u "key", tag); (u "id", tag); (u "tag", tag); (u "name", js_plus (JStr (u "标签：")) tag);
   (u "group", JStr []); (u "used_quota", JNum (of_Z 0)); (u "response_time", JNum (of_Z 0));
   (u "priority", JNum (of_Z (-1))); (u "weight", JNum (of_Z (-1)))].

(** A field that all the channels of a tag share, or is blank. *)
Definition shared_field (tag ch : nat) (k : string) (h : store) : store :=
  if strict_eq (get_prop h tag k) (JNum (of_Z (-1))) then put_prop tag k (get_prop h ch k) h
  else if negb (strict_eq (get_prop h tag k) (get_prop h ch k)) then put_prop tag k (JStr []) h
  else h.

(** [if (group.indexOf(item) === -1) group += ',' + item] *)
Definition add_group (group item : jsstr) : jsstr :=
  if includes item group then group else group ++ u "," ++ item.

Definition merge_groups (tag ch : nat) (h : store) : exc store :=
  if is_str (get_prop h tag "group") [] then Ret (put_prop tag "group" (get_prop h ch "group") h)
  else
    s ← as_string (get_prop h ch "group");
    group ← as_string (get_prop h tag "group");
    Ret (put_prop tag "group" (JStr (fold_left add_group (split_char 44 s) group)) h).

(** One channel joins the row of its tag. *)
Definition join_tag (tag ch : nat) (h : store) : exc store :=
  let h := shared_field tag ch "priority" h in
  let h := shared_field tag ch "weight" h in
  h ← merge_groups tag ch h;
  let h := if strict_eq (get_prop h ch "status") (JNum (of_Z 1)) then put_prop tag "status" (JNum (of_Z 1)) h else h in
  let h := put_prop tag "used_quota" (js_plus (get_prop h tag "used_quota") (get_prop h ch "used_quota")) h in
  let h := put_prop tag "response_time" (js_plus (get_prop h tag "response_time") (get_prop h ch "response_time")) h in
  Ret (put_prop tag "response_time" (JNum (num_div (to_number (get_prop h tag "response_time")) (of_Z 2))) h).

(** The row whose key is the tag. *)
Definition is_row_of (h : store) (tag : jsv) (w : row) : bool := strict_eq (get_prop h (row_ref w) "key") tag.

Fixpoint add_child (h : store) (tag : jsv) (ch : nat) (rows : list row) : list row :=
  match rows with
  | [] => []
  | RTag r children :: rows' =>
      if is_row_of h tag (RTag r children) then RTag r (children ++ [ch]) :: rows'
      else RTag r children :: add_child h tag ch rows'
  | w :: rows' => w :: add_child h tag ch rows'
  end.

(** What the loop carries: the store, [channelDates], and the keys of [channelTags]. *)
Record formatting := Formatting { f_store : store; f_rows : list row; f_tags : list jsstr }.

(** A tag that [channelTags] does not know yet gets a row. *)
Definition ensure_tag (tag : jsv) (h : store) (rows : list row) (tags : list jsstr) :
    store * list row * list jsstr :=
  let name := to_string tag in
  if bool_decide (name ∈ tags) || bool_decide (name ∈ inherited_names) then (h, rows, tags)
  else (h ++ [tag_object tag], rows ++ [RTag (length h) []], tags ++ [name]).

(** One turn of the loop on the channel [ch]. *)
Definition format_channel (tagMode : bool) (ch : nat) (f : formatting) : exc formatting :=
  meta ← parseUpstreamUpdateMeta (get_prop (f_store f) ch "settings");
  let h := put_prop ch "upstreamUpdateMeta" meta (f_store f) in
  let h := put_prop ch "key" (JStr (to_string (get_prop h ch "id"))) h in
  if negb tagMode then Ret (Formatting h (f_rows f ++ [RChannel ch]) (f_tags f))
  else
    let tag := tag_of h ch in
    let '(h, rows, tags) := ensure_tag tag h (f_rows f) (f_tags f) in
    match List.find (is_row_of h tag) rows with
    | None => Throw (u "TypeError")
    | Some w =>
        h ← join_tag (row_ref w) ch h;
        Ret (Formatting h (add_child h tag ch rows) tags)
    end.

Fixpoint format_loop (tagMode : bool) (l : list nat) (f : formatting) : exc formatting :=
  match l with
  | [] => Ret f
  | ch :: l' => f ← format_channel tagMode ch f; format_loop tagMode l' f
  end.

(** [setChannelFormat(items, enableTagMode)]: the new objects are in the store. *)
Definition setChannelFormat (items : list props) (tagMode : bool) (h : store) : exc (store * list row) :=
  f ← format_loop tagMode (seq (length h) (length items)) (Formatting (h ++ items) [] []);
  Ret (f_store f, f_rows f).

(** ** The table *)

Record filters := Filters {
  searchKeyword : jsstr;
  searchGroup : jsstr;
  searchModel : jsstr
}.
Definition no_filters (f : filters) : bool :=
  bool_decide (searchKeyword f = []) && bool_decide (searchGroup f = []) && bool_decide (searchModel f = []).

(** The settings a request is made of. *)
Record query := Query {
  q_page : jsv;                    (** a number, or what a caller passes for it *)
  q_size : Z;
  q_idSort : bool;
  q_tagMode : bool;
  q_type : jsstr;
  q_status : jsstr;
  q_filters : option filters       (** the search, when it is one *)
}.

(** What an awaiting function remembers: the number of its request, and what it does once the
    response is handled. *)
Inductive resume :=
  | ALoad                          (** [loadChannels] *)
  | ASearch                        (** [searchChannels] *)
  | ALoadSearch                    (** [searchChannels] awaited by [loadChannels] *)
  | ASearchLoad.                   (** [loadChannels] awaited by [searchChannels] *)
Record call := Call { c_req : nat; c_query : query; c_resume : resume }.

#[projections(primitive)]
Record table := Table {
  heap : store;
  rows : list row;
  requestCounter : nat;
  loading : bool;
  searching : bool;
  activePage : jsv;
  channelCount : jsv;
  typeCounts : props;
  pageSize : Z;
  idSort : bool;
  enableTagMode : bool;
  activeTypeKey : jsstr;
  statusFilter : jsstr;
  formValues : filters;
  waiting : list call
}.

Definition set_heap v '(Table _ b c d e f g h i j k l m n o) := Table v b c d e f g h i j k l m n o.
Definition set_rows v '(Table a _ c d e f g h i j k l m n o) := Table a v c d e f g h i j k l m n o.
Definition set_requestCounter v '(Table a b _ d e f g h i j k l m n o) := Table a b v d e f g h i j k l m n o.
Definition set_loading v '(Table a b c _ e f g h i j k l m n o) := Table a b c v e f g h i j k l m n o.
Definition set_searching v '(Table a b c d _ f g h i j k l m n o) := Table a b c d v f g h i j k l m n o.
Definition set_activePage v '(Table a b c d e _ g h i j k l m n o) := Table a b c d e v g h i j k l m n o.
Definition set_channelCount v '(Table a b c d e f _ h i j k l m n o) := Table a b c d e f v h i j k l m n o.
Definition set_typeCounts v '(Table a b c d e f g _ i j k l m n o) := Table a b c d e f g v i j k l m n o.
Definition set_pageSize v '(Table a b c d e f g h _ j k l m n o) := Table a b c d e f g h v j k l m n o.
Definition set_formValues v '(Table a b c d e f g h i j k l m _ o) := Table a b c d e f g h i j k l m v o.
Definition set_waiting v '(Table a b c d e f g h i j k l m n _) := Table a b c d e f g h i j k l m n v.

(** [++requestCounter.current], and the request. *)
Definition issue (q : query) (k : resume) (s : table) : table :=
  let id := S (requestCounter s) in
  set_waiting (waiting s ++ [Call id q k]) (set_requestCounter id s).

(** The address of a page: an optional parameter is left out when it is [all]. *)
Definition param (name : string) (v : jsstr) : jsstr := if bool_decide (v = u "all") then [] else u name ++ v.
Definition load_url (q : query) : jsstr :=
  u "/api/channel/?p=" ++ to_string (q_page q) ++ u "&page_size=" ++ str_of_Z (q_size q) ++
  u "&id_sort=" ++ to_string (JBool (q_idSort q)) ++ u "&tag_mode=" ++ to_string (JBool (q_tagMode q)) ++
  param "&type=" (q_type q) ++ param "&status=" (q_status q).

(** [loadChannels(page, size, idSort, tagMode, type, status)] up to its request. *)
Definition loadChannels (page : jsv) (size : Z) (sort tagMode : bool) (type status : jsstr) (s : table) : table :=
  let q := Query page size sort tagMode type status in
  if no_filters (formValues s) then issue (q None) ALoad (set_loading true s)
  else issue (q (Some (formValues s))) ALoadSearch (set_searching true (set_loading true s)).

(** [searchChannels(tagMode, type, status, page, size, idSort)] up to its request. *)
Definition searchChannels (tagMode : bool) (type status : jsstr) (page : jsv) (size : Z) (sort : bool)
    (s : table) : table :=
  let q := Query page size sort tagMode type status in
  if no_filters (formValues s) then issue (q None) ASearchLoad (set_loading true (set_searching true s))
  else issue (q (Some (formValues s))) ASearch (set_searching true s).

(** The answers of the server. *)
Inductive response :=
  | RUndefined
  | RRejects                       (** the request fails *)
  | RAnswer (data : jsv).          (** [res.data] *)

(** The elements of an array of objects. *)
Fixpoint item_objects (l : list jsv) : exc (list props) :=
  match l with
  | [] => Ret []
  | JObj o :: l' => os ← item_objects l'; Ret (o :: os)
  | _ :: _ => Throw (u "TypeError")
  end.
Definition items_of (v : jsv) : exc (list props) :=
  match v with JArr l => item_objects l | _ => Throw (u "TypeError") end.

(** [Object.values(counts).reduce((acc, v) => acc + v, 0)] *)
Definition sum_counts (counts : jsv) : jsv := fold_left js_plus (entries counts).*2 (JNum (of_Z 0)).
Definition with_all (counts : jsv) : props := obj_merge (entries counts) [(u "all", sum_counts counts)].

(** [setChannelFormat(items, tagMode)] on the page. *)
Definition show_items (items : jsv) (tagMode : bool) (s : table) : exc table :=
  os ← items_of items;
  r ← setChannelFormat os tagMode (heap s);
  Ret (set_rows r.2 (set_heap r.1 s)).

(** A default of destructuring. *)
Definition or_default (v d : jsv) : jsv := match v with JUndef => d | _ => v end.

(** The success branch of a load and of a search; the second component says whether it went
    through without an exception. *)
Definition shown_or (r : exc table) (s : table) (k : table -> table) : table * bool :=
  match r with Ret s' => (k s', true) | Throw _ => (s, false) end.

Definition load_success (q : query) (data : jsv) (s : table) : table * bool :=
  if is_nullish data then (s, false)
  else
    let s := if truthy (data?."type_counts") then set_typeCounts (with_all (data?."type_counts")) s else s in
    shown_or (show_items (data?."items") (q_tagMode q) s) s (set_channelCount (data?."total")).

Definition search_success (q : query) (data : jsv) (s : table) : table * bool :=
  let counts := or_default (data?."type_counts") (JObj []) in
  if is_nullish data || is_nullish counts then (s, false)
  else
    let s := set_typeCounts (with_all counts) s in
    shown_or (show_items (or_default (data?."items") (JArr [])) (q_tagMode q) s) s
      (fun s => set_activePage (q_page q)
                  (set_channelCount (or_default (data?."total") (JNum (of_Z 0))) s)).

(** The body after the [await], when the request is still the latest. *)
Definition handle_answer (succeed : query -> jsv -> table -> table * bool) (q : query) (data : jsv)
    (s : table) : table * bool :=
  if is_nullish data then (s, false)
  else if truthy (data?."success") then succeed q (data?."data") s
  else (s, true).

(** [loadChannels] after its [await]: whether it returns (an exception is passed on). *)
Definition load_resume (c : call) (r : response) (s : table) : table * bool :=
  match r with
  | RRejects => (s, false)
  | RUndefined => (s, true)
  | RAnswer data =>
      if negb (bool_decide (c_req c = requestCounter s)) then (s, true)
      else
        let '(s', ok) := handle_answer load_success (c_query c) data s in
        if ok then (set_loading false s', true) else (s', false)
  end.

(** [searchChannels] after its [await], with its [finally]. *)
Definition search_resume (c : call) (r : response) (s : table) : table * bool :=
  let '(s', ok) :=
    match r with
    | RRejects => (s, false)
    | RUndefined => (s, true)
    | RAnswer data =>
        if negb (bool_decide (c_req c = requestCounter s)) then (s, true)
        else handle_answer search_success (c_query c) data s
    end in
  (if bool_decide (c_req c = requestCounter s') then set_searching false s' else s', ok).

Definition resume_call (c : call) (r : response) (s : table) : table :=
  match c_resume c with
  | ALoad => (load_resume c r s).1
  | ASearch => (search_resume c r s).1
  | ALoadSearch => let '(s', ok) := search_resume c r s in if ok then set_loading false s' else s'
  | ASearchLoad => set_searching false (load_resume c r s).1
  end.

(** The response to the request [id], if it still waits. *)
Definition respond (id : nat) (r : response) (s : table) : table :=
  match List.find (fun c => (c_req c =? id)%nat) (waiting s) with
  | Some c => resume_call c r (set_waiting (List.filter (fun c => negb (c_req c =? id)%nat) (waiting s)) s)
  | None => s
  end.
Definition respond_all (l : list (nat * response)) (s : table) : table :=
  fold_left (fun s ir => respond ir.1 ir.2 s) l s.

(** ** The handlers that ask for a page *)

(** [refresh(page)]; a button that calls it passes the event as the page. *)
Definition refresh (page : jsv) (s : table) : table :=
  if no_filters (formValues s)
  then loadChannels page (pageSize s) (idSort s) (enableTagMode s) (activeTypeKey s) (statusFilter s) s
  else searchChannels (enableTagMode s) (activeTypeKey s) (statusFilter s) page (pageSize s) (idSort s) s.

Definition handlePageChange (page : jsv) (s : table) : table := refresh page (set_activePage page s).

Definition handlePageSizeChange (size : Z) (s : table) : table :=
  refresh (JNum (of_Z 1)) (set_activePage (JNum (of_Z 1)) (set_pageSize size s)).

(** ** Counts per type *)

Definition count_type (h : store) (counts : props) (r : nat) : props :=
  let type := to_string (get_prop h r "type") in
  obj_set type (js_plus (js_or (oget (JObj counts) type) (JNum (of_Z 0))) (JNum (of_Z 1))) counts.

Definition channelTypeCounts (s : table) : props :=
  match typeCounts s with
  | [] =>
      fold_left (fun counts w =>
        match w with
        | RTag _ children => fold_left (count_type (heap s)) children counts
        | RChannel r => count_type (heap s) counts r
        end) (rows s) [(u "all", JNum (of_Z (Z.of_nat (length (rows s)))))]
  | counts => counts
  end.

Definition availableTypeKeys (s : table) : list jsstr :=
  u "all" :: (List.filter (fun kv => negb (bool_decide (kv.1 = u "all")) && num_gt (to_number kv.2) (of_Z 0))
                (channelTypeCounts s)).*1.
