(* ===== verification/ChannelTests.v ===== *)
(** * The channel table: operations on channels and tests of models

    The handlers of web/classic/src/hooks/channels/useChannelsData.jsx that change channels
    and test their models.  A handler that awaits a response goes on with the rows of the
    render it was called in ([captured]).  A batch of tests is a loop that awaits the tests of
    a wave and a pause between waves; it is split at every [await], and the responses of the
    tests of a wave come in any order. *)

From S2P Require Import Prelude JsString JsNumber JsNumText JsValue JsJson Channels.

(** ** Results of tests *)

Record test_result := TestResult {
  t_success : jsv;
  t_message : jsv;
  t_time : num;
  t_timestamp : num;
  t_errorCode : jsv
}.

Record test_patch := Patch { p_response_time : num; p_test_time : num }.

Definition getChannelTestResponseTimeMs (time : num) : option num :=
  if negb (is_finite time) || num_le time (of_Z 0) then None
  else Some (num_round (num_mul time (of_Z 1000))).

Definition createChannelTestPatch (r : test_result) : option test_patch :=
  (fun ms => Patch ms (num_floor (num_div (t_timestamp r) (of_Z 1000))))
    <$> getChannelTestResponseTimeMs (t_time r).

Definition latest_step (latest : option (test_patch * num)) (r : test_result) : option (test_patch * num) :=
  match createChannelTestPatch r with
  | None => latest
  | Some p =>
      match latest with
      | Some (_, at_) => if num_ge (t_timestamp r) at_ then Some (p, t_timestamp r) else latest
      | None => Some (p, t_timestamp r)
      end
  end.
Definition getLatestChannelTestPatch (results : list test_result) : option test_patch :=
  fst <$> fold_left latest_step results None.

(** ** State *)

Record progress := Progress { total : nat; completed : nat; succeeded : nat; failed : nat }.

(** A test of a wave: its model and, once it is settled, its result. *)
Notation wave_test := (jsstr * option test_result)%type (only parsing).

(** Where the loop of [batchTestModels] waits. *)
Inductive waits :=
  | WWave (tests : list wave_test)     (** [Promise.allSettled] *)
  | WPause                             (** 100 ms between waves *)
  | WFinal.                            (** 300 ms after the last wave *)

Record batch := Batch {
  b_channel : nat;                     (** the object tested *)
  b_captured : list row;
  b_models : list jsstr;
  b_index : nat;                       (** [i] *)
  b_results : list test_result;        (** [completedResults] *)
  b_waits : waits
}.

#[projections(primitive)]
Record console := Console {
  tbl : table;
  currentTestChannel : option nat;
  modelTestResults : list (jsstr * test_result);
  testingModels : list jsstr;
  selectedModelKeys : list jsstr;
  modelSearchKeyword : jsstr;
  isBatchTesting : bool;
  batchStopRequested : bool;
  batchTestProgress : option progress;
  shouldStopBatchTestingRef : bool;
  batchTestingActiveRef : bool;
  running : option batch;
  requested : list jsstr               (** the models asked for, in order *)
}.

Definition set_tbl v '(Console _ b c d e f g h i j k l m) := Console v b c d e f g h i j k l m.
Definition set_currentTestChannel v '(Console a _ c d e f g h i j k l m) := Console a v c d e f g h i j k l m.
Definition set_modelTestResults v '(Console a b _ d e f g h i j k l m) := Console a b v d e f g h i j k l m.
Definition set_testingModels v '(Console a b c _ e f g h i j k l m) := Console a b c v e f g h i j k l m.
Definition set_selectedModelKeys v '(Console a b c d _ f g h i j k l m) := Console a b c d v f g h i j k l m.
Definition set_modelSearchKeyword v '(Console a b c d e _ g h i j k l m) := Console a b c d e v g h i j k l m.
Definition set_isBatchTesting v '(Console a b c d e f _ h i j k l m) := Console a b c d e f v h i j k l m.
Definition set_batchStopRequested v '(Console a b c d e f g _ i j k l m) := Console a b c d e f g v i j k l m.
Definition set_batchTestProgress v '(Console a b c d e f g h _ j k l m) := Console a b c d e f g h v j k l m.
Definition set_shouldStop v '(Console a b c d e f g h i _ k l m) := Console a b c d e f g h i v k l m.
Definition set_batchActive v '(Console a b c d e f g h i j _ l m) := Console a b c d e f g h i j v l m.
Definition set_running v '(Console a b c d e f g h i j k _ m) := Console a b c d e f g h i j k v m.
Definition set_requested v '(Console a b c d e f g h i j k l _) := Console a b c d e f g h i j k l v.

(** ** Writing into channels *)

(** [updateChannelProperty(id, fn)]: every channel with the id, alone or under a tag. *)
Definition channels_of (rows : list row) : list nat :=
  concat ((fun w => match w with RChannel r => [r] | RTag _ l => l end) <$> rows).

Definition update_object (id : jsv) (fn : props -> props) (h : store) (r : nat) : store :=
  if strict_eq (get_prop h r "id") id then <[r := fn (object_at h r)]> h else h.

Definition updateChannelProperty (captured : list row) (id : jsv) (fn : props -> props) (s : table) : table :=
  let updated := existsb (fun r => strict_eq (get_prop (heap s) r "id") id) (channels_of captured) in
  let s' := set_heap (fold_left (update_object id fn) (channels_of captured) (heap s)) s in
  if updated then set_rows captured s' else s'.

(** [setCurrentTestChannel((c) => c && c.id === id ? { ...c, ...o } : c)] *)
Definition patch_current (id : jsv) (o : props) (c : console) : console :=
  match currentTestChannel c with
  | Some r =>
      if strict_eq (get_prop (heap (tbl c)) r "id") id then
        let s := tbl c in
        set_currentTestChannel (Some (length (heap s)))
          (set_tbl (set_heap (heap s ++ [obj_merge (object_at (heap s) r) o]) s) c)
      else c
  | None => c
  end.

Definition patch_props (p : test_patch) : props :=
  [(u "response_time", JNum (p_response_time p)); (u "test_time", JNum (p_test_time p))].

Definition updateChannelTestStatus (captured : list row) (id : jsv) (p : option test_patch) (c : console) : console :=
  match p with
  | None => c
  | Some p =>
      let fn o := obj_set (u "test_time") (JNum (p_test_time p))
                    (obj_set (u "response_time") (JNum (p_response_time p)) o) in
      patch_current id (patch_props p) (set_tbl (updateChannelProperty captured id fn (tbl c)) c)
  end.

(** ** Managing channels and tags *)

Inductive channel_action := ADelete | AEnable | ADisable | APriority (v : jsv) | AWeight (v : jsv) | AEnableAll.

(** The body of the request; [None] when nothing is sent.  For [enable_all] the record has a
    [channel_info] object, which is shared with the body. *)
Definition manage_body (h : store) (record : nat) (id : jsv) (a : channel_action) : option props :=
  let data := [(u "id", id)] in
  match a with
  | ADelete => Some []
  | AEnable => Some (obj_set (u "status") (JNum (of_Z 1)) data)
  | ADisable => Some (obj_set (u "status") (JNum (of_Z 2)) data)
  | APriority v =>
      if is_str v [] then None else Some (obj_set (u "priority") (JNum (parse_int (to_string v))) data)
  | AWeight v =>
      if is_str v [] then None
      else
        let w := parse_int (to_string v) in
        Some (obj_set (u "weight") (JNum (if num_lt w (of_Z 0) then of_Z 0 else w)) data)
  | AEnableAll =>
      Some (obj_set (u "channel_info")
        (JObj (obj_merge (entries (get_prop h record "channel_info")) [(u "multi_key_status_list", JObj [])])) data)
  end.

(** Enabling all keys empties the list of the record itself. *)
Definition manage_start (record : nat) (a : channel_action) (h : store) : store :=
  match a with
  | AEnableAll =>
      put_prop record "channel_info"
        (JObj (obj_merge (entries (get_prop h record "channel_info")) [(u "multi_key_status_list", JObj [])])) h
  | _ => h
  end.

(** After the response: [data] is [res.data]. *)
Definition manage_resume (captured : list row) (record : nat) (a : channel_action) (data : jsv) (s : table) : table :=
  let channel := data?."data" in
  if truthy (data?."success") then
    match a with
    | ADelete => set_rows captured s
    | _ =>
        if is_nullish channel then s
        else set_rows captured (set_heap (put_prop record "status" (channel?."status") (heap s)) s)
    end
  else s.

(** [manageTag] after a successful response. *)
Definition set_tag_status (tag : jsv) (status : Z) (h : store) (w : row) : store :=
  if strict_eq (get_prop h (row_ref w) "tag") tag then
    let h := match w with
             | RTag _ children => fold_left (fun h r => put_prop r "status" (JNum (of_Z status)) h) children h
             | RChannel _ => h
             end in
    put_prop (row_ref w) "status" (JNum (of_Z status)) h
  else h.
Definition manageTag (captured : list row) (tag : jsv) (enable : bool) (s : table) : table :=
  set_rows captured
    (set_heap (fold_left (set_tag_status tag (if enable then 1 else 2)) captured (heap s)) s).

(** [resetChannelBreaker] with a successful response; [data] is [res.data.data]. *)
Definition resetChannelBreaker (captured : list row) (record : nat) (data : jsv) (c : console) : console :=
  let id := get_prop (heap (tbl c)) record "id" in
  if negb (truthy id) then c else
  let breakerState := js_or (data?."breaker_state") (JStr (u "closed")) in
  let availability := js_or (data?."availability") JNull in
  let fn o := obj_set (u "availability") availability (obj_set (u "breaker_state") breakerState o) in
  patch_current id [(u "breaker_state", breakerState); (u "availability", availability)]
    (set_tbl (updateChannelProperty captured id fn (tbl c)) c).

(** The models of a channel without the failed ones. *)
Definition remainingModels (models : jsv) (failedModels : list jsstr) : list jsstr :=
  List.filter (fun m => negb (bool_decide (m ∈ failedModels)))
    (List.filter (fun m => negb (bool_decide (m = [])))
      (trim <$> split_char 44 (to_string (js_or models (JStr []))))).

Definition testKey (h : store) (record : nat) (model : jsstr) : jsstr :=
  to_string (get_prop h record "id") ++ u "-" ++ model.

(** [deleteFailedModels] with a successful response; [data] is [res.data.data]. *)
Definition deleteFailedModels (captured : list row) (record : nat) (failedModels : list jsstr)
    (data : jsv) (c : console) : console :=
  if bool_decide (failedModels = []) then c else
  let h := heap (tbl c) in
  let remaining := remainingModels (get_prop h record "models") failedModels in
  let id := get_prop h record "id" in
  let models := js_nullish (data?."models") (JStr (join (u ",") remaining)) in
  let c := set_tbl (updateChannelProperty captured id (obj_set (u "models") models) (tbl c)) c in
  let c := patch_current id [(u "models", models)] c in
  let c := set_selectedModelKeys
             (List.filter (fun m => negb (bool_decide (m ∈ failedModels))) (selectedModelKeys c)) c in
  set_modelTestResults
    (fold_left (fun rs m => om_del (testKey h record m) rs) failedModels (modelTestResults c)) c.

(** ** Testing a model *)

(** The answer of the server to a test, an object, or the message of the error: of the failed
    request, or of an answer that cannot be read. *)
Inductive test_response :=
  | TAnswer (data : jsv)
  | TFails (message : jsstr).

Section Tests.
Context `{UnicodeCase} (t : jsstr -> jsstr).

Definition result_of (now : num) (r : test_response) : test_result :=
  match r with
  | TAnswer data =>
      let time := to_number (data?."time") in
      TestResult (data?."success") (data?."message") (if is_finite time then time else of_Z 0) now
        (js_or (data?."error_code") JNull)
  | TFails message =>
      TestResult (JBool false) (JStr (if bool_decide (message = []) then t (u "网络错误") else message))
        (of_Z 0) now JNull
  end.

(** [testChannel] up to its request; [false] when it returns at once. *)
Definition test_start (batchMode : bool) (model : jsstr) (c : console) : console * bool :=
  if shouldStopBatchTestingRef c && (batchMode || batchTestingActiveRef c) then (c, false)
  else
    (set_requested (requested c ++ [model])
       (set_testingModels (if bool_decide (model ∈ testingModels c) then testingModels c
                           else testingModels c ++ [model]) c), true).

(** After its response. *)
Definition test_resume (captured : list row) (refreshList : bool) (record : nat) (model : jsstr)
    (r : test_result) (answered : bool) (c : console) : console :=
  let id := get_prop (heap (tbl c)) record "id" in
  let c := set_modelTestResults (om_set (testKey (heap (tbl c)) record model) r (modelTestResults c)) c in
  let c := if answered && refreshList then updateChannelTestStatus captured id (createChannelTestPatch r) c else c in
  set_testingModels (List.filter (fun m => negb (bool_decide (m = model))) (testingModels c)) c.

Definition is_answer (r : test_response) : bool := match r with TAnswer _ => true | TFails _ => false end.

(** ** Testing all models *)

Definition concurrencyLimit : nat := 5.

(** The models that match the search; [models] is a string. *)
Definition batch_models (h : store) (channel : nat) (keyword : jsstr) : list jsstr :=
  List.filter (fun m => includes (toLowerCase keyword) (toLowerCase m))
    (split_char 44 (to_string (get_prop h channel "models"))).

Definition succeeded_of (l : list test_result) : nat := length (List.filter (fun r => truthy (t_success r)) l).
Definition progress_of (b : batch) : progress :=
  Progress (length (b_models b)) (length (b_results b)) (succeeded_of (b_results b))
    (length (b_results b) - succeeded_of (b_results b)).

(** [finally] *)
Definition batch_finally (c : console) : console :=
  set_running None (set_batchActive false (set_batchStopRequested false (set_isBatchTesting false c))).

(** The last steps of the [try] block, stopped or not. *)
Definition batch_end (b : batch) (c : console) : console :=
  let id := get_prop (heap (tbl c)) (b_channel b) "id" in
  batch_finally
    (updateChannelTestStatus (b_captured b) id (getLatestChannelTestPatch (b_results b)) c).

Fixpoint start_wave (models : list jsstr) (c : console) : console * list wave_test :=
  match models with
  | [] => (c, [])
  | m :: models' =>
      let '(c, started) := test_start true m c in
      let '(c, tests) := start_wave models' c in
      (c, if started then (m, None) :: tests else tests)
  end.

(** The loop at [i]. *)
Definition batch_loop (b : batch) (c : console) : console :=
  if shouldStopBatchTestingRef c then batch_end b c
  else
    let '(c, tests) := start_wave (take concurrencyLimit (drop (b_index b) (b_models b))) c in
    set_running (Some (Batch (b_channel b) (b_captured b) (b_models b) (b_index b) (b_results b) (WWave tests))) c.

Definition batchTestModels (captured : list row) (c : console) : console :=
  if batchTestingActiveRef c then c
  else match currentTestChannel c with
  | None => c
  | Some ch =>
      if negb (truthy (get_prop (heap (tbl c)) ch "models")) then c
      else
        let models := batch_models (heap (tbl c)) ch (modelSearchKeyword c) in
        if bool_decide (models = []) then c
        else
          let c := set_batchTestProgress (Some (Progress (length models) 0 0 0))
                     (set_batchStopRequested false (set_isBatchTesting true c)) in
          let c := set_shouldStop false (set_batchActive true c) in
          let c := set_modelTestResults
                     (fold_left (fun rs m => om_del (testKey (heap (tbl c)) ch m) rs) models
                        (modelTestResults c)) c in
          batch_loop (Batch ch captured models 0 [] WFinal) c
  end.

(** All the tests of a wave are settled: their results are counted, and the loop goes on. *)
Definition wave_results (tests : list wave_test) : list test_result := omap snd tests.
Definition wave_done (tests : list wave_test) : bool := forallb (fun x => bool_decide (is_Some x.2)) tests.

Definition wave_end (b : batch) (tests : list wave_test) (c : console) : console :=
  let b := Batch (b_channel b) (b_captured b) (b_models b) (b_index b) (b_results b ++ wave_results tests) WPause in
  let c := set_batchTestProgress (Some (progress_of b)) c in
  if shouldStopBatchTestingRef c then batch_end b c
  else if (b_index b + concurrencyLimit <? length (b_models b))%nat then set_running (Some b) c
  else set_running (Some (Batch (b_channel b) (b_captured b) (b_models b) (b_index b) (b_results b) WFinal)) c.

(** The response of the [k]-th test of the wave. *)
Definition settle_test (k : nat) (r : test_result) (tests : list wave_test) : list wave_test :=
  alter (fun x => (x.1, Some r)) k tests.

Definition batch_response (now : num) (k : nat) (r : test_response) (c : console) : console :=
  match running c with
  | Some b =>
      match b_waits b with
      | WWave tests =>
          match tests !! k with
          | Some (model, None) =>
              let res := result_of now r in
              let c := test_resume (b_captured b) false (b_channel b) model res (is_answer r) c in
              let tests := settle_test k res tests in
              if wave_done tests then wave_end b tests c
              else set_running (Some (Batch (b_channel b) (b_captured b) (b_models b) (b_index b) (b_results b)
                                        (WWave tests))) c
          | _ => c
          end
      | _ => c
      end
  | None => c
  end.

(** The counts after the last wave, from the results that are there. *)
Definition final_progress (h : store) (b : batch) (results : list (jsstr * test_result)) : progress :=
  let ok m := match om_get (testKey h (b_channel b) m) results with
              | Some r => truthy (t_success r) | None => false end in
  let n := length (List.filter ok (b_models b)) in
  Progress (length (b_models b)) (length (b_models b)) n (length (b_models b) - n).

(** The timer the loop waits for. *)
Definition batch_timer (c : console) : console :=
  match running c with
  | Some b =>
      match b_waits b with
      | WPause =>
          batch_loop (Batch (b_channel b) (b_captured b) (b_models b) (b_index b + concurrencyLimit) (b_results b) WPause) c
      | WFinal =>
          batch_end b (set_batchTestProgress (Some (final_progress (heap (tbl c)) b (modelTestResults c))) c)
      | WWave _ => c
      end
  | None => c
  end.

Definition stopBatchTesting (c : console) : console := set_batchStopRequested true (set_shouldStop true c).
Definition clearTestResults (c : console) : console := set_modelTestResults [] c.

Definition handleCloseModal (c : console) : console :=
  let c := if isBatchTesting c then set_shouldStop true c else c in
  set_selectedModelKeys [] (set_testingModels [] (set_batchTestProgress None
    (set_batchStopRequested false (set_isBatchTesting false (set_modelSearchKeyword [] c))))).

(** ** Events of the page while a batch runs *)

Inductive batch_event :=
  | BResponse (now : num) (k : nat) (r : test_response)
  | BTimer
  | BStop
  | BClear
  | BClose.

Definition batch_step (ev : batch_event) (c : console) : console :=
  match ev with
  | BResponse now k r => batch_response now k r c
  | BTimer => batch_timer c
  | BStop => stopBatchTesting c
  | BClear => clearTestResults c
  | BClose => handleCloseModal c
  end.
Definition batch_steps (l : list batch_event) (c : console) : console :=
  fold_left (fun c ev => batch_step ev c) l c.
End Tests.
