(* ===== verification/ChannelsThms.v ===== *)
(** * The channel table: requests and rows

    The rows shown are those of the latest request, whatever the order of the responses; in
    tag mode every channel is in the row of its tag. *)

From S2P Require Import Prelude JsString JsNumber JsNumText JsValue JsJson Channels.

(** ** Requests *)

(** What is shown of the channels. *)
Record same_view (s s' : table) : Prop := {
  sv_heap : heap s' = heap s;
  sv_rows : rows s' = rows s;
  sv_count : channelCount s' = channelCount s;
  sv_types : typeCounts s' = typeCounts s;
  sv_page : activePage s' = activePage s;
  sv_counter : requestCounter s' = requestCounter s
}.

Lemma same_view_refl s : same_view s s.
Proof. by split. Qed.
Lemma same_view_trans s1 s2 s3 : same_view s1 s2 -> same_view s2 s3 -> same_view s1 s3.
Proof. intros [] []. split; congruence. Qed.

(** A call that is no longer the latest shows nothing. *)
Lemma stale_resume c r s : c_req c <> requestCounter s -> same_view s (resume_call c r s).
Proof.
  intros Hn. unfold resume_call, load_resume, search_resume.
  destruct (c_resume c), r; cbn [fst]; rewrite ?(bool_decide_false (c_req c = requestCounter s)) by done;
    cbn [negb fst snd]; rewrite ?(bool_decide_false (c_req c = requestCounter s)) by done; by split.
Qed.

Lemma stale_respond id r s : id <> requestCounter s -> same_view s (respond id r s).
Proof.
  intros Hn. unfold respond. destruct (List.find _ _) as [c|] eqn:E; [|apply same_view_refl].
  apply List.find_some in E as [_ E]. apply Nat.eqb_eq in E.
  match goal with |- same_view _ (resume_call _ _ ?x) => apply (same_view_trans _ x); [by split|] end.
  apply stale_resume. by rewrite E.
Qed.

Lemma find_filter_ne (l : list call) id id' :
  id <> id' ->
  List.find (fun c => (c_req c =? id)%nat) (List.filter (fun c => negb (c_req c =? id')%nat) l) =
  List.find (fun c => (c_req c =? id)%nat) l.
Proof.
  intros Hn. induction l as [|c l IH]; [done|]. cbn.
  destruct (Nat.eqb_spec (c_req c) id') as [E|E]; cbn.
  - rewrite IH. destruct (Nat.eqb_spec (c_req c) id); [congruence|done].
  - by rewrite IH.
Qed.

Lemma resume_waiting c r s : waiting (resume_call c r s) = waiting s.
Proof.
  assert (Hs : forall x k q data s, (forall s, waiting (k s) = waiting s) ->
    waiting (shown_or (show_items x q s) data k).1 = waiting s \/
    waiting (shown_or (show_items x q s) data k).1 = waiting data).
  { intros x k q data s0 Hk. unfold shown_or. destruct (show_items x q s0) as [s1|] eqn:E; [|by right].
    left. cbn. rewrite Hk. unfold show_items in E. destruct (items_of x) as [os|]; [|done].
    cbn in E. destruct (setChannelFormat os q (heap s0)) as [[h w]|]; [|done]. cbn in E. by injection E as <-. }
  assert (Hl : forall q data s, waiting (load_success q data s).1 = waiting s).
  { intros q data s0. unfold load_success. destruct (is_nullish data); [done|].
    match goal with |- context [show_items ?x ?m ?s1] =>
      destruct (Hs x (set_channelCount (data?."total")) m s1 s1 ltac:(done)) as [E|E] end;
      rewrite E; by destruct (truthy _). }
  assert (Hq : forall q data s, waiting (search_success q data s).1 = waiting s).
  { intros q data s0. unfold search_success. destruct (_ || _); [done|].
    match goal with |- context [shown_or (show_items ?x ?m ?s1) ?s1 ?k] =>
      destruct (Hs x k m s1 s1 ltac:(done)) as [E|E] end; by rewrite E. }
  assert (Ha : forall f q data s, (forall q data s, waiting (f q data s).1 = waiting s) ->
    waiting (handle_answer f q data s).1 = waiting s).
  { intros f q data s0 Hf. unfold handle_answer. destruct (is_nullish data); [done|].
    destruct (truthy _); [apply Hf|done]. }
  assert (HL : waiting (load_resume c r s).1 = waiting s).
  { unfold load_resume. destruct r as [| |data]; [done..|]. destruct (negb _); [done|].
    pose proof (Ha load_success (c_query c) data s Hl) as E.
    destruct (handle_answer load_success (c_query c) data s) as [s' ok]. by destruct ok. }
  assert (HS : waiting (search_resume c r s).1 = waiting s).
  { unfold search_resume. destruct r as [| |data].
    1, 2: cbn; by destruct (bool_decide _).
    destruct (negb _); [cbn; by destruct (bool_decide _)|].
    pose proof (Ha search_success (c_query c) data s Hq) as E.
    destruct (handle_answer search_success (c_query c) data s) as [s' ok]. cbn in E |- *.
    by destruct (bool_decide _). }
  unfold resume_call. destruct (c_resume c); [done|done| |exact HL].
  destruct (search_resume c r s) as [s' ok]. cbn in HS. by destruct ok.
Qed.

(** Responses to other requests keep the latest one waiting. *)
Lemma respond_others l s c :
  List.find (fun c => (c_req c =? requestCounter s)%nat) (waiting s) = Some c ->
  Forall (fun ir => ir.1 <> requestCounter s) l ->
  same_view s (respond_all l s) /\
  List.find (fun c => (c_req c =? requestCounter s)%nat) (waiting (respond_all l s)) = Some c.
Proof.
  intros Hc Hl. revert s Hc Hl. induction l as [|[id r] l IH]; intros s Hc Hl; [split; [apply same_view_refl|done]|].
  apply Forall_cons in Hl as [Hid Hl]. cbn in Hid. cbn [respond_all fold_left fst snd].
  pose proof (stale_respond id r s Hid) as Hv.
  assert (Hw : List.find (fun c => (c_req c =? requestCounter (respond id r s))%nat)
                 (waiting (respond id r s)) = Some c).
  { rewrite (sv_counter _ _ Hv). unfold respond.
    destruct (List.find (fun c => (c_req c =? id)%nat) (waiting s)) as [c'|]; [|done].
    refine (eq_trans (f_equal (List.find _) (resume_waiting _ _ _)) _). rewrite <-Hc.
    by apply (find_filter_ne (waiting s)). }
  destruct (IH (respond id r s) Hw) as [H1 H2].
  { by rewrite (sv_counter _ _ Hv). }
  split; [by eapply same_view_trans|]. by rewrite (sv_counter _ _ Hv) in H2.
Qed.

Lemma respond_stale_all l s :
  Forall (fun ir => ir.1 <> requestCounter s) l -> same_view s (respond_all l s).
Proof.
  revert s. induction l as [|[id r] l IH]; intros s Hl; [apply same_view_refl|].
  apply Forall_cons in Hl as [Hid Hl]. cbn [respond_all fold_left fst snd].
  pose proof (stale_respond id r s Hid) as Hv.
  eapply same_view_trans; [exact Hv|]. apply IH. by rewrite (sv_counter _ _ Hv).
Qed.

Lemma respond_current c data s :
  List.find (fun c => (c_req c =? requestCounter s)%nat) (waiting s) = Some c ->
  respond (requestCounter s) (RAnswer data) s =
  resume_call c (RAnswer data)
    (set_waiting (List.filter (fun c => negb (c_req c =? requestCounter s)%nat) (waiting s)) s).
Proof. intros Hc. unfold respond. by rewrite Hc. Qed.

(** An answer with a page of channels. *)
Record page_answer (data : jsv) (os : list props) : Prop := {
  pa_success : truthy (data?."success") = true;
  pa_items : items_of ((data?."data")?."items") = Ret os;
  pa_counts : (data?."data")?."type_counts" <> JNull
}.

Lemma chain_object v k : v?.k <> JUndef -> is_nullish v = false.
Proof. by destruct v. Qed.

Lemma answer_present data os : page_answer data os -> is_nullish data = false.
Proof. intros [Hs _ _]. apply (chain_object _ "success"). intros E. by rewrite E in Hs. Qed.
Lemma answer_items data os :
  page_answer data os -> is_nullish (data?."data") = false /\
  or_default ((data?."data")?."items") (JArr []) = (data?."data")?."items".
Proof.
  intros [_ Hi _]. destruct ((data?."data")?."items") eqn:E; try done.
  split; [|done]. apply (chain_object _ "items"). by rewrite E.
Qed.

Definition shows (h : store) (w : list row) (s : table) : Prop := heap s = h /\ rows s = w.

Lemma show_items_rows v os tagMode s h w k s0 :
  items_of v = Ret os -> setChannelFormat os tagMode (heap s) = Ret (h, w) ->
  (forall s, heap (k s) = heap s /\ rows (k s) = rows s) ->
  shown_or (show_items v tagMode s) s0 k = (k (set_rows w (set_heap h s)), true) /\
  shows h w (k (set_rows w (set_heap h s))).
Proof.
  intros Hi Hf Hk. unfold show_items. rewrite Hi. cbn. rewrite Hf. cbn. split; [done|].
  unfold shows. destruct (Hk (set_rows w (set_heap h s))) as [-> ->]. done.
Qed.

(** The answer to the latest request is shown. *)
Lemma resume_shows c data os s h w :
  c_req c = requestCounter s -> page_answer data os ->
  setChannelFormat os (q_tagMode (c_query c)) (heap s) = Ret (h, w) ->
  shows h w (resume_call c (RAnswer data) s) /\
  channelCount (resume_call c (RAnswer data) s) =
    match c_resume c with
    | ALoad | ASearchLoad => (data?."data")?."total"
    | _ => or_default ((data?."data")?."total") (JNum (of_Z 0))
    end /\
  requestCounter (resume_call c (RAnswer data) s) = requestCounter s.
Proof.
  intros Hc Hd Hf. destruct (answer_items _ _ Hd) as [Hn Ho].
  assert (Ha : forall f, handle_answer f (c_query c) data s = f (c_query c) (data?."data") s).
  { intros f. unfold handle_answer. by rewrite (answer_present _ _ Hd), (pa_success _ _ Hd). }
  set (s1 := if truthy ((data?."data")?."type_counts")
             then set_typeCounts (with_all ((data?."data")?."type_counts")) s else s).
  assert (Hl : load_resume c (RAnswer data) s =
    (set_loading false (set_channelCount ((data?."data")?."total") (set_rows w (set_heap h s1))), true)).
  { unfold load_resume. rewrite bool_decide_true by done. cbn [negb]. rewrite Ha. unfold load_success.
    rewrite Hn. fold s1.
    destruct (show_items_rows _ os (q_tagMode (c_query c)) s1 h w
      (set_channelCount ((data?."data")?."total")) s1 (pa_items _ _ Hd)) as [-> _]; [|done..].
    rewrite <-Hf. unfold s1. by destruct (truthy _). }
  set (counts := or_default ((data?."data")?."type_counts") (JObj [])).
  assert (Hcs : is_nullish counts = false).
  { unfold counts. pose proof (pa_counts _ _ Hd) as Hp. by destruct ((data?."data")?."type_counts"). }
  assert (Hs : search_resume c (RAnswer data) s =
    (set_searching false (set_activePage (q_page (c_query c))
       (set_channelCount (or_default ((data?."data")?."total") (JNum (of_Z 0)))
          (set_rows w (set_heap h (set_typeCounts (with_all counts) s))))), true)).
  { unfold search_resume. rewrite (bool_decide_true (c_req c = requestCounter s)) by done. cbn [negb].
    rewrite Ha. unfold search_success. fold counts. rewrite Hn, Hcs, Ho. cbn [orb].
    match goal with |- context [shown_or (show_items ?v ?m ?x) ?x ?k] =>
      destruct (show_items_rows v os m x h w k x (pa_items _ _ Hd) Hf) as [-> _]; [done|] end.
    by rewrite bool_decide_true. }
  unfold resume_call. destruct (c_resume c).
  - rewrite Hl. unfold s1. by destruct (truthy _).
  - by rewrite Hs.
  - by rewrite Hs.
  - rewrite Hl. unfold s1. by destruct (truthy _).
Qed.

Lemma shows_same h w s s' : same_view s s' -> shows h w s -> shows h w s'.
Proof. intros Hv [H1 H2]. split; [by rewrite (sv_heap _ _ Hv)|by rewrite (sv_rows _ _ Hv)]. Qed.

(** C19. The rows shown are those of the latest request, in whatever order the responses
    arrive: answers to earlier requests, before it or after it, change neither the rows, the
    count of channels, the counts per type nor the page, and the answer to the latest request
    replaces the rows by its own, formatted in the mode it was asked for. *)
Theorem latest_request_wins l1 l2 c data os s h w :
  List.find (fun c => (c_req c =? requestCounter s)%nat) (waiting s) = Some c ->
  Forall (fun ir => ir.1 <> requestCounter s) (l1 ++ l2) ->
  page_answer data os ->
  setChannelFormat os (q_tagMode (c_query c)) (heap s) = Ret (h, w) ->
  let s1 := respond_all l1 s in
  let s2 := respond (requestCounter s) (RAnswer data) s1 in
  same_view s s1 /\ shows h w s2 /\ same_view s2 (respond_all l2 s2) /\
  respond_all (l1 ++ (requestCounter s, RAnswer data) :: l2) s = respond_all l2 s2.
Proof.
  intros Hc Hl Hd Hf s1 s2. apply Forall_app in Hl as [Hl1 Hl2].
  destruct (respond_others l1 s c Hc Hl1) as [Hv Hw]. fold s1 in Hv, Hw.
  assert (Hid : c_req c = requestCounter s).
  { apply List.find_some in Hc as [_ Hc]. by apply Nat.eqb_eq in Hc. }
  assert (E2 : exists ws, s2 = resume_call c (RAnswer data) (set_waiting ws s1)).
  { unfold s2. rewrite <-(sv_counter _ _ Hv) in Hw |- *. rewrite (respond_current c data s1 Hw). by eexists. }
  destruct E2 as [ws E2].
  destruct (resume_shows c data os (set_waiting ws s1) h w) as (H1 & _ & H3).
  { by rewrite Hid, <-(sv_counter _ _ Hv). }
  { done. }
  { refine (eq_trans (f_equal _ (sv_heap _ _ Hv)) Hf). }
  split_and!; [done|by rewrite E2| |unfold respond_all; by rewrite fold_left_app].
  apply respond_stale_all. rewrite E2.
  refine (Forall_impl _ _ _ Hl2 _). intros ir Hir E. apply Hir. rewrite E, H3. exact (sv_counter _ _ Hv).
Qed.
