(* ===== verification/ChannelTestsThms.v ===== *)
(** * The channel table: the batch of tests

    Whatever the order of the responses and whenever the user stops, clears or closes, the
    batch asks for each model at most once and in order, never has more tests in flight than
    the limit, counts what it completed, and comes to its end. *)

From S2P Require Import Prelude JsString JsNumber JsNumText JsValue JsJson Channels ChannelTests.

(** ** What an update of the table leaves alone *)

Record same_batch (c c' : console) : Prop := {
  sb_requested : requested c' = requested c;
  sb_stop : shouldStopBatchTestingRef c' = shouldStopBatchTestingRef c;
  sb_progress : batchTestProgress c' = batchTestProgress c;
  sb_running : running c' = running c
}.

Lemma same_batch_refl c : same_batch c c.
Proof. by split. Qed.
Lemma same_batch_trans c1 c2 c3 : same_batch c1 c2 -> same_batch c2 c3 -> same_batch c1 c3.
Proof. intros [] []. split; congruence. Qed.

Lemma patch_current_same id o c : same_batch c (patch_current id o c).
Proof.
  unfold patch_current. destruct (currentTestChannel c) as [r|]; [|apply same_batch_refl].
  destruct (strict_eq _ _); by split.
Qed.

Lemma status_same captured id p c : same_batch c (updateChannelTestStatus captured id p c).
Proof.
  unfold updateChannelTestStatus. destruct p as [p|]; [|apply same_batch_refl].
  eapply same_batch_trans; [|apply patch_current_same]. by split.
Qed.

Lemma test_resume_same captured refresh record model r answered c :
  same_batch c (test_resume captured refresh record model r answered c).
Proof.
  unfold test_resume.
  match goal with |- same_batch _ (set_testingModels _ ?d) => apply (same_batch_trans _ d); [|by split] end.
  destruct (answered && refresh); [|by split].
  eapply same_batch_trans; [|apply status_same]. by split.
Qed.

Lemma batch_end_spec b c :
  let c' := batch_end b c in
  requested c' = requested c /\ shouldStopBatchTestingRef c' = shouldStopBatchTestingRef c /\
  batchTestProgress c' = batchTestProgress c /\ running c' = None /\
  batchTestingActiveRef c' = false /\ isBatchTesting c' = false.
Proof.
  unfold batch_end, batch_finally.
  destruct (status_same (b_captured b) (get_prop (heap (tbl c)) (b_channel b) "id")
    (getLatestChannelTestPatch (b_results b)) c) as [H1 H2 H3 H4].
  by split_and!.
Qed.

(** ** Starting a wave *)

Lemma start_wave_spec models c :
  shouldStopBatchTestingRef c = false ->
  let '(c', tests) := start_wave models c in
  tests = (fun m => (m, None)) <$> models /\ requested c' = requested c ++ models /\
  shouldStopBatchTestingRef c' = false /\ batchTestProgress c' = batchTestProgress c.
Proof.
  revert c. induction models as [|m models IH]; intros c Hs; cbn [start_wave].
  - by rewrite app_nil_r.
  - unfold test_start. rewrite Hs. cbn [andb].
    match goal with |- context [start_wave models ?d] => specialize (IH d Hs) end.
    destruct (start_wave models _) as [c' tests]. destruct IH as (-> & Hr & Hs' & Hp).
    split_and!; [done| |done|done]. rewrite Hr. cbn. by rewrite <-app_assoc.
Qed.

(** ** The invariant *)

Definition progress_ok (p : progress) : Prop :=
  (completed p = succeeded p + failed p)%nat /\ (completed p <= total p)%nat.

Lemma succeeded_le l : (succeeded_of l <= length l)%nat.
Proof. apply List.filter_length_le. Qed.

Lemma progress_of_ok b :
  (length (b_results b) <= length (b_models b))%nat -> progress_ok (progress_of b).
Proof. intros H. pose proof (succeeded_le (b_results b)). split; cbn; lia. Qed.

Lemma final_progress_ok h b rs :
  progress_ok (final_progress h b rs) /\ completed (final_progress h b rs) = total (final_progress h b rs).
Proof.
  unfold final_progress, progress_ok. cbn.
  match goal with |- context [List.filter ?f ?l] => pose proof (List.filter_length_le f l) end. lia.
Qed.

(** Where a running batch is: the models asked for, and what it waits for. *)
Record at_work (R0 M : list jsstr) (c : console) (b : batch) : Prop := {
  aw_models : b_models b = M;
  aw_index : (b_index b < length M)%nat;
  aw_asked : requested c = R0 ++ take (b_index b + concurrencyLimit) M;
  aw_waits : match b_waits b with
    | WWave tests => tests.*1 = take concurrencyLimit (drop (b_index b) M) /\
        length (b_results b) = b_index b /\ wave_done tests = false
    | WPause => length (b_results b) = (b_index b + concurrencyLimit)%nat /\
        (b_index b + concurrencyLimit < length M)%nat
    | WFinal => length (b_results b) = length M /\ (length M <= b_index b + concurrencyLimit)%nat
    end
}.

Record batch_state (R0 M : list jsstr) (c : console) : Prop := {
  bs_progress : from_option progress_ok True (batchTestProgress c);
  bs_running : match running c with
    | Some b => at_work R0 M c b
    | None => exists n, requested c = R0 ++ take n M /\
        (shouldStopBatchTestingRef c = false -> requested c = R0 ++ M)
    end
}.

Lemma wave_pending (models : list jsstr) :
  models <> [] -> wave_done ((fun m => (m, None)) <$> models) = false.
Proof. by destruct models. Qed.

Section Steps.
Context (R0 M : list jsstr).
#[local] Notation ok := (batch_state R0 M).

Lemma end_ok b c n :
  from_option progress_ok True (batchTestProgress c) ->
  requested c = R0 ++ take n M ->
  (shouldStopBatchTestingRef c = false -> (length M <= n)%nat) ->
  ok (batch_end b c).
Proof.
  intros Hp Hr Hs. destruct (batch_end_spec b c) as (E1 & E2 & E3 & E4 & _).
  split; [by rewrite E3|]. rewrite E4. exists n. rewrite E1, E2. split; [done|].
  intros H. rewrite Hr, take_ge by auto. done.
Qed.

Lemma take_more {A} i n (l : list A) : take i l ++ take n (drop i l) = take (i + n) l.
Proof. by rewrite take_take_drop. Qed.

Lemma loop_ok b c :
  b_models b = M -> (b_index b < length M)%nat -> length (b_results b) = b_index b ->
  requested c = R0 ++ take (b_index b) M ->
  from_option progress_ok True (batchTestProgress c) ->
  ok (batch_loop b c).
Proof.
  intros Hm Hi Hl Hr Hp. unfold batch_loop. destruct (shouldStopBatchTestingRef c) eqn:Hs.
  { apply (end_ok b c (b_index b)); [done..|]. by rewrite Hs. }
  rewrite Hm. pose proof (start_wave_spec (take concurrencyLimit (drop (b_index b) M)) c Hs) as H.
  destruct (start_wave _ c) as [c' tests]. destruct H as (-> & Hr' & Hs' & Hp').
  split; [rewrite <-Hp' in Hp; exact Hp|]. cbn. split; [done|done| |].
  - refine (eq_trans Hr' _). by rewrite Hr, <-app_assoc, take_more.
  - cbn. split_and!; [|done|].
    + rewrite <-list_fmap_compose. unfold compose. cbn. by rewrite list_fmap_id.
    + apply wave_pending. intros E. apply (f_equal length) in E.
      rewrite length_take, length_drop in E. unfold concurrencyLimit in E. cbn [length] in E. lia.
Qed.

Lemma wave_results_length tests : wave_done tests = true -> length (wave_results tests) = length tests.
Proof.
  unfold wave_results. induction tests as [|[m o] tests IH]; [done|]. csimpl.
  destruct o as [r|]; [|done]. intros H. cbn [length]. by rewrite IH.
Qed.

Lemma wave_end_ok b tests c :
  b_models b = M -> (b_index b < length M)%nat -> length (b_results b) = b_index b ->
  requested c = R0 ++ take (b_index b + concurrencyLimit) M ->
  tests.*1 = take concurrencyLimit (drop (b_index b) M) -> wave_done tests = true ->
  ok (wave_end b tests c).
Proof.
  intros Hm Hi Hl Hr Ht Hd. unfold wave_end. cbn [b_models b_index b_results].
  assert (Hlen : length (b_results b ++ wave_results tests)
    = Nat.min (b_index b + concurrencyLimit) (length M)).
  { rewrite length_app, wave_results_length, Hl by done.
    assert (Hlt : length tests = length (tests.*1)) by (by rewrite length_fmap).
    rewrite Hlt, Ht, length_take, length_drop. lia. }
  set (b' := Batch _ _ _ _ _ WPause).
  assert (Hp : progress_ok (progress_of b')).
  { apply progress_of_ok. unfold b'. cbn. rewrite Hlen, Hm. lia. }
  destruct (shouldStopBatchTestingRef _) eqn:Hs.
  { apply (end_ok b' _ (b_index b + concurrencyLimit)); [exact Hp|exact Hr|]. by rewrite Hs. }
  destruct (Nat.ltb_spec (b_index b + concurrencyLimit) (length (b_models b))) as [Hlt|Hge];
    (split; [exact Hp|]); cbn; (split; [done|done|exact Hr|]); cbn; rewrite Hlen, Hm in *; lia.
Qed.

Lemma settle_keys k r tests : (settle_test k r tests).*1 = tests.*1.
Proof.
  unfold settle_test. revert k. induction tests as [|x tests IH]; intros [|k]; [done..|].
  cbn. f_equal. apply IH.
Qed.

Context `{UnicodeCase} (t : jsstr -> jsstr).

Lemma response_ok now k r c : ok c -> ok (batch_response t now k r c).
Proof.
  intros Hok. pose proof Hok as [Hp Hr]. unfold batch_response.
  destruct (running c) as [b|] eqn:Eb; [|done]. destruct Hr as [Hm Hi Ha Hw].
  destruct (b_waits b) as [tests| |] eqn:Ew; [|done|done]. destruct Hw as (Ht & Hl & Hd).
  destruct (tests !! k) as [[model [?|]]|] eqn:Ek; [done| |done].
  match goal with |- context [test_resume ?a ?b ?d ?e ?f ?g c] =>
    destruct (test_resume_same a b d e f g c) as [S1 S2 S3 S4]; set (c1 := test_resume a b d e f g c) in * end.
  destruct (wave_done (settle_test k _ tests)) eqn:Ed.
  - apply wave_end_ok; [done|done|done|by rewrite S1|by rewrite settle_keys|done].
  - split; [rewrite <-S3 in Hp; exact Hp|]. cbn. split; [done|done|exact (eq_trans S1 Ha)|].
    cbn. by rewrite settle_keys.
Qed.

Lemma timer_ok c : ok c -> ok (batch_timer c).
Proof.
  intros Hok. pose proof Hok as [Hp Hr]. unfold batch_timer.
  destruct (running c) as [b|] eqn:Eb; [|done]. destruct Hr as [Hm Hi Ha Hw].
  destruct (b_waits b) as [tests| |] eqn:Ew; [done|..]; destruct Hw as [Hl Hn].
  - apply loop_ok; cbn; done.
  - apply (end_ok b _ (b_index b + concurrencyLimit)); [apply final_progress_ok|exact Ha|].
    intros _. exact Hn.
Qed.

(** An action of the user on the batch. *)
Lemma user_ok c c' :
  ok c -> from_option progress_ok True (batchTestProgress c') ->
  running c' = running c -> requested c' = requested c ->
  (shouldStopBatchTestingRef c' = false -> shouldStopBatchTestingRef c = false) -> ok c'.
Proof.
  intros [_ Hr] Hp E1 E2 E3. split; [done|]. rewrite E1. destruct (running c) as [b|].
  - destruct Hr as [Hm Hi Ha Hw]. split; [done|done|by rewrite E2|done].
  - destruct Hr as (n & Hn & Hs). exists n. rewrite E2. auto.
Qed.

Lemma step_ok ev c : ok c -> ok (batch_step t ev c).
Proof.
  intros Hok. pose proof (bs_progress _ _ _ Hok) as Hp.
  destruct ev; cbn [batch_step]; [by apply response_ok|by apply timer_ok|by apply (user_ok c)..|].
  apply (user_ok c); [done|..]; unfold handleCloseModal; by destruct (isBatchTesting c).
Qed.

Lemma steps_ok l c : ok c -> ok (batch_steps t l c).
Proof.
  unfold batch_steps. revert c. induction l as [|ev l IH]; intros c Hc; [done|]. cbn. by apply IH, step_ok.
Qed.
End Steps.

(** ** The properties of a batch *)

Section Batch.
Context `{UnicodeCase} (t : jsstr -> jsstr) (captured : list row) (c : console) (ch : nat).
#[local] Notation M := (batch_models (heap (tbl c)) ch (modelSearchKeyword c)).

(** The batch starts: none is active, a channel is chosen, and some model matches. *)
Record startable : Prop := {
  sa_idle : batchTestingActiveRef c = false;
  sa_channel : currentTestChannel c = Some ch;
  sa_models : truthy (get_prop (heap (tbl c)) ch "models") = true;
  sa_some : M <> []
}.

Lemma started_ok : startable -> batch_state (requested c) M (batchTestModels captured c).
Proof.
  intros [Hi Hc Hm Hs]. unfold batchTestModels. rewrite Hi, Hc, Hm. cbn [negb].
  rewrite bool_decide_false by done.
  apply loop_ok; [done| |done| |].
  - change (0 < length M)%nat. apply Nat.neq_0_lt_0. intros E. by apply Hs, nil_length_inv.
  - cbn. by rewrite app_nil_r.
  - cbn. split; cbn; lia.
Qed.

Lemma in_flight R0 c' b tests :
  batch_state R0 M c' -> running c' = Some b -> b_waits b = WWave tests ->
  (length tests <= concurrencyLimit)%nat.
Proof.
  intros [_ Hr] Eb Ew. rewrite Eb in Hr. destruct Hr as [_ _ _ Hw]. rewrite Ew in Hw.
  destruct Hw as (Ht & _). assert (Hl : length tests = length (tests.*1)) by (by rewrite length_fmap).
  rewrite Hl, Ht, length_take. lia.
Qed.

(** C20. A batch of tests does what it says, whatever the order of the responses and whenever
    the user stops it, clears the results or closes the dialog: it asks for each matching
    model at most once, in order; never more tests than the limit are in flight; the counts
    shown add up and do not exceed the total; and when it ends without having been stopped,
    every model was asked for. *)
Theorem batch_spec l :
  startable ->
  let c' := batch_steps t l (batchTestModels captured c) in
  (exists n, requested c' = requested c ++ take n M) /\
  (forall b tests, running c' = Some b -> b_waits b = WWave tests -> (length tests <= concurrencyLimit)%nat) /\
  (forall p, batchTestProgress c' = Some p -> completed p = (succeeded p + failed p)%nat /\
     (completed p <= total p)%nat) /\
  (running c' = None -> shouldStopBatchTestingRef c' = false -> requested c' = requested c ++ M).
Proof.
  intros Hs c'. pose proof (steps_ok (requested c) M t l _ (started_ok Hs)) as Hok. fold c' in Hok.
  split_and!.
  - destruct Hok as [_ Hr]. destruct (running c') as [b|]; [|destruct Hr as (n & Hn & _); by exists n].
    exists (b_index b + concurrencyLimit)%nat. apply Hr.
  - intros b tests. by apply in_flight with (requested c).
  - intros p Ep. destruct Hok as [Hp _]. rewrite Ep in Hp. exact Hp.
  - intros Er Es. destruct Hok as [_ Hr]. rewrite Er in Hr. destruct Hr as (n & _ & Hn). by apply Hn.
Qed.
End Batch.

(** ** Stopping *)

Section Stop.
Context (t : jsstr -> jsstr).

Lemma stopped_step ev c :
  shouldStopBatchTestingRef c = true ->
  requested (batch_step t ev c) = requested c /\ shouldStopBatchTestingRef (batch_step t ev c) = true.
Proof.
  intros Hs. destruct ev as [now k r| | | |]; cbn [batch_step]; [| |done|done|].
  - unfold batch_response. destruct (running c) as [b|]; [|done].
    destruct (b_waits b) as [tests| |]; [|done|done]. destruct (tests !! k) as [[m [?|]]|]; [done| |done].
    match goal with |- context [test_resume ?a ?b ?d ?e ?f ?g c] =>
      destruct (test_resume_same a b d e f g c) as [S1 S2 S3 S4]; set (c1 := test_resume a b d e f g c) in * end.
    rewrite Hs in S2. destruct (wave_done _); [|by rewrite <-S1, <-S2].
    unfold wave_end. change (shouldStopBatchTestingRef (set_batchTestProgress ?p c1))
      with (shouldStopBatchTestingRef c1). rewrite S2.
    match goal with |- context [batch_end ?x ?y] => destruct (batch_end_spec x y) as (-> & -> & _) end.
    by rewrite <-S1, <-S2.
  - unfold batch_timer. destruct (running c) as [b|]; [|done]. destruct (b_waits b); [done|..].
    + unfold batch_loop. rewrite Hs.
      match goal with |- context [batch_end ?x ?y] => destruct (batch_end_spec x y) as (-> & -> & _) end. done.
    + match goal with |- context [batch_end ?x ?y] => destruct (batch_end_spec x y) as (-> & -> & _) end. done.
  - unfold handleCloseModal. by destruct (isBatchTesting c).
Qed.

(** After a stop no test is started: once stopping was asked for, whatever happens until
    a new batch is started, no further model is asked for. *)
Theorem stop_starts_nothing l c :
  requested (batch_steps t l (stopBatchTesting c)) = requested c.
Proof.
  assert (H : forall c, shouldStopBatchTestingRef c = true -> requested (batch_steps t l c) = requested c).
  { unfold batch_steps. induction l as [|ev l IH]; intros d Hd; [done|]. cbn.
    destruct (stopped_step ev d Hd) as [E1 E2]. by rewrite IH. }
  by rewrite H.
Qed.
End Stop.

(** ** The batch ends *)

(** An event the batch waits for: a response to a test in flight, or its timer. *)
Definition awaited (ev : batch_event) (c : console) : Prop :=
  match running c with
  | None => False
  | Some b =>
      match ev, b_waits b with
      | BResponse _ k _, WWave tests => exists m, tests !! k = Some (m, None)
      | BTimer, WPause | BTimer, WFinal => True
      | _, _ => False
      end
  end.

Definition in_flight_count (tests : list wave_test) : nat :=
  length (List.filter (fun x => negb (bool_decide (is_Some x.2))) tests).

(** How much a batch has to do. *)
Definition work (c : console) : nat :=
  match running c with
  | None => 0
  | Some b =>
      3 * (length (b_models b) - (b_index b + concurrencyLimit)) +
      match b_waits b with WWave tests => in_flight_count tests + 2 | WPause | WFinal => 1 end
  end.

Lemma settle_count k r m (tests : list wave_test) :
  tests !! k = Some (m, None) -> in_flight_count tests = S (in_flight_count (settle_test k r tests)).
Proof.
  unfold in_flight_count, settle_test. revert k. induction tests as [|[m' o] tests IH]; intros [|k] E; try done.
  - cbn in E. injection E as -> ->. done.
  - cbn in E |- *. destruct o; cbn; by rewrite (IH k E).
Qed.

Lemma pending_exists (tests : list wave_test) :
  wave_done tests = false -> exists k m, tests !! k = Some (m, None).
Proof.
  induction tests as [|[m [r|]] tests IH]; [done| |intros _; by exists 0%nat, m].
  cbn. intros H. destruct (IH H) as (k & m' & E). by exists (S k), m'.
Qed.

Lemma fresh_count (models : list jsstr) : in_flight_count ((fun m => (m, None)) <$> models) = length models.
Proof. unfold in_flight_count. induction models as [|m l IH]; [done|]. cbn. by f_equal. Qed.

Lemma end_work b c : work (batch_end b c) = 0%nat.
Proof. unfold work. destruct (batch_end_spec b c) as (_ & _ & _ & -> & _). done. Qed.

Section Ends.
Context (t : jsstr -> jsstr) (R0 M : list jsstr).

Lemma loop_work b c :
  b_models b = M -> (b_index b < length M)%nat ->
  (work (batch_loop b c) < 3 * (length M - b_index b) + 1)%nat.
Proof.
  intros Hm Hi. unfold batch_loop. destruct (shouldStopBatchTestingRef c) eqn:Hs.
  - rewrite end_work. lia.
  - rewrite Hm. pose proof (start_wave_spec (take concurrencyLimit (drop (b_index b) M)) c Hs) as H.
    destruct (start_wave _ c) as [c' tests]. destruct H as (-> & _).
    unfold work. cbn [running set_running b_models b_index b_waits].
    rewrite fresh_count, length_take, length_drop. unfold concurrencyLimit. lia.
Qed.

Lemma work_decreases c :
  batch_state R0 M c ->
  (running c <> None -> exists ev, awaited ev c) /\
  (forall ev, awaited ev c -> (work (batch_step t ev c) < work c)%nat).
Proof.
  intros Hok. destruct Hok as [_ Hr]. split.
  - destruct (running c) as [b|] eqn:Eb; [|done]. intros _. destruct Hr as [_ _ _ Hw].
    destruct (b_waits b) as [tests| |] eqn:Ew.
    + destruct Hw as (_ & _ & Hd). destruct (pending_exists tests Hd) as (k & m & Ek).
      exists (BResponse (of_Z 0) k (TFails [])). unfold awaited. rewrite Eb, Ew. by exists m.
    + exists BTimer. unfold awaited. by rewrite Eb, Ew.
    + exists BTimer. unfold awaited. by rewrite Eb, Ew.
  - intros ev Ha. unfold awaited in Ha. destruct (running c) as [b|] eqn:Eb; [|done].
    destruct Hr as [Hm Hi _ Hw].
    destruct ev as [now k r| | | |]; try done; cbn [batch_step].
    + destruct (b_waits b) as [tests| |] eqn:Ew; try done. destruct Ha as [m Ek].
      assert (Hc : work c = (3 * (length M - (b_index b + concurrencyLimit)) + (in_flight_count tests + 2))%nat)
        by (unfold work; by rewrite Eb, Ew, Hm).
      unfold batch_response. rewrite Eb, Ew, Ek, Hc.
      rewrite (settle_count k (result_of t now r) m tests Ek).
      cbv zeta. destruct (wave_done (settle_test k (result_of t now r) tests)).
      * unfold wave_end. cbv zeta. match goal with |- context [if ?x then batch_end _ _ else _] => destruct x end;
          [rewrite end_work; lia|].
        destruct (_ <? _)%nat; unfold work; cbn [running set_running b_models b_index b_waits]; rewrite Hm; lia.
      * unfold work. cbn [running set_running b_models b_index b_waits]. rewrite Hm. lia.
    + unfold batch_timer. destruct (b_waits b) as [tests| |] eqn:Ew; [done|..]; rewrite Eb, Ew.
      * destruct Hw as [_ Hn].
        assert (Hc : work c = (3 * (length M - (b_index b + concurrencyLimit)) + 1)%nat)
          by (unfold work; by rewrite Eb, Ew, Hm).
        rewrite Hc. by apply loop_work.
      * rewrite end_work. unfold work. rewrite Eb, Ew. lia.
Qed.
End Ends.

(** C21. A batch of tests comes to its end: in every state it can reach, a batch that runs
    waits for an event (a response to a test in flight, or its timer), and every such event,
    whichever comes, strictly decreases what is left to do; so it ends after finitely many. *)
Theorem batch_terminates `{UnicodeCase} t captured c ch l :
  startable c ch ->
  let c' := batch_steps t l (batchTestModels captured c) in
  (running c' <> None -> exists ev, awaited ev c') /\
  (forall ev, awaited ev c' -> (work (batch_step t ev c') < work c')%nat).
Proof.
  intros Hs c'.
  apply (work_decreases t (requested c) (batch_models (heap (tbl c)) ch (modelSearchKeyword c))).
  by apply steps_ok, started_ok.
Qed.
