(* ===== verification/ChannelTags.v ===== *)
(** * The channel table: rows of tags

    In tag mode the channels of a page are grouped by their tag, in the order in which the
    tags first appear. *)

From S2P Require Import Prelude JsString JsNumber JsNumText JsValue JsJson Channels ChannelTests.

(** ** Objects in the store *)

Lemma length_put r k v h : length (put_prop r k v h) = length h.
Proof. apply length_insert. Qed.

Lemma get_put r k v h r' k' :
  (r < length h)%nat ->
  get_prop (put_prop r k v h) r' k' =
    if decide (r' = r /\ u k' = u k) then v else get_prop h r' k'.
Proof.
  intros Hr. unfold get_prop, put_prop, object_at. destruct (decide (r' = r)) as [->|Hne].
  - rewrite list_lookup_insert_eq by done. unfold default; cbn [from_option id oget]. rewrite obj_get_set.
    repeat case_decide; naive_solver.
  - rewrite list_lookup_insert_ne by done. case_decide; naive_solver.
Qed.

Lemma get_put_other r k v h r' k' : r' <> r \/ u k' <> u k -> get_prop (put_prop r k v h) r' k' = get_prop h r' k'.
Proof.
  intros Hne. destruct (decide (r < length h)%nat) as [Hr|Hr].
  - rewrite get_put by done. case_decide; naive_solver.
  - unfold put_prop. by rewrite list_insert_ge by lia.
Qed.

(** ** What joining a tag changes *)

(** The stores differ in the properties of the row [tag] at most, not in its key, and its
    group is a string. *)
Record joined (tag : nat) (h h' : store) : Prop := {
  j_length : length h' = length h;
  j_others : forall r k, r <> tag -> get_prop h' r k = get_prop h r k;
  j_key : get_prop h' tag "key" = get_prop h tag "key"
}.

Lemma joined_refl tag h : joined tag h h.
Proof. by split. Qed.
Lemma joined_trans tag h1 h2 h3 : joined tag h1 h2 -> joined tag h2 h3 -> joined tag h1 h3.
Proof. intros [] []. split; [congruence| |congruence]. intros r k Hr. rewrite j_others1, j_others0; done. Qed.
Lemma joined_put tag k v h : u k <> u "key" -> joined tag h (put_prop tag k v h).
Proof.
  intros Hk. split; [apply length_put| |]; intros; apply get_put_other; [by left|right; congruence].
Qed.

Lemma joined_shared tag ch k h : u k <> u "key" -> joined tag h (shared_field tag ch k h).
Proof. intros Hk. unfold shared_field. repeat case_match; auto using joined_put, joined_refl. Qed.

Definition has_string (h : store) (r : nat) (k : string) : Prop := exists s, get_prop h r k = JStr s.

Lemma put_group tag s h :
  (tag < length h)%nat -> has_string (put_prop tag "group" (JStr s) h) tag "group".
Proof. intros Ht. exists s. rewrite get_put by done. by rewrite decide_True. Qed.

Lemma merge_groups_joins tag ch h :
  (tag < length h)%nat -> has_string h tag "group" -> has_string h ch "group" ->
  exists h', merge_groups tag ch h = Ret h' /\ joined tag h h' /\ has_string h' tag "group".
Proof.
  intros Ht [g Hg] [g' Hg']. unfold merge_groups. rewrite Hg, Hg'. cbn [is_str].
  case_match; eexists; (split; [reflexivity|split; [by apply joined_put|by apply put_group]]).
Qed.

Lemma string_kept tag k v h r k' :
  u k <> u k' -> has_string h r k' -> has_string (put_prop tag k v h) r k'.
Proof. intros Hk [s Hs]. exists s. rewrite get_put_other; [done|right; congruence]. Qed.
Lemma shared_string tag ch k h r k' : u k <> u k' -> has_string h r k' -> has_string (shared_field tag ch k h) r k'.
Proof. intros Hk Hs. unfold shared_field. repeat case_match; auto using string_kept. Qed.

(** A channel with a group joins the row of its tag. *)
Lemma join_tag_joins tag ch h :
  (tag < length h)%nat -> ch <> tag -> has_string h tag "group" -> has_string h ch "group" ->
  exists h', join_tag tag ch h = Ret h' /\ joined tag h h' /\ has_string h' tag "group".
Proof.
  intros Ht Hne Hg Hg'. unfold join_tag.
  set (h1 := shared_field tag ch "priority" h). set (h2 := shared_field tag ch "weight" h1).
  assert (J2 : joined tag h h2).
  { eapply joined_trans; by apply joined_shared. }
  destruct (merge_groups_joins tag ch h2) as (h3 & -> & J3 & Hg3).
  { by rewrite (j_length _ _ _ J2). }
  { by repeat apply shared_string. }
  { by repeat apply shared_string. }
  eexists. split; [reflexivity|]. split.
  - eapply joined_trans; [exact J2|]. eapply joined_trans; [exact J3|].
    repeat (eapply joined_trans; [|by apply joined_put]). case_match; auto using joined_put, joined_refl.
  - do 3 (apply string_kept; [done|]). case_match; [by apply string_kept|done].
Qed.

(** ** Tags in the order of their first appearance *)

Lemma elem_of_unique l x : x ∈ unique_strings l <-> x ∈ l.
Proof.
  induction l as [|y l IH]; [done|]. cbn. rewrite !elem_of_cons, <-IH, !list_elem_of_In, List.filter_In.
  destruct (decide (x = y)) as [->|Hne]; [naive_solver|]. rewrite bool_decide_false by done. naive_solver.
Qed.

Lemma NoDup_unique l : NoDup (unique_strings l).
Proof.
  induction l as [|y l IH]; [constructor|]. cbn. constructor.
  - rewrite list_elem_of_In, List.filter_In. intros [_ H]. by rewrite bool_decide_true in H.
  - by apply NoDup_ListNoDup, List.NoDup_filter, NoDup_ListNoDup.
Qed.

Lemma filter_out (l : list jsstr) x :
  x ∉ l -> List.filter (fun y => negb (bool_decide (y = x))) l = l.
Proof.
  induction l as [|y l IH]; [done|]. rewrite not_elem_of_cons. intros [Hn Hl]. cbn.
  rewrite bool_decide_false by done. cbn. by rewrite IH.
Qed.

Lemma unique_snoc l x :
  unique_strings (l ++ [x]) = unique_strings l ++ if decide (x ∈ l) then [] else [x].
Proof.
  induction l as [|y l IH]; [done|]. cbn [unique_strings app]. rewrite IH, List.filter_app. cbn [app].
  f_equal. f_equal. case_decide as H1; case_decide as H2; try (by cbn).
  - by rewrite elem_of_cons in H2; naive_solver.
  - apply elem_of_cons in H2 as [->|]; [|done]. cbn. by rewrite bool_decide_true.
  - cbn. rewrite bool_decide_false; [done|]. intros ->. apply H2. by left.
Qed.

(** ** The loop *)

Section Grouping.
Context (bound : nat) (nm : nat -> jsstr).

Definition of_tag (name : jsstr) (l : list nat) : list nat := List.filter (fun r => bool_decide (nm r = name)) l.

(** The row of a tag holds the channels of the tag seen so far. *)
Definition row_inv (h : store) (pre : list nat) (name : jsstr) (w : row) : Prop :=
  exists r, w = RTag r (of_tag name pre) /\ (bound <= r < length h)%nat /\
    get_prop h r "key" = JStr name /\ has_string h r "group".

(** A channel that can be grouped. *)
Record groupable (h : store) (ch : nat) : Prop := {
  g_settings : exists m, parseUpstreamUpdateMeta (get_prop h ch "settings") = Ret m;
  g_tag : tag_of h ch = JStr (nm ch);
  g_name : nm ch ∉ inherited_names;
  g_group : has_string h ch "group";
  g_bound : (ch < bound)%nat
}.

Record loop_inv (pre todo : list nat) (f : formatting) : Prop := {
  li_length : (bound <= length (f_store f))%nat;
  li_todo : Forall (groupable (f_store f)) todo;
  li_tags : f_tags f = unique_strings (nm <$> pre);
  li_rows : Forall2 (row_inv (f_store f) pre) (f_tags f) (f_rows f)
}.

Lemma find_row h pre name tags rows :
  name ∈ tags -> Forall2 (row_inv h pre) tags rows ->
  exists w, List.find (is_row_of h (JStr name)) rows = Some w /\ row_inv h pre name w.
Proof.
  intros Hn HF. induction HF as [|name' w tags rows Hw HF IH]; [by apply elem_of_nil in Hn|]. cbn.
  destruct Hw as (r & -> & Hr & Hk & Hg). unfold is_row_of at 1. cbn [row_ref]. rewrite Hk. cbn [strict_eq].
  case_bool_decide as E; [subst; eexists; split; [done|by exists r]|].
  apply IH. apply elem_of_cons in Hn as [->|]; done.
Qed.

Lemma of_tag_other name ch pre : nm ch <> name -> of_tag name (pre ++ [ch]) = of_tag name pre.
Proof.
  intros Hn. unfold of_tag. rewrite List.filter_app. cbn. by rewrite bool_decide_false, app_nil_r.
Qed.

Lemma rows_other h pre ch tags rows :
  nm ch ∉ tags -> Forall2 (row_inv h pre) tags rows -> Forall2 (row_inv h (pre ++ [ch])) tags rows.
Proof.
  intros Hn HF. induction HF as [|name w tags rows Hw HF IH]; [constructor|].
  apply not_elem_of_cons in Hn as [Hn1 Hn2]. constructor; [|by apply IH].
  destruct Hw as (r & -> & Hw). exists r. by rewrite of_tag_other.
Qed.

Lemma add_child_rows h pre ch tags rows :
  NoDup tags -> nm ch ∈ tags -> Forall2 (row_inv h pre) tags rows ->
  Forall2 (row_inv h (pre ++ [ch])) tags (add_child h (JStr (nm ch)) ch rows).
Proof.
  intros Hd Hn HF. induction HF as [|name w tags rows Hw HF IH]; [constructor|].
  apply NoDup_cons in Hd as [Hd1 Hd2]. destruct Hw as (r & -> & Hr & Hk & Hg). cbn [add_child].
  unfold is_row_of. cbn [row_ref]. rewrite Hk. cbn [strict_eq]. case_bool_decide as E.
  - subst name. constructor; [|by apply rows_other]. exists r. unfold of_tag. rewrite List.filter_app. cbn.
    by rewrite bool_decide_true.
  - constructor; [exists r; by rewrite of_tag_other|].
    apply IH; [done|]. apply elem_of_cons in Hn as [En|]; [congruence|done].
Qed.

(** What a turn of the loop keeps of the store. *)
Record keeps (h h' : store) : Prop := {
  k_length : (length h <= length h')%nat;
  k_channel : forall r k, (r < bound)%nat -> k ∈ ["settings"; "tag"; "group"]%string ->
    get_prop h' r k = get_prop h r k;
  k_key : forall r, (bound <= r < length h)%nat -> get_prop h' r "key" = get_prop h r "key";
  k_group : forall r, (bound <= r < length h)%nat -> has_string h r "group" -> has_string h' r "group"
}.

Lemma keeps_trans h1 h2 h3 : keeps h1 h2 -> keeps h2 h3 -> keeps h1 h3.
Proof.
  intros K1 K2. pose proof (k_length _ _ K1). pose proof (k_length _ _ K2). split; [lia| | |].
  - intros r k Hr Hk. rewrite (k_channel _ _ K2), (k_channel _ _ K1); done.
  - intros r Hr. rewrite (k_key _ _ K2), (k_key _ _ K1) by lia. done.
  - intros r Hr Hg. apply (k_group _ _ K2); [lia|]. by apply (k_group _ _ K1).
Qed.

Lemma keeps_put ch k v h :
  (ch < bound)%nat -> u k ∉ (u <$> ["settings"; "tag"; "group"]%string) -> keeps h (put_prop ch k v h).
Proof.
  intros Hc Hk. split; [by rewrite length_put| | |].
  - intros r k' Hr Hk'. apply get_put_other. right. intros E. apply Hk. rewrite <-E. by apply list_elem_of_fmap_2.
  - intros r Hr. apply get_put_other. left. lia.
  - intros r Hr [g Hg]. exists g. rewrite get_put_other; [done|]. left. lia.
Qed.

Lemma keeps_app h o : (bound <= length h)%nat -> keeps h (h ++ [o]).
Proof.
  intros Hb.
  assert (H : forall r k, (r < length h)%nat -> get_prop (h ++ [o]) r k = get_prop h r k).
  { intros r k Hr. unfold get_prop, object_at. by rewrite lookup_app_l. }
  split; [rewrite length_app; lia| | |].
  - intros r k Hr _. apply H. lia.
  - intros r Hr. apply H. lia.
  - intros r Hr [g Hg]. exists g. rewrite H; [done|lia].
Qed.

Lemma keeps_joined tag h h' :
  (bound <= tag)%nat -> joined tag h h' -> has_string h' tag "group" -> keeps h h'.
Proof.
  intros Ht J Hg. split; [by rewrite (j_length _ _ _ J)| | |].
  - intros r k Hr _. apply (j_others _ _ _ J). lia.
  - intros r Hr. destruct (decide (r = tag)) as [->|]; [apply (j_key _ _ _ J)|by apply (j_others _ _ _ J)].
  - intros r Hr [g Hr']. destruct (decide (r = tag)) as [->|]; [done|]. exists g.
    by rewrite (j_others _ _ _ J).
Qed.

Lemma keeps_groupable h h' ch : keeps h h' -> groupable h ch -> groupable h' ch.
Proof.
  intros K [G1 G2 G3 [g G4] G5].
  assert (H : forall k, k ∈ ["settings"; "tag"; "group"]%string -> get_prop h' ch k = get_prop h ch k).
  { intros k. by apply (k_channel _ _ K). }
  split; [|unfold tag_of in *| |exists g|]; try done.
  - rewrite H by set_solver. done.
  - rewrite !H by set_solver. done.
  - rewrite H by set_solver. done.
Qed.

Lemma keeps_rows h h' pre tags rows :
  keeps h h' -> Forall2 (row_inv h pre) tags rows -> Forall2 (row_inv h' pre) tags rows.
Proof.
  intros K HF. eapply Forall2_impl; [exact HF|]. intros name w (r & -> & Hr & Hk & Hg).
  pose proof (k_length _ _ K). exists r. split_and!; [done|lia|lia| |by apply (k_group _ _ K)].
  by rewrite (k_key _ _ K).
Qed.

Lemma new_row h name : (bound <= length h)%nat -> row_inv (h ++ [tag_object (JStr name)]) [] name (RTag (length h) []).
Proof.
  intros Hb. exists (length h). rewrite length_app. cbn [length].
  assert (E : object_at (h ++ [tag_object (JStr name)]) (length h) = tag_object (JStr name)).
  { unfold object_at. by rewrite list_lookup_middle. }
  split_and!; [done|lia|lia| |exists []]; unfold get_prop; by rewrite E.
Qed.

Lemma of_tag_absent name pre : name ∉ nm <$> pre -> of_tag name pre = [].
Proof.
  induction pre as [|r pre IH]; [done|]. rewrite fmap_cons, not_elem_of_cons. intros [H1 H2]. unfold of_tag. cbn.
  rewrite bool_decide_false by congruence. by apply IH.
Qed.

Lemma ensure_tag_row h rows pre ch :
  (bound <= length h)%nat -> nm ch ∉ inherited_names ->
  Forall2 (row_inv h pre) (unique_strings (nm <$> pre)) rows ->
  let '(h', rows', tags') := ensure_tag (JStr (nm ch)) h rows (unique_strings (nm <$> pre)) in
  keeps h h' /\ tags' = unique_strings (nm <$> (pre ++ [ch])) /\
  Forall2 (row_inv h' pre) tags' rows' /\ nm ch ∈ tags'.
Proof.
  intros Hb Hn HF. unfold ensure_tag. cbn [to_string]. rewrite (bool_decide_false (nm ch ∈ inherited_names)) by done.
  rewrite orb_false_r, fmap_app. cbn [fmap list_fmap]. rewrite unique_snoc.
  case_bool_decide as E; pose proof E as E'; rewrite elem_of_unique in E'.
  - rewrite decide_True by done. rewrite app_nil_r. split_and!; [|done..]. by split.
  - rewrite decide_False by done. pose proof (keeps_app h (tag_object (JStr (nm ch))) Hb) as K.
    split_and!; [done|done| |set_solver]. apply Forall2_app; [by apply keeps_rows with h|].
    constructor; [|constructor]. destruct (new_row h (nm ch) Hb) as (r & E1 & H). exists r.
    by rewrite of_tag_absent.
Qed.

(** A turn of the loop keeps the invariant. *)
Lemma format_channel_inv pre ch todo f :
  loop_inv pre (ch :: todo) f ->
  exists f', format_channel true ch f = Ret f' /\ loop_inv (pre ++ [ch]) todo f'.
Proof.
  intros [Hl Ht Et HF]. apply Forall_cons in Ht as [Hch Ht]. unfold format_channel.
  destruct (g_settings _ _ Hch) as [m ->]. cbn [mbind exc_bind negb]. cbv zeta.
  set (h1 := put_prop ch "upstreamUpdateMeta" m (f_store f)).
  set (h2 := put_prop ch "key" (JStr (to_string (get_prop h1 ch "id"))) h1).
  assert (K2 : keeps (f_store f) h2).
  { pose proof (g_bound _ _ Hch).
    eapply keeps_trans; apply keeps_put; try done; refine (bool_decide_unpack _ _); vm_compute; exact I. }
  fold h1. fold h2. pose proof (keeps_groupable _ _ _ K2 Hch) as Hch2. rewrite (g_tag _ _ Hch2), Et.
  pose proof (ensure_tag_row h2 (f_rows f) pre ch) as HE.
  destruct (ensure_tag (JStr (nm ch)) h2 (f_rows f) (unique_strings (nm <$> pre))) as [[h3 rows3] tags3].
  destruct HE as (K3 & E3 & HF3 & Hin).
  { pose proof (k_length _ _ K2). lia. }
  { apply (g_name _ _ Hch). }
  { rewrite <-Et. by eapply keeps_rows. }
  destruct (find_row h3 pre (nm ch) tags3 rows3 Hin HF3) as (w & -> & r & -> & Hr & Hk & Hg). cbn [row_ref].
  pose proof (keeps_groupable _ _ _ K3 Hch2) as Hch3. pose proof (g_bound _ _ Hch).
  destruct (join_tag_joins r ch h3) as (h4 & -> & J & Hg4); [lia|lia|done|apply (g_group _ _ Hch3)|].
  pose proof (keeps_joined r h3 h4 ltac:(lia) J Hg4) as K4.
  assert (K : keeps (f_store f) h4) by eauto using keeps_trans.
  eexists. split; [reflexivity|]. split; cbn [f_store f_tags f_rows].
  - pose proof (k_length _ _ K). lia.
  - eapply Forall_impl; [exact Ht|]. intros. by eapply keeps_groupable.
  - done.
  - rewrite E3 in *. apply add_child_rows; [apply NoDup_unique|done|]. exact (keeps_rows h3 h4 _ _ _ K4 HF3).
Qed.

Lemma format_loop_inv todo pre f :
  loop_inv pre todo f -> exists f', format_loop true todo f = Ret f' /\ loop_inv (pre ++ todo) [] f'.
Proof.
  revert pre f. induction todo as [|ch todo IH]; intros pre f Hf.
  - exists f. by rewrite app_nil_r.
  - destruct (format_channel_inv _ _ _ _ Hf) as (f' & E & Hf'). cbn [format_loop]. rewrite E.
    destruct (IH _ _ Hf') as (f'' & E' & Hf''). exists f''. split; [exact E'|].
    by rewrite <-app_assoc in Hf''.
Qed.
End Grouping.

(** ** The rows of a page *)

(** A channel of the server, and the name of its tag. *)
Record taggable (o : props) (name : jsstr) : Prop := {
  tg_settings : exists m, parseUpstreamUpdateMeta (oget (JObj o) (u "settings")) = Ret m;
  tg_tag : (if truthy (oget (JObj o) (u "tag")) then oget (JObj o) (u "tag") else JStr []) = JStr name;
  tg_name : name ∉ inherited_names;
  tg_group : exists g, oget (JObj o) (u "group") = JStr g
}.

(** The tag of the object [r] of a page that starts at [n]. *)
Definition page_tag (n : nat) (names : list jsstr) (r : nat) : jsstr := default [] (names !! (r - n)%nat).

Lemma page_tags n names : page_tag n names <$> seq n (length names) = names.
Proof.
  revert n. induction names as [|x names IH]; intros n; [done|]. cbn [length seq]. rewrite fmap_cons.
  unfold page_tag at 1. rewrite Nat.sub_diag. cbn [lookup list_lookup]. f_equal.
  refine (eq_trans _ (IH (S n))). apply list_fmap_ext. intros i r Hr. apply lookup_seq in Hr as [-> _].
  unfold page_tag. by replace (S n + i - n)%nat with (S (S n + i - S n)) by lia.
Qed.

Lemma page_groupable h os names :
  Forall2 taggable os names ->
  Forall (groupable (length h + length os) (page_tag (length h) names) (h ++ os)) (seq (length h) (length os)).
Proof.
  intros HF. apply Forall_forall. intros r Hr. apply elem_of_seq in Hr as [Hr1 Hr2].
  assert (Hi : (r - length h < length os)%nat) by lia. apply lookup_lt_is_Some in Hi as [o Ho].
  destruct (Forall2_lookup_l _ _ _ _ _ HF Ho) as (name & Hn & Ht).
  assert (E : object_at (h ++ os) r = o).
  { unfold object_at. by rewrite lookup_app_r, Ho. }
  assert (En : page_tag (length h) names r = name) by (unfold page_tag; by rewrite Hn).
  destruct Ht. split; unfold tag_of, has_string, get_prop; rewrite ?E, ?En; done.
Qed.

Lemma of_tag_perm nm name tags l :
  name ∉ tags ->
  of_tag nm name l ++ List.filter (fun r => bool_decide (nm r ∈ tags)) l ≡ₚ
  List.filter (fun r => bool_decide (nm r ∈ name :: tags)) l.
Proof.
  intros Hn. induction l as [|r l IH]; [done|]. unfold of_tag in *. cbn [List.filter].
  case_bool_decide as E1.
  - rewrite (bool_decide_false (nm r ∈ tags)), (bool_decide_true (nm r ∈ name :: tags)) by set_solver.
    cbn. by rewrite IH.
  - case_bool_decide as E2.
    + rewrite (bool_decide_true (nm r ∈ name :: tags)) by set_solver. rewrite <-Permutation_middle. by rewrite IH.
    + rewrite (bool_decide_false (nm r ∈ name :: tags)) by set_solver. done.
Qed.

Lemma tags_perm nm tags l :
  NoDup tags -> concat ((fun name => of_tag nm name l) <$> tags) ≡ₚ List.filter (fun r => bool_decide (nm r ∈ tags)) l.
Proof.
  induction tags as [|name tags IH]; intros Hd.
  - cbn. induction l as [|r l IHl]; [done|]. cbn. by rewrite bool_decide_false by apply not_elem_of_nil.
  - apply NoDup_cons in Hd as [Hd1 Hd2]. cbn [fmap list_fmap concat]. rewrite (IH Hd2). by apply of_tag_perm.
Qed.

Lemma rows_channels bound nm h pre tags rows :
  Forall2 (row_inv bound nm h pre) tags rows ->
  channels_of rows = concat ((fun name => of_tag nm name pre) <$> tags).
Proof.
  intros HF. unfold channels_of. f_equal.
  induction HF as [|name w tags rows (r & -> & _) HF IH]; [done|]. rewrite !fmap_cons. by f_equal.
Qed.

(** C22. In tag mode a page of channels becomes one row per tag, in the order in which the tags
    first appear; the row of a tag has the channels of the tag as its children, in their
    order; and every channel of the page is in exactly one row.  The settings of the channels
    parse, their tags are strings or empty and not names that every object inherits (for those
    the page throws, see [inherited_tag_throws]), and their groups are strings. *)
Theorem tag_rows_partition os names h :
  Forall2 taggable os names ->
  exists h' w, setChannelFormat os true h = Ret (h', w) /\
    Forall2 (fun name x => exists r,
      x = RTag r (of_tag (page_tag (length h) names) name (seq (length h) (length os))) /\
      get_prop h' r "key" = JStr name) (unique_strings names) w /\
    channels_of w ≡ₚ seq (length h) (length os).
Proof.
  intros HF. set (nm := page_tag (length h) names). set (l := seq (length h) (length os)).
  assert (El : nm <$> l = names).
  { unfold l. rewrite (Forall2_length _ _ _ HF). apply page_tags. }
  destruct (format_loop_inv (length h + length os) nm l [] (Formatting (h ++ os) [] [])) as (f & E & Hf).
  { split; cbn [f_store f_tags f_rows]; [by rewrite length_app|by apply page_groupable|done|constructor]. }
  destruct Hf as [_ _ Et HR]. exists (f_store f), (f_rows f). cbn [app] in Et, HR.
  rewrite El in Et. rewrite Et in HR.
  split; [|split].
  - unfold setChannelFormat. fold l. by rewrite E.
  - eapply Forall2_impl; [exact HR|]. intros name x (r & -> & _ & Hk & _). by exists r.
  - rewrite (rows_channels _ _ _ _ _ _ HR), tags_perm by apply NoDup_unique.
    rewrite forallb_filter_id; [done|]. apply List.forallb_forall.
    intros r Hr. apply bool_decide_true, elem_of_unique. rewrite <-El. apply list_elem_of_fmap_2.
    by apply list_elem_of_In.
Qed.
