(* ===== verification/ChannelActions.v ===== *)
(** * The channel table: other operations

    The handlers of web/classic/src/hooks/channels/useChannelsData.jsx that change tags, delete
    several channels and read balances, the opening of the page, and the columns that are
    shown.  A handler that awaits goes on with the settings of the render it was called in
    ([seen]). *)

From S2P Require Import Prelude JsString JsNumber JsNumText JsValue JsJson JsJsonRound Channels ChannelTests.

(** ** Tags *)

Inductive tag_edit := TEPriority | TEWeight | TEOther.

(** [submitTagEdit(type, data)]: what is sent, unless the value is refused. *)
Definition submitTagEdit (type : tag_edit) (data : props) : option props :=
  let get k := oget (JObj data) (u k) in
  let is_undef v := match v with JUndef => true | _ => false end in
  let whole k := obj_set (u k) (JNum (parse_int (to_string (get k)))) data in
  match type with
  | TEPriority =>
      if is_undef (get "priority") || is_str (get "priority") [] then None else Some (whole "priority"%string)
  | TEWeight =>
      if is_undef (get "weight") || num_lt (to_number (get "weight")) (of_Z 0) || is_str (get "weight") []
      then None else Some (whole "weight"%string)
  | TEOther => Some data
  end.

(** [batchSetChannelTag] up to its request: the ids and the tag. *)
Definition selected_ids (h : store) (selected : list nat) : list jsv := (fun r => get_prop h r "id") <$> selected.
Definition batchSetChannelTag (selected : list nat) (value : jsstr) (s : table) : option (list jsv * jsstr) :=
  if bool_decide (selected = []) || bool_decide (value = []) then None
  else Some (selected_ids (heap s) selected, value).

(** ** Deleting several channels *)

(** [refresh(page)] of an earlier render; the form is read when it is called. *)
Definition refresh_seen (seen : table) (page : jsv) (s : table) : table :=
  if no_filters (formValues s)
  then loadChannels page (pageSize seen) (idSort seen) (enableTagMode seen) (activeTypeKey seen) (statusFilter seen) s
  else searchChannels (enableTagMode seen) (activeTypeKey seen) (statusFilter seen) page (pageSize seen) (idSort seen) s.

(** [batchDeleteChannels] up to its request. *)
Definition batch_delete (selected : list nat) (s : table) : option (list jsv) * table :=
  if bool_decide (selected = []) then (None, s)
  else (Some (selected_ids (heap s) selected), set_loading true s).

(** After its response, up to the answer of the list it asks for. *)
Definition batch_deleted (seen : table) (data : jsv) (s : table) : table :=
  if is_nullish data then s
  else if truthy (data?."success") then refresh_seen seen (activePage seen) s
  else set_loading false s.

(** After that answer. *)
Definition batch_refreshed (s : table) : table := set_loading false s.

(** 100 ms later. *)
Definition batch_fallback (seen : table) (s : table) : table :=
  if bool_decide (rows seen = []) && num_gt (to_number (activePage seen)) (of_Z 1)
  then refresh_seen seen (JNum (num_sub (to_number (activePage seen)) (of_Z 1))) s else s.

(** ** Balances *)

(** [updateChannelBalance(record)] with a response; [now] is in milliseconds. *)
Definition updateChannelBalance (captured : list row) (record : nat) (data : jsv) (now : num) (s : table) : table :=
  if strict_eq (get_prop (heap s) record "type") (JNum (of_Z 57)) then s
  else if truthy (data?."success") then
    updateChannelProperty captured (get_prop (heap s) record "id")
      (fun o => obj_set (u "balance_updated_time") (JNum (num_div now (of_Z 1000)))
                  (obj_set (u "balance") (data?."balance") o)) s
  else s.

(** ** Columns *)

Definition column_keys : list jsstr :=
  u <$> ["id"; "name"; "group"; "type"; "status"; "response_time"; "balance"; "priority"; "weight"; "operate"]%string.
Definition getDefaultColumnVisibility (canWrite : bool) : props :=
  let defaults := (fun k => (k, JBool true)) <$> column_keys in
  if canWrite then defaults
  else fold_left (fun o k => obj_set (u k) (JBool false) o) ["balance"; "priority"; "weight"; "operate"]%string defaults.

(** The effect of the first render: the columns from the stored text. *)
Definition load_columns (canWrite : bool) (saved : option jsstr) : props :=
  match saved with
  | Some ((_ :: _) as text) =>
      match json_parse text with
      | Some parsed => obj_merge (getDefaultColumnVisibility canWrite) (entries parsed)
      | None => getDefaultColumnVisibility canWrite
      end
  | _ => getDefaultColumnVisibility canWrite
  end.

(** The effect on the columns: what is stored then. *)
Definition save_columns (columns : props) (saved : option jsstr) : option jsstr :=
  if bool_decide (columns = []) then saved else stringify (JObj columns).

Definition handleColumnVisibilityChange (key : jsstr) (checked : bool) (columns : props) : props :=
  obj_set key (JBool checked) columns.
Definition handleSelectAll (checked : bool) : props := (fun k => (k, JBool checked)) <$> column_keys.

(** ** Opening the page *)

(** The effect of the first render on the table: the settings from the storage. *)
Definition open_table (storage : list (jsstr * jsstr)) (s : table) : table :=
  let flag k := bool_decide (om_get (u k) storage = Some (u "true")) in
  let s := Table (heap s) (rows s) (requestCounter s) (loading s) (searching s) (activePage s) (channelCount s)
             (typeCounts s) (pageSize s) (flag "id-sort"%string) (flag "enable-tag-mode"%string) (activeTypeKey s)
             (statusFilter s) (formValues s) (waiting s) in
  loadChannels (JNum (of_Z 1)) (pageSize s) (idSort s) (enableTagMode s) (activeTypeKey s) (statusFilter s) s.

(** ** The columns come back *)

(** Objects with a switch for every column, in order. *)
Definition switches (o : props) : Prop :=
  o.*1 = column_keys /\ Forall (fun v => exists b, v = JBool b) o.*2.

Lemma switches_ten o :
  switches o -> exists b0 b1 b2 b3 b4 b5 b6 b7 b8 b9,
    o = zip column_keys (JBool <$> [b0; b1; b2; b3; b4; b5; b6; b7; b8; b9]).
Proof.
  intros [Hk Hv]. rewrite <-(zip_fst_snd o), Hk.
  assert (Hl : length o.*2 = 10%nat) by (by rewrite length_fmap, <-(length_fmap fst), Hk).
  do 10 (destruct Hv as [|? ? [? ->] Hv]; [done|]). destruct Hv; [|done]. by repeat eexists.
Qed.

Lemma switches_ok o : switches o -> json_ok (JObj o).
Proof.
  intros [Hk Hv]. apply plain_json_ok. split.
  - rewrite Hk. refine (bool_decide_unpack _ _). by vm_compute.
  - apply Forall_forall. intros [k v] Hkv.
    assert (Hin : k ∈ column_keys) by (rewrite <-Hk; by apply list_elem_of_fmap_2 with (f := fst) in Hkv).
    assert (Hb : exists b, v = JBool b).
    { rewrite Forall_forall in Hv. apply Hv. by apply list_elem_of_fmap_2 with (f := snd) in Hkv. }
    assert (HF : Forall (fun k => array_index k = None /\ units_okb k = true) column_keys).
    { refine (bool_decide_unpack _ _). by vm_compute. }
    rewrite Forall_forall in HF. destruct (HF k Hin) as [H1 H2]. destruct Hb as [b ->].
    split_and!; [done|by apply units_okb_ok|constructor].
Qed.

Lemma switches_merge o o' : switches o -> switches o' -> obj_merge o o' = o'.
Proof.
  intros (?&?&?&?&?&?&?&?&?&?&->)%switches_ten (?&?&?&?&?&?&?&?&?&?&->)%switches_ten. vm_compute. reflexivity.
Qed.
Lemma switches_default w : switches (getDefaultColumnVisibility w).
Proof. destruct w; split; [done|repeat constructor; by eexists|done|repeat constructor; by eexists]. Qed.
Lemma switches_change k b o : k ∈ column_keys -> switches o -> switches (handleColumnVisibilityChange k b o).
Proof.
  intros Hk (?&?&?&?&?&?&?&?&?&?&->)%switches_ten.
  repeat (apply elem_of_cons in Hk as [->|Hk]); [..|by apply elem_of_nil in Hk].
  all: vm_compute; split; [done|]; repeat constructor; by eexists.
Qed.
Lemma switches_all b : switches (handleSelectAll b).
Proof. split; [done|]. repeat constructor; by eexists. Qed.

(** The user's changes of columns. *)
Inductive column_event := CChange (key : jsstr) (checked : bool) | CAll (checked : bool).
Definition column_step (columns : props) (ev : column_event) : props :=
  match ev with CChange k b => handleColumnVisibilityChange k b columns | CAll b => handleSelectAll b end.
Definition known_column (ev : column_event) : Prop :=
  match ev with CChange k _ => k ∈ column_keys | CAll _ => True end.

(** The columns the user has chosen are shown again when the page is opened again: after
    any changes, saving the columns and loading the stored text gives the same columns,
    whatever was stored before and whoever opens the page. *)
Theorem columns_restored canWrite canWrite' saved evs :
  Forall known_column evs ->
  let columns := fold_left column_step evs (getDefaultColumnVisibility canWrite) in
  load_columns canWrite' (save_columns columns saved) = columns.
Proof.
  intros Hev columns. assert (Hs : switches columns).
  { unfold columns. generalize (switches_default canWrite).
    generalize (getDefaultColumnVisibility canWrite).
    induction Hev as [|ev evs He Hev IH]; intros o Ho; [done|]. apply IH.
    destruct ev; [by apply switches_change|apply switches_all]. }
  destruct (json_roundtrip _ (switches_ok _ Hs)) as (text & E & Ep). unfold save_columns.
  rewrite bool_decide_false by (intros En; rewrite En in Hs; by destruct Hs). rewrite E.
  destruct text as [|c text]; [done|]. unfold load_columns. rewrite Ep. cbn [entries].
  apply switches_merge; [apply switches_default|done].
Qed.
