(* ===== verification/ChannelRuns.v ===== *)
(** * The channel table: runs

    Concrete pages, requests and batches: where the table goes wrong, and that the theorems
    about it apply. *)

From S2P Require Import Prelude JsString JsNumber JsNumText JsValue JsJson Channels ChannelsThms ChannelTags ChannelTests ChannelTestsThms ChannelActions.

(** ** A page *)

Definition number (n : Z) : jsv := JNum (of_Z n).
Definition channel (id : Z) (tag group : string) : props :=
  [(u "id", number id); (u "tag", JStr (u tag)); (u "group", JStr (u group)); (u "status", number 1);
   (u "type", number 1); (u "priority", number 0); (u "weight", number 0); (u "used_quota", number 0);
   (u "response_time", number 0); (u "models", JStr (u "m1,m2,m3,m4,m5,m6"))].
Definition answer (l : list props) : jsv :=
  JObj [(u "success", JBool true);
        (u "data", JObj [(u "items", JArr (JObj <$> l)); (u "total", number 20)])].

Definition no_search : filters := Filters [] [] [].
Definition asked (f : filters) : table :=
  Table [] [] 0 false false (number 1) (number 0) [] 10 false false (u "all") (u "all") f [].
Definition page1 : list props := [channel 1 "a" "vip2"; channel 2 "b" "x"].
Definition page2 : list props := [channel 11 "a" "vip"].

(** ** Where the table goes wrong *)

Lemma search_keeps c r s :
  loading (search_resume c r s).1 = loading s /\ requestCounter (search_resume c r s).1 = requestCounter s.
Proof.
  assert (Hs : forall q data s, loading (search_success q data s).1 = loading s /\
    requestCounter (search_success q data s).1 = requestCounter s).
  { intros q data s0. unfold search_success, show_items. destruct (_ || _); [done|].
    destruct (items_of _) as [os|]; [|done]. cbn. by destruct (setChannelFormat os _ _) as [[h w]|]. }
  unfold search_resume. destruct r as [| |data]; [cbn; by destruct (bool_decide _)..|].
  destruct (negb _); [cbn; by destruct (bool_decide _)|]. unfold handle_answer.
  destruct (is_nullish data); [cbn; by destruct (bool_decide _)|].
  destruct (truthy _); [|cbn; by destruct (bool_decide _)].
  pose proof (Hs (c_query c) (data?."data") s) as H.
  destruct (search_success (c_query c) (data?."data") s) as [s' ok]. cbn in *. by destruct (bool_decide _).
Qed.

Lemma load_stale c r s : c_req c <> requestCounter s -> (load_resume c r s).1 = s.
Proof. intros Hn. unfold load_resume. destruct r; [done..|]. by rewrite bool_decide_false. Qed.

Lemma respond_picks id r s c ws :
  waiting s = ws -> List.find (fun c => (c_req c =? id)%nat) ws = Some c ->
  respond id r s = resume_call c r (set_waiting (List.filter (fun c => negb (c_req c =? id)%nat) ws) s).
Proof. intros Hw Hf. unfold respond. rewrite Hw. by rewrite Hf. Qed.

Lemma superseded s f q1 q2 :
  waiting s = [] -> no_filters (formValues s) = true -> no_filters f = false ->
  let s1 := loadChannels (q_page q1) (q_size q1) (q_idSort q1) (q_tagMode q1) (q_type q1) (q_status q1) s in
  let s2 := searchChannels (q_tagMode q2) (q_type q2) (q_status q2) (q_page q2) (q_size q2) (q_idSort q2)
              (set_formValues f s1) in
  exists c1 c2, waiting s2 = [c1; c2] /\ c_req c1 = S (requestCounter s) /\
    c_req c2 = S (S (requestCounter s)) /\ c_resume c1 = ALoad /\ c_resume c2 = ASearch /\
    requestCounter s2 = S (S (requestCounter s)) /\ loading s2 = true.
Proof.
  intros Hw Hf Hf'. cbv zeta. unfold loadChannels, searchChannels. rewrite Hf. destruct s. cbn in Hw. subst.
  cbn -[no_filters]. rewrite Hf'. by do 2 eexists.
Qed.

Lemma search_done c r s :
  c_resume c = ASearch -> loading s = true -> loading (resume_call c r s) = true.
Proof. intros Hc Hl. unfold resume_call. rewrite Hc. by rewrite (proj1 (search_keeps c r s)). Qed.

(** C39. A search that starts while the list loads leaves the table loading forever: the search
    supersedes the load, whose answer returns before it turns the spinner off, and the search
    turns off only its own; once both are answered, in whichever order and whatever the
    answers, nothing is waited for and [loading] is still true. *)
Theorem spinner_stuck s f q1 q2 r1 r2 l :
  waiting s = [] -> no_filters (formValues s) = true -> no_filters f = false ->
  l ≡ₚ [(S (requestCounter s), r1); (S (S (requestCounter s)), r2)] ->
  let s1 := loadChannels (q_page q1) (q_size q1) (q_idSort q1) (q_tagMode q1) (q_type q1) (q_status q1) s in
  let s2 := searchChannels (q_tagMode q2) (q_type q2) (q_status q2) (q_page q2) (q_size q2) (q_idSort q2)
              (set_formValues f s1) in
  waiting (respond_all l s2) = [] /\ loading (respond_all l s2) = true.
Proof.
  intros Hw Hf Hf' Hl s1 s2.
  destruct (superseded s f q1 q2 Hw Hf Hf') as (c1 & c2 & Ew & E1 & E2 & A1 & A2 & Ec & El).
  fold s1 in Ew, Ec, El. fold s2 in Ew, Ec, El. clearbody s2. clear s1.
  symmetry in Hl. apply Permutation_length_2_inv in Hl as [-> | ->]; cbn [respond_all fold_left fst snd].
  - rewrite (respond_picks _ _ s2 c1 [c1; c2] Ew) by (cbn; by rewrite E1, Nat.eqb_refl).
    set (s3 := set_waiting _ s2). assert (E3 : resume_call c1 r1 s3 = s3).
    { unfold resume_call. rewrite A1. apply load_stale. rewrite E1. change (S (requestCounter s) <> requestCounter s2). lia. }
    rewrite E3.
    rewrite (respond_picks _ _ s3 c2 [c2]); [|unfold s3|cbn].
    + split; [|by apply search_done].
      refine (eq_trans (resume_waiting _ _ _) _). cbn. by rewrite E2, Nat.eqb_refl.
    + cbn. by rewrite E1, E2, Nat.eqb_refl, (proj2 (Nat.eqb_neq _ _)) by lia.
    + by rewrite E2, Nat.eqb_refl.
  - rewrite (respond_picks _ _ s2 c2 [c1; c2] Ew).
    2:{ cbn. by rewrite E1, E2, Nat.eqb_refl, (proj2 (Nat.eqb_neq _ _)) by lia. }
    set (s3 := set_waiting _ s2). set (s4 := resume_call c2 r2 s3).
    assert (Ew4 : waiting s4 = [c1]).
    { refine (eq_trans (resume_waiting _ _ _) _). cbn.
      by rewrite E1, E2, Nat.eqb_refl, (proj2 (Nat.eqb_neq _ _)) by lia. }
    assert (Ec4 : requestCounter s4 = requestCounter s2).
    { unfold s4, resume_call. rewrite A2. exact (proj2 (search_keeps c2 r2 s3)). }
    rewrite (respond_picks _ _ s4 c1 [c1] Ew4) by (cbn; by rewrite E1, Nat.eqb_refl).
    split; [refine (eq_trans (resume_waiting _ _ _) _); cbn; by rewrite E1, Nat.eqb_refl|].
    unfold resume_call. rewrite A1, load_stale; [by apply (search_done c2 r2 s3)|].
    rewrite E1. change (S (requestCounter s) <> requestCounter s4). rewrite Ec4. lia.
Qed.

(** The button that refreshes the list passes its click event as the page: the address of
    the request asks for the page [object Object], and the page shown as current stays. *)
Theorem refresh_asks_object event s :
  no_filters (formValues s) = true ->
  exists q, waiting (refresh (JObj event) s) = waiting s ++ [Call (S (requestCounter s)) q ALoad] /\
    startsWith (u "/api/channel/?p=[object Object]&") (load_url q) = true /\
    activePage (refresh (JObj event) s) = activePage s.
Proof.
  intros Hf. unfold refresh, loadChannels. rewrite Hf. eexists.
  split; [reflexivity|split; [|reflexivity]]. unfold load_url. cbn [q_page to_string].
  rewrite (app_assoc (u "/api/channel/?p=")). change (u "&page_size=") with (u "&" ++ u "page_size=").
  rewrite <-(app_assoc (u "&")), (app_assoc _ (u "&")).
  change ((u "/api/channel/?p=" ++ u "[object Object]") ++ u "&") with (u "/api/channel/?p=[object Object]&").
  apply startsWith_app.
Qed.

(** A channel whose tag is a name that every object inherits ([constructor], [toString],
    ...) breaks the table in tag mode: the lookup of the tag finds the inherited value, no row
    has that key, and reading its priority throws, so that none of the page is shown. *)
Theorem inherited_tag_throws o name os h m :
  name ∈ inherited_names -> om_get (u "tag") o = Some (JStr name) ->
  parseUpstreamUpdateMeta (oget (JObj o) (u "settings")) = Ret m ->
  setChannelFormat (o :: os) true h = Throw (u "TypeError").
Proof.
  intros Hn Ht Hs. unfold setChannelFormat. cbn [length seq format_loop]. unfold format_channel.
  assert (Ho : forall k, get_prop (h ++ o :: os) (length h) k = oget (JObj o) (u k)).
  { intros k. unfold get_prop, object_at. by rewrite list_lookup_middle. }
  cbn [f_store f_rows f_tags negb]. rewrite Ho, Hs. cbn [mbind exc_bind]. cbv zeta.
  set (h1 := put_prop _ "upstreamUpdateMeta" m _). set (h2 := put_prop _ "key" _ h1).
  assert (Et : tag_of h2 (length h) = JStr name).
  { assert (E : get_prop h2 (length h) "tag" = JStr name).
    { unfold h2, h1. rewrite !get_put_other by (right; done). rewrite Ho. cbn [oget]. by rewrite Ht. }
    unfold tag_of. rewrite E. cbn [truthy]. by destruct name. }
  rewrite Et. unfold ensure_tag. cbn [to_string].
  by rewrite (bool_decide_true (name ∈ inherited_names)), orb_true_r.
Qed.

(** Groups are lost in the row of a tag: a group is added unless its name occurs anywhere
    in the text of the groups so far, so [vip] is not listed after [vip2]. *)
Theorem tag_group_lost :
  exists h r, setChannelFormat [channel 1 "a" "vip2"; channel 2 "a" "vip"] true [] = Ret (h, [RTag r [0; 1]%nat]) /\
    get_prop h r "group" = JStr (u "vip2").
Proof. do 2 eexists. split; vm_compute; reflexivity. Qed.

Lemma load_keeps_page c r s : activePage (load_resume c r s).1 = activePage s.
Proof.
  unfold load_resume. destruct r as [| |data]; [done..|]. destruct (negb _); [done|]. unfold handle_answer.
  destruct (is_nullish data); [done|]. destruct (truthy _); [|done].
  unfold load_success, show_items. destruct (is_nullish _); [done|].
  destruct (items_of _) as [os|]; [|by destruct (truthy _)]. cbn.
  destruct (setChannelFormat os _ _) as [[h w]|]; by destruct (truthy _).
Qed.

Lemma page_change_loads page s :
  no_filters (formValues s) = true ->
  handlePageChange page s =
  issue (Query page (pageSize s) (idSort s) (enableTagMode s) (activeTypeKey s) (statusFilter s) None) ALoad
    (set_loading true (set_activePage page s)).
Proof.
  intros Hf. unfold handlePageChange, refresh, loadChannels.
  rewrite (Hf : no_filters (formValues (set_activePage page s)) = true). done.
Qed.

(** C40. The answer to an operation on a channel brings back the rows of the page it was
    started on: when the user has gone to another page meanwhile, whose channels are shown,
    the table ends with the rows of the old page under the number of the new one. *)
Theorem stale_rows_restored s page data os h w record a reply :
  waiting s = [] -> no_filters (formValues s) = true -> page_answer data os ->
  setChannelFormat os (enableTagMode s) (heap s) = Ret (h, w) -> truthy (reply?."success") = true ->
  is_nullish (reply?."data") = false ->
  let s1 := respond (S (requestCounter s)) (RAnswer data) (handlePageChange page s) in
  let s2 := manage_resume (rows s) record a reply s1 in
  rows s1 = w /\ rows s2 = rows s /\ activePage s2 = page /\ waiting s2 = [].
Proof.
  intros Hw Hf Hd Hfmt Hr Hr' s1 s2.
  set (q := Query page (pageSize s) (idSort s) (enableTagMode s) (activeTypeKey s) (statusFilter s) None).
  set (c := Call (S (requestCounter s)) q ALoad).
  set (s0 := set_waiting [] (handlePageChange page s)).
  assert (E1 : s1 = resume_call c (RAnswer data) s0).
  { unfold s1. rewrite (respond_picks _ _ _ c [c]).
    - cbn [List.filter c c_req]. by rewrite Nat.eqb_refl.
    - rewrite page_change_loads by done. exact (f_equal (fun w => w ++ [c]) Hw).
    - cbn [List.find c c_req]. by rewrite Nat.eqb_refl. }
  assert (H0 : heap s0 = heap s /\ requestCounter s0 = S (requestCounter s) /\ activePage s0 = page).
  { unfold s0. by rewrite page_change_loads. }
  destruct H0 as (Eh & Ec & Ep).
  destruct (resume_shows c data os s0 h w) as ([_ H2] & _ & _); [by rewrite Ec|done|by rewrite Eh|].
  assert (E2 : rows s2 = rows s /\ activePage s2 = activePage s1 /\ waiting s2 = waiting s1).
  { unfold s2, manage_resume. rewrite Hr, Hr'. by destruct a. }
  destruct E2 as (-> & -> & ->). rewrite E1. split_and!; [done|done| |].
  - refine (eq_trans (load_keeps_page c (RAnswer data) s0) _). exact Ep.
  - refine (eq_trans (resume_waiting c (RAnswer data) s0) _). done.
Qed.

(** ** The theorems apply *)

Definition shown : table := Table page1 [RChannel 0; RChannel 1] 0 false false (number 1) (number 20) [] 10 false
  true (u "all") (u "all") no_search [].

Lemma answer_page l : page_answer (answer l) l.
Proof.
  split; [done| |done]. unfold answer. cbn [oget om_get]. unfold items_of.
  change (item_objects (JObj <$> l) = Ret l). induction l as [|o l IH]; [done|].
  rewrite fmap_cons. cbn [item_objects]. by rewrite IH.
Qed.

Lemma latest_request_wins_witness :
  let s := handlePageChange (number 2) (handlePageChange (number 1) (asked no_search)) in
  exists h w, shows h w (respond 2 (RAnswer (answer page2)) s) /\
    rows (respond_all [(2, RAnswer (answer page2)); (1, RAnswer (answer page1))]%nat s) = w.
Proof.
  intros s.
  destruct (latest_request_wins [] [(1%nat, RAnswer (answer page1))]
    (Call 2 (Query (number 2) 10 false false (u "all") (u "all") None) ALoad) (answer page2) page2 s
    (match setChannelFormat page2 false [] with Ret x => x.1 | Throw _ => [] end) [RChannel 0])
    as (_ & Hs & Hv & E).
  - reflexivity.
  - repeat constructor; discriminate.
  - apply answer_page.
  - vm_compute. reflexivity.
  - exists (match setChannelFormat page2 false [] with Ret x => x.1 | Throw _ => [] end), [RChannel 0].
    split; [exact Hs|].
    exact (eq_trans (f_equal rows E) (eq_trans (sv_rows _ _ Hv) (proj2 Hs))).
Defined.

Lemma tag_rows_partition_witness :
  exists h' w, setChannelFormat [channel 1 "a" "x"; channel 2 EmptyString "y"; channel 3 "a" "z"] true [] = Ret (h', w) /\
    channels_of w ≡ₚ [0; 1; 2]%nat.
Proof.
  destruct (tag_rows_partition [channel 1 "a" "x"; channel 2 EmptyString "y"; channel 3 "a" "z"] [u "a"; []; u "a"] [])
    as (h' & w & E & _ & P).
  - assert (H : forall id tag group, u tag ∉ inherited_names -> taggable (channel id tag group) (u tag)).
    { intros id tag group Hn. split; [by eexists| |done|by eexists].
      change (oget (JObj (channel id tag group)) (u "tag")) with (JStr (u tag)). cbn [truthy].
      by destruct (u tag). }
    constructor; [apply (H 1 "a" "x")%string|].
    2: constructor; [apply (H 2 EmptyString "y")%string|constructor; [apply (H 3 "a" "z")%string|constructor]].
    all: refine (bool_decide_unpack _ _); vm_compute; exact I.
  - exists h', w. split; [exact E|exact P].
Defined.

Lemma spinner_stuck_witness :
  let s := asked no_search in
  let q := Query (number 1) 10 false false (u "all") (u "all") None in
  waiting s = [] /\ loading (respond_all [(1, RAnswer (answer page1)); (2, RAnswer (answer page2))]%nat
    (searchChannels false (u "all") (u "all") (number 1) 10 false
      (set_formValues (Filters (u "gpt") [] []) (loadChannels (number 1) 10 false false (u "all") (u "all") s)))) = true.
Proof.
  intros s q. split; [reflexivity|].
  exact (proj2 (spinner_stuck s (Filters (u "gpt") [] []) q q (RAnswer (answer page1)) (RAnswer (answer page2))
    _ eq_refl eq_refl eq_refl (Permutation_refl _))).
Defined.

Lemma refresh_asks_object_witness :
  activePage (refresh (JObj []) (asked no_search)) = number 1.
Proof. destruct (refresh_asks_object [] (asked no_search) eq_refl) as (q & _ & _ & E). exact E. Defined.

Lemma inherited_tag_throws_witness :
  setChannelFormat [channel 1 "constructor" "x"] true [] = Throw (u "TypeError").
Proof.
  apply (inherited_tag_throws _ (u "constructor") [] [] (update_meta false [] [])).
  - refine (bool_decide_unpack _ _). vm_compute. exact I.
  - reflexivity.
  - reflexivity.
Defined.

Lemma stale_rows_restored_witness :
  let s1 := respond 1 (RAnswer (answer page2)) (handlePageChange (number 2) shown) in
  let s2 := manage_resume [RChannel 0; RChannel 1] 0 AEnable (answer []) s1 in
  rows s2 = [RChannel 0; RChannel 1] /\ activePage s2 = number 2.
Proof.
  destruct (stale_rows_restored shown (number 2) (answer page2) page2
    (match setChannelFormat page2 true (heap shown) with Ret x => x.1 | Throw _ => [] end) [RTag 3 [2]%nat]
    0 AEnable (answer [])) as (_ & H2 & H3 & _);
    [reflexivity|reflexivity|apply answer_page|vm_compute; reflexivity|reflexivity|reflexivity|].
  split; [exact H2|exact H3].
Defined.

(** A channel with six models, about to be tested. *)
Definition testing : console :=
  Console shown (Some 0%nat) [] [] [] [] false false None false false None [].
Definition six : list jsstr := u <$> ["m1"; "m2"; "m3"; "m4"; "m5"; "m6"]%string.

Lemma testing_startable : @startable ascii_case testing 0.
Proof. split; [reflexivity|reflexivity|reflexivity|]. vm_compute. discriminate. Qed.

Definition good : test_response := TAnswer (JObj [(u "success", JBool true); (u "time", number 2)]).
Definition wave_answers : list batch_event :=
  (fun k => BResponse (of_Z 0) k good) <$> [4; 1; 0; 2; 3]%nat.
(** Both waves answered, in some order, and the timers. *)
Definition whole_batch : list batch_event :=
  wave_answers ++ [BTimer; BResponse (of_Z 0) 0 (TFails (u "x")); BTimer].

Lemma batch_spec_witness :
  let c' := batch_steps id whole_batch (@batchTestModels ascii_case (rows shown) testing) in
  running c' = None /\ requested c' = six /\ batchTestProgress c' = Some (Progress 6 6 5 1).
Proof.
  intros c'. split; [vm_compute; reflexivity|]. split; [|vm_compute; reflexivity].
  destruct (@batch_spec ascii_case id (rows shown) testing 0 whole_batch testing_startable) as (_ & _ & _ & H).
  refine (eq_trans (H _ _) _); vm_compute; reflexivity.
Defined.

Lemma batch_terminates_witness :
  let c' := batch_steps id wave_answers (@batchTestModels ascii_case (rows shown) testing) in
  (work (batch_step id BTimer c') < work c')%nat.
Proof.
  intros c'.
  destruct (@batch_terminates ascii_case id (rows shown) testing 0 wave_answers testing_startable) as [_ H].
  apply H. vm_compute. exact I.
Defined.

(** The last page holds one channel, which is deleted. *)
Definition last_page : table := Table page2 [RChannel 0] 0 false false (number 2) (number 11) [] 10 false
  false (u "all") (u "all") no_search [].

(** Deleting all the channels of the last page leaves an empty page: the check that goes
    back one page looks at the rows of the render in which the deletion was started, which
    are not empty, so the table ends with no rows, on a page that is gone. *)
Theorem empty_page_kept :
  let s1 := (batch_delete [0%nat] last_page).2 in
  let s2 := batch_deleted last_page (JObj [(u "success", JBool true)]) s1 in
  let s3 := batch_refreshed (respond 1 (RAnswer (answer [])) s2) in
  let s4 := batch_fallback last_page s3 in
  rows s4 = [] /\ activePage s4 = number 2 /\ waiting s4 = [] /\ loading s4 = false.
Proof. vm_compute. done. Qed.

Lemma columns_restored_witness :
  load_columns true (save_columns (handleColumnVisibilityChange (u "group") false (getDefaultColumnVisibility true)) None) =
  handleColumnVisibilityChange (u "group") false (getDefaultColumnVisibility true).
Proof.
  refine (columns_restored true true None [CChange (u "group") false] _).
  constructor; [|constructor]. unfold known_column. refine (bool_decide_unpack _ _). vm_compute. exact I.
Defined.
