(* ===== verification/Marketplace.v ===== *)
(** * The model marketplace: filters and prices

    The page that lists the models with their prices: web/classic/src/hooks/model-pricing
    (useModelPricingData.jsx, usePricingFilterCounts.js), the filters of
    web/classic/src/components/table/model-pricing/filter, and the prices of
    web/classic/src/helpers/utils.jsx.  Models are the objects of the server; a method called
    on a missing value throws. *)

From S2P Require Import Prelude JsString JsNumber JsNumText JsValue JsJson.

(** ** Checks that can throw *)

Definition andM (x y : exc bool) : exc bool := a ← x; if a : bool then y else Ret false.
Definition orM (x y : exc bool) : exc bool := a ← x; if a : bool then Ret true else y.

Fixpoint filter_exc (p : jsv -> exc bool) (l : list jsv) : exc (list jsv) :=
  match l with
  | [] => Ret []
  | m :: l' => b ← p m; r ← filter_exc p l'; Ret (if b : bool then m :: r else r)
  end.

(** [l.includes(x)] of an array or a string. *)
Definition includes_of (l : jsv) (x : jsstr) : exc bool :=
  match l with
  | JArr l => Ret (existsb (fun y => is_str y x) l)
  | JStr s => Ret (includes x s)
  | _ => Throw (u "TypeError")
  end.

(** [v && v.includes(x)] *)
Definition guarded_includes (v : jsv) (x : jsstr) : exc bool :=
  if truthy v then includes_of v x else Ret false.

(** ** Filters *)

Record selection := Selection {
  filterGroup : jsstr;
  filterQuotaType : jsv;
  filterEndpointType : jsstr;
  filterVendor : jsstr;
  filterTag : jsstr;
  searchValue : jsstr
}.
Definition is_all (s : jsstr) : bool := bool_decide (s = u "all").

Inductive dimension := DGroup | DQuota | DEndpoint | DVendor | DTag | DSearch.
#[export] Instance dimension_eq_dec : EqDecision dimension.
Proof. solve_decision. Defined.

(** [s.split(/[,;|]+/)] *)
Definition is_tag_sep (c : Z) : bool := (c =? 44) || (c =? 59) || (c =? 124).
Fixpoint split_tags (s cur : jsstr) : list jsstr :=
  match s with
  | [] => [cur]
  | c :: s' =>
      if is_tag_sep c then
        match s' with
        | d :: _ => if is_tag_sep d then split_tags s' cur else cur :: split_tags s' []
        | [] => cur :: split_tags s' []
        end
      else split_tags s' (cur ++ [c])
  end.

Definition nonempty (s : jsstr) : bool := negb (bool_decide (s = [])).

Section Filters.
Context `{UnicodeCase}.

Definition lower (v : jsv) : exc jsstr := s ← as_string v; Ret (toLowerCase s).

(** [tags.toLowerCase().split(...).map((t) => t.trim())] *)
Definition tag_pieces (tags : jsv) : exc (list jsstr) := s ← lower tags; Ret (trim <$> split_tags s []).
Definition normalizeTags (tags : jsv) : exc (list jsstr) :=
  l ← tag_pieces (match tags with JUndef => JStr [] | _ => tags end); Ret (List.filter nonempty l).

Definition in_list (x : jsstr) (l : list jsstr) : bool := existsb (fun y => bool_decide (y = x)) l.

(** [v && v.toLowerCase().includes(term)] *)
Definition text_has (v : jsv) (term : jsstr) : exc bool :=
  if truthy v then s ← lower v; Ret (includes term s) else Ret false.

Definition vendor_matches (vendor : jsstr) (m : jsv) : bool :=
  if bool_decide (vendor = u "unknown") then negb (truthy (m?."vendor_name"))
  else is_str (m?."vendor_name") vendor.

(** usePricingFilterCounts.js *)

Definition unless (skip : bool) (x : exc bool) : exc bool := if skip then Ret true else x.

Definition matchesFilters (f : selection) (ignore : list dimension) (m : jsv) : exc bool :=
  let ignored d := bool_decide (d ∈ ignore) in
  andM (unless (ignored DGroup || is_all (filterGroup f)) (guarded_includes (m?."enable_groups") (filterGroup f)))
  (andM (unless (ignored DQuota || is_str (filterQuotaType f) (u "all"))
           (Ret (strict_eq (m?."quota_type") (filterQuotaType f))))
  (andM (unless (ignored DEndpoint || is_all (filterEndpointType f))
           (guarded_includes (m?."supported_endpoint_types") (filterEndpointType f)))
  (andM (unless (ignored DVendor || is_all (filterVendor f)) (Ret (vendor_matches (filterVendor f) m)))
  (andM (unless (ignored DTag || is_all (filterTag f))
           (tagsArr ← normalizeTags (m?."tags"); Ret (in_list (toLowerCase (filterTag f)) tagsArr)))
  (unless (ignored DSearch || bool_decide (searchValue f = []))
     (let term := toLowerCase (searchValue f) in
      tags ← (if truthy (m?."tags") then lower (m?."tags") else Ret []);
      orM (name ← lower (m?."model_name"); Ret (includes term name))
      (orM (text_has (m?."description") term)
      (orM (Ret (includes term tags)) (text_has (m?."vendor_name") term))))))))).

Definition models_without (d : dimension) (f : selection) (models : list jsv) : exc (list jsv) :=
  filter_exc (matchesFilters f [d]) models.

(** useModelPricingData.jsx *)

Definition when (b : bool) (p : jsv -> exc bool) (l : list jsv) : exc (list jsv) :=
  if b then filter_exc p l else Ret l.

Definition filteredModels (f : selection) (models : list jsv) : exc (list jsv) :=
  result ← when (negb (is_all (filterGroup f))) (fun m => includes_of (m?."enable_groups") (filterGroup f)) models;
  result ← when (negb (is_str (filterQuotaType f) (u "all")))
             (fun m => Ret (strict_eq (m?."quota_type") (filterQuotaType f))) result;
  result ← when (negb (is_all (filterEndpointType f)))
             (fun m => guarded_includes (m?."supported_endpoint_types") (filterEndpointType f)) result;
  result ← when (negb (is_all (filterVendor f))) (fun m => Ret (vendor_matches (filterVendor f) m)) result;
  result ← when (negb (is_all (filterTag f)))
             (fun m => if truthy (m?."tags")
                       then l ← tag_pieces (m?."tags");
                            Ret (in_list (toLowerCase (filterTag f)) (List.filter nonempty l))
                       else Ret false) result;
  when (nonempty (searchValue f))
    (fun m => let term := toLowerCase (searchValue f) in
       orM (text_has (m?."model_name") term)
       (orM (text_has (m?."description") term)
       (orM (text_has (m?."tags") term) (text_has (m?."vendor_name") term)))) result.

(** ** The counts of the filters *)

Definition count_exc (p : jsv -> exc bool) (models : list jsv) : exc nat :=
  l ← filter_exc p models; Ret (length l).

Definition getVendorCount (vendor : jsstr) (models : list jsv) : nat :=
  if is_all vendor then length models
  else length (List.filter (vendor_matches vendor) models).

Definition getTagCount (tag : jsstr) (models : list jsv) : exc nat :=
  if is_all tag then Ret (length models)
  else
    count_exc (fun m => if truthy (m?."tags")
                        then l ← tag_pieces (m?."tags"); Ret (in_list (toLowerCase tag) l)
                        else Ret false) models.

Definition getEndpointTypeCount (endpointType : jsstr) (models : list jsv) : exc nat :=
  if is_all endpointType then Ret (length models)
  else count_exc (fun m => guarded_includes (m?."supported_endpoint_types") endpointType) models.

Definition qtyCount (type : jsv) (models : list jsv) : nat :=
  length (List.filter (fun m => if is_str type (u "all") then true else strict_eq (m?."quota_type") type) models).
End Filters.

(** Beside a group its ratio is shown, not a count. *)
Definition ratioDisplay (groupRatio : jsv) (g : jsstr) : jsstr :=
  if is_all g then []
  else match oget groupRatio g with
       | JUndef | JNull => u "1x"
       | ratio => to_string ratio ++ u "x"
       end.

(** The groups offered, each with what is beside it. *)
Definition group_items (usableGroup groupRatio : jsv) : list (jsstr * jsstr) :=
  (fun g => (g, ratioDisplay groupRatio g)) <$> u "all" :: List.filter nonempty (keys usableGroup).

(** The value chosen in a filter. *)
Definition choose_group v '(Selection _ b c d e g) := Selection v b c d e g.
Definition choose_quota v '(Selection a _ c d e g) := Selection a v c d e g.
Definition choose_endpoint v '(Selection a b _ d e g) := Selection a b v d e g.
Definition choose_vendor v '(Selection a b c _ e g) := Selection a b c v e g.
Definition choose_tag v '(Selection a b c d _ g) := Selection a b c d v g.
Definition choose_search v '(Selection a b c d e _) := Selection a b c d e v.

(** ** Prices *)

Definition is_undef (v : jsv) : bool := match v with JUndef => true | _ => false end.

(** What the page shows prices with. *)
Record display := Display {
  showWithRecharge : bool;
  currency : jsstr;
  priceRate : num;
  usdExchangeRate : num;
  customExchangeRate : num;
  customCurrencySymbol : jsstr
}.

Definition displayPrice (d : display) (usdPrice : num) : jsstr :=
  let priceInUSD :=
    if showWithRecharge d then num_div (num_mul usdPrice (priceRate d)) (usdExchangeRate d) else usdPrice in
  if bool_decide (currency d = u "CNY") then u "¥" ++ to_fixed 3 (num_mul priceInUSD (usdExchangeRate d))
  else if bool_decide (currency d = u "CUSTOM")
  then customCurrencySymbol d ++ to_fixed 3 (num_mul priceInUSD (customExchangeRate d))
  else u "$" ++ to_fixed 3 priceInUSD.

(** The cheapest of the groups: the least ratio so far, its group and its value. *)
Definition cheaper (groupRatio : jsv) (best : num * jsv * jsv) (g : jsv) : num * jsv * jsv :=
  let r := oget groupRatio (to_string g) in
  if negb (is_undef r) && num_lt (to_number r) best.1.1 then (to_number r, g, r) else best.

(** The group whose price is shown, and its ratio. *)
Definition used_group (record : jsv) (selectedGroup : jsstr) (groupRatio : jsv) : jsv * jsv :=
  let ratio := oget groupRatio selectedGroup in
  if is_all selectedGroup || is_undef ratio then
    let '(_, group, ratio) :=
      fold_left (cheaper groupRatio) (arr_or_empty (record?."enable_groups"))
        (Inf false, JStr selectedGroup, ratio) in
    (group, if is_undef ratio then JNum (of_Z 1) else ratio)
  else (JStr selectedGroup, ratio).

Inductive price_data :=
  | PDynamic (billingExpr : jsv) (used : jsv * jsv)
  | PRatios (input completion cache createCache image audioInput audioOutput : option num) (used : jsv * jsv)
  | PTokens (input completion : jsstr) (cache createCache image audioInput audioOutput : option jsstr)
      (unitLabel : jsstr) (used : jsv * jsv)
  | PFixed (price : jsstr) (used : jsv * jsv).

Definition hasRatioValue (v : jsv) : bool := negb (is_nullish v) && negb (is_str v []) && is_finite (to_number v).
Definition formatRatio (v : jsv) : option num :=
  if hasRatioValue v then Some (string_to_num (to_fixed 6 (to_number v))) else None.

(** The symbol of a currency; that of the site is in the stored status. *)
Definition price_symbol (currency : jsstr) (status : option jsstr) : jsstr :=
  if bool_decide (currency = u "CNY") then u "¥"
  else if bool_decide (currency = u "CUSTOM") then
    match status with
    | Some ((_ :: _) as text) =>
        match json_parse text with
        | Some s => to_string (js_or (s?."custom_currency_symbol") (JStr (u "¤")))
        | None => u "¤"
        end
    | _ => u "¤"
    end
  else u "$".

(** [parseFloat(text.replace(/[^0-9.]/g, ''))] *)
Definition read_price (text : jsstr) : num := parse_float (List.filter (fun c => is_digit c || (c =? 46)) text).

Definition formatTokenPrice (displayPrice : num -> jsstr) (symbol : jsstr) (perK : bool) (precision : Z)
    (priceUSD : num) : jsstr :=
  symbol ++ to_fixed precision (num_div (read_price (displayPrice priceUSD)) (of_Z (if perK then 1000 else 1))).

Definition calculateModelPrice (record : jsv) (selectedGroup : jsstr) (groupRatio : jsv) (tokenUnit : jsstr)
    (displayPrice : num -> jsstr) (currency quotaDisplayType : jsstr) (precision : Z) (status : option jsstr) :
    price_data :=
  let used := used_group record selectedGroup groupRatio in
  let ratio := to_number used.2 in
  let at_ k := to_number (oget record (u k)) in
  let has k := hasRatioValue (oget record (u k)) in
  if is_str (record?."billing_mode") (u "tiered_expr") && truthy (record?."billing_expr")
  then PDynamic (record?."billing_expr") used
  else if strict_eq (record?."quota_type") (JNum (of_Z 0)) then
    if bool_decide (quotaDisplayType = u "TOKENS") then
      let r k := formatRatio (oget record (u k)) in
      PRatios (r "model_ratio") (r "completion_ratio") (r "cache_ratio") (r "create_cache_ratio")
        (r "image_ratio") (r "audio_ratio") (r "audio_completion_ratio") used
    else
      let perK := bool_decide (tokenUnit = u "K") in
      let input := num_mul (num_mul (at_ "model_ratio") (of_Z 2)) ratio in
      let fmt := formatTokenPrice displayPrice (price_symbol currency status) perK precision in
      let times k := if has k then Some (fmt (num_mul input (at_ k))) else None in
      let audioInput := times "audio_ratio"%string in
      PTokens (fmt input) (fmt (num_mul input (at_ "completion_ratio"))) (times "cache_ratio"%string)
        (times "create_cache_ratio"%string) (times "image_ratio"%string) audioInput
        (match audioInput with
         | Some (_ :: _) =>
             if has "audio_completion_ratio"
             then Some (fmt (num_mul (num_mul input (at_ "audio_ratio")) (at_ "audio_completion_ratio"))) else None
         | _ => None
         end)
        (if perK then u "K" else u "M") used
  else if strict_eq (record?."quota_type") (JNum (of_Z 1))
  then PFixed (displayPrice (num_mul (parse_float (to_string (record?."model_price"))) ratio)) used
  else PFixed (u "-") used.

(** The lines of a price. *)
Record price_item := PriceItem { pi_key : jsstr; pi_label : jsstr; pi_value : jsstr; pi_suffix : jsstr }.

Definition price_lines (suffix : jsstr) (l : list (jsstr * jsstr * option jsstr)) : list price_item :=
  omap (fun x => match x.2 with
                 | Some ((_ :: _) as v) => Some (PriceItem x.1.1 x.1.2 v suffix)
                 | _ => None
                 end) l.

Definition getModelPriceItems (t : jsstr -> jsstr) (quotaDisplayType : jsstr) (p : price_data) : list price_item :=
  let line k label v := (u k, t (u label), v) in
  let text (n : option num) := num_to_string <$> n in
  match p with
  | PDynamic _ _ => [PriceItem (u "dynamic") (t (u "动态计费")) [] []]
  | PRatios a b c d e f g _ =>
      price_lines (u "x")
        [line "input-ratio" "输入倍率" (text a); line "completion-ratio" "补全倍率" (text b);
         line "cache-ratio" "缓存读取倍率" (text c); line "create-cache-ratio" "缓存创建倍率" (text d);
         line "image-ratio" "图片输入倍率" (text e); line "audio-input-ratio" "音频输入倍率" (text f);
         line "audio-output-ratio" "音频补全倍率" (text g)]%string
  | PTokens a b c d e f g unitLabel _ =>
      if bool_decide (quotaDisplayType = u "TOKENS") then []
      else
        price_lines (u " / 1" ++ unitLabel ++ u " Tokens")
          [line "input" "输入价格" (Some a); line "completion" "补全价格" (Some b);
           line "cache" "缓存读取价格" c; line "create-cache" "缓存创建价格" d; line "image" "图片输入价格" e;
           line "audio-input" "音频输入价格" f; line "audio-output" "音频补全价格" g]%string
  | PFixed price _ => price_lines (u " / " ++ t (u "次")) [line "fixed" "模型价格" (Some price)]%string
  end.

(** ** The page *)

Record market := Market {
  k_models : list jsv;
  k_filters : selection;
  selectedGroup : jsstr;
  currentPage : Z;
  k_recharge : bool;
  k_currency : jsstr;
  tokenUnit : jsstr;
  showRatio : bool;
  viewMode : jsstr
}.
Definition with_filters g '(Market a f b c d e h i j) := Market a (g f) b c d e h i j.
Definition with_group v '(Market a b _ c d e h i j) := Market a b v c d e h i j.
Definition with_page v '(Market a b c _ d e h i j) := Market a b c v d e h i j.
Definition with_models v '(Market _ b c d e h i j k) := Market v b c d e h i j k.

(** [handleChange(value)] *)
Definition handleSearch (value : jsv) (k : market) : market :=
  with_filters (choose_search (if truthy value then to_string value else [])) k.

Definition handleGroupClick (group : jsstr) (k : market) : market :=
  with_filters (choose_group group) (with_group group k).

(** The effect of the site's display type. *)
Definition site_display (siteDisplayType : jsstr) (k : market) : market :=
  let '(Market a b c d e _ h i j) := k in
  if bool_decide (siteDisplayType ∈ u <$> ["USD"; "CNY"; "CUSTOM"]%string) then Market a b c d e siteDisplayType h i j
  else if bool_decide (siteDisplayType = u "TOKENS") then Market a b c d false (u "USD") h i j
  else k.

(** The effect of the filters, and a change of state followed by it. *)
Definition same_filters (f f' : selection) : bool :=
  bool_decide (filterGroup f = filterGroup f' /\ filterEndpointType f = filterEndpointType f' /\
               filterVendor f = filterVendor f' /\ filterTag f = filterTag f' /\ searchValue f = searchValue f') &&
  strict_eq (filterQuotaType f) (filterQuotaType f').
Definition committed (change : market -> market) (k : market) : market :=
  let k' := change k in if same_filters (k_filters k) (k_filters k') then k' else with_page 1 k'.

(** [resetPricingFilters]: the setters the page passes. *)
Definition resetPricingFilters (k : market) : market :=
  let '(Market a _ group _ _ _ _ _ _) := k in
  Market a (Selection (u "all") (JStr (u "all")) (u "all") (u "all") (u "all") []) group 1 false (u "USD") (u "M")
    false (u "card").

(** The models of a page of cards. *)
Definition page_models (page pageSize : Z) (models : list jsv) : list jsv :=
  take (Z.to_nat pageSize) (drop (Z.to_nat ((page - 1) * pageSize)) models).

(** ** Loading *)

Section Loading.
Context (localeCompare : jsstr -> jsstr -> Z).

Definition format_model (groupRatio vendorMap summaryMap : jsv) (m : jsv) : jsv :=
  let name := to_string (m?."model_name") in
  let o := obj_set (u "key") (m?."model_name") (own_props m) in
  let o := obj_set (u "group_ratio") (oget groupRatio name) o in
  let o := obj_set (u "performance_summary") (js_or (oget summaryMap name) JNull) o in
  let vendor := oget vendorMap (to_string (m?."vendor_id")) in
  if truthy (m?."vendor_id") && truthy vendor then
    JObj (obj_set (u "vendor_description") (vendor?."description")
           (obj_set (u "vendor_icon") (vendor?."icon") (obj_set (u "vendor_name") (vendor?."name") o)))
  else JObj o.

Definition compare_quota (a b : jsv) : Z :=
  let d := num_sub (to_number (a?."quota_type")) (to_number (b?."quota_type")) in
  if num_lt d (of_Z 0) then -1 else if num_gt d (of_Z 0) then 1 else 0.

Definition name_of (m : jsv) : jsstr := to_string (m?."model_name").
Definition is_gpt (m : jsv) : bool := startsWith (u "gpt") (name_of m).
Definition compare_name (a b : jsv) : Z :=
  if is_gpt a && negb (is_gpt b) then -1
  else if negb (is_gpt a) && is_gpt b then 1
  else localeCompare (name_of a) (name_of b).

(** The models are objects with a name. *)
Definition setModelsFormat (groupRatio vendorMap summaryMap : jsv) (models : list jsv) : list jsv :=
  sort_by compare_name (sort_by compare_quota (format_model groupRatio vendorMap summaryMap <$> models)).

(** The vendors by their id. *)
Definition vendor_map (vendors : jsv) : jsv :=
  JObj (fold_left (fun o v => obj_set (to_string (v?."id")) v o) (arr_or_empty vendors) []).

(** [loadPricing] with a successful answer [data]; a list of models is an array. *)
Definition loadPricing (data summaryMap : jsv) (k : market) : market :=
  with_models (setModelsFormat (data?."group_ratio") (vendor_map (data?."vendors")) summaryMap
                 (arr_or_empty (data?."data"))) (with_group (u "all") k).

(** The effect of the performance figures. *)
Definition mergePerformanceSummary (summaryMap : jsv) (models : list jsv) : list jsv :=
  if truthy summaryMap then
    (fun m => JObj (obj_set (u "performance_summary") (js_or (oget summaryMap (name_of m)) JNull) (own_props m)))
      <$> models
  else models.
End Loading.

(** ** Performance figures: helpers/performanceMetrics.js *)

Definition num_clamp (n : num) : num :=
  let n := if num_le n (of_Z 0) then of_Z 0 else n in if num_gt n (of_Z 100) then of_Z 100 else n.
Definition normalizePercent (v : jsv) : num :=
  let n := to_number v in
  if is_finite n then num_div (num_round (num_mul (num_clamp n) (of_Z 100))) (of_Z 100) else NaN.

Inductive rate_level := Excellent | Good | Warning | Critical | Unknown.
Definition getSuccessRateLevel (rate : jsv) : rate_level :=
  let value := normalizePercent rate in
  if negb (is_finite value) then Unknown
  else if num_ge value (of_Z 100) then Excellent
  else if num_ge value (of_Z 90) then Good
  else if num_ge value (of_Z 70) then Warning
  else Critical.

Definition formatSuccessRate (rate : jsv) : jsstr :=
  let value := normalizePercent rate in
  if is_finite value then to_fixed 2 value ++ u "%" else u "-".

Definition positive_number (n : num) : bool := is_finite n && num_gt n (of_Z 0).
Definition formatCompactNumber (n : num) : jsstr :=
  if positive_number n then if num_gt n (of_Z 1) then num_to_string (num_round n) else to_fixed 1 n else u "-".
Definition formatCompactLatency (ms : jsv) : jsstr :=
  let value := to_number ms in
  if negb (positive_number value) then u "-"
  else if num_ge value (of_Z 1000) then formatCompactNumber (num_div value (of_Z 1000)) ++ u "s"
  else formatCompactNumber value ++ u "ms".
Definition formatCompactThroughput (tps : jsv) : jsstr :=
  let value := to_number tps in
  if negb (positive_number value) then u "-"
  else if num_ge value (of_Z 1000) then formatCompactNumber (num_div value (of_Z 1000)) ++ u "Kt"
  else formatCompactNumber value ++ u "t".
Definition hasPerformanceSummary (perf : jsv) : bool :=
  truthy perf && (is_finite (to_number (perf?."success_rate")) || num_gt (to_number (perf?."avg_latency_ms")) (of_Z 0)
                  || num_gt (to_number (perf?."avg_tps")) (of_Z 0)).

(** [loadPerformanceSummary] with the answer [data], [undefined] when there is none. *)
Definition summary_map (success : bool) (data : jsv) : jsv :=
  match data?."models" with
  | JArr l =>
      if success then
        JObj (fold_left (fun o item =>
                if truthy (item?."model_name") && hasPerformanceSummary item
                then obj_set (to_string (item?."model_name")) item o else o) l [])
      else JObj []
  | _ => JObj []
  end.
