(* ===== verification/MarketplaceThms.v ===== *)
(** * The model marketplace: theorems

    The number beside each value of the filters of vendors, kinds of billing, tags and
    endpoints is the number of models listed when it is chosen; the price shown is that of the cheapest group; and where the prices shown go
    wrong. *)

From Stdlib Require Import Btauto QArith Qabs Qreduction Lqa.
From S2P Require Import Prelude JsString JsNumber JsNumText JsValue JsJson Marketplace.

(** ** Models as the server lists them *)

Definition optional_string (v : jsv) : Prop := v = JUndef \/ exists s, v = JStr s.
Definition optional_array (v : jsv) : Prop := v = JUndef \/ v = JNull \/ exists l, v = JArr l.

Record listed (m : jsv) : Prop := {
  lm_name : exists n, m?."model_name" = JStr n /\ n <> [];
  lm_groups : exists l, m?."enable_groups" = JArr l;
  lm_endpoints : optional_array (m?."supported_endpoint_types");
  lm_vendor : optional_string (m?."vendor_name");
  lm_tags : optional_string (m?."tags");
  lm_description : optional_string (m?."description")
}.

Section Counts.
Context `{UnicodeCase}.

(** ** The filters without exceptions *)

Definition array_has (v : jsv) (x : jsstr) : bool :=
  match v with JArr l => existsb (fun y => is_str y x) l | _ => false end.
Definition string_has (v : jsv) (term : jsstr) : bool :=
  match v with JStr ((_ :: _) as s) => includes term (toLowerCase s) | _ => false end.
Definition tags_of (v : jsv) : list jsstr :=
  match v with JStr s => trim <$> split_tags (toLowerCase s) [] | _ => [] end.

Definition has_tag (tag : jsstr) (m : jsv) : bool :=
  in_list (toLowerCase tag) (List.filter nonempty (tags_of (m?."tags"))).
Definition found (search : jsstr) (m : jsv) : bool :=
  let term := toLowerCase search in
  string_has (m?."model_name") term || (string_has (m?."description") term ||
    (string_has (m?."tags") term || string_has (m?."vendor_name") term)).

(** A model passes the filters that are not ignored. *)
Definition keep (f : selection) (ignore : list dimension) (m : jsv) : bool :=
  let ignored d := bool_decide (d ∈ ignore) in
  (ignored DGroup || is_all (filterGroup f) || array_has (m?."enable_groups") (filterGroup f)) &&
  ((ignored DQuota || is_str (filterQuotaType f) (u "all") || strict_eq (m?."quota_type") (filterQuotaType f)) &&
  ((ignored DEndpoint || is_all (filterEndpointType f) ||
      array_has (m?."supported_endpoint_types") (filterEndpointType f)) &&
  ((ignored DVendor || is_all (filterVendor f) || vendor_matches (filterVendor f) m) &&
  ((ignored DTag || is_all (filterTag f) || has_tag (filterTag f) m) &&
   (ignored DSearch || bool_decide (searchValue f = []) || found (searchValue f) m))))).

Lemma array_pure v x : optional_array v -> guarded_includes v x = Ret (array_has v x).
Proof. by intros [-> | [-> | [l ->]]]. Qed.
Lemma text_pure v term : optional_string v -> text_has v term = Ret (string_has v term).
Proof. intros [-> | [[|c s] ->]]; done. Qed.

Lemma no_tags : List.filter nonempty (tags_of (JStr [])) = [].
Proof. done. Qed.

Lemma tags_pure v : optional_string v -> normalizeTags v = Ret (List.filter nonempty (tags_of v)).
Proof. by intros [-> | [s ->]]. Qed.

Lemma andM_ret a b : andM (Ret a) (Ret b) = Ret (a && b).
Proof. by destruct a. Qed.
Lemma orM_ret a b : orM (Ret a) (Ret b) = Ret (a || b).
Proof. by destruct a. Qed.
Lemma unless_ret skip b : unless skip (Ret b) = Ret (skip || b).
Proof. by destruct skip. Qed.

Lemma includes_nil s : includes [] s = true.
Proof. by destruct s. Qed.

Lemma search_pure search m :
  listed m ->
  (let term := toLowerCase search in
   tags ← (if truthy (m?."tags") then lower (m?."tags") else Ret []);
   orM (name ← lower (m?."model_name"); Ret (includes term name))
   (orM (text_has (m?."description") term)
   (orM (Ret (includes term tags)) (text_has (m?."vendor_name") term)))) = Ret (found search m).
Proof.
  intros Hm. cbv zeta. unfold found. destruct (lm_name _ Hm) as (n & En & Hn). rewrite En.
  rewrite (text_pure _ _ (lm_description _ Hm)), (text_pure _ _ (lm_vendor _ Hm)).
  assert (Ht : exists tags, (if truthy (m?."tags") then lower (m?."tags") else Ret []) = Ret tags /\
    (includes (toLowerCase search) tags = string_has (m?."tags") (toLowerCase search) \/ toLowerCase search = [])).
  { destruct (lm_tags _ Hm) as [-> | [[|c s] ->]]; (eexists; split; [reflexivity|]).
    1, 2: destruct (toLowerCase search); [by right|by left]. by left. }
  destruct Ht as (tags & -> & Ht). cbn [mbind exc_bind]. rewrite !orM_ret.
  destruct n as [|c n]; [done|]. cbn [lower as_string mbind exc_bind string_has]. rewrite orM_ret.
  destruct Ht as [-> | ->]; [done|]. rewrite includes_nil. done.
Qed.

Lemma matches_pure f ignore m : listed m -> matchesFilters f ignore m = Ret (keep f ignore m).
Proof.
  intros Hm. unfold matchesFilters, keep. cbv zeta. rewrite (search_pure _ _ Hm).
  rewrite (tags_pure _ (lm_tags _ Hm)). cbn [mbind exc_bind].
  rewrite (array_pure _ _ (lm_endpoints _ Hm)), (array_pure (m?."enable_groups")).
  2:{ right. right. apply (lm_groups _ Hm). }
  by rewrite !unless_ret, !andM_ret.
Qed.

Lemma filter_exc_pure p q l :
  Forall (fun m => p m = Ret (q m)) l -> filter_exc p l = Ret (List.filter q l).
Proof. induction 1 as [|m l Hm _ IH]; [done|]. cbn. rewrite Hm, IH. done. Qed.

Lemma filter_filter {A} (p q : A -> bool) l : List.filter p (List.filter q l) = List.filter (fun x => q x && p x) l.
Proof. induction l as [|x l IH]; [done|]. cbn. destruct (q x); cbn; by rewrite IH. Qed.

Lemma Forall_filter {A} (P : A -> Prop) q l : Forall P l -> Forall P (List.filter q l).
Proof. induction 1 as [|x l Hx _ IH]; cbn; [done|]. destruct (q x); [by constructor|done]. Qed.

(** A stage of the list of models. *)
Lemma when_pure b p q l :
  Forall (fun m => p m = Ret (q m)) l -> when b p l = Ret (List.filter (fun m => negb b || q m) l).
Proof.
  intros Hl. unfold when. destruct b; cbn [negb orb]; [by apply filter_exc_pure|].
  f_equal. clear Hl. induction l as [|m l IH]; [done|]. cbn. by f_equal.
Qed.

Lemma not_ignored (d : dimension) : bool_decide (d ∈ []) = false.
Proof. apply bool_decide_false, not_elem_of_nil. Qed.

Lemma filtered_pure f models :
  Forall listed models -> filteredModels f models = Ret (List.filter (keep f []) models).
Proof.
  intros Hl. unfold filteredModels.
  rewrite (when_pure _ _ (fun m => array_has (m?."enable_groups") (filterGroup f))).
  2:{ eapply Forall_impl; [exact Hl|]. intros m Hm. destruct (lm_groups _ Hm) as [l ->]. done. }
  cbn [mbind exc_bind]. rewrite (when_pure _ _ (fun m => strict_eq (m?."quota_type") (filterQuotaType f))).
  2:{ by apply Forall_true. }
  cbn [mbind exc_bind]. rewrite (when_pure _ _ (fun m => array_has (m?."supported_endpoint_types") (filterEndpointType f))).
  2:{ do 2 apply Forall_filter. eapply Forall_impl; [exact Hl|]. intros m Hm. apply array_pure, lm_endpoints, Hm. }
  cbn [mbind exc_bind]. rewrite (when_pure _ _ (vendor_matches (filterVendor f))).
  2:{ by apply Forall_true. }
  cbn [mbind exc_bind]. rewrite (when_pure _ _ (has_tag (filterTag f))).
  2:{ do 4 apply Forall_filter. eapply Forall_impl; [exact Hl|]. intros m Hm. unfold has_tag.
      destruct (lm_tags _ Hm) as [-> | [[|c s] ->]]; done. }
  cbn [mbind exc_bind]. rewrite (when_pure _ _ (found (searchValue f))).
  2:{ do 5 apply Forall_filter. eapply Forall_impl; [exact Hl|]. intros m Hm. unfold found. cbv zeta.
      destruct (lm_name _ Hm) as (n & En & _).
      rewrite (text_pure (m?."model_name")) by (right; eauto). rewrite (text_pure _ _ (lm_description _ Hm)).
      rewrite (text_pure _ _ (lm_tags _ Hm)), (text_pure _ _ (lm_vendor _ Hm)). by rewrite !orM_ret. }
  f_equal. rewrite !filter_filter. apply List.filter_ext. intros m. unfold keep, nonempty. cbv zeta.
  rewrite !not_ignored. cbn [orb]. rewrite !negb_involutive.
  by rewrite !andb_assoc.
Qed.

(** Choosing a value in a filter lists the models that the other filters keep and that have it. *)
Lemma chosen_models d (choose : selection) f (has : jsv -> bool) models :
  Forall listed models ->
  (forall m, keep choose [] m = keep f [d] m && has m) ->
  filteredModels choose models = Ret (List.filter has (List.filter (keep f [d]) models)).
Proof.
  intros Hl Hk. rewrite filtered_pure by done. f_equal. rewrite filter_filter. apply List.filter_ext. apply Hk.
Qed.

Lemma without_pure d f models :
  Forall listed models -> models_without d f models = Ret (List.filter (keep f [d]) models).
Proof.
  intros Hl. apply filter_exc_pure. eapply Forall_impl; [exact Hl|]. intros m. apply matches_pure.
Qed.

Lemma in_nonempty x l : x <> [] -> in_list x (List.filter nonempty l) = in_list x l.
Proof.
  intros Hx. induction l as [|y l IH]; [done|]. unfold in_list in *. cbn. unfold nonempty at 1.
  destruct (bool_decide_reflect (y = [])) as [-> | Hy]; cbn; rewrite IH; [|done].
  by rewrite bool_decide_false by congruence.
Qed.

(** A count over the models that the other filters keep. *)
Lemma count_pure p q models :
  Forall (fun m => p m = Ret (q m)) models -> count_exc p models = Ret (length (List.filter q models)).
Proof. intros Hq. unfold count_exc. by rewrite (filter_exc_pure p q). Qed.

Lemma filter_everything {A} (l : list A) : List.filter (fun _ => true) l = l.
Proof. induction l as [|x l IH]; [done|]. cbn. by f_equal. Qed.

(** Ignoring a filter, or choosing its value for all, leaves the others. *)
Lemma ignored_one (d d' : dimension) : bool_decide (d ∈ [d']) = bool_decide (d = d').
Proof. apply bool_decide_ext. apply list_elem_of_singleton. Qed.

#[local] Ltac keep_tac :=
  match goal with f : selection |- _ => destruct f end;
  unfold keep; cbv zeta; rewrite !not_ignored, !ignored_one; cbn [bool_decide decide decide_rel];
  repeat match goal with |- context [bool_decide (?a = ?b :> dimension)] =>
    (rewrite (bool_decide_true (a = b)) by reflexivity) || (rewrite (bool_decide_false (a = b)) by discriminate) end;
  cbn [orb choose_vendor choose_quota choose_tag choose_endpoint filterGroup filterQuotaType
       filterEndpointType filterVendor filterTag searchValue];
  btauto.

Lemma keep_vendor v f m : keep (choose_vendor v f) [] m = keep f [DVendor] m && (is_all v || vendor_matches v m).
Proof. keep_tac. Qed.
Lemma keep_quota v f m :
  keep (choose_quota v f) [] m = keep f [DQuota] m && (is_str v (u "all") || strict_eq (m?."quota_type") v).
Proof. keep_tac. Qed.
Lemma keep_tag v f m : keep (choose_tag v f) [] m = keep f [DTag] m && (is_all v || has_tag v m).
Proof. keep_tac. Qed.
Lemma keep_endpoint v f m :
  keep (choose_endpoint v f) [] m =
  keep f [DEndpoint] m && (is_all v || array_has (m?."supported_endpoint_types") v).
Proof. keep_tac. Qed.

(** C23. In the filters of vendors, kinds of billing, tags and endpoints, the number beside a
    value is the number of models listed when the value is chosen, whatever the other filters
    and the search are, the value for all included (a tag is one that does not become empty in
    lower case).  The models are as the server lists them: a name, a list of groups, and texts
    and lists where the others are given; both sides are then computed without an exception.
    Beside a group its ratio is shown instead, see [ratioDisplay]. *)
Theorem counts_agree f models :
  Forall listed models ->
  exists vendors quotas tags endpoints,
    models_without DVendor f models = Ret vendors /\ models_without DQuota f models = Ret quotas /\
    models_without DTag f models = Ret tags /\ models_without DEndpoint f models = Ret endpoints /\
    (forall v, exists r, filteredModels (choose_vendor v f) models = Ret r /\ getVendorCount v vendors = length r) /\
    (forall v, exists r, filteredModels (choose_quota v f) models = Ret r /\ qtyCount v quotas = length r) /\
    (forall v, toLowerCase v <> [] ->
      exists r, filteredModels (choose_tag v f) models = Ret r /\ getTagCount v tags = Ret (length r)) /\
    (forall v, exists r, filteredModels (choose_endpoint v f) models = Ret r /\
      getEndpointTypeCount v endpoints = Ret (length r)).
Proof.
  intros Hl. do 4 eexists. rewrite !without_pure by done. split_and!; try reflexivity.
  all: intros v.
  - eexists. split; [apply (chosen_models DVendor), keep_vendor; done|].
    unfold getVendorCount. destruct (is_all v); cbn [orb]; by rewrite ?filter_everything.
  - eexists. split; [apply (chosen_models DQuota), keep_quota; done|].
    reflexivity.
  - intros Hv. eexists. split; [apply (chosen_models DTag), keep_tag; done|].
    unfold getTagCount. destruct (is_all v); cbn [orb]; rewrite ?filter_everything; [done|]. apply count_pure.
    apply Forall_filter. eapply Forall_impl; [exact Hl|]. intros m Hm. unfold has_tag. rewrite in_nonempty by done.
    destruct (lm_tags _ Hm) as [-> | [[|c s] ->]]; [done| |done]. cbn.
    by rewrite bool_decide_false.
  - eexists. split; [apply (chosen_models DEndpoint), keep_endpoint; done|].
    unfold getEndpointTypeCount. destruct (is_all v); cbn [orb]; rewrite ?filter_everything; [done|]. apply count_pure.
    apply Forall_filter. eapply Forall_impl; [exact Hl|]. intros m Hm. apply array_pure, (lm_endpoints _ Hm).
Qed.
End Counts.

(** ** The group whose price is shown *)

Lemma finite_lt a b : is_finite a = true -> is_finite b = true -> num_lt a b = true <-> (val0 a < val0 b)%Q.
Proof.
  intros Ha Hb. rewrite Qlt_alt. unfold is_finite in Ha, Hb. unfold num_lt, num_compare.
  destruct a, b; try done; destruct (_ ?= _)%Q; naive_solver.
Qed.

Lemma finite_below_inf a : is_finite a = true -> num_lt a (Inf false) = true.
Proof. by destruct a. Qed.

Section Cheapest.
Context (ratios : jsv).

Definition ratio_of (g : jsstr) : jsv := oget ratios g.
(** The ratios are numbers. *)
Definition priced (g : jsstr) : Prop := ratio_of g = JUndef \/ exists r, ratio_of g = JNum r /\ is_finite r = true.

(** No ratio so far, or the least one. *)
Definition best_of (gs : list jsstr) (start : jsv * jsv) (best : num * jsv * jsv) : Prop :=
  (best = (Inf false, start.1, start.2) /\ Forall (fun g => ratio_of g = JUndef) gs) \/
  (exists g r, best = (r, JStr g, JNum r) /\ g ∈ gs /\ ratio_of g = JNum r /\ is_finite r = true /\
     Forall (fun g' => forall r', ratio_of g' = JNum r' -> num_lt r' r = false) gs).

Lemma cheaper_best gs g start best :
  Forall priced gs -> priced g -> best_of gs start best -> best_of (gs ++ [g]) start (cheaper ratios best (JStr g)).
Proof.
  intros Hp Hg Hb. unfold cheaper. cbn [to_string]. fold (ratio_of g).
  destruct Hg as [Eg | (r & Eg & Hr)]; rewrite Eg; cbn [is_undef negb andb to_number].
  - destruct Hb as [[-> Hn] | (g0 & r0 & -> & Hin & E0 & Hr0 & Hn)].
    + left. split; [done|]. apply Forall_app. split; [done|by constructor].
    + right. exists g0, r0. split_and!; try done; [set_solver|]. apply Forall_app. split; [done|].
      constructor; [|constructor]. intros r'. by rewrite Eg.
  - destruct Hb as [[-> Hn] | (g0 & r0 & -> & Hin & E0 & Hr0 & Hn)]; cbn [fst].
    + rewrite finite_below_inf by done. right. exists g, r. split_and!; try done; [set_solver|].
      apply Forall_app. split.
      * eapply Forall_impl; [exact Hn|]. intros g' E' r'. by rewrite E'.
      * constructor; [|constructor]. intros r'. rewrite Eg. intros [= <-].
        apply not_true_is_false. rewrite finite_lt by done. apply Qlt_irrefl.
    + destruct (num_lt r r0) eqn:El; right.
      * exists g, r. split_and!; try done; [set_solver|]. apply Forall_app. split.
        -- apply Forall_forall. intros g' Hg' r' E'. rewrite Forall_forall in Hn, Hp.
           apply not_true_is_false. intros El'.
           assert (Hr' : is_finite r' = true).
           { destruct (Hp g' Hg') as [E|(r'' & E & Hf)]; rewrite E' in E; [done|]. by injection E as ->. }
           rewrite finite_lt in El, El' by done.
           assert (El2 : num_lt r' r0 = true) by (rewrite finite_lt by done; by eapply Qlt_trans).
           by rewrite (Hn g' Hg' r' E') in El2.
        -- constructor; [|constructor]. intros r'. rewrite Eg. intros [= <-].
           apply not_true_is_false. rewrite finite_lt by done. apply Qlt_irrefl.
      * exists g0, r0. split_and!; try done; [set_solver|]. apply Forall_app. split; [done|].
        constructor; [|constructor]. intros r'. rewrite Eg. by intros [= <-].
Qed.

Lemma cheapest_best todo gs start best :
  Forall priced (gs ++ todo) -> best_of gs start best ->
  best_of (gs ++ todo) start (fold_left (cheaper ratios) (JStr <$> todo) best).
Proof.
  revert gs best. induction todo as [|g todo IH]; intros gs best Hp Hb; [by rewrite app_nil_r|].
  rewrite fmap_cons. cbn [fold_left].
  assert (E : gs ++ g :: todo = (gs ++ [g]) ++ todo) by by rewrite <-app_assoc.
  rewrite E in *. apply IH; [done|]. apply Forall_app in Hp as [Hp _]. apply Forall_app in Hp as [Hp1 Hp2].
  apply cheaper_best; [done|by apply Forall_cons in Hp2 as [? _]|done].
Qed.
End Cheapest.

(** A product with a larger ratio is not smaller, rounded. *)
Lemma to_num_ordered z z' x y : (0 <= x <= y)%Q -> num_lt (to_num z y) (to_num z' x) = false.
Proof.
  intros [H0 H].
  assert (Hx : (0 <= Qred (rnd x))%Q) by (rewrite Qred_correct; apply rnd_ge; [apply is_double_0|done]).
  assert (Hxy : (Qred (rnd x) <= Qred (rnd y))%Q) by (rewrite !Qred_correct; by apply rnd_mono).
  unfold to_num. cbv zeta. generalize dependent (Qred (rnd x)). generalize dependent (Qred (rnd y)).
  intros a b Hb Hab. rewrite !Qabs_pos by lra.
  assert (Ha : Qltb a 0 = false) by (apply Qltb_ge; lra).
  assert (Hb' : Qltb b 0 = false) by (by apply Qltb_ge).
  destruct (Qeq_bool a 0) eqn:Ea, (Qeq_bool b 0) eqn:Eb; [done| | |].
  - apply Qeq_bool_iff in Ea. apply Qeq_bool_neq in Eb. exfalso. apply Eb. lra.
  - destruct (Qle_bool max_bound a); [by rewrite Ha|]. apply not_true_is_false.
    rewrite finite_lt by done. unfold val0; cbn. lra.
  - destruct (Qle_bool max_bound a) eqn:Ma; rewrite ?Ha.
    + by destruct (Qle_bool max_bound b); rewrite ?Hb'.
    + destruct (Qle_bool max_bound b) eqn:Mb.
      * apply Qle_bool_iff in Mb. assert (Ma' : Qle_bool max_bound a = true) by (apply Qle_bool_iff; lra). congruence.
      * apply not_true_is_false. rewrite finite_lt by done. unfold val0; cbn. lra.
Qed.

Lemma nonneg_val a : nonneg_num a -> (0 <= val0 a)%Q.
Proof. destruct a; unfold val0; cbn; intros; try done; lra. Qed.

Lemma mul_ordered base r r' :
  is_finite base = true -> is_finite r = true -> is_finite r' = true -> nonneg_num base -> nonneg_num r ->
  num_lt r' r = false -> num_lt (num_mul base r') (num_mul base r) = false.
Proof.
  intros Fb Fr Fr' Hb%nonneg_val Hr%nonneg_val Hlt. rewrite !num_mul_finite by done. apply to_num_ordered.
  assert (val0 r <= val0 r')%Q.
  { apply Qnot_lt_le. intros Hlt'. apply finite_lt in Hlt'; [congruence|done..]. }
  split; [by apply Qmult_le_0_compat|]. rewrite !(Qmult_comm (val0 base)). by apply Qmult_le_compat_r.
Qed.

(** The group whose ratio applies in the view of all groups: the one with the least ratio, or
    none and the ratio 1 when no group has a ratio. *)
Definition cheapest (ratios : jsv) (gs : list jsstr) (group : jsv) (r : num) : Prop :=
  (Forall (fun g => oget ratios g = JUndef) gs /\ group = JStr (u "all") /\ r = of_Z 1) \/
  (exists g, group = JStr g /\ g ∈ gs /\ oget ratios g = JNum r /\
     forall g' r', g' ∈ gs -> oget ratios g' = JNum r' -> num_lt r' r = false).

Lemma used_cheapest record ratios gs :
  record?."enable_groups" = JArr (JStr <$> gs) -> oget ratios (u "all") = JUndef -> Forall (priced ratios) gs ->
  exists group r, used_group record (u "all") ratios = (group, JNum r) /\ cheapest ratios gs group r.
Proof.
  intros Eg Ea Hp. unfold used_group. rewrite Ea, Eg. cbn [arr_or_empty].
  replace (is_all (u "all")) with true by (symmetry; by apply bool_decide_true). cbn [orb].
  pose proof (cheapest_best ratios gs [] (JStr (u "all"), JUndef) (Inf false, JStr (u "all"), JUndef) Hp) as Hb.
  destruct (fold_left (cheaper ratios) (JStr <$> gs) (Inf false, JStr (u "all"), JUndef)) as [[n g] r].
  destruct Hb as [[[= -> -> ->] Hn] | (g0 & r0 & [= -> -> ->] & Hin & E0 & _ & Hn)]; [by left| |].
  - exists (JStr (u "all")), (of_Z 1). split; [done|]. by left.
  - exists (JStr g0), r0. split; [done|]. right. exists g0. split_and!; try done.
    intros g' r' Hg'. rewrite Forall_forall in Hn. by apply Hn.
Qed.

Definition input_price (p : price_data) : option jsstr :=
  match p with PTokens input _ _ _ _ _ _ _ _ => Some input | _ => None end.
Definition token_base (record : jsv) : num := num_mul (to_number (record?."model_ratio")) (of_Z 2).
Definition call_base (record : jsv) : num := parse_float (to_string (record?."model_price")).

(** C24. In the view of all groups, a model that is not billed by an expression is shown at the
    price of its cheapest group.  There is a group of the model whose ratio none of its groups
    is below (or none has a ratio, and 1 is used); the input price of a model billed by tokens,
    shown in money, is twice its ratio times that ratio, written by [formatTokenPrice]; the
    price of a model billed by calls is its price times that ratio, with the group beside it;
    and where the base price and the ratio are not negative, the amount is at most the amount
    with any other group of the model, rounding included.  The ratios are finite numbers or
    missing, and no group is called [all]. *)
Theorem cheapest_group_used record ratios gs unit display currency quotaDisplayType precision status :
  record?."enable_groups" = JArr (JStr <$> gs) -> oget ratios (u "all") = JUndef ->
  Forall (priced ratios) gs -> truthy (record?."billing_expr") = false ->
  let p := calculateModelPrice record (u "all") ratios unit display currency quotaDisplayType precision status in
  exists group r, cheapest ratios gs group r /\
    (record?."quota_type" = JNum (of_Z 0) -> quotaDisplayType <> u "TOKENS" ->
       input_price p = Some (formatTokenPrice display (price_symbol currency status) (bool_decide (unit = u "K"))
                               precision (num_mul (token_base record) r))) /\
    (record?."quota_type" = JNum (of_Z 1) ->
       p = PFixed (display (num_mul (call_base record) r)) (group, JNum r)) /\
    (forall base g' r', base = token_base record \/ base = call_base record ->
       is_finite base = true -> nonneg_num base -> nonneg_num r ->
       g' ∈ gs -> oget ratios g' = JNum r' -> num_lt (num_mul base r') (num_mul base r) = false).
Proof.
  intros Eg Ea Hp Ht p. destruct (used_cheapest record ratios gs Eg Ea Hp) as (group & r & Eu & Hc).
  exists group, r. unfold p, calculateModelPrice. rewrite Eu, Ht, andb_false_r. cbn [fst snd to_number].
  split_and!; [done| | |].
  - intros -> Hq. rewrite (bool_decide_false (quotaDisplayType = _)) by done. reflexivity.
  - by intros ->.
  - intros base g' r' _ Fb Hb Hr Hin E'. destruct Hc as [(Hn & _) | (g & -> & Hg & E & Hmin)].
    + rewrite Forall_forall in Hn. by rewrite Hn in E'.
    + rewrite Forall_forall in Hp. unfold priced, ratio_of in Hp. pose proof (Hp g Hg) as [Eb|(? & Eb & Fr)]; rewrite Eb in E; [done|injection E as <-].
      pose proof (Hp g' Hin) as [Eb'|(? & Eb' & Fr')]; rewrite Eb' in E'; [done|injection E' as <-].
      apply mul_ordered; try done. by apply (Hmin g').
Qed.

(** ** Where the page goes wrong *)

(** Resetting the filters does not reset the group of the prices: after a group was chosen
    and the filters are reset, all models are listed, but their prices are still those of
    the group, not of the cheapest one. *)
Theorem reset_leaves_group `{UnicodeCase} g r record ratios k :
  g <> u "all" -> oget ratios g = JNum r ->
  let k' := resetPricingFilters (handleGroupClick g k) in
  filteredModels (k_filters k') (k_models k') = Ret (k_models k) /\
  used_group record (selectedGroup k') ratios = (JStr g, JNum r).
Proof.
  intros Hg Hr k'. destruct k as [ms f g0 p b c tu sr vm]. destruct f as [fg fq fe fv ft fs]. split; [done|].
  change (selectedGroup k') with g. unfold used_group. rewrite Hr. unfold is_all. by rewrite bool_decide_false.
Qed.

(** A model billed by tokens, with a ratio in millionths. *)
Definition token_model (millionths : Z) : jsv :=
  JObj [(u "model_name", JStr (u "m")); (u "quota_type", JNum (of_Z 0));
        (u "model_ratio", JNum (num_div (of_Z millionths) (of_Z 1000000)));
        (u "completion_ratio", JNum (of_Z 1)); (u "enable_groups", JArr [JStr (u "default")])].
Definition rupees : display := Display false (u "CUSTOM") (of_Z 1) (of_Z 1) (of_Z 1) (u "Rs.").
Definition dollars : display := Display false (u "USD") (of_Z 1) (of_Z 1) (of_Z 1) (u "$").
Definition shown_price (d : display) (tokenUnit : jsstr) (status : option jsstr) (m : jsv) : option jsstr :=
  input_price (calculateModelPrice m (u "all") (JObj [(u "default", JNum (of_Z 1))]) tokenUnit (displayPrice d)
    (currency d) (u "CUSTOM") 4 status).

(** A currency symbol with a full stop corrupts the prices: the price is read back from its
    text by keeping digits and full stops, so that of [Rs.5.000] is read as [.5], and a model
    of five rupees a million tokens is shown at half a rupee. *)
Theorem dotted_symbol_misread :
  displayPrice rupees (of_Z 5) = u "Rs.5.000" /\
  shown_price rupees (u "M") (stringify (JObj [(u "custom_currency_symbol", JStr (u "Rs."))])) (token_model 2500000) =
    Some (u "Rs.0.5000").
Proof. split; vm_compute; reflexivity. Qed.

(** The fourth decimal of a price is never right: prices are shown with four decimals, but
    are read from a text that has three, so a price of $1.2346 is shown as $1.2350, and one of
    $0.0004 as free. *)
Theorem fourth_decimal_lost :
  shown_price dollars (u "M") None (token_model 617300) = Some (u "$1.2350") /\
  to_fixed 4 (num_mul (num_div (of_Z 617300) (of_Z 1000000)) (of_Z 2)) = u "1.2346" /\
  shown_price dollars (u "M") None (token_model 200) = Some (u "$0.0000").
Proof. split_and!; vm_compute; reflexivity. Qed.

(** ** The theorems apply *)

Definition gpt : jsv :=
  JObj [(u "model_name", JStr (u "gpt-4o")); (u "quota_type", JNum (of_Z 0));
        (u "model_ratio", JNum (of_Z 3)); (u "enable_groups", JArr [JStr (u "default"); JStr (u "vip")]); (u "vendor_name", JStr (u "OpenAI"));
        (u "tags", JStr (u "Vision, chat"))].

Lemma gpt_listed : Forall listed [gpt; token_model 20000].
Proof.
  repeat constructor; try (by left); try (right; by eexists); try (by eexists);
    eexists; (split; [reflexivity|discriminate]).
Qed.

Lemma counts_agree_witness :
  let f := Selection (u "all") (JStr (u "all")) (u "all") (u "OpenAI") (u "all") [] in
  exists vendors r, @models_without ascii_case DVendor f [gpt; token_model 20000] = Ret vendors /\
    @filteredModels ascii_case (choose_vendor (u "unknown") f) [gpt; token_model 20000] = Ret r /\
    getVendorCount (u "unknown") vendors = length r.
Proof.
  intros f. destruct (@counts_agree ascii_case f [gpt; token_model 20000] gpt_listed)
    as (vs & ? & ? & ? & E & _ & _ & _ & Hv & _).
  destruct (Hv (u "unknown")) as (r & E1 & E2). exists vs, r. split; [exact E|split; [exact E1|exact E2]].
Defined.

Definition two_groups : jsv := JObj [(u "default", JNum (of_Z 2)); (u "vip", JNum (of_Z 1))].
Definition gpt_price : price_data :=
  calculateModelPrice gpt (u "all") two_groups (u "M") (displayPrice dollars) (u "USD") (u "USD") 4 None.

Lemma cheapest_group_used_witness :
  exists r, num_lt (of_Z 2) r = false /\
    input_price gpt_price = Some (formatTokenPrice (displayPrice dollars)
      (price_symbol (u "USD") None) (bool_decide (u "M" = u "K")) 4 (num_mul (token_base gpt) r)).
Proof.
  destruct (cheapest_group_used gpt two_groups [u "default"; u "vip"] (u "M") (displayPrice dollars) (u "USD")
    (u "USD") 4 None) as (group & r & Hc & Hi & _).
  - reflexivity.
  - reflexivity.
  - apply Forall_cons; split; [|apply Forall_cons; split; [|constructor]]; right; eexists;
      (split; [reflexivity|reflexivity]).
  - reflexivity.
  - exists r. split.
    + destruct Hc as [[Hn _] | (g & _ & _ & _ & Hmin)].
      * apply Forall_cons in Hn as [Hn _]. vm_compute in Hn. discriminate Hn.
      * apply (Hmin (u "default")); [left|reflexivity].
    + apply Hi; [reflexivity|vm_compute; discriminate].
Defined.

Lemma reset_leaves_group_witness :
  let k := Market [gpt] (Selection (u "all") (JStr (u "all")) (u "all") (u "all") (u "all") []) (u "all") 1 false
             (u "USD") (u "M") false (u "card") in
  used_group gpt (selectedGroup (resetPricingFilters (handleGroupClick (u "default") k)))
    (JObj [(u "default", JNum (of_Z 2)); (u "vip", JNum (of_Z 1))]) = (JStr (u "default"), JNum (of_Z 2)).
Proof.
  intros k.
  refine (proj2 (@reset_leaves_group ascii_case (u "default") (of_Z 2) gpt
    (JObj [(u "default", JNum (of_Z 2)); (u "vip", JNum (of_Z 1))]) k _ _)); [vm_compute; discriminate|reflexivity].
Defined.
